(** * trust-model: the reference evaluator of [trust_spec/_reference_model.py]

    A shallow embedding of the event-application engine ([apply_event]), the
    two total evaluators ([evaluate_trust], [evaluate_respect]) and the S-User
    view layer ([suser_view], [evaluate_trust_view]), with the report index
    ([Report.evidence_index]) and the query surface ([query_decision]), and the
    properties the specification states about them.

    Modelling conventions.
    - A Python value is a [value]: [None], booleans, integers, strings, lists
      and string-keyed dictionaries.  Floats, tuples, sets and user objects do
      not occur in the model; integers are unbounded and recursion depth is
      not limited (the interpreter's digit and recursion limits are left out).
    - A string is a [string] whose characters stand for the code points 0..255.
    - A raising call returns [Raise e]; [e] names the exception class only.
    - Event dictionaries are objects of a heap: [State] collections hold
      references, so that the aliasing between [event_log] and the indices
      ([delegations], [consents], [boundaries], ...) is the source's. *)

From Stdlib Require Import ZArith List String Ascii Bool Lia.
From Stdlib Require Import DecimalString Permutation.
Import ListNotations.
Open Scope string_scope.
Open Scope list_scope.
Open Scope Z_scope.

Set Implicit Arguments.
Set Warnings "-register-all".

(** ** Exceptions and the result monad *)

Inductive exn : Type :=
| KeyError
| TypeError
| ValueError
| AttributeError
| OverflowError.

Inductive result (A : Type) : Type :=
| Ok (a : A)
| Raise (e : exn).

Arguments Ok {A} a.
Arguments Raise {A} e.

Definition rbind {A B : Type} (m : result A) (f : A -> result B) : result B :=
  match m with
  | Ok a => f a
  | Raise e => Raise e
  end.

Declare Scope result_scope.
Delimit Scope result_scope with result.
Notation "x <- m ;; k" := (rbind m (fun x => k))
  (at level 61, m at next level, right associativity) : result_scope.
Notation "' pat <- m ;; k" :=
  (rbind m (fun x => match x with pat => k end))
  (at level 61, pat pattern, m at next level, right associativity)
  : result_scope.
Notation "m ;;; k" := (rbind m (fun _ => k))
  (at level 61, right associativity) : result_scope.
Open Scope result_scope.

Definition is_ok {A : Type} (m : result A) : bool :=
  match m with Ok _ => true | Raise _ => false end.

(** [for x in xs: body] threading a state and stopping at the first raise. *)
Fixpoint rfold {A S : Type} (f : S -> A -> result S) (s : S) (xs : list A)
  : result S :=
  match xs with
  | [] => Ok s
  | x :: xs' => s' <- f s x ;; rfold f s' xs'
  end.

(** ** Python values *)

Module Py.

Inductive value : Type :=
| VNone
| VBool (b : bool)
| VInt (z : Z)
| VStr (s : string)
| VList (l : list value)
| VDict (d : list (string * value)).

(** A [dict] with string keys, in insertion order. *)
Definition dict : Type := list (string * value).

(** *** Association lists with string keys *)

Section Assoc.
Variable A : Type.

Fixpoint assoc_get (d : list (string * A)) (k : string) : option A :=
  match d with
  | [] => None
  | (k', v) :: d' => if String.eqb k k' then Some v else assoc_get d' k
  end.

(** [d[k] = v]: an existing key keeps its place, a new key goes last. *)
Fixpoint assoc_set (d : list (string * A)) (k : string) (v : A)
  : list (string * A) :=
  match d with
  | [] => [(k, v)]
  | (k', v') :: d' =>
      if String.eqb k k' then (k', v) :: d' else (k', v') :: assoc_set d' k v
  end.

(** [d.pop(k, None)]. *)
Definition assoc_pop (d : list (string * A)) (k : string) : list (string * A) :=
  filter (fun kv => negb (String.eqb k (fst kv))) d.

Definition assoc_mem (d : list (string * A)) (k : string) : bool :=
  match assoc_get d k with Some _ => true | None => false end.
End Assoc.

(** [d.get(k)]: [None] when the key is absent. *)
Definition get (d : dict) (k : string) : value :=
  match assoc_get d k with Some v => v | None => VNone end.

(** [d.get(k, default)]. *)
Definition get_default (d : dict) (k : string) (default : value) : value :=
  match assoc_get d k with Some v => v | None => default end.

(** [d[k]]. *)
Definition getitem (d : dict) (k : string) : result value :=
  match assoc_get d k with Some v => Ok v | None => Raise KeyError end.

Definition setitem (d : dict) (k : string) (v : value) : dict := assoc_set d k v.
Definition pop (d : dict) (k : string) : dict := assoc_pop d k.

(** [target.update(source)]. *)
Definition update (target source : dict) : dict :=
  fold_left (fun t kv => setitem t (fst kv) (snd kv)) source target.

(** *** Truth, identity and equality *)

Definition truthy (v : value) : bool :=
  match v with
  | VNone => false
  | VBool b => b
  | VInt z => negb (z =? 0)
  | VStr s => negb (String.eqb s "")
  | VList l => match l with [] => false | _ => true end
  | VDict d => match d with [] => false | _ => true end
  end.

Definition is_none (v : value) : bool :=
  match v with VNone => true | _ => false end.

(** [v is False], [v is True]: the singletons, not the integers 0 and 1. *)
Definition is_False (v : value) : bool :=
  match v with VBool false => true | _ => false end.

Definition is_True (v : value) : bool :=
  match v with VBool true => true | _ => false end.

(** [a or b], [a and b] on values. *)
Definition por (a b : value) : value := if truthy a then a else b.

Definition Z_of_bool (b : bool) : Z := if b then 1 else 0.

(** [a == b].  [bool] is a subclass of [int]: [True == 1]. *)
Fixpoint py_eq (a b : value) {struct a} : bool :=
  match a, b with
  | VNone, VNone => true
  | VBool x, VBool y => Bool.eqb x y
  | VBool x, VInt y => Z_of_bool x =? y
  | VInt x, VBool y => x =? Z_of_bool y
  | VInt x, VInt y => x =? y
  | VStr s, VStr t => String.eqb s t
  | VList l, VList m =>
      (fix go (l m : list value) {struct l} : bool :=
         match l, m with
         | [], [] => true
         | x :: l', y :: m' => py_eq x y && go l' m'
         | _, _ => false
         end) l m
  | VDict d, VDict e =>
      Nat.eqb (List.length d) (List.length e) &&
      (fix go (d : list (string * value)) {struct d} : bool :=
         match d with
         | [] => true
         | (k, v) :: d' =>
             match assoc_get e k with
             | Some w => py_eq v w
             | None => false
             end && go d'
         end) d
  | _, _ => false
  end.

(** Values with a hash: everything but lists and dictionaries. *)
Definition hashable (v : value) : bool :=
  match v with
  | VList _ | VDict _ => false
  | _ => true
  end.

Definition isinstance_str (v : value) : bool :=
  match v with VStr _ => true | _ => false end.

Definition isinstance_list (v : value) : bool :=
  match v with VList _ => true | _ => false end.

(** [isinstance(v, (list, dict))]. *)
Definition isinstance_list_or_dict (v : value) : bool :=
  match v with VList _ | VDict _ => true | _ => false end.

(** *** Ordering *)

Fixpoint string_compare (s t : string) : comparison :=
  match s, t with
  | EmptyString, EmptyString => Eq
  | EmptyString, String _ _ => Lt
  | String _ _, EmptyString => Gt
  | String a s', String b t' =>
      match N.compare (N_of_ascii a) (N_of_ascii b) with
      | Eq => string_compare s' t'
      | c => c
      end
  end.

(** The rich comparisons on the values that have them: numbers with
    numbers, strings with strings, lists with lists (at the first pair of
    unequal items); every other pairing is a [TypeError]. *)
Fixpoint py_compare (a b : value) {struct a} : result comparison :=
  match a, b with
  | VBool x, VBool y => Ok (Z.compare (Z_of_bool x) (Z_of_bool y))
  | VBool x, VInt y => Ok (Z.compare (Z_of_bool x) y)
  | VInt x, VBool y => Ok (Z.compare x (Z_of_bool y))
  | VInt x, VInt y => Ok (Z.compare x y)
  | VStr s, VStr t => Ok (string_compare s t)
  | VList l, VList m =>
      (fix go (l m : list value) {struct l} : result comparison :=
         match l, m with
         | [], [] => Ok Eq
         | [], _ :: _ => Ok Lt
         | _ :: _, [] => Ok Gt
         | x :: l', y :: m' =>
             if py_eq x y then go l' m' else py_compare x y
         end) l m
  | _, _ => Raise TypeError
  end.

(** [a < b], [a > b], [a >= b]. *)
Definition py_lt (a b : value) : result bool :=
  c <- py_compare a b ;; Ok match c with Lt => true | _ => false end.

Definition py_gt (a b : value) : result bool :=
  c <- py_compare a b ;; Ok match c with Gt => true | _ => false end.

Definition py_ge (a b : value) : result bool :=
  c <- py_compare a b ;; Ok match c with Lt => false | _ => true end.

(** *** Numbers *)

Definition is_space (c : ascii) : bool :=
  let n := N_of_ascii c in
  ((9 <=? n) && (n <=? 13) || (28 <=? n) && (n <=? 32)
   || (n =? 133) || (n =? 160))%N.

Fixpoint lstrip (s : string) : string :=
  match s with
  | String c s' => if is_space c then lstrip s' else s
  | EmptyString => s
  end.

Fixpoint string_rev_onto (s acc : string) : string :=
  match s with
  | EmptyString => acc
  | String c s' => string_rev_onto s' (String c acc)
  end.

Definition string_rev (s : string) : string := string_rev_onto s EmptyString.

Definition strip (s : string) : string :=
  string_rev (lstrip (string_rev (lstrip s))).

Definition digit_of (c : ascii) : option Z :=
  let n := N_of_ascii c in
  if ((48 <=? n) && (n <=? 57))%N then Some (Z.of_N n - 48) else None.

(** Decimal digits, single underscores allowed between two digits.
    [after_digit] tells whether the previous character was a digit. *)
Fixpoint parse_digits (s : string) (after_digit : bool) (acc : Z) : option Z :=
  match s with
  | EmptyString => if after_digit then Some acc else None
  | String c s' =>
      match digit_of c with
      | Some d => parse_digits s' true (10 * acc + d)
      | None =>
          if (N_of_ascii c =? 95)%N && after_digit
          then match s' with
               | String c' _ =>
                   match digit_of c' with
                   | Some _ => parse_digits s' false acc
                   | None => None
                   end
               | EmptyString => None
               end
          else None
      end
  end.

(** [int(s)] for a string, base 10. *)
Definition int_of_string (s : string) : option Z :=
  match strip s with
  | String "-" s' => option_map Z.opp (parse_digits s' false 0)
  | String "+" s' => parse_digits s' false 0
  | s' => parse_digits s' false 0
  end.

(** *** The limit on integer conversion

    CPython converts between [int] and [str] up to 4300 decimal digits
    ([sys.int_info.default_max_str_digits]) and raises [ValueError] past
    them: [int(s)] counts the digit characters of [s], leading zeros
    included and sign, underscores and blanks excluded; [str], [repr], an
    f-string field and [json.dumps] refuse an integer of more than 4300
    digits. *)
Definition int_max_str_digits : Z := 4300.

Fixpoint digits_in (s : string) : Z :=
  match s with
  | EmptyString => 0
  | String c s' =>
      (match digit_of c with Some _ => 1 | None => 0 end) + digits_in s'
  end.

(** The integers that [str] renders. *)
Definition printable_int (z : Z) : bool :=
  Z.abs z <? 10 ^ int_max_str_digits.

(** The values that [str], [repr] and [json.dumps] render: every integer
    they hold is within the limit. *)
Fixpoint printable (v : value) : bool :=
  match v with
  | VInt z => printable_int z
  | VList l => forallb printable l
  | VDict d => forallb (fun kv => printable (snd kv)) d
  | _ => true
  end.

(** [int(v)]. *)
Definition py_int (v : value) : result Z :=
  match v with
  | VInt z => Ok z
  | VBool b => Ok (Z_of_bool b)
  | VStr s =>
      match int_of_string s with
      | Some z =>
          if int_max_str_digits <? digits_in s then Raise ValueError else Ok z
      | None => Raise ValueError
      end
  | _ => Raise TypeError
  end.

(** [n + v] for an integer [n]. *)
Definition int_add (n : Z) (v : value) : result value :=
  match v with
  | VInt z => Ok (VInt (n + z))
  | VBool b => Ok (VInt (n + Z_of_bool b))
  | _ => Raise TypeError
  end.

(** *** Containers *)

Definition char_str (c : ascii) : string := String c EmptyString.

Fixpoint chars (s : string) : list value :=
  match s with
  | EmptyString => []
  | String c s' => VStr (char_str c) :: chars s'
  end.

Definition keys (d : dict) : list value := map (fun kv => VStr (fst kv)) d.

(** [len(v)]. *)
Definition py_len (v : value) : result Z :=
  match v with
  | VStr s => Ok (Z.of_nat (String.length s))
  | VList l => Ok (Z.of_nat (List.length l))
  | VDict d => Ok (Z.of_nat (List.length d))
  | _ => Raise TypeError
  end.

(** [iter(v)], run to the end: the items a [for] loop visits. *)
Definition py_iter (v : value) : result (list value) :=
  match v with
  | VStr s => Ok (chars s)
  | VList l => Ok l
  | VDict d => Ok (keys d)
  | _ => Raise TypeError
  end.

Fixpoint is_prefix (p s : string) : bool :=
  match p, s with
  | EmptyString, _ => true
  | String a p', String b s' => Ascii.eqb a b && is_prefix p' s'
  | String _ _, EmptyString => false
  end.

Fixpoint is_substring (p s : string) : bool :=
  is_prefix p s ||
  match s with
  | EmptyString => false
  | String _ s' => is_substring p s'
  end.

(** [x in c]. *)
Definition py_in (x c : value) : result bool :=
  match c with
  | VList l => Ok (existsb (py_eq x) l)
  | VStr s =>
      match x with
      | VStr p => Ok (is_substring p s)
      | _ => Raise TypeError
      end
  | VDict d =>
      if hashable x
      then Ok match x with VStr k => assoc_mem d k | _ => false end
      else Raise TypeError
  | _ => Raise TypeError
  end.

(** [x in {s1, s2, ...}] for a set display of strings. *)
Definition in_str_set (x : value) (s : list string) : result bool :=
  if hashable x
  then Ok match x with
          | VStr k => existsb (String.eqb k) s
          | _ => false
          end
  else Raise TypeError.

(** *** Maps and sets keyed by hashable values

    The indices of [State] are keyed by whatever hashable value the event
    carried as its id; a lookup with an unhashable key is a [TypeError]. *)

Section VMap.
Variable A : Type.

Definition vmap : Type := list (value * A).

Fixpoint vmap_find (m : vmap) (k : value) : option A :=
  match m with
  | [] => None
  | (k', v) :: m' => if py_eq k k' then Some v else vmap_find m' k
  end.

Fixpoint vmap_put (m : vmap) (k : value) (v : A) : vmap :=
  match m with
  | [] => [(k, v)]
  | (k', v') :: m' =>
      if py_eq k k' then (k', v) :: m' else (k', v') :: vmap_put m' k v
  end.

(** [m.get(k)]. *)
Definition vmap_get (m : vmap) (k : value) : result (option A) :=
  if hashable k then Ok (vmap_find m k) else Raise TypeError.

(** [m[k] = v]. *)
Definition vmap_set (m : vmap) (k : value) (v : A) : result vmap :=
  if hashable k then Ok (vmap_put m k v) else Raise TypeError.

(** [m.values()]. *)
Definition vmap_values (m : vmap) : list A := map snd m.
End VMap.

Definition vset : Type := list value.

(** [s.add(v)]. *)
Definition vset_add (s : vset) (v : value) : result vset :=
  if hashable v
  then Ok (if existsb (py_eq v) s then s else s ++ [v])
  else Raise TypeError.

(** [set(items)]. *)
Definition vset_of (items : list value) : result vset :=
  rfold vset_add [] items.

(** [sorted(s)] of a set: insertion with the rich comparison, so that a
    set mixing strings with numbers (or holding [None] beside anything)
    is a [TypeError]. *)
Fixpoint sorted_insert (x : value) (l : list value) : result (list value) :=
  match l with
  | [] => Ok [x]
  | y :: l' =>
      b <- py_lt x y ;;
      if b then Ok (x :: l) else (r <- sorted_insert x l' ;; Ok (y :: r))
  end.

Definition py_sorted (s : vset) : result (list value) :=
  rfold (fun acc x => sorted_insert x acc) [] s.

(** *** [str] and [repr] *)

(** The decimal rendering of an integer.  It is the [str] of CPython on
    the [printable_int] integers; past the limit CPython raises
    [ValueError] where this function, and with it [py_repr], [py_str] and
    [json_dumps], still gives the digits.  The statements that promise a
    rendering carry [printable] as a hypothesis. *)
Definition string_of_Z (z : Z) : string := NilZero.string_of_int (Z.to_int z).

Definition hex_digit (n : N) : ascii :=
  ascii_of_N (if (n <? 10)%N then 48 + n else 87 + n).

Definition hex2 (n : N) : string :=
  String (hex_digit (n / 16)) (String (hex_digit (n mod 16)) EmptyString).

Fixpoint string_mem (c : ascii) (s : string) : bool :=
  match s with
  | EmptyString => false
  | String a s' => Ascii.eqb a c || string_mem c s'
  end.

Definition dquote : ascii := ascii_of_N 34.

(** [repr] of one character inside quotes [q]. *)
Definition repr_char (q : ascii) (c : ascii) : string :=
  let n := N_of_ascii c in
  if Ascii.eqb c "\" then "\\"
  else if Ascii.eqb c q then String "\" (char_str c)
  else if (n =? 9)%N then "\t"
  else if (n =? 10)%N then "\n"
  else if (n =? 13)%N then "\r"
  else if ((n <? 32) || (127 <=? n) && (n <=? 160) || (n =? 173))%N
       then ("\x" ++ hex2 n)%string
  else char_str c.

Fixpoint string_concat_map (f : ascii -> string) (s : string) : string :=
  match s with
  | EmptyString => EmptyString
  | String c s' => (f c ++ string_concat_map f s')%string
  end.

Definition repr_str (s : string) : string :=
  let q : ascii :=
    if string_mem "'" s && negb (string_mem dquote s) then dquote else "'"%char in
  (char_str q ++ string_concat_map (repr_char q) s ++ char_str q)%string.

Fixpoint join (sep : string) (l : list string) : string :=
  match l with
  | [] => EmptyString
  | [x] => x
  | x :: l' => (x ++ sep ++ join sep l')%string
  end.

Fixpoint py_repr (v : value) : string :=
  match v with
  | VNone => "None"
  | VBool true => "True"
  | VBool false => "False"
  | VInt z => string_of_Z z
  | VStr s => repr_str s
  | VList l => ("[" ++ join ", " (map py_repr l) ++ "]")%string
  | VDict d =>
      ("{" ++ join ", "
         (map (fun kv => (repr_str (fst kv) ++ ": " ++ py_repr (snd kv))%string) d)
       ++ "}")%string
  end.

(** [str(v)], which is what an f-string field [{v}] renders. *)
Definition py_str (v : value) : string :=
  match v with
  | VStr s => s
  | _ => py_repr v
  end.

End Py.

(** ** Library functions: [json.dumps], [hashlib.sha256], [datetime] *)

Module Lib.
Import Py.

(** *** Canonical JSON

    [json.dumps(data, sort_keys=True, separators=(",", ":"), ensure_ascii=True)]. *)

Definition hex4 (n : N) : string :=
  (hex2 (n / 256) ++ hex2 (n mod 256))%string.

Definition json_char (c : ascii) : string :=
  let n := N_of_ascii c in
  if Ascii.eqb c dquote then String "\" (char_str dquote)
  else if Ascii.eqb c "\" then "\\"
  else if (n =? 8)%N then "\b"
  else if (n =? 9)%N then "\t"
  else if (n =? 10)%N then "\n"
  else if (n =? 12)%N then "\f"
  else if (n =? 13)%N then "\r"
  else if ((n <? 32) || (126 <? n))%N then ("\u" ++ hex4 n)%string
  else char_str c.

Definition json_string (s : string) : string :=
  (char_str dquote ++ string_concat_map json_char s ++ char_str dquote)%string.

Fixpoint insert_by_key (kv : string * string) (l : list (string * string))
  : list (string * string) :=
  match l with
  | [] => [kv]
  | kv' :: l' =>
      match string_compare (fst kv) (fst kv') with
      | Lt => kv :: l
      | _ => kv' :: insert_by_key kv l'
      end
  end.

Definition sort_by_key (l : list (string * string)) : list (string * string) :=
  fold_left (fun acc kv => insert_by_key kv acc) l [].

Fixpoint json_dumps (v : value) : string :=
  match v with
  | VNone => "null"
  | VBool true => "true"
  | VBool false => "false"
  | VInt z => string_of_Z z
  | VStr s => json_string s
  | VList l => ("[" ++ join "," (map json_dumps l) ++ "]")%string
  | VDict d =>
      ("{" ++ join ","
         (map (fun kv => (json_string (fst kv) ++ ":" ++ snd kv)%string)
            (sort_by_key (map (fun kv => (fst kv, json_dumps (snd kv))) d)))
       ++ "}")%string
  end.

(** *** SHA-256 (FIPS 180-4) on 32-bit words held in [Z] *)

Definition mask32 : Z := 0xffffffff.
Definition add32 (x y : Z) : Z := Z.land (x + y) mask32.
Definition rotr (n x : Z) : Z :=
  Z.land (Z.lor (Z.shiftr x n) (Z.shiftl x (32 - n))) mask32.
Definition not32 (x : Z) : Z := Z.lxor x mask32.

Definition Ch (x y z : Z) : Z := Z.lxor (Z.land x y) (Z.land (not32 x) z).
Definition Maj (x y z : Z) : Z :=
  Z.lxor (Z.lxor (Z.land x y) (Z.land x z)) (Z.land y z).
Definition bsig0 (x : Z) : Z := Z.lxor (Z.lxor (rotr 2 x) (rotr 13 x)) (rotr 22 x).
Definition bsig1 (x : Z) : Z := Z.lxor (Z.lxor (rotr 6 x) (rotr 11 x)) (rotr 25 x).
Definition ssig0 (x : Z) : Z := Z.lxor (Z.lxor (rotr 7 x) (rotr 18 x)) (Z.shiftr x 3).
Definition ssig1 (x : Z) : Z := Z.lxor (Z.lxor (rotr 17 x) (rotr 19 x)) (Z.shiftr x 10).

(** The constants, as the standard defines them: the first 32 bits of the
    fractional parts of the cube roots (round constants) and of the square
    roots (initial hash value) of the first primes. *)
Definition sha_primes : list Z :=
  [2; 3; 5; 7; 11; 13; 17; 19; 23; 29; 31; 37; 41; 43; 47; 53; 59; 61; 67;
   71; 73; 79; 83; 89; 97; 101; 103; 107; 109; 113; 127; 131; 137; 139; 149;
   151; 157; 163; 167; 173; 179; 181; 191; 193; 197; 199; 211; 223; 227;
   229; 233; 239; 241; 251; 257; 263; 269; 271; 277; 281; 283; 293; 307;
   311].

(** The integer cube root, one bit at a time from bit [bits - 1] down. *)
Fixpoint root3_bits (bits : nat) (n r : Z) : Z :=
  match bits with
  | O => r
  | S b =>
      let c := r + 2 ^ Z.of_nat b in
      if c * c * c <=? n then root3_bits b n c else root3_bits b n r
  end.

Definition root3 (n : Z) : Z := root3_bits 36 n 0.

Definition sha_K : list Z :=
  Eval vm_compute in
    map (fun p => root3 (p * 2 ^ 96) mod 2 ^ 32) sha_primes.

Definition sha_H0 : list Z :=
  Eval vm_compute in
    map (fun p => Z.sqrt (p * 2 ^ 64) mod 2 ^ 32) (firstn 8 sha_primes).

Fixpoint bytes_of_string (s : string) : list Z :=
  match s with
  | EmptyString => []
  | String c s' => Z.of_N (N_of_ascii c) :: bytes_of_string s'
  end.

(** The message followed by the bit 1, zeros up to 56 modulo 64, and the
    bit length on eight bytes. *)
Definition sha_pad (msg : list Z) : list Z :=
  let n := Z.of_nat (List.length msg) in
  let zeros := Z.to_nat ((55 - n) mod 64) in
  let bits := 8 * n in
  msg ++ [0x80] ++ repeat 0 zeros
      ++ map (fun i => Z.land (Z.shiftr bits (8 * i)) 0xff) [7; 6; 5; 4; 3; 2; 1; 0].

Fixpoint words_of_bytes (bs : list Z) : list Z :=
  match bs with
  | a :: b :: c :: d :: bs' =>
      (Z.shiftl a 24 + Z.shiftl b 16 + Z.shiftl c 8 + d) :: words_of_bytes bs'
  | _ => []
  end.

(** One round: [w] is the window of the last sixteen schedule words,
    oldest first; the round consumes its head and appends the next word. *)
Definition sha_round (st : list Z * list Z) (k : Z) : list Z * list Z :=
  match st with
  | ([a; b; c; d; e; f; g; h],
     (w0 :: w1 :: w2 :: w3 :: w4 :: w5 :: w6 :: w7 :: w8 :: w9 :: w10 :: w11
         :: w12 :: w13 :: w14 :: w15 :: nil) as w) =>
      let t1 := add32 (add32 (add32 (add32 h (bsig1 e)) (Ch e f g)) k) w0 in
      let t2 := add32 (bsig0 a) (Maj a b c) in
      let w16 := add32 (add32 (add32 (ssig1 w14) w9) (ssig0 w1)) w0 in
      ([add32 t1 t2; a; b; c; add32 d t1; e; f; g], tl w ++ [w16])
  | _ => st
  end.

Definition sha_block (h : list Z) (block : list Z) : list Z :=
  let '(h', _) := fold_left sha_round sha_K (h, block) in
  map (fun p => add32 (fst p) (snd p)) (combine h h').

Fixpoint sha_blocks (fuel : nat) (h : list Z) (ws : list Z) : list Z :=
  match fuel with
  | O => h
  | S fuel' =>
      match ws with
      | [] => h
      | _ => sha_blocks fuel' (sha_block h (firstn 16 ws)) (skipn 16 ws)
      end
  end.

Definition hex8 (w : Z) : string :=
  let n := Z.to_N w in
  (hex2 (n / 16777216) ++ hex2 ((n / 65536) mod 256)
   ++ hex2 ((n / 256) mod 256) ++ hex2 (n mod 256))%string.

(** [hashlib.sha256(s.encode("utf-8")).hexdigest()] for an ASCII [s]. *)
Definition sha256_hexdigest (s : string) : string :=
  let ws := words_of_bytes (sha_pad (bytes_of_string s)) in
  String.concat "" (map hex8 (sha_blocks (List.length ws) sha_H0 ws)).

(** *** Calendar time

    A [datetime] in UTC, held as the seconds since 1970-01-01T00:00:00. *)

Definition days_from_civil (y m d : Z) : Z :=
  let y' := if m <=? 2 then y - 1 else y in
  let era := y' / 400 in
  let yoe := y' - era * 400 in
  let doy := (153 * (if 2 <? m then m - 3 else m + 9) + 2) / 5 + d - 1 in
  let doe := yoe * 365 + yoe / 4 - yoe / 100 + doy in
  era * 146097 + doe - 719468.

Definition civil_from_days (z : Z) : Z * Z * Z :=
  let z' := z + 719468 in
  let era := z' / 146097 in
  let doe := z' - era * 146097 in
  let yoe := (doe - doe / 1460 + doe / 36524 - doe / 146096) / 365 in
  let doy := doe - (365 * yoe + yoe / 4 - yoe / 100) in
  let mp := (5 * doy + 2) / 153 in
  let d := doy - (153 * mp + 2) / 5 + 1 in
  let m := if mp <? 10 then mp + 3 else mp - 9 in
  ((if m <=? 2 then yoe + era * 400 + 1 else yoe + era * 400), m, d).

Definition is_leap (y : Z) : bool :=
  ((y mod 4 =? 0) && negb (y mod 100 =? 0)) || (y mod 400 =? 0).

Definition days_in_month (y m : Z) : Z :=
  if m =? 2 then (if is_leap y then 29 else 28)
  else if (m =? 4) || (m =? 6) || (m =? 9) || (m =? 11) then 30
  else 31.

Fixpoint all_digits (s : string) : bool :=
  match s with
  | EmptyString => true
  | String c s' =>
      match digit_of c with Some _ => all_digits s' | None => false end
  end.

(** A field of exactly [n] decimal digits. *)
Definition field (s : string) (start n : nat) : option Z :=
  let f := substring start n s in
  if Nat.eqb (String.length f) n && all_digits f
  then parse_digits f false 0
  else None.

Definition ends_with (s suffix : string) : bool :=
  let n := String.length s in
  let k := String.length suffix in
  Nat.leb k n && String.eqb (substring (n - k) k s) suffix.

(** [_parse_rfc3339]: the rendering [YYYY-MM-DDTHH:MM:SS] followed by [Z]
    or [+00:00], which is the shape of every base time the engine itself
    writes.  [datetime.fromisoformat] reads further ISO-8601 renderings;
    they are not modelled and parse to [ValueError] here. *)
Definition _parse_rfc3339 (value : string) : result Z :=
  let value :=
    if ends_with value "Z"
    then (substring 0 (String.length value - 1) value ++ "+00:00")%string
    else value in
  match
    field value 0 4, field value 5 2, field value 8 2,
    field value 11 2, field value 14 2, field value 17 2
  with
  | Some y, Some m, Some d, Some hh, Some mm, Some ss =>
      if Nat.eqb (String.length value) 25
         && String.eqb (substring 4 1 value) "-"
         && String.eqb (substring 7 1 value) "-"
         && String.eqb (substring 10 1 value) "T"
         && String.eqb (substring 13 1 value) ":"
         && String.eqb (substring 16 1 value) ":"
         && String.eqb (substring 19 6 value) "+00:00"
         && (1 <=? y) && (1 <=? m) && (m <=? 12)
         && (1 <=? d) && (d <=? days_in_month y m)
         && (hh <? 24) && (mm <? 60) && (ss <? 60)
      then Ok (days_from_civil y m d * 86400 + hh * 3600 + mm * 60 + ss)
      else Raise ValueError
  | _, _, _, _, _, _ => Raise ValueError
  end.

Definition pad (width : nat) (z : Z) : string :=
  let s := string_of_Z z in
  (String.concat "" (repeat "0" (width - String.length s)) ++ s)%string.

(** [timestamp.isoformat(timespec="seconds").replace("+00:00", "Z")]. *)
Definition isoformat_Z (secs : Z) : string :=
  let days := secs / 86400 in
  let rem := secs mod 86400 in
  let '(y, m, d) := civil_from_days days in
  (pad 4 y ++ "-" ++ pad 2 m ++ "-" ++ pad 2 d ++ "T"
   ++ pad 2 (rem / 3600) ++ ":" ++ pad 2 ((rem / 60) mod 60) ++ ":"
   ++ pad 2 (rem mod 60) ++ "Z")%string.

(** [base + timedelta(seconds=event_time)]: [OverflowError] when the
    delta has more than 999999999 days or the sum leaves the years 1..9999. *)
Definition add_seconds (base event_time : Z) : result Z :=
  if 999999999 <? Z.abs (event_time / 86400) then Raise OverflowError
  else
    let t := base + event_time in
    let '(y, _, _) := civil_from_days (t / 86400) in
    if (1 <=? y) && (y <=? 9999) then Ok t else Raise OverflowError.

End Lib.

(** ** Violation labels ([trust_spec/violations.py]) *)

Module TRUST_VIOLATION.
Definition SUSER_UNIDENTIFIED := "TRUST_VIOLATION.SUSER_UNIDENTIFIED".
Definition SOVEREIGNTY_ASSUMED := "TRUST_VIOLATION.SOVEREIGNTY_ASSUMED".
Definition AUTHORITY_UNTRACEABLE := "TRUST_VIOLATION.AUTHORITY_UNTRACEABLE".
Definition DELEGATION_INVALID := "TRUST_VIOLATION.DELEGATION_INVALID".
Definition SOVEREIGNTY_DISPLACED := "TRUST_VIOLATION.SOVEREIGNTY_DISPLACED".
Definition AUTONOMY_OVERREACH := "TRUST_VIOLATION.AUTONOMY_OVERREACH".
Definition ACCOUNTABILITY_BREAK := "TRUST_VIOLATION.ACCOUNTABILITY_BREAK".
Definition DIRECTIONALITY_BREACH := "TRUST_VIOLATION.DIRECTIONALITY_BREACH".
Definition ORDERING_INVERTED := "TRUST_VIOLATION.ORDERING_INVERTED".
End TRUST_VIOLATION.

Module CONSENT_VIOLATION.
Definition IMPLICIT_DELEGATION := "CONSENT_VIOLATION.IMPLICIT_DELEGATION".
Definition INVALID_CONSENT := "CONSENT_VIOLATION.INVALID_CONSENT".
Definition COERCED_OR_OPAQUE := "CONSENT_VIOLATION.COERCED_OR_OPAQUE".
End CONSENT_VIOLATION.

Module TELEMETRY_VIOLATION.
Definition PRESCRIPTIVE_USE := "TELEMETRY_VIOLATION.PRESCRIPTIVE_USE".
Definition OPAQUE_INFLUENCE := "TELEMETRY_VIOLATION.OPAQUE_INFLUENCE".
End TELEMETRY_VIOLATION.

Module SERVICE_VIOLATION.
Definition SOVEREIGN_SUBSTITUTION := "SERVICE_VIOLATION.SOVEREIGN_SUBSTITUTION".
End SERVICE_VIOLATION.

Module ACCOUNTABILITY_VIOLATION.
Definition ILLEGIBLE_REPORTING := "ACCOUNTABILITY_VIOLATION.ILLEGIBLE_REPORTING".
Definition NON_LEGIBLE_EXPLANATION := "ACCOUNTABILITY_VIOLATION.NON_LEGIBLE_EXPLANATION".
Definition NON_ACCOUNTABLE_OUTCOME := "ACCOUNTABILITY_VIOLATION.NON_ACCOUNTABLE_OUTCOME".
Definition MISSING_REPORTING := "ACCOUNTABILITY_VIOLATION.MISSING_REPORTING".
Definition DIAGNOSTIC_GAP := "ACCOUNTABILITY_VIOLATION.DIAGNOSTIC_GAP".
Definition NON_ACTIONABLE_DISCLOSURE := "ACCOUNTABILITY_VIOLATION.NON_ACTIONABLE_DISCLOSURE".
Definition LIMITS_UNDISCLOSED := "ACCOUNTABILITY_VIOLATION.LIMITS_UNDISCLOSED".
End ACCOUNTABILITY_VIOLATION.

Module STRUCTURAL_VIOLATION.
Definition INVALID_STATE := "STRUCTURAL_VIOLATION.INVALID_STATE".
Definition JUSTIFIED_INVALIDITY := "STRUCTURAL_VIOLATION.JUSTIFIED_INVALIDITY".
End STRUCTURAL_VIOLATION.

Module RESPECT_VIOLATION.
Definition UNILATERAL_IMPACT := "RESPECT_VIOLATION.UNILATERAL_IMPACT".
Definition BOUNDARY_IGNORED := "RESPECT_VIOLATION.BOUNDARY_IGNORED".
Definition CONTEXT_LEAK := "RESPECT_VIOLATION.CONTEXT_LEAK".
Definition NON_INTERFERENCE_BREACH := "RESPECT_VIOLATION.NON_INTERFERENCE_BREACH".
Definition MUTUAL_CONSENT_MISSING := "RESPECT_VIOLATION.MUTUAL_CONSENT_MISSING".
Definition UNILATERAL_CONSENT_BASIS := "RESPECT_VIOLATION.UNILATERAL_CONSENT_BASIS".
Definition COERCIVE_DEFAULT := "RESPECT_VIOLATION.COERCIVE_DEFAULT".
Definition PRINCIPLE_BREACH := "RESPECT_VIOLATION.PRINCIPLE_BREACH".
Definition IMPLICIT_BOUNDARIES := "RESPECT_VIOLATION.IMPLICIT_BOUNDARIES".
Definition OPAQUE_ENFORCEMENT := "RESPECT_VIOLATION.OPAQUE_ENFORCEMENT".
Definition DIAGNOSTIC_GAP := "RESPECT_VIOLATION.DIAGNOSTIC_GAP".
End RESPECT_VIOLATION.

Module GOVERNANCE_VIOLATION.
Definition INTERFACE_GAP := "GOVERNANCE_VIOLATION.INTERFACE_GAP".
Definition MISSING_ENTRY_CONDITIONS := "GOVERNANCE_VIOLATION.MISSING_ENTRY_CONDITIONS".
Definition REVOCATION_DEFECT := "GOVERNANCE_VIOLATION.REVOCATION_DEFECT".
Definition FEDERATED_GAP := "GOVERNANCE_VIOLATION.FEDERATED_GAP".
Definition FAILURE_MODE_IGNORED := "GOVERNANCE_VIOLATION.FAILURE_MODE_IGNORED".
End GOVERNANCE_VIOLATION.

Module EVALUATION_VIOLATION.
Definition UNDETERMINABLE_PASS := "EVALUATION_VIOLATION.UNDETERMINABLE_PASS".
Definition REDUCTIONISM := "EVALUATION_VIOLATION.REDUCTIONISM".
End EVALUATION_VIOLATION.

Module AUDIT_VIOLATION.
Definition TRUST_MINIMUM_MISSING := "AUDIT_VIOLATION.TRUST_MINIMUM_MISSING".
Definition RESPECT_MINIMUM_MISSING := "AUDIT_VIOLATION.RESPECT_MINIMUM_MISSING".
End AUDIT_VIOLATION.

Module ENFORCEMENT_VIOLATION.
Definition SOVEREIGNTY_INCOMPATIBLE := "ENFORCEMENT_VIOLATION.SOVEREIGNTY_INCOMPATIBLE".
Definition NO_ATTRIBUTION := "ENFORCEMENT_VIOLATION.NO_ATTRIBUTION".
End ENFORCEMENT_VIOLATION.

(** ** The reference model *)

Module Model.
Import Py Lib.

(** *** Reports *)

Record ViolationRecord : Type := mkViolation {
  label : string;
  evidence_ids : list string;
  details : string
}.

(** [report.debug]: the logs handed back for inspection and, when the
    safety net fired, the class of the exception it caught. *)
Record Debug : Type := mkDebug {
  debug_events : list dict;
  debug_receipts : list dict;
  evaluator_error : option exn
}.

Record Report : Type := mkReport {
  kind : string;
  violations : list ViolationRecord;
  debug : Debug;
  score : value
}.

Definition new_report (kind : string) : Report :=
  mkReport kind [] (mkDebug [] [] None) VNone.

(** [Report.add_violation]. *)
Definition add_violation (report : Report) (label : string)
    (evidence_ids : list string) : Report :=
  mkReport (kind report)
    (violations report ++ [mkViolation label evidence_ids ""])
    (debug report) (score report).

(** [Report.labels]. *)
Definition labels (report : Report) : list string :=
  map label (violations report).

(** [Report.evidence_index]: the evidence ids of the report by label, a
    label at the place of its first violation. *)
Definition evidence_index (report : Report) : list (string * list string) :=
  fold_left
    (fun index violation =>
       let ids :=
         match assoc_get index (label violation) with
         | Some ids => ids
         | None => []
         end in
       assoc_set index (label violation) (ids ++ evidence_ids violation))
    (violations report) [].

(** *** State

    [heap] holds the event dictionaries the state owns; a [ref] is a
    position in it.  The collections hold references, never copies: the
    object a delegation event lives in is the one [event_log] lists. *)

Definition ref : Type := nat.

Record State : Type := mkState {
  heap : list dict;
  susers : vset;
  services : vset;
  telemetry_sources : vset;
  delegations : vmap ref;
  consents : vmap ref;
  telemetry : vmap ref;
  decisions : list ref;
  boundaries : vmap ref;
  entry_conditions : vmap ref;
  shared_actions : list ref;
  defaults : list ref;
  enforcement : list ref;
  audits : vmap ref;
  disclosures : list ref;
  limitation_disclosures : list ref;
  event_log : list ref;
  receipt_log : list dict;
  next_receipt_id : Z;
  clock : Z;
  telemetry_exposure : vmap Z;
  base_time_utc : string;
  event_hash_prev : option string;
  receipt_hash_prev : option string
}.

(** [State()]. *)
Definition _DEFAULT_BASE_TIME_UTC : string := "2026-01-01T00:00:00Z".

Definition State_init : State :=
  mkState [] [] [] [] [] [] [] [] [] [] [] [] [] [] [] [] [] []
    1 0 [] _DEFAULT_BASE_TIME_UTC None None.

(** Field assignment, one function per field the engine writes. *)

Definition with_heap (s : State) (v : list dict) : State :=
  mkState v (susers s) (services s) (telemetry_sources s) (delegations s)
    (consents s) (telemetry s) (decisions s) (boundaries s)
    (entry_conditions s) (shared_actions s) (defaults s) (enforcement s)
    (audits s) (disclosures s) (limitation_disclosures s) (event_log s)
    (receipt_log s) (next_receipt_id s) (clock s) (telemetry_exposure s)
    (base_time_utc s) (event_hash_prev s) (receipt_hash_prev s).

Definition with_susers (s : State) (v : vset) : State :=
  mkState (heap s) v (services s) (telemetry_sources s) (delegations s)
    (consents s) (telemetry s) (decisions s) (boundaries s)
    (entry_conditions s) (shared_actions s) (defaults s) (enforcement s)
    (audits s) (disclosures s) (limitation_disclosures s) (event_log s)
    (receipt_log s) (next_receipt_id s) (clock s) (telemetry_exposure s)
    (base_time_utc s) (event_hash_prev s) (receipt_hash_prev s).

Definition with_services (s : State) (v : vset) : State :=
  mkState (heap s) (susers s) v (telemetry_sources s) (delegations s)
    (consents s) (telemetry s) (decisions s) (boundaries s)
    (entry_conditions s) (shared_actions s) (defaults s) (enforcement s)
    (audits s) (disclosures s) (limitation_disclosures s) (event_log s)
    (receipt_log s) (next_receipt_id s) (clock s) (telemetry_exposure s)
    (base_time_utc s) (event_hash_prev s) (receipt_hash_prev s).

Definition with_telemetry_sources (s : State) (v : vset) : State :=
  mkState (heap s) (susers s) (services s) v (delegations s) (consents s)
    (telemetry s) (decisions s) (boundaries s) (entry_conditions s)
    (shared_actions s) (defaults s) (enforcement s) (audits s) (disclosures
    s) (limitation_disclosures s) (event_log s) (receipt_log s)
    (next_receipt_id s) (clock s) (telemetry_exposure s) (base_time_utc s)
    (event_hash_prev s) (receipt_hash_prev s).

Definition with_delegations (s : State) (v : vmap ref) : State :=
  mkState (heap s) (susers s) (services s) (telemetry_sources s) v (consents
    s) (telemetry s) (decisions s) (boundaries s) (entry_conditions s)
    (shared_actions s) (defaults s) (enforcement s) (audits s) (disclosures
    s) (limitation_disclosures s) (event_log s) (receipt_log s)
    (next_receipt_id s) (clock s) (telemetry_exposure s) (base_time_utc s)
    (event_hash_prev s) (receipt_hash_prev s).

Definition with_consents (s : State) (v : vmap ref) : State :=
  mkState (heap s) (susers s) (services s) (telemetry_sources s)
    (delegations s) v (telemetry s) (decisions s) (boundaries s)
    (entry_conditions s) (shared_actions s) (defaults s) (enforcement s)
    (audits s) (disclosures s) (limitation_disclosures s) (event_log s)
    (receipt_log s) (next_receipt_id s) (clock s) (telemetry_exposure s)
    (base_time_utc s) (event_hash_prev s) (receipt_hash_prev s).

Definition with_telemetry (s : State) (v : vmap ref) : State :=
  mkState (heap s) (susers s) (services s) (telemetry_sources s)
    (delegations s) (consents s) v (decisions s) (boundaries s)
    (entry_conditions s) (shared_actions s) (defaults s) (enforcement s)
    (audits s) (disclosures s) (limitation_disclosures s) (event_log s)
    (receipt_log s) (next_receipt_id s) (clock s) (telemetry_exposure s)
    (base_time_utc s) (event_hash_prev s) (receipt_hash_prev s).

Definition with_decisions (s : State) (v : list ref) : State :=
  mkState (heap s) (susers s) (services s) (telemetry_sources s)
    (delegations s) (consents s) (telemetry s) v (boundaries s)
    (entry_conditions s) (shared_actions s) (defaults s) (enforcement s)
    (audits s) (disclosures s) (limitation_disclosures s) (event_log s)
    (receipt_log s) (next_receipt_id s) (clock s) (telemetry_exposure s)
    (base_time_utc s) (event_hash_prev s) (receipt_hash_prev s).

Definition with_boundaries (s : State) (v : vmap ref) : State :=
  mkState (heap s) (susers s) (services s) (telemetry_sources s)
    (delegations s) (consents s) (telemetry s) (decisions s) v
    (entry_conditions s) (shared_actions s) (defaults s) (enforcement s)
    (audits s) (disclosures s) (limitation_disclosures s) (event_log s)
    (receipt_log s) (next_receipt_id s) (clock s) (telemetry_exposure s)
    (base_time_utc s) (event_hash_prev s) (receipt_hash_prev s).

Definition with_entry_conditions (s : State) (v : vmap ref) : State :=
  mkState (heap s) (susers s) (services s) (telemetry_sources s)
    (delegations s) (consents s) (telemetry s) (decisions s) (boundaries s)
    v (shared_actions s) (defaults s) (enforcement s) (audits s)
    (disclosures s) (limitation_disclosures s) (event_log s) (receipt_log s)
    (next_receipt_id s) (clock s) (telemetry_exposure s) (base_time_utc s)
    (event_hash_prev s) (receipt_hash_prev s).

Definition with_shared_actions (s : State) (v : list ref) : State :=
  mkState (heap s) (susers s) (services s) (telemetry_sources s)
    (delegations s) (consents s) (telemetry s) (decisions s) (boundaries s)
    (entry_conditions s) v (defaults s) (enforcement s) (audits s)
    (disclosures s) (limitation_disclosures s) (event_log s) (receipt_log s)
    (next_receipt_id s) (clock s) (telemetry_exposure s) (base_time_utc s)
    (event_hash_prev s) (receipt_hash_prev s).

Definition with_defaults (s : State) (v : list ref) : State :=
  mkState (heap s) (susers s) (services s) (telemetry_sources s)
    (delegations s) (consents s) (telemetry s) (decisions s) (boundaries s)
    (entry_conditions s) (shared_actions s) v (enforcement s) (audits s)
    (disclosures s) (limitation_disclosures s) (event_log s) (receipt_log s)
    (next_receipt_id s) (clock s) (telemetry_exposure s) (base_time_utc s)
    (event_hash_prev s) (receipt_hash_prev s).

Definition with_enforcement (s : State) (v : list ref) : State :=
  mkState (heap s) (susers s) (services s) (telemetry_sources s)
    (delegations s) (consents s) (telemetry s) (decisions s) (boundaries s)
    (entry_conditions s) (shared_actions s) (defaults s) v (audits s)
    (disclosures s) (limitation_disclosures s) (event_log s) (receipt_log s)
    (next_receipt_id s) (clock s) (telemetry_exposure s) (base_time_utc s)
    (event_hash_prev s) (receipt_hash_prev s).

Definition with_audits (s : State) (v : vmap ref) : State :=
  mkState (heap s) (susers s) (services s) (telemetry_sources s)
    (delegations s) (consents s) (telemetry s) (decisions s) (boundaries s)
    (entry_conditions s) (shared_actions s) (defaults s) (enforcement s) v
    (disclosures s) (limitation_disclosures s) (event_log s) (receipt_log s)
    (next_receipt_id s) (clock s) (telemetry_exposure s) (base_time_utc s)
    (event_hash_prev s) (receipt_hash_prev s).

Definition with_disclosures (s : State) (v : list ref) : State :=
  mkState (heap s) (susers s) (services s) (telemetry_sources s)
    (delegations s) (consents s) (telemetry s) (decisions s) (boundaries s)
    (entry_conditions s) (shared_actions s) (defaults s) (enforcement s)
    (audits s) v (limitation_disclosures s) (event_log s) (receipt_log s)
    (next_receipt_id s) (clock s) (telemetry_exposure s) (base_time_utc s)
    (event_hash_prev s) (receipt_hash_prev s).

Definition with_limitation_disclosures (s : State) (v : list ref) : State :=
  mkState (heap s) (susers s) (services s) (telemetry_sources s)
    (delegations s) (consents s) (telemetry s) (decisions s) (boundaries s)
    (entry_conditions s) (shared_actions s) (defaults s) (enforcement s)
    (audits s) (disclosures s) v (event_log s) (receipt_log s)
    (next_receipt_id s) (clock s) (telemetry_exposure s) (base_time_utc s)
    (event_hash_prev s) (receipt_hash_prev s).

Definition with_event_log (s : State) (v : list ref) : State :=
  mkState (heap s) (susers s) (services s) (telemetry_sources s)
    (delegations s) (consents s) (telemetry s) (decisions s) (boundaries s)
    (entry_conditions s) (shared_actions s) (defaults s) (enforcement s)
    (audits s) (disclosures s) (limitation_disclosures s) v (receipt_log s)
    (next_receipt_id s) (clock s) (telemetry_exposure s) (base_time_utc s)
    (event_hash_prev s) (receipt_hash_prev s).

Definition with_receipt_log (s : State) (v : list dict) : State :=
  mkState (heap s) (susers s) (services s) (telemetry_sources s)
    (delegations s) (consents s) (telemetry s) (decisions s) (boundaries s)
    (entry_conditions s) (shared_actions s) (defaults s) (enforcement s)
    (audits s) (disclosures s) (limitation_disclosures s) (event_log s) v
    (next_receipt_id s) (clock s) (telemetry_exposure s) (base_time_utc s)
    (event_hash_prev s) (receipt_hash_prev s).

Definition with_next_receipt_id (s : State) (v : Z) : State :=
  mkState (heap s) (susers s) (services s) (telemetry_sources s)
    (delegations s) (consents s) (telemetry s) (decisions s) (boundaries s)
    (entry_conditions s) (shared_actions s) (defaults s) (enforcement s)
    (audits s) (disclosures s) (limitation_disclosures s) (event_log s)
    (receipt_log s) v (clock s) (telemetry_exposure s) (base_time_utc s)
    (event_hash_prev s) (receipt_hash_prev s).

Definition with_clock (s : State) (v : Z) : State :=
  mkState (heap s) (susers s) (services s) (telemetry_sources s)
    (delegations s) (consents s) (telemetry s) (decisions s) (boundaries s)
    (entry_conditions s) (shared_actions s) (defaults s) (enforcement s)
    (audits s) (disclosures s) (limitation_disclosures s) (event_log s)
    (receipt_log s) (next_receipt_id s) v (telemetry_exposure s)
    (base_time_utc s) (event_hash_prev s) (receipt_hash_prev s).

Definition with_telemetry_exposure (s : State) (v : vmap Z) : State :=
  mkState (heap s) (susers s) (services s) (telemetry_sources s)
    (delegations s) (consents s) (telemetry s) (decisions s) (boundaries s)
    (entry_conditions s) (shared_actions s) (defaults s) (enforcement s)
    (audits s) (disclosures s) (limitation_disclosures s) (event_log s)
    (receipt_log s) (next_receipt_id s) (clock s) v (base_time_utc s)
    (event_hash_prev s) (receipt_hash_prev s).

Definition with_event_hash_prev (s : State) (v : option string) : State :=
  mkState (heap s) (susers s) (services s) (telemetry_sources s)
    (delegations s) (consents s) (telemetry s) (decisions s) (boundaries s)
    (entry_conditions s) (shared_actions s) (defaults s) (enforcement s)
    (audits s) (disclosures s) (limitation_disclosures s) (event_log s)
    (receipt_log s) (next_receipt_id s) (clock s) (telemetry_exposure s)
    (base_time_utc s) v (receipt_hash_prev s).

Definition with_receipt_hash_prev (s : State) (v : option string) : State :=
  mkState (heap s) (susers s) (services s) (telemetry_sources s)
    (delegations s) (consents s) (telemetry s) (decisions s) (boundaries s)
    (entry_conditions s) (shared_actions s) (defaults s) (enforcement s)
    (audits s) (disclosures s) (limitation_disclosures s) (event_log s)
    (receipt_log s) (next_receipt_id s) (clock s) (telemetry_exposure s)
    (base_time_utc s) (event_hash_prev s) v.

Definition deref (st : State) (r : ref) : dict := nth r (heap st) [].

Fixpoint list_set {A : Type} (l : list A) (n : nat) (x : A) : list A :=
  match l, n with
  | [], _ => []
  | _ :: l', O => x :: l'
  | y :: l', S n' => y :: list_set l' n' x
  end.

(** Writing through a reference: every holder of [r] sees the change. *)
Definition store (st : State) (r : ref) (d : dict) : State :=
  with_heap st (list_set (heap st) r d).

Definition alloc (st : State) (d : dict) : State * ref :=
  (with_heap st (heap st ++ [d]), List.length (heap st)).

Definition objects (st : State) (rs : list ref) : list dict :=
  map (deref st) rs.

(** *** Helpers of the engine *)

Definition _KNOWN_EVENT_TYPES : list string :=
  [ "delegation"; "revoke_delegation"; "consent"; "withdraw_consent";
    "telemetry"; "service_action"; "shared_action"; "time_advance";
    "boundary_declaration"; "entry_condition"; "entry_request";
    "boundary_rule"; "revocation_policy"; "default_setting";
    "federated_governance"; "boundary_failure_modes"; "respect_principles";
    "participation_declaration"; "trust_audit"; "respect_audit";
    "enforcement"; "disclosure"; "limitation_disclosure";
    "reductionist_metric" ].

Definition _event_time_utc (base_time_utc : string) (event_time : Z)
  : result string :=
  base <- _parse_rfc3339 base_time_utc ;;
  timestamp <- add_seconds base event_time ;;
  Ok (isoformat_Z timestamp).

Definition _canonical_json (data : value) : string := json_dumps data.

Definition opt_str (o : option string) : value :=
  match o with Some s => VStr s | None => VNone end.

Definition _hash_chain (payload : dict) (prev_hash : option string) : string :=
  let material :=
    VDict [("prev_hash", opt_str prev_hash); ("payload", VDict payload)] in
  sha256_hexdigest (_canonical_json material).

Definition _strip_hash_fields (entry : dict) (keys : list string) : dict :=
  fold_left pop keys entry.

(** [copy.deepcopy(state)]: the copy has the contents and the sharing of
    the original, which in a value model is the original. *)
Definition _clone_state (state : State) : State := state.

(** [v.get(k)] on a value that need not be a dictionary. *)
Definition value_get (v : value) (k : string) : result value :=
  match v with
  | VDict d => Ok (get d k)
  | _ => Raise AttributeError
  end.

(** The ten id keys [_event_id] tries, in order. *)
Definition _event_id_keys : list string :=
  [ "delegation_id"; "consent_id"; "telemetry_id"; "decision_id";
    "environment_id"; "enforcement_id"; "default_id"; "audit_id";
    "disclosure_id"; "limitation_id" ].

(** [_event_id(event)]; [oid] is [id(event)], the address of the object. *)
Definition _event_id (oid : Z) (event : dict) : result string :=
  match find (fun key => negb (is_none (get event key))) _event_id_keys with
  | Some key =>
      ty <- getitem event "type" ;;
      Ok (py_str ty ++ ":" ++ py_str (get event key))%string
  | None =>
      ty <- getitem event "type" ;;
      Ok (py_str ty ++ ":event-" ++ string_of_Z oid)%string
  end.

(** *** [apply_event] *)

(** The locals a call of [apply_event] mutates: the cloned state and the
    receipts emitted so far. *)
Record frame : Type := mkFrame {
  new_state : State;
  receipts : list dict
}.

(** Lines 319-329 and 366-376: stamp the event with time and hash, chain
    it, and append the object to [event_log]. *)
Definition stamp_event (st : State) (event : dict) (event_time : Z)
    (event_time_utc : string) : State * ref :=
  let event := setitem event "time" (VInt event_time) in
  let event := setitem event "time_utc" (VStr event_time_utc) in
  let event_hash :=
    _hash_chain (_strip_hash_fields event ["event_hash"; "event_hash_prev"])
      (event_hash_prev st) in
  let event := setitem event "event_hash_prev" (opt_str (event_hash_prev st)) in
  let event := setitem event "event_hash" (VStr event_hash) in
  let st := with_event_hash_prev st (Some event_hash) in
  let '(st, r) := alloc st event in
  (with_event_log st (event_log st ++ [r]), r).

Definition _add_receipt (event_time : Z) (event_time_utc : string)
    (fr : frame) (data : dict) : frame :=
  let st := new_state fr in
  let data := setitem data "receipt_id" (VInt (next_receipt_id st)) in
  let data := setitem data "time" (VInt event_time) in
  let data := setitem data "time_utc" (VStr event_time_utc) in
  let receipt_hash :=
    _hash_chain (_strip_hash_fields data ["receipt_hash"; "receipt_hash_prev"])
      (receipt_hash_prev st) in
  let data := setitem data "receipt_hash_prev" (opt_str (receipt_hash_prev st)) in
  let data := setitem data "receipt_hash" (VStr receipt_hash) in
  let st := with_receipt_hash_prev st (Some receipt_hash) in
  let st := with_next_receipt_id st (next_receipt_id st + 1) in
  mkFrame st (receipts fr ++ [data]).

Definition _add_error_receipt (original_type : value) (event : dict)
    (event_time : Z) (event_time_utc : string) (fr : frame) : frame :=
  let st := new_state fr in
  let receipt :=
    [ ("type", VStr "error_receipt");
      ("event_type", original_type);
      ("error", get event "error") ] in
  let receipt := setitem receipt "receipt_id" (VInt (next_receipt_id st)) in
  let receipt := setitem receipt "time" (VInt event_time) in
  let receipt := setitem receipt "time_utc" (VStr event_time_utc) in
  let receipt_hash :=
    _hash_chain
      (_strip_hash_fields receipt ["receipt_hash"; "receipt_hash_prev"])
      (receipt_hash_prev st) in
  let receipt :=
    setitem receipt "receipt_hash_prev" (opt_str (receipt_hash_prev st)) in
  let receipt := setitem receipt "receipt_hash" (VStr receipt_hash) in
  let st := with_receipt_hash_prev st (Some receipt_hash) in
  let st := with_next_receipt_id st (next_receipt_id st + 1) in
  mkFrame st (receipts fr ++ [receipt]).

(** [{k: event.get(k) for k in ks}], the part of a receipt that mirrors
    event fields one for one. *)
Definition mirror (event : dict) (ks : list string) : dict :=
  map (fun k => (k, get event k)) ks.

(** [expires_at] of a delegation or default: the explicit value, else
    [event_time + duration] when a duration is given. *)
Definition compute_expires_at (event : dict) (duration : value)
    (event_time : Z) : result value :=
  let expires_at := get event "expires_at" in
  if is_none expires_at && negb (is_none duration)
  then int_add event_time duration
  else Ok expires_at.

(** The branches of the dispatch.  Each takes the state after the event
    was logged, the reference [r] of the event object and the logical time,
    and returns the updated state with the receipt it hands to
    [_add_receipt]. *)

Definition on_delegation (st : State) (r : ref) (event_time : Z)
  : result (State * dict) :=
  let event := deref st r in
  delegation_id <- getitem event "delegation_id" ;;
  let scope := por (get event "scope") (VDict []) in
  duration <- value_get scope "duration" ;;
  expires_at <- compute_expires_at event duration event_time ;;
  let event := setitem event "issued_at" (VInt event_time) in
  let event := setitem event "expires_at" expires_at in
  let st := store st r event in
  delegations' <- vmap_set (delegations st) delegation_id r ;;
  let st := with_delegations st delegations' in
  susers' <- vset_add (susers st) (get event "suser_id") ;;
  let st := with_susers st susers' in
  services' <- vset_add (services st) (get event "grantee_id") ;;
  let st := with_services st services' in
  Ok (st,
      [("type", VStr "delegation_receipt"); ("delegation_id", delegation_id)]
      ++ mirror event
           [ "suser_id"; "grantee_id"; "explicit"; "scoped"; "revocable";
             "suser_can_inspect"; "suser_can_contest"; "suser_can_revoke";
             "derived_from_use"; "scope"; "revocation_path" ]
      ++ [("issued_at", VInt event_time); ("expires_at", expires_at)]).

Definition on_revoke_delegation (st : State) (r : ref) (event_time : Z)
  : result (State * dict) :=
  let event := deref st r in
  delegation_id <- getitem event "delegation_id" ;;
  delay <- py_int (por (get event "delay") (VInt 0)) ;;
  let delay_disclosed := get event "delay_disclosed" in
  let effective_at := event_time + delay in
  found <- vmap_get (delegations st) delegation_id ;;
  let st :=
    match found with
    | Some r' =>
        let delegation := deref st r' in
        let delegation :=
          setitem delegation "revocation_requested_at" (VInt event_time) in
        let delegation :=
          setitem delegation "revocation_effective_at" (VInt effective_at) in
        let delegation :=
          if delay =? 0 then setitem delegation "revoked" (VBool true)
          else delegation in
        store st r' delegation
    | None => st
    end in
  Ok (st,
      [ ("type", VStr "delegation_revocation_receipt");
        ("delegation_id", delegation_id);
        ("revoked", VBool (delay =? 0));
        ("delay", VInt delay);
        ("delay_disclosed", delay_disclosed);
        ("requested_at", VInt event_time);
        ("effective_at", VInt effective_at) ]).

Definition on_consent (st : State) (r : ref) (event_time : Z)
  : result (State * dict) :=
  let event := deref st r in
  consent_id <- getitem event "consent_id" ;;
  consents' <- vmap_set (consents st) consent_id r ;;
  let st := with_consents st consents' in
  susers' <- vset_add (susers st) (get event "suser_id") ;;
  let st := with_susers st susers' in
  Ok (st,
      [("type", VStr "consent_receipt"); ("consent_id", consent_id)]
      ++ mirror event
           [ "suser_id"; "purpose"; "informed"; "specific"; "revocable";
             "revocation_effective"; "bundled"; "coerced"; "dark_pattern";
             "assumed_by_use" ]).

Definition on_withdraw_consent (st : State) (r : ref) (event_time : Z)
  : result (State * dict) :=
  let event := deref st r in
  consent_id <- getitem event "consent_id" ;;
  found <- vmap_get (consents st) consent_id ;;
  let st :=
    match found with
    | Some r' => store st r' (setitem (deref st r') "withdrawn" (VBool true))
    | None => st
    end in
  Ok (st,
      [ ("type", VStr "consent_withdrawal_receipt");
        ("consent_id", consent_id);
        ("withdrawn", VBool true) ]).

Definition on_telemetry (st : State) (r : ref) (event_time : Z)
  : result (State * dict) :=
  let event := deref st r in
  telemetry_id <- getitem event "telemetry_id" ;;
  telemetry' <- vmap_set (telemetry st) telemetry_id r ;;
  let st := with_telemetry st telemetry' in
  sources' <- vset_add (telemetry_sources st) telemetry_id ;;
  let st := with_telemetry_sources st sources' in
  seen <- vmap_get (telemetry_exposure st) telemetry_id ;;
  let count := match seen with Some n => n | None => 0 end + 1 in
  exposure' <- vmap_set (telemetry_exposure st) telemetry_id count ;;
  let st := with_telemetry_exposure st exposure' in
  seen' <- vmap_get (telemetry_exposure st) telemetry_id ;;
  Ok (st,
      [("type", VStr "telemetry_receipt"); ("telemetry_id", telemetry_id)]
      ++ mirror event
           [ "influences"; "explained"; "human_explainable";
             "prescriptive_use"; "reports_to_service"; "self_originating" ]
      ++ [("exposure_count",
           VInt match seen' with Some n => n | None => 1 end)]).

Definition on_service_action (st : State) (r : ref) (event_time : Z)
  : result (State * dict) :=
  let event := deref st r in
  decision_id <- getitem event "decision_id" ;;
  let st := with_decisions st (decisions st ++ [r]) in
  services' <- vset_add (services st) (get event "service_id") ;;
  let st := with_services st services' in
  susers' <- vset_add (susers st) (get event "suser_id") ;;
  let st := with_susers st susers' in
  let delegation_id := get event "delegation_id" in
  let chain_override := get event "authority_chain_override" in
  authority_chain <-
    (if negb (is_none chain_override)
     then (items <- py_iter chain_override ;; Ok items)
     else
       found <- vmap_get (delegations st) delegation_id ;;
       match found with
       | Some r' => Ok [delegation_id; get (deref st r') "suser_id"]
       | None => Ok []
       end) ;;
  Ok (st,
      [ ("type", VStr "decision_receipt");
        ("decision_id", decision_id);
        ("suser_id", get event "suser_id");
        ("service_id", get event "service_id");
        ("delegation_id", delegation_id);
        ("consent_id", get event "consent_id");
        ("telemetry_refs", get_default event "telemetry_refs" (VList [])) ]
      ++ mirror event
           [ "explanation"; "explanation_legible"; "report_to_suser";
             "contest_path"; "revocation_path" ]
      ++ [ ("authority_chain", VList authority_chain);
           ("context_id", get event "context_id");
           ("affected_susers", get_default event "affected_susers" (VList []));
           ("reporting_constraints", get event "reporting_constraints");
           ("reporting_constraints_disclosed",
            get event "reporting_constraints_disclosed");
           ("decision_time", VInt event_time);
           ("delivered_to_suser", get event "receipt_delivered");
           ("explanation_delivered", get event "explanation_delivered");
           ("redacted_fields", por (get event "redacted_fields") (VList []));
           ("explanation_contextual", get event "explanation_contextual") ]).

Definition on_shared_action (st : State) (r : ref) (event_time : Z)
  : result (State * dict) :=
  let event := deref st r in
  let st := with_shared_actions st (shared_actions st ++ [r]) in
  Ok (st,
      [ ("type", VStr "shared_action_receipt");
        ("environment_id", get event "environment_id");
        ("actor_suser_id", get event "actor_suser_id");
        ("affected_susers", get_default event "affected_susers" (VList []));
        ("consent_basis", get event "consent_basis") ]).

Definition on_time_advance (st : State) (r : ref) (event_time : Z)
  : result (State * dict) :=
  let event := deref st r in
  ticks <- py_int (por (get event "ticks") (VInt 0)) ;;
  let st := with_clock st (clock st + ticks) in
  Ok (st,
      [ ("type", VStr "time_receipt");
        ("ticks", VInt ticks);
        ("from_time", VInt event_time);
        ("to_time", VInt (clock st)) ]).

Definition on_boundary_declaration (st : State) (r : ref) (event_time : Z)
  : result (State * dict) :=
  let event := deref st r in
  environment_id <- getitem event "environment_id" ;;
  boundaries' <- vmap_set (boundaries st) environment_id r ;;
  let st := with_boundaries st boundaries' in
  Ok (st,
      [("type", VStr "boundary_receipt"); ("environment_id", environment_id)]
      ++ mirror event ["explicit"; "scope"; "constraints"]).

Definition on_entry_condition (st : State) (r : ref) (event_time : Z)
  : result (State * dict) :=
  let event := deref st r in
  environment_id <- getitem event "environment_id" ;;
  entry_conditions' <- vmap_set (entry_conditions st) environment_id r ;;
  let st := with_entry_conditions st entry_conditions' in
  Ok (st,
      [ ("type", VStr "entry_condition_receipt");
        ("environment_id", environment_id);
        ("conditions_defined", get event "conditions_defined") ]).

(** [new_state.boundaries.setdefault(environment_id, {}).update(event)]:
    the record found under the id (the declaration event itself, when one
    was applied) is overwritten field by field; a fresh record is made
    when there is none. *)
Definition boundaries_merge (st : State) (environment_id : value)
    (event : dict) : result State :=
  found <- vmap_get (boundaries st) environment_id ;;
  match found with
  | Some r' => Ok (store st r' (update (deref st r') event))
  | None =>
      let '(st, r') := alloc st [] in
      let st := with_boundaries st (vmap_put (boundaries st) environment_id r') in
      Ok (store st r' (update (deref st r') event))
  end.

Definition on_boundary_rule (st : State) (r : ref) (event_time : Z)
  : result (State * dict) :=
  let event := deref st r in
  let environment_id := get event "environment_id" in
  st <- boundaries_merge st environment_id event ;;
  Ok (st,
      [ ("type", VStr "boundary_rule_receipt");
        ("environment_id", environment_id);
        ("interface_rules_present", get event "interface_rules_present") ]).

Definition on_default_setting (st : State) (r : ref) (event_time : Z)
  : result (State * dict) :=
  let event := deref st r in
  let duration := get event "duration" in
  expires_at <- compute_expires_at event duration event_time ;;
  let event := setitem event "issued_at" (VInt event_time) in
  let event := setitem event "expires_at" expires_at in
  let st := store st r event in
  let st := with_defaults st (defaults st ++ [r]) in
  Ok (st,
      [("type", VStr "default_receipt")]
      ++ mirror event ["default_id"; "justifiable"; "reversible"]
      ++ [ ("active", get_default event "active" (VBool true));
           ("issued_at", VInt event_time);
           ("expires_at", expires_at) ]).

Definition on_federated_governance (st : State) (r : ref) (event_time : Z)
  : result (State * dict) :=
  let event := deref st r in
  st <- boundaries_merge st (get event "environment_id") event ;;
  Ok (st,
      [("type", VStr "federated_receipt")]
      ++ mirror event
           [ "environment_id"; "entry_exit_defined"; "non_interference";
             "auditability"; "contestable" ]).

(** The branches that only mirror the event into a receipt. *)
Definition on_receipt_only (receipt_type : string) (fields : list string)
    (st : State) (r : ref) (event_time : Z) : result (State * dict) :=
  Ok (st, [("type", VStr receipt_type)] ++ mirror (deref st r) fields).

Definition on_audit (name receipt_type : string) (st : State) (r : ref)
    (event_time : Z) : result (State * dict) :=
  let event := deref st r in
  let st := with_audits st (vmap_put (audits st) (VStr name) r) in
  Ok (st,
      [("type", VStr receipt_type)] ++ mirror event ["audit_id"; "minimum_met"]).

Definition on_enforcement (st : State) (r : ref) (event_time : Z)
  : result (State * dict) :=
  let event := deref st r in
  let st := with_enforcement st (enforcement st ++ [r]) in
  Ok (st,
      [("type", VStr "enforcement_receipt")]
      ++ mirror event
           [ "enforcement_id"; "enforcer_id"; "proportionate"; "transparent";
             "contestable"; "reversible"; "punitive"; "attributable";
             "contest_path" ]).

Definition on_disclosure (st : State) (r : ref) (event_time : Z)
  : result (State * dict) :=
  let event := deref st r in
  let st := with_disclosures st (disclosures st ++ [r]) in
  Ok (st,
      [("type", VStr "disclosure_receipt")]
      ++ mirror event ["disclosure_id"; "user_actionable"]).

Definition on_limitation_disclosure (st : State) (r : ref) (event_time : Z)
  : result (State * dict) :=
  let event := deref st r in
  let st := with_limitation_disclosures st (limitation_disclosures st ++ [r]) in
  Ok (st,
      [("type", VStr "limitation_receipt")]
      ++ mirror event ["limitation_id"; "limits_disclosed"]).

(** The [if event_type == ... elif ...] chain.  [None] is the fall-through:
    a known type that no branch handles. *)
Definition dispatch (event_type : string)
  : option (State -> ref -> Z -> result (State * dict)) :=
  if String.eqb event_type "delegation" then Some on_delegation
  else if String.eqb event_type "revoke_delegation" then Some on_revoke_delegation
  else if String.eqb event_type "consent" then Some on_consent
  else if String.eqb event_type "withdraw_consent" then Some on_withdraw_consent
  else if String.eqb event_type "telemetry" then Some on_telemetry
  else if String.eqb event_type "service_action" then Some on_service_action
  else if String.eqb event_type "shared_action" then Some on_shared_action
  else if String.eqb event_type "time_advance" then Some on_time_advance
  else if String.eqb event_type "boundary_declaration"
       then Some on_boundary_declaration
  else if String.eqb event_type "entry_condition" then Some on_entry_condition
  else if String.eqb event_type "entry_request"
       then Some (on_receipt_only "entry_request_receipt"
                    [ "environment_id"; "entry_conditions_met";
                      "entry_conditions_declared" ])
  else if String.eqb event_type "boundary_rule" then Some on_boundary_rule
  else if String.eqb event_type "revocation_policy"
       then Some (on_receipt_only "revocation_policy_receipt"
                    [ "environment_id"; "monitoring"; "revocation_legible";
                      "revocation_contestable"; "revocation_delay";
                      "revocation_delay_disclosed" ])
  else if String.eqb event_type "default_setting" then Some on_default_setting
  else if String.eqb event_type "federated_governance"
       then Some on_federated_governance
  else if String.eqb event_type "boundary_failure_modes"
       then Some (on_receipt_only "failure_modes_receipt"
                    [ "environment_id"; "implicit_consent"; "opaque_enforcement";
                      "hidden_influence"; "irrevocable_participation" ])
  else if String.eqb event_type "respect_principles"
       then Some (on_receipt_only "respect_principles_receipt"
                    [ "environment_id"; "boundary_integrity"; "non_coercion";
                      "mutual_legibility"; "contextual_consent";
                      "contestability" ])
  else if String.eqb event_type "participation_declaration"
       then Some (on_receipt_only "participation_declaration_receipt"
                    [ "environment_id"; "scope_declared"; "influence_declared";
                      "boundaries_declared"; "enforcement_legible";
                      "enforcement_proportionate"; "enforcement_contestable" ])
  else if String.eqb event_type "trust_audit"
       then Some (on_audit "trust" "trust_audit_receipt")
  else if String.eqb event_type "respect_audit"
       then Some (on_audit "respect" "respect_audit_receipt")
  else if String.eqb event_type "enforcement" then Some on_enforcement
  else if String.eqb event_type "disclosure" then Some on_disclosure
  else if String.eqb event_type "limitation_disclosure"
       then Some on_limitation_disclosure
  else None.

(** [event_type is None or event_type not in _KNOWN_EVENT_TYPES]; the
    membership test hashes [event_type]. *)
Definition unknown_event_type (event_type : value) : result bool :=
  if is_none event_type then Ok true
  else (known <- in_str_set event_type _KNOWN_EVENT_TYPES ;; Ok (negb known)).

(** [new_state.receipt_log.extend(receipts); return new_state, receipts]. *)
Definition finish (fr : frame) : State * list dict :=
  let st := new_state fr in
  (with_receipt_log st (receipt_log st ++ receipts fr), receipts fr).

Definition apply_event (state : State) (event : dict)
  : result (State * list dict) :=
  let new_state := _clone_state state in
  let event_time := clock new_state in
  let event_type := get event "type" in
  let event := pop event "event_hash" in
  let event := pop event "event_hash_prev" in
  let event := pop event "time_utc" in
  unknown <- unknown_event_type event_type ;;
  if unknown then
    let original_type := event_type in
    let event := setitem event "type" (VStr "error") in
    let event := setitem event "original_type" original_type in
    let event :=
      setitem event "error"
        (VStr (if is_none original_type then "missing_event_type"
               else ("unknown_event_type:" ++ py_str original_type)%string)) in
    event_time_utc <- _event_time_utc (base_time_utc new_state) event_time ;;
    let '(new_state, r) :=
      stamp_event new_state event event_time event_time_utc in
    let fr :=
      _add_error_receipt original_type (deref new_state r) event_time
        event_time_utc (mkFrame new_state []) in
    Ok (finish fr)
  else
    event_time_utc <- _event_time_utc (base_time_utc new_state) event_time ;;
    let '(new_state, r) :=
      stamp_event new_state event event_time event_time_utc in
    match dispatch (py_str event_type) with
    | Some branch =>
        '(new_state, receipt) <- branch new_state r event_time ;;
        Ok (finish (_add_receipt event_time event_time_utc
                      (mkFrame new_state []) receipt))
    | None => Ok (finish (mkFrame new_state []))
    end.

(** Folding a list of events into a state, as the callers do:
    [for event in events: state, receipts = apply_event(state, event)]. *)
Definition run_events (state : State) (events : list dict) : result State :=
  rfold (fun st event => '(st', _) <- apply_event st event ;; Ok st') state events.

(** *** The evaluators' monad

    An evaluator mutates its report and its local accumulators and may
    raise at any step: a computation takes the pair (report, locals) and
    returns a value with the new pair, or raises. *)

Section EvalMonad.
Variable L : Type.

Definition M (A : Type) : Type := Report * L -> result (A * (Report * L)).

Definition ret {A : Type} (a : A) : M A := fun s => Ok (a, s).

Definition bind {A B : Type} (m : M A) (f : A -> M B) : M B :=
  fun s =>
    match m s with
    | Ok (a, s') => f a s'
    | Raise e => Raise e
    end.

(** A step that only computes, and may raise. *)
Definition lift {A : Type} (r : result A) : M A :=
  fun s => match r with Ok a => Ok (a, s) | Raise e => Raise e end.

(** [report.add_violation(label, evidence)]. *)
Definition violation (label : string) (evidence : list string) : M unit :=
  fun s => Ok (tt, (add_violation (fst s) label evidence, snd s)).

(** [report.score = v]. *)
Definition set_score (v : value) : M unit :=
  fun s =>
    let report := fst s in
    Ok (tt, (mkReport (kind report) (violations report) (debug report) v, snd s)).

Definition get_score : M value := fun s => Ok (score (fst s), s).

Definition locals : M L := fun s => Ok (snd s, s).

Definition modify (f : L -> L) : M unit := fun s => Ok (tt, (fst s, f (snd s))).

(** [if b: m]. *)
Definition when (b : bool) (m : M unit) : M unit :=
  if b then m else ret tt.

(** [for x in xs: body(x)]. *)
Fixpoint for_each {A : Type} (xs : list A) (body : A -> M unit) : M unit :=
  match xs with
  | [] => ret tt
  | x :: xs' => bind (body x) (fun _ => for_each xs' body)
  end.
End EvalMonad.

Arguments ret {L A} a.
Arguments lift {L A} r.
Arguments violation {L} label evidence.
Arguments set_score {L} v.
Arguments get_score {L}.
Arguments locals {L}.

Declare Scope eval_scope.
Delimit Scope eval_scope with eval.
Notation "x <- m ;; k" := (bind m (fun x => k))
  (at level 61, m at next level, right associativity) : eval_scope.
Notation "m ;;; k" := (bind m (fun _ => k))
  (at level 61, right associativity) : eval_scope.

(** *** Conditions shared by the evaluators *)

(** [d.get(k1) or d.get(k2) or ...], as a truth value. *)
Definition any_truthy (d : dict) (ks : list string) : bool :=
  existsb (fun k => truthy (get d k)) ks.

(** [not d.get(k1) or not d.get(k2) or ...]. *)
Definition any_falsy (d : dict) (ks : list string) : bool :=
  existsb (fun k => negb (truthy (get d k))) ks.

(** [d.get(k1) is False or d.get(k2) is False or ...]. *)
Definition any_is_False (d : dict) (ks : list string) : bool :=
  existsb (fun k => is_False (get d k)) ks.

Definition nonempty {A : Type} (l : list A) : bool :=
  match l with [] => false | _ => true end.

Definition type_is (d : dict) (t : string) : bool :=
  py_eq (get d "type") (VStr t).

(** [f"receipt:{receipt_id}" if receipt_id is not None else "receipt:unknown"]. *)
Definition receipt_evidence (receipt : dict) : string :=
  let receipt_id := get receipt "receipt_id" in
  if is_none receipt_id then "receipt:unknown"
  else ("receipt:" ++ py_str receipt_id)%string.

(** The enforcement checks, which both evaluators run. *)
Definition enforcement_incompatible (enforcement : dict) : bool :=
  any_falsy enforcement ["proportionate"; "transparent"; "contestable"]
  || is_False (get enforcement "reversible")
  || truthy (get enforcement "punitive").

Definition enforcement_unattributed (enforcement : dict) : bool :=
  any_falsy enforcement ["attributable"; "enforcer_id"].

(** [any(event.get("undeterminable") for event in state.event_log)]. *)
Definition any_undeterminable (events : list dict) : bool :=
  existsb (fun event => truthy (get event "undeterminable")) events.

(** *** [_evaluate_trust_unsafe] *)

(** The evidence lists the trust evaluator collects before it emits. *)
Inductive evidence_list : Type :=
| justification_evidence
| missing_reporting_evidence
| delegation_invalid_evidence
| implicit_delegation_evidence
| sovereignty_displaced_evidence
| consent_invalid_evidence
| consent_coerced_evidence
| telemetry_prescriptive_evidence
| telemetry_opaque_evidence
| telemetry_reporting_evidence.

Scheme Equality for evidence_list.

Record trust_locals : Type := mkTrustLocals {
  invalid_state : bool;
  evidence_of : evidence_list -> list string
}.

Definition trust_locals_init : trust_locals := mkTrustLocals false (fun _ => []).

Definition TM : Type -> Type := M trust_locals.

Local Open Scope eval_scope.

(** [invalid_state = True]. *)
Definition mark_invalid : TM unit :=
  modify (fun l => mkTrustLocals true (evidence_of l)).

(** [<list>.append(e)]. *)
Definition append_evidence (k : evidence_list) (e : string) : TM unit :=
  modify (fun l =>
    mkTrustLocals (invalid_state l)
      (fun k' => if evidence_list_beq k k' then evidence_of l k' ++ [e]
                 else evidence_of l k')).

Definition record_justification (oid : Z) (event : dict) : TM unit :=
  let justification := get event "justification" in
  when (truthy justification)
    (eid <- lift (_event_id oid event) ;;
     append_evidence justification_evidence
       (eid ++ ":justification:" ++ py_str justification)%string).

(** The three telemetry conditions that make a state invalid. *)
Definition influences_unexplained (d : dict) : bool :=
  truthy (get d "influences") && negb (truthy (get d "explained")).

Definition influences_not_human_explainable (d : dict) : bool :=
  truthy (get d "influences") && negb (truthy (get d "human_explainable")).

Definition consent_pressure_keys : list string :=
  ["bundled"; "coerced"; "dark_pattern"; "assumed_by_use"].

(** [_delegation_active_at(delegation, when)]. *)
Definition _delegation_active_at (delegation : dict) (when_ : Z) : result bool :=
  (let issued_at := get delegation "issued_at" in
   early <- (if negb (is_none issued_at) then py_lt (VInt when_) issued_at
             else Ok false) ;;
   if early then Ok false
   else
     let expires_at := get delegation "expires_at" in
     expired <- (if negb (is_none expires_at) then py_ge (VInt when_) expires_at
                 else Ok false) ;;
     if expired then Ok false
     else
       let effective_at := get delegation "revocation_effective_at" in
       if negb (is_none effective_at) then py_lt (VInt when_) effective_at
       else Ok (negb (truthy (get_default delegation "revoked" (VBool false)))))%result.

Section TrustEvaluator.
(** [ids r] is [id(obj)] of the object at [r] during this evaluation. *)
Variable ids : ref -> Z.
Variable state : State.

(** Lines 816-834: scores and justifications, from the event log. *)
Definition trust_scan_event (r : ref) : TM unit :=
  let event := deref state r in
  when (type_is event "reductionist_metric")
    (set_score (get event "score")) ;;;
  when (type_is event "delegation" && is_False (get event "revocable"))
    (record_justification (ids r) event) ;;;
  when (type_is event "consent" && any_truthy event consent_pressure_keys)
    (record_justification (ids r) event) ;;;
  when (type_is event "telemetry"
        && (truthy (get event "prescriptive_use")
            || influences_unexplained event
            || influences_not_human_explainable event))
    (record_justification (ids r) event).

(** Lines 847-854: does the chain cite a delegation issued after the
    decision?  The scan stops at the first one ([break]). *)
Fixpoint cites_later_delegation (decision_time : value) (chain : list value)
  : result bool :=
  match chain with
  | [] => Ok false
  | entry :: rest =>
      if negb (isinstance_str entry)
      then cites_later_delegation decision_time rest
      else
        let issued_at :=
          match vmap_find (delegations state) entry with
          | Some r =>
              if truthy (VDict (deref state r))
              then get (deref state r) "issued_at" else VNone
          | None => VNone
          end in
        if is_none issued_at then cites_later_delegation decision_time rest
        else
          (later <- py_gt issued_at decision_time ;;
           if later then Ok true
           else cites_later_delegation decision_time rest)%result
  end.

(** Lines 836-898: one receipt. *)
Definition trust_scan_receipt (receipt : dict) : TM unit :=
  let evidence := receipt_evidence receipt in
  when (type_is receipt "decision_receipt"
        && is_False (get receipt "report_to_suser"))
    (append_evidence missing_reporting_evidence evidence) ;;;
  when (type_is receipt "decision_receipt")
    (let decision_time := get receipt "decision_time" in
     let authority_chain := por (get receipt "authority_chain") (VList []) in
     when (negb (is_none decision_time))
       (chain <- lift (py_iter authority_chain) ;;
        later <- lift (cites_later_delegation decision_time chain) ;;
        when later
          (violation TRUST_VIOLATION.AUTHORITY_UNTRACEABLE [evidence]))) ;;;
  when (type_is receipt "delegation_receipt")
    (when (any_is_False receipt ["explicit"; "scoped"; "revocable"])
       (append_evidence delegation_invalid_evidence evidence) ;;;
     when (truthy (get receipt "derived_from_use"))
       (append_evidence implicit_delegation_evidence evidence) ;;;
     when (any_is_False receipt
             ["suser_can_inspect"; "suser_can_contest"; "suser_can_revoke"])
       (append_evidence sovereignty_displaced_evidence evidence) ;;;
     when (is_False (get receipt "revocable")) mark_invalid) ;;;
  when (type_is receipt "consent_receipt")
    (when (any_is_False receipt
             ["informed"; "specific"; "revocable"; "revocation_effective"])
       (append_evidence consent_invalid_evidence evidence) ;;;
     when (any_truthy receipt consent_pressure_keys)
       (append_evidence consent_coerced_evidence evidence ;;; mark_invalid)) ;;;
  when (type_is receipt "telemetry_receipt")
    (when (truthy (get receipt "prescriptive_use"))
       (append_evidence telemetry_prescriptive_evidence evidence) ;;;
     when (influences_unexplained receipt)
       (append_evidence telemetry_opaque_evidence evidence ;;; mark_invalid) ;;;
     when (influences_not_human_explainable receipt) mark_invalid ;;;
     when (is_False (get receipt "reports_to_service"))
       (append_evidence telemetry_reporting_evidence evidence ;;;
        append_evidence missing_reporting_evidence evidence)).

(** Lines 900-914: one delegation record. *)
Definition trust_check_delegation (r : ref) : TM unit :=
  let delegation := deref state r in
  eid <- lift (_event_id (ids r) delegation) ;;
  let evidence := [eid] in
  when (any_falsy delegation ["explicit"; "scoped"; "revocable"])
    (violation TRUST_VIOLATION.DELEGATION_INVALID evidence) ;;;
  when (any_falsy delegation ["suser_can_inspect"; "suser_can_contest"])
    (violation TRUST_VIOLATION.SOVEREIGNTY_DISPLACED evidence) ;;;
  when (negb (truthy (get delegation "suser_can_revoke")))
    (violation TRUST_VIOLATION.SOVEREIGNTY_DISPLACED evidence) ;;;
  when (truthy (get delegation "derived_from_use"))
    (violation CONSENT_VIOLATION.IMPLICIT_DELEGATION evidence) ;;;
  when (negb (truthy (get delegation "revocable")))
    (mark_invalid ;;; record_justification (ids r) delegation).

(** Lines 916-933: one consent record. *)
Definition trust_check_consent (r : ref) : TM unit :=
  let consent := deref state r in
  eid <- lift (_event_id (ids r) consent) ;;
  let evidence := [eid] in
  when (any_falsy consent
          ["informed"; "specific"; "revocable"; "revocation_effective"])
    (violation CONSENT_VIOLATION.INVALID_CONSENT evidence) ;;;
  when (any_truthy consent consent_pressure_keys)
    (violation CONSENT_VIOLATION.COERCED_OR_OPAQUE evidence ;;;
     mark_invalid ;;;
     record_justification (ids r) consent).

(** Lines 935-947: one telemetry record. *)
Definition trust_check_telemetry (r : ref) : TM unit :=
  let telemetry_ := deref state r in
  eid <- lift (_event_id (ids r) telemetry_) ;;
  let evidence := [eid] in
  when (truthy (get telemetry_ "prescriptive_use"))
    (violation TELEMETRY_VIOLATION.PRESCRIPTIVE_USE evidence) ;;;
  when (influences_unexplained telemetry_)
    (violation TELEMETRY_VIOLATION.OPAQUE_INFLUENCE evidence ;;;
     mark_invalid ;;;
     record_justification (ids r) telemetry_) ;;;
  when (influences_not_human_explainable telemetry_)
    (mark_invalid ;;; record_justification (ids r) telemetry_) ;;;
  when (is_False (get telemetry_ "reports_to_service"))
    (violation ACCOUNTABILITY_VIOLATION.MISSING_REPORTING evidence).
(** Lines 961-964: the logical time a decision is judged at. *)
Definition decision_time_of (decision : dict) : result Z :=
  let decision_time_value := get decision "time" in
  if negb (is_none decision_time_value) then py_int decision_time_value
  else Ok (clock state).

(** Lines 959-970: the condition under which a decision's authority is
    untraceable. *)
Definition authority_untraceable (decision : dict) : result bool :=
  (let suser_id := get decision "suser_id" in
   let delegation_id := get decision "delegation_id" in
   found <- vmap_get (delegations state) delegation_id ;;
   decision_time <- decision_time_of decision ;;
   match found with
   | None => Ok true
   | Some r =>
       let delegation := deref state r in
       if negb (truthy (VDict delegation)) then Ok true
       else if negb (py_eq (get delegation "suser_id") suser_id) then Ok true
       else (active <- _delegation_active_at delegation decision_time ;;
             Ok (negb active))
   end)%result.

(** [[source for source in aggregate_sources if source not in telemetry_refs]]. *)
Fixpoint missing_sources (aggregate_sources : list value)
    (telemetry_refs : value) : result (list value) :=
  match aggregate_sources with
  | [] => Ok []
  | source :: rest =>
      (present <- py_in source telemetry_refs ;;
       others <- missing_sources rest telemetry_refs ;;
       Ok (if present then others else source :: others))%result
  end.

(** [any(state.telemetry.get(telemetry_id, {}).get("self_originating")
    for telemetry_id in telemetry_refs)]. *)
Fixpoint uses_self_originating (telemetry_refs : list value) : result bool :=
  match telemetry_refs with
  | [] => Ok false
  | telemetry_id :: rest =>
      (found <- vmap_get (telemetry state) telemetry_id ;;
       let record := match found with Some r => deref state r | None => [] end in
       if truthy (get record "self_originating") then Ok true
       else uses_self_originating rest)%result
  end.

(** Lines 951-958. *)
Definition decision_identity (oid : Z) (evidence : list string)
    (decision : dict) : TM unit :=
  when (negb (truthy (get decision "suser_id")))
    (violation TRUST_VIOLATION.SUSER_UNIDENTIFIED evidence ;;;
     mark_invalid ;;;
     record_justification oid decision) ;;;
  when (truthy (get decision "admin_override"))
    (violation TRUST_VIOLATION.SOVEREIGNTY_ASSUMED evidence).

(** Lines 959-971. *)
Definition decision_authority (evidence : list string) (decision : dict)
  : TM unit :=
  untraceable <- lift (authority_untraceable decision) ;;
  when untraceable
    (violation TRUST_VIOLATION.AUTHORITY_UNTRACEABLE evidence).

(** Lines 972-1001. *)
Definition decision_conduct (evidence : list string) (decision : dict)
  : TM unit :=
  let on k := truthy (get decision k) in
  when (on "automated" && negb (on "within_scope"))
    (violation TRUST_VIOLATION.AUTONOMY_OVERREACH evidence) ;;;
  when (on "behavior_drift" && negb (on "mutation_authority"))
    (violation TRUST_VIOLATION.AUTONOMY_OVERREACH evidence) ;;;
  when (any_falsy decision ["disclosed"; "justified"; "basis_in_delegation"])
    (violation SERVICE_VIOLATION.SOVEREIGN_SUBSTITUTION evidence) ;;;
  when (on "ordering_inverted")
    (violation TRUST_VIOLATION.ORDERING_INVERTED evidence) ;;;
  when (negb (on "report_to_suser"))
    (violation ACCOUNTABILITY_VIOLATION.MISSING_REPORTING evidence) ;;;
  when (on "reporting_constraints"
        && negb (on "reporting_constraints_disclosed"))
    (violation ACCOUNTABILITY_VIOLATION.MISSING_REPORTING evidence) ;;;
  when (on "report_to_suser" && negb (on "explanation_legible"))
    (violation ACCOUNTABILITY_VIOLATION.ILLEGIBLE_REPORTING evidence) ;;;
  when (negb (on "explanation_legible"))
    (violation ACCOUNTABILITY_VIOLATION.NON_LEGIBLE_EXPLANATION evidence) ;;;
  when (negb (on "explanation"))
    (violation ACCOUNTABILITY_VIOLATION.NON_LEGIBLE_EXPLANATION evidence) ;;;
  when (is_False (get decision "explanation_contextual"))
    (violation ACCOUNTABILITY_VIOLATION.NON_LEGIBLE_EXPLANATION evidence) ;;;
  when (any_falsy decision ["contest_path"; "revocation_path"])
    (violation ACCOUNTABILITY_VIOLATION.NON_ACCOUNTABLE_OUTCOME evidence) ;;;
  when (negb (on "authority_chain_complete"))
    (violation TRUST_VIOLATION.ACCOUNTABILITY_BREAK evidence).

(** Lines 1002-1021. *)
Definition decision_telemetry (evidence : list string) (decision : dict)
  : TM unit :=
  let telemetry_refs := get_default decision "telemetry_refs" (VList []) in
  n <- lift (py_len telemetry_refs) ;;
  when ((1 <? n)
        && negb (truthy (get_default decision "telemetry_attribution_complete"
                           (VBool true))))
    (violation TELEMETRY_VIOLATION.OPAQUE_INFLUENCE evidence) ;;;
  when (truthy (get decision "telemetry_aggregate"))
    (let aggregate_sources :=
       por (get decision "telemetry_aggregate_sources") (VList []) in
     if negb (truthy aggregate_sources)
     then violation TELEMETRY_VIOLATION.OPAQUE_INFLUENCE evidence
     else
       sources <- lift (py_iter aggregate_sources) ;;
       missing <- lift (missing_sources sources telemetry_refs) ;;
       when (nonempty missing)
         (violation TELEMETRY_VIOLATION.OPAQUE_INFLUENCE evidence)) ;;;
  when (truthy telemetry_refs)
    (refs <- lift (py_iter telemetry_refs) ;;
     self_originating <- lift (uses_self_originating refs) ;;
     when (self_originating
           && negb (truthy (get decision "self_telemetry_contained")))
       (violation TELEMETRY_VIOLATION.OPAQUE_INFLUENCE evidence)).

(** [len(chain_override) > 0 and chain_override[-1] == suser_id]. *)
Definition chain_terminates (chain : list value) (suser_id : value) : bool :=
  match rev chain with
  | [] => false
  | last_ :: _ => py_eq last_ suser_id
  end.

(** Lines 1022-1030. *)
Definition decision_chain_override (evidence : list string)
    (decision : dict) : TM unit :=
  let chain_override := get decision "authority_chain_override" in
  when (negb (is_none chain_override))
    match chain_override with
    | VList items =>
        let contains_branch := existsb isinstance_list_or_dict items in
        let terminates := chain_terminates items (get decision "suser_id") in
        when (contains_branch || negb terminates)
          (violation TRUST_VIOLATION.ACCOUNTABILITY_BREAK evidence)
    | _ => violation TRUST_VIOLATION.ACCOUNTABILITY_BREAK evidence
    end.

(** Lines 1031-1042. *)
Definition decision_tail (oid : Z) (evidence : list string)
    (decision : dict) : TM unit :=
  when (truthy (get decision "lower_layer_authority_accumulation")
        || negb (truthy (get decision "higher_layer_can_intervene")))
    (violation TRUST_VIOLATION.DIRECTIONALITY_BREACH evidence) ;;;
  when (is_False (get decision "diagnostic_ready"))
    (violation ACCOUNTABILITY_VIOLATION.DIAGNOSTIC_GAP evidence) ;;;
  when (truthy (get decision "inferred_intent"))
    (mark_invalid ;;; record_justification oid decision) ;;;
  let consent_id := get decision "consent_id" in
  when (truthy consent_id)
    (found <- lift (vmap_get (consents state) consent_id) ;;
     let record := match found with Some r => deref state r | None => [] end in
     when (truthy (get record "withdrawn"))
       (violation CONSENT_VIOLATION.INVALID_CONSENT evidence)).

(** Lines 949-1042: one decision. *)
Definition trust_check_decision (r : ref) : TM unit :=
  let decision := deref state r in
  eid <- lift (_event_id (ids r) decision) ;;
  let evidence := [eid] in
  decision_identity (ids r) evidence decision ;;;
  decision_authority evidence decision ;;;
  decision_conduct evidence decision ;;;
  decision_telemetry evidence decision ;;;
  decision_chain_override evidence decision ;;;
  decision_tail (ids r) evidence decision.

(** [if <list>: report.add_violation(label, <list>)]. *)
Definition emit_collected (l : trust_locals) (k : evidence_list)
    (label : string) : TM unit :=
  when (nonempty (evidence_of l k)) (violation label (evidence_of l k)).

(** Lines 1044-1087. *)
Definition trust_emit_collected : TM unit :=
  l <- locals ;;
  when (invalid_state l)
    (violation STRUCTURAL_VIOLATION.INVALID_STATE ["structural"] ;;;
     emit_collected l justification_evidence
       STRUCTURAL_VIOLATION.JUSTIFIED_INVALIDITY) ;;;
  emit_collected l delegation_invalid_evidence
    TRUST_VIOLATION.DELEGATION_INVALID ;;;
  emit_collected l implicit_delegation_evidence
    CONSENT_VIOLATION.IMPLICIT_DELEGATION ;;;
  emit_collected l sovereignty_displaced_evidence
    TRUST_VIOLATION.SOVEREIGNTY_DISPLACED ;;;
  emit_collected l consent_invalid_evidence
    CONSENT_VIOLATION.INVALID_CONSENT ;;;
  emit_collected l consent_coerced_evidence
    CONSENT_VIOLATION.COERCED_OR_OPAQUE ;;;
  emit_collected l telemetry_prescriptive_evidence
    TELEMETRY_VIOLATION.PRESCRIPTIVE_USE ;;;
  emit_collected l telemetry_opaque_evidence
    TELEMETRY_VIOLATION.OPAQUE_INFLUENCE ;;;
  emit_collected l telemetry_reporting_evidence
    ACCOUNTABILITY_VIOLATION.MISSING_REPORTING ;;;
  emit_collected l missing_reporting_evidence
    ACCOUNTABILITY_VIOLATION.MISSING_REPORTING.
End TrustEvaluator.

(** The checks both evaluators end with, over any locals. *)
Section CommonChecks.
Variable L : Type.
Variable ids : ref -> Z.
Variable state : State.

(** [audit = state.audits.get(name); if audit is not None and not
    audit.get("minimum_met"): ...]. *)
Definition check_audit (name label : string) : M L unit :=
  match vmap_find (audits state) (VStr name) with
  | Some r =>
      when (negb (truthy (get (deref state r) "minimum_met")))
        (eid <- lift (_event_id (ids r) (deref state r)) ;;
         violation label [eid])
  | None => ret tt
  end.

(** [if not item.get(flag): report.add_violation(label, [_event_id(item)])]. *)
Definition check_flag (flag label : string) (r : ref) : M L unit :=
  when (negb (truthy (get (deref state r) flag)))
    (eid <- lift (_event_id (ids r) (deref state r)) ;;
     violation label [eid]).

Definition check_enforcement (r : ref) : M L unit :=
  let enforcement_ := deref state r in
  eid <- lift (_event_id (ids r) enforcement_) ;;
  let evidence := [eid] in
  when (enforcement_incompatible enforcement_)
    (violation ENFORCEMENT_VIOLATION.SOVEREIGNTY_INCOMPATIBLE evidence) ;;;
  when (enforcement_unattributed enforcement_)
    (violation ENFORCEMENT_VIOLATION.NO_ATTRIBUTION evidence).

Definition check_evaluation : M L unit :=
  when (any_undeterminable (objects state (event_log state)))
    (violation EVALUATION_VIOLATION.UNDETERMINABLE_PASS ["undeterminable"]) ;;;
  current <- get_score ;;
  when (negb (is_none current))
    (violation EVALUATION_VIOLATION.REDUCTIONISM ["reductionism"]).
End CommonChecks.

(** [report.debug = {"events": state.event_log, "receipts": state.receipt_log}]. *)
Definition with_debug (report : Report) (state : State) (error : option exn)
  : Report :=
  mkReport (kind report) (violations report)
    (mkDebug (objects state (event_log state)) (receipt_log state) error)
    (score report).

Definition trust_program (ids : ref -> Z) (state : State) : TM unit :=
  for_each (event_log state) (trust_scan_event ids state) ;;;
  for_each (receipt_log state) (trust_scan_receipt state) ;;;
  for_each (vmap_values (delegations state)) (trust_check_delegation ids state) ;;;
  for_each (vmap_values (consents state)) (trust_check_consent ids state) ;;;
  for_each (vmap_values (telemetry state)) (trust_check_telemetry ids state) ;;;
  for_each (decisions state) (trust_check_decision ids state) ;;;
  trust_emit_collected ;;;
  check_audit ids state "trust" AUDIT_VIOLATION.TRUST_MINIMUM_MISSING ;;;
  for_each (disclosures state)
    (check_flag ids state "user_actionable"
       ACCOUNTABILITY_VIOLATION.NON_ACTIONABLE_DISCLOSURE) ;;;
  for_each (limitation_disclosures state)
    (check_flag ids state "limits_disclosed"
       ACCOUNTABILITY_VIOLATION.LIMITS_UNDISCLOSED) ;;;
  for_each (enforcement state) (check_enforcement ids state) ;;;
  check_evaluation state.

(** Running a program from a fresh report. *)
Definition run_report {L : Type} (kind : string) (init : L) (state : State)
    (program : M L unit) : result Report :=
  match program (new_report kind, init) with
  | Ok (_, (report, _)) => Ok (with_debug report state None)
  | Raise e => Raise e
  end.

Definition _evaluate_trust_unsafe (ids : ref -> Z) (state : State)
  : result Report :=
  run_report "trust" trust_locals_init state (trust_program ids state).

(** The safety net of [evaluate_trust] and [evaluate_respect]. *)
Definition evaluator_fallback (kind : string) (state : State) (exc : exn)
  : Report :=
  let report := new_report kind in
  let report :=
    add_violation report STRUCTURAL_VIOLATION.INVALID_STATE ["evaluator"] in
  let report :=
    add_violation report TRUST_VIOLATION.ACCOUNTABILITY_BREAK ["evaluator"] in
  with_debug report state (Some exc).

Definition evaluate_trust (ids : ref -> Z) (state : State) : Report :=
  match _evaluate_trust_unsafe ids state with
  | Ok report => report
  | Raise exc => evaluator_fallback "trust" state exc
  end.

(** *** [_evaluate_respect_unsafe] *)

(** The one local of the respect evaluator:
    [revocation_delay_disclosed_at]. *)
Definition RM : Type -> Type := M (option Z).

(** [int(event.get("time") or 0)]. *)
Definition event_time_of (event : dict) : result Z :=
  py_int (por (get event "time") (VInt 0)).

(** [any(suser != actor for suser in affected)]. *)
Definition affects_others_of (action : dict) : result bool :=
  (affected <- py_iter (get_default action "affected_susers" (VList [])) ;;
   Ok (existsb (fun suser => negb (py_eq suser (get action "actor_suser_id")))
         affected))%result.

Section RespectEvaluator.
Variable ids : ref -> Z.
Variable state : State.

(** Lines 1338-1351: the earliest disclosed revocation delay. *)
Definition respect_scan_disclosure (r : ref) : RM unit :=
  let event := deref state r in
  when (type_is event "revocation_policy"
        && truthy (get event "revocation_delay")
        && truthy (get event "revocation_delay_disclosed"))
    (event_time <- lift (event_time_of event) ;;
     modify (fun revocation_delay_disclosed_at =>
               match revocation_delay_disclosed_at with
               | None => Some event_time
               | Some t => Some (Z.min t event_time)
               end)).

(** Lines 1353-1355. *)
Definition respect_scan_score (r : ref) : RM unit :=
  let event := deref state r in
  when (type_is event "reductionist_metric") (set_score (get event "score")).

(** Lines 1357-1380: one shared action. *)
Definition respect_check_action (r : ref) : RM unit :=
  let action := deref state r in
  let on k := truthy (get action k) in
  eid <- lift (_event_id (ids r) action) ;;
  let evidence := [eid] in
  affects_others <- lift (affects_others_of action) ;;
  let consent_basis := get action "consent_basis" in
  when affects_others
    (agreed <- lift (in_str_set consent_basis ["mutual"; "federated"]) ;;
     when (negb agreed)
       (violation RESPECT_VIOLATION.UNILATERAL_IMPACT evidence ;;;
        violation RESPECT_VIOLATION.MUTUAL_CONSENT_MISSING evidence)) ;;;
  when (affects_others && negb (on "consent_legible"))
    (violation RESPECT_VIOLATION.UNILATERAL_IMPACT evidence) ;;;
  when (any_falsy action ["boundary_constraints_met"; "internal_accountable"])
    (violation RESPECT_VIOLATION.BOUNDARY_IGNORED evidence) ;;;
  when (on "cross_context" && negb (on "renewed_consent"))
    (violation RESPECT_VIOLATION.CONTEXT_LEAK evidence) ;;;
  when (affects_others && negb (on "influence_disclosed"))
    (violation RESPECT_VIOLATION.NON_INTERFERENCE_BREACH evidence) ;;;
  when (affects_others && py_eq consent_basis (VStr "unilateral"))
    (violation RESPECT_VIOLATION.UNILATERAL_CONSENT_BASIS evidence) ;;;
  when (affects_others && py_eq consent_basis (VStr "none")
        && negb (on "scope_constrained"))
    (violation RESPECT_VIOLATION.MUTUAL_CONSENT_MISSING evidence) ;;;
  when (is_False (get action "diagnostic_ready"))
    (violation RESPECT_VIOLATION.DIAGNOSTIC_GAP evidence).

(** Lines 1413-1427: a delayed revocation against the disclosures. *)
Definition respect_check_revocation (oid : Z) (event : dict) : RM unit :=
  delay <- lift (py_int (por (get event "delay") (VInt 0))) ;;
  when (negb (delay =? 0))
    (let disclosed := get event "delay_disclosed" in
     event_time <- lift (event_time_of event) ;;
     revocation_delay_disclosed_at <- locals ;;
     when (is_False disclosed
           || is_none disclosed
              && match revocation_delay_disclosed_at with
                 | None => true
                 | Some t => event_time <? t
                 end)
       (eid <- lift (_event_id oid event) ;;
        violation GOVERNANCE_VIOLATION.REVOCATION_DEFECT [eid])).

(** [if <condition>: report.add_violation(label, [_event_id(event)])]. *)
Definition flag_event (condition : bool) (label : string) (oid : Z)
    (event : dict) : RM unit :=
  when condition
    (eid <- lift (_event_id oid event) ;; violation label [eid]).

(** Lines 1389-1471: the governance events of the log. *)
Definition respect_scan_governance (r : ref) : RM unit :=
  let event := deref state r in
  when (type_is event "entry_request")
    (eid <- lift (_event_id (ids r) event) ;;
     when (any_falsy event ["entry_conditions_declared"; "entry_conditions_met"])
       (violation GOVERNANCE_VIOLATION.MISSING_ENTRY_CONDITIONS [eid])) ;;;
  when (type_is event "boundary_rule")
    (flag_event (is_False (get event "interface_rules_present"))
       GOVERNANCE_VIOLATION.INTERFACE_GAP (ids r) event) ;;;
  when (type_is event "revocation_policy")
    (eid <- lift (_event_id (ids r) event) ;;
     when (any_falsy event
             ["monitoring"; "revocation_legible"; "revocation_contestable"])
       (violation GOVERNANCE_VIOLATION.REVOCATION_DEFECT [eid]) ;;;
     when (truthy (get event "revocation_delay")
           && negb (truthy (get event "revocation_delay_disclosed")))
       (violation GOVERNANCE_VIOLATION.REVOCATION_DEFECT [eid])) ;;;
  when (type_is event "revoke_delegation")
    (respect_check_revocation (ids r) event) ;;;
  when (type_is event "boundary_declaration")
    (flag_event (negb (truthy (get event "explicit")))
       RESPECT_VIOLATION.IMPLICIT_BOUNDARIES (ids r) event) ;;;
  when (type_is event "federated_governance")
    (eid <- lift (_event_id (ids r) event) ;;
     when (any_falsy event
             [ "entry_exit_defined"; "non_interference"; "auditability";
               "contestable" ])
       (violation GOVERNANCE_VIOLATION.FEDERATED_GAP [eid])) ;;;
  when (type_is event "boundary_failure_modes")
    (eid <- lift (_event_id (ids r) event) ;;
     when (any_truthy event
             [ "implicit_consent"; "opaque_enforcement"; "hidden_influence";
               "irrevocable_participation" ])
       (violation GOVERNANCE_VIOLATION.FAILURE_MODE_IGNORED [eid])) ;;;
  when (type_is event "respect_principles")
    (eid <- lift (_event_id (ids r) event) ;;
     when (any_falsy event
             [ "boundary_integrity"; "non_coercion"; "mutual_legibility";
               "contextual_consent"; "contestability" ])
       (violation RESPECT_VIOLATION.PRINCIPLE_BREACH [eid])) ;;;
  when (type_is event "participation_declaration")
    (eid <- lift (_event_id (ids r) event) ;;
     when (any_falsy event
             [ "scope_declared"; "influence_declared"; "boundaries_declared";
               "enforcement_legible"; "enforcement_proportionate";
               "enforcement_contestable" ])
       (violation RESPECT_VIOLATION.OPAQUE_ENFORCEMENT [eid])).

(** Lines 1477-1488: the condition of a coercive default; the expiry is
    compared only when nothing before it in the [or] chain held. *)
Definition coercive_default (default : dict) : result bool :=
  let expires_at := get default "expires_at" in
  if any_truthy default ["exploits_bias"; "expands_scope"; "privileges_platform"]
     || any_falsy default ["justifiable"; "reversible"]
  then Ok true
  else if truthy (get_default default "active" (VBool true))
          && negb (is_none expires_at)
  then py_ge (VInt (clock state)) expires_at
  else Ok false.

(** Lines 1473-1489: one default. *)
Definition respect_check_default (r : ref) : RM unit :=
  let default := deref state r in
  eid <- lift (_event_id (ids r) default) ;;
  coercive <- lift (coercive_default default) ;;
  when coercive (violation RESPECT_VIOLATION.COERCIVE_DEFAULT [eid]).
End RespectEvaluator.

Definition respect_program (ids : ref -> Z) (state : State) : RM unit :=
  for_each (event_log state) (respect_scan_disclosure state) ;;;
  for_each (event_log state) (respect_scan_score state) ;;;
  for_each (shared_actions state) (respect_check_action ids state) ;;;
  for_each (vmap_values (entry_conditions state))
    (check_flag ids state "conditions_defined"
       GOVERNANCE_VIOLATION.MISSING_ENTRY_CONDITIONS) ;;;
  for_each (event_log state) (respect_scan_governance ids state) ;;;
  for_each (defaults state) (respect_check_default ids state) ;;;
  check_audit ids state "respect" AUDIT_VIOLATION.RESPECT_MINIMUM_MISSING ;;;
  for_each (enforcement state) (check_enforcement ids state) ;;;
  check_evaluation state.

Definition _evaluate_respect_unsafe (ids : ref -> Z) (state : State)
  : result Report :=
  run_report "respect" None state (respect_program ids state).

Definition evaluate_respect (ids : ref -> Z) (state : State) : Report :=
  match _evaluate_respect_unsafe ids state with
  | Ok report => report
  | Raise exc => evaluator_fallback "respect" state exc
  end.

(** *** The S-User view *)

Local Close Scope eval_scope.

(** [_receipt_visible_to_suser(receipt, suser_id)]. *)
Definition _receipt_visible_to_suser (receipt : dict) (suser_id : string)
  : result bool :=
  let receipt_type := get receipt "type" in
  if py_eq receipt_type (VStr "decision_receipt") then
    let delivered := get receipt "delivered_to_suser" in
    let delivered :=
      if is_none delivered
      then VBool (negb (is_False (get receipt "report_to_suser")))
      else delivered in
    Ok (py_eq (get receipt "suser_id") (VStr suser_id) && truthy delivered)
  else
    owned <- in_str_set receipt_type ["delegation_receipt"; "consent_receipt"] ;;
    if owned then Ok (py_eq (get receipt "suser_id") (VStr suser_id))
    else if py_eq receipt_type (VStr "shared_action_receipt") then
      let affected := get_default receipt "affected_susers" (VList []) in
      if py_eq (get receipt "actor_suser_id") (VStr suser_id) then Ok true
      else py_in (VStr suser_id) affected
    else Ok false.

(** [view.pop(field, None)] for a field that need not be a string. *)
Definition pop_value (view : dict) (field : value) : dict :=
  match field with
  | VStr k => pop view k
  | _ => view
  end.

(** The set [redacted] of [_redact_receipt]. *)
Definition redacted_set (receipt : dict) : result vset :=
  items <- py_iter (por (get receipt "redacted_fields") (VList [])) ;;
  redacted <- vset_of items ;;
  if is_False (get receipt "explanation_delivered")
  then rfold vset_add redacted [VStr "explanation"; VStr "explanation_legible"]
  else Ok redacted.

(** [_redact_receipt(receipt)]. *)
Definition _redact_receipt (receipt : dict) : result dict :=
  let view := receipt in
  redacted <- redacted_set view ;;
  let view := fold_left pop_value redacted view in
  if nonempty redacted
  then (names <- py_sorted redacted ;;
        Ok (setitem view "redacted_fields" (VList names)))
  else Ok view.

Record SUserView : Type := mkView {
  view_suser_id : string;
  view_receipts : list dict
}.

(** The loop of [suser_view]. *)
Fixpoint visible_receipts (receipt_log : list dict) (suser_id : string)
  : result (list dict) :=
  match receipt_log with
  | [] => Ok []
  | receipt :: rest =>
      visible <- _receipt_visible_to_suser receipt suser_id ;;
      if visible
      then (view <- _redact_receipt receipt ;;
            others <- visible_receipts rest suser_id ;;
            Ok (view :: others))
      else visible_receipts rest suser_id
  end.

Definition suser_view (state : State) (suser_id : string) : result SUserView :=
  receipts <- visible_receipts (receipt_log state) suser_id ;;
  Ok (mkView suser_id receipts).

(** [receipts_by_decision.setdefault(decision_id, []).append(receipt)]. *)
Definition group_receipt (groups : vmap (list dict)) (receipt : dict)
  : result (vmap (list dict)) :=
  let decision_id := get receipt "decision_id" in
  found <- vmap_get groups decision_id ;;
  Ok (vmap_put groups decision_id
        (match found with Some rs => rs | None => [] end ++ [receipt])).

Local Open Scope eval_scope.

Definition VM : Type -> Type := M unit.

(** Lines 1309-1314: the authority chain as the receipt shows it. *)
Definition chain_breaks (receipt : dict) (suser_id : string) : bool :=
  let chain := get receipt "authority_chain" in
  let contains_branch :=
    match chain with
    | VList items => existsb isinstance_list_or_dict items
    | _ => false
    end in
  let terminates :=
    match chain with
    | VList items =>
        match rev items with
        | [] => false
        | last_ :: _ => py_eq last_ (VStr suser_id)
        end
    | _ => false
    end in
  negb (truthy chain) || contains_branch || negb terminates.

(** Lines 1284-1315: one visible receipt of a decision. *)
Definition view_check_receipt (suser_id : string) (decision receipt : dict)
  : VM unit :=
  let evidence := [receipt_evidence receipt] in
  when (negb (truthy (get receipt "explanation")))
    (violation ACCOUNTABILITY_VIOLATION.NON_LEGIBLE_EXPLANATION evidence) ;;;
  when (negb (is_True (get receipt "report_to_suser")))
    (violation ACCOUNTABILITY_VIOLATION.MISSING_REPORTING evidence) ;;;
  when (negb (truthy (get receipt "explanation_legible")))
    (violation ACCOUNTABILITY_VIOLATION.ILLEGIBLE_REPORTING evidence) ;;;
  when (is_False (get receipt "explanation_contextual"))
    (violation ACCOUNTABILITY_VIOLATION.NON_LEGIBLE_EXPLANATION evidence) ;;;
  when (truthy (get decision "telemetry_refs")
        && negb (truthy (get receipt "telemetry_refs")))
    (violation TELEMETRY_VIOLATION.OPAQUE_INFLUENCE evidence) ;;;
  when (any_falsy receipt ["contest_path"; "revocation_path"])
    (violation ACCOUNTABILITY_VIOLATION.NON_ACCOUNTABLE_OUTCOME evidence) ;;;
  when (chain_breaks receipt suser_id)
    (violation TRUST_VIOLATION.ACCOUNTABILITY_BREAK evidence).

(** [decision.get("suser_id") != suser_id and suser_id not in affected]:
    the decisions the loop skips. *)
Definition decision_out_of_view (decision : dict) (suser_id : string)
  : result bool :=
  (let affected := get_default decision "affected_susers" (VList []) in
   if negb (py_eq (get decision "suser_id") (VStr suser_id))
   then (listed <- py_in (VStr suser_id) affected ;; Ok (negb listed))
   else Ok false)%result.

(** Lines 1272-1315: one decision. *)
Definition view_check_decision (suser_id : string)
    (receipts_by_decision : vmap (list dict)) (decision : dict) : VM unit :=
  let decision_id := get decision "decision_id" in
  skip <- lift (decision_out_of_view decision suser_id) ;;
  if skip then ret tt
  else
    found <- lift (vmap_get receipts_by_decision decision_id) ;;
    let receipts := match found with Some rs => rs | None => [] end in
    if negb (nonempty receipts)
    then violation ACCOUNTABILITY_VIOLATION.MISSING_REPORTING
           [("decision:" ++ py_str decision_id ++ ":missing_receipt")%string]
    else for_each receipts (view_check_receipt suser_id decision).

Definition evaluate_trust_view (state : State) (suser_id : string)
  : result Report :=
  (view <- suser_view state suser_id ;;
   let view_receipts_ :=
     filter (fun receipt => type_is receipt "decision_receipt")
       (view_receipts view) in
   receipts_by_decision <- rfold group_receipt [] view_receipts_ ;;
   match
     for_each (objects state (decisions state))
       (view_check_decision suser_id receipts_by_decision)
       (new_report "trust_view", tt)
   with
   | Ok (_, (report, _)) =>
       Ok (mkReport (kind report) (violations report)
             (mkDebug (objects state (event_log state)) (view_receipts view) None)
             (score report))
   | Raise e => Raise e
   end)%result.

(** *** [query_decision] *)

(** The scan runs over [reversed(state.decisions)] and stops at the first
    decision whose [decision_id] equals the one asked for: the latest
    such decision answers. *)
Definition query_decision (state : State) (decision_id : value) : dict :=
  match
    find (fun item => py_eq (get item "decision_id") decision_id)
      (rev (objects state (decisions state)))
  with
  | None => [("decision_id", decision_id); ("legible", VBool false)]
  | Some decision =>
      [ ("decision_id", decision_id);
        ("origin", get decision "service_id");
        ("data_influence", get_default decision "telemetry_refs" (VList []));
        ("authoriser", get decision "suser_id");
        ("inspector", get decision "suser_id");
        ("revoker", get decision "suser_id");
        ("legible", get decision "explanation_legible");
        ("explanation", get decision "explanation");
        ("context_id", get decision "context_id");
        ("affected_susers",
         get_default decision "affected_susers" (VList [])) ]
  end.

End Model.
(** * Specification

    The vocabulary of the statements: what they say of logs, reports and
    views, the relations the proofs carry through the evaluators'
    programs, and the logs the statements are instantiated on. *)

Import Py Lib Model.

(** ** The receipt chain *)

(** A step that leaves the receipt log and its last hash alone. *)
Definition same_receipt_tail (st st' : State) : Prop :=
  receipt_log st' = receipt_log st
  /\ receipt_hash_prev st' = receipt_hash_prev st.

(** A finalized receipt [r]: it cites the last hash of [st], and its own
    hash is the last hash of [st']. *)
Definition links (st st' : State) (r : dict) : Prop :=
  get r "receipt_hash_prev" = opt_str (receipt_hash_prev st)
  /\ exists h, get r "receipt_hash" = VStr h /\ receipt_hash_prev st' = Some h.

(** The chain, from the hash [prev] the first receipt must cite. *)
Fixpoint chained (prev : value) (log : list dict) : Prop :=
  match log with
  | [] => True
  | r :: log' =>
      get r "receipt_hash_prev" = prev /\ chained (get r "receipt_hash") log'
  end.

(** The hash the next receipt must cite. *)
Definition tail_hash (prev : value) (log : list dict) : value :=
  fold_left (fun _ r => get r "receipt_hash") log prev.

(** The invariant of [apply_event]: the log is chained from [None], and
    the state remembers the hash of its last receipt. *)
Definition chain_inv (st : State) : Prop :=
  chained VNone (receipt_log st)
  /\ opt_str (receipt_hash_prev st) = tail_hash VNone (receipt_log st).

(** The chain as the specification words it, by positions in the log. *)
Definition hash_chained (log : list dict) : Prop :=
  (forall r, nth_error log 0 = Some r -> get r "receipt_hash_prev" = VNone)
  /\ (forall i p r,
        nth_error log i = Some p -> nth_error log (S i) = Some r ->
        get r "receipt_hash_prev" = get p "receipt_hash").

(** ** Programs of the evaluators only add violations *)

(** A program that, when it returns, has only appended to the report's
    violations. *)
Definition grows (L A : Type) (m : M L A) : Prop :=
  forall s a s', m s = Ok (a, s') ->
    exists vs, violations (fst s') = violations (fst s) ++ vs.

(** ** Decision-time authority *)

(** The values the comparisons with a logical time accept: numbers,
    booleans among them. *)
Definition number (v : value) : option Z :=
  match v with
  | VInt z => Some z
  | VBool b => Some (Z_of_bool b)
  | _ => None
  end.

(** A bound that is absent ([None]) or a number satisfying [P]. *)
Definition absent_or (P : Z -> Prop) (v : value) : Prop :=
  v = VNone \/ exists z, number v = Some z /\ P z.

(** A delegation active at time [t]: issued by then, not expired, and not
    revoked as of [t] (the scheduled revocation time when there is one, the
    [revoked] flag otherwise). *)
Definition delegation_active_spec (delegation : dict) (t : Z) : Prop :=
  absent_or (fun issued_at => issued_at <= t) (get delegation "issued_at")
  /\ absent_or (fun expires_at => t < expires_at) (get delegation "expires_at")
  /\ match get delegation "revocation_effective_at" with
     | VNone => truthy (get_default delegation "revoked" (VBool false)) = false
     | effective_at => exists z, number effective_at = Some z /\ t < z
     end.

(** The authority of a decision is traceable: the delegation it cites
    exists, belongs to the decision's S-User and is active at the decision
    time. *)
Definition authority_traceable (st : State) (decision : dict) : Prop :=
  exists r t,
    vmap_find (delegations st) (get decision "delegation_id") = Some r
    /\ py_eq (get (deref st r) "suser_id") (get decision "suser_id") = true
    /\ decision_time_of st decision = Ok t
    /\ delegation_active_spec (deref st r) t.

(** ** Two evaluations that differ in object addresses only *)

(** Two reports with the same labels, in the same order, and the same
    score; evidence ids may differ. *)
Definition same_report (a b : Report) : Prop :=
  labels a = labels b /\ score a = score b.

(** Two states of an evaluation, related by [RL] on the locals. *)
Definition related (L : Type) (RL : L -> L -> Prop) (s1 s2 : Report * L)
  : Prop :=
  same_report (fst s1) (fst s2) /\ RL (snd s1) (snd s2).

(** Both computations raise, or both return, with related values and
    related states. *)
Definition sim (L : Type) (RL : L -> L -> Prop) (A : Type)
    (RA : A -> A -> Prop) (m1 m2 : M L A) : Prop :=
  forall s1 s2, related RL s1 s2 ->
    match m1 s1, m2 s2 with
    | Ok (a1, s1'), Ok (a2, s2') => RA a1 a2 /\ related RL s1' s2'
    | Raise _, Raise _ => True
    | _, _ => False
    end.

(** The locals of two trust evaluations agree on the flag and on which
    evidence lists are empty (on their lengths). *)
Definition trust_related (l1 l2 : trust_locals) : Prop :=
  invalid_state l1 = invalid_state l2
  /\ forall k, List.length (evidence_of l1 k) = List.length (evidence_of l2 k).

(** One replay: the events folded into a fresh [State], then the receipt
    log and the labels of both evaluators.  [ids] gives the addresses the
    objects of this run happen to have. *)
Definition replay (ids : ref -> Z) (events : list dict)
  : result (list dict * list string * list string) :=
  st <- run_events State_init events ;;
  Ok (receipt_log st, labels (evaluate_trust ids st),
      labels (evaluate_respect ids st)).

(** ** The safety net *)

(** A program that raises from every state. *)
Definition always_raises (L A : Type) (m : M L A) : Prop :=
  forall s, exists e, m s = Raise e.

(** The labels of the report the wrappers build in their [except]
    branch. *)
Definition fallback_labels : list string :=
  [STRUCTURAL_VIOLATION.INVALID_STATE; TRUST_VIOLATION.ACCOUNTABILITY_BREAK].

(** ** Redaction and the S-User view *)

(** A decision receipt counts as delivered: [delivered_to_suser] when it
    is set, else [report_to_suser is not False]. *)
Definition counts_as_delivered (receipt : dict) : bool :=
  let delivered := get receipt "delivered_to_suser" in
  truthy (if is_none delivered
          then VBool (negb (is_False (get receipt "report_to_suser")))
          else delivered).

(** ** Keys of the maps *)

(** What [==] and [hash] see of a hashable value: [True] and [1] are the
    same key, a string is its text. *)
Inductive hkey : Type :=
| KNone
| KNum (z : Z)
| KStr (s : string).

Definition key_of (v : value) : hkey :=
  match v with
  | VBool b => KNum (Z_of_bool b)
  | VInt z => KNum z
  | VStr s => KStr s
  | _ => KNone
  end.

Definition keys_hashable (A : Type) (m : vmap A) : Prop :=
  Forall (fun kv => hashable (fst kv) = true) m.

(** ** The view evaluator *)

(** The receipt is filed under its [decision_id]. *)
Definition in_group (groups : vmap (list dict)) (receipt : dict) : Prop :=
  exists rs, vmap_find groups (get receipt "decision_id") = Some rs
             /\ In receipt rs.

(** ** What a branch of the dispatch does to the objects *)

(** The shapes a branch's effect on the heap, on [decisions] and on
    [boundaries] can take. *)
Inductive effect (st : State) (r : ref) (st' : State) (rc : dict) : Prop :=
| eff_none :
    heap st' = heap st -> decisions st' = decisions st ->
    boundaries st' = boundaries st ->
    type_is rc "decision_receipt" = false -> effect st r st' rc
| eff_store (x : ref) (d : dict) :
    heap st' = list_set (heap st) x d ->
    (In x (vmap_values (boundaries st))
     \/ (get d "decision_id" = get (deref st x) "decision_id"
         /\ get d "suser_id" = get (deref st x) "suser_id")) ->
    decisions st' = decisions st -> boundaries st' = boundaries st ->
    type_is rc "decision_receipt" = false -> effect st r st' rc
| eff_decision :
    heap st' = heap st -> decisions st' = decisions st ++ [r] ->
    boundaries st' = boundaries st ->
    get rc "decision_id" = get (deref st r) "decision_id" ->
    get rc "suser_id" = get (deref st r) "suser_id" -> effect st r st' rc
| eff_boundary (k : value) :
    heap st' = heap st -> decisions st' = decisions st ->
    boundaries st' = vmap_put (boundaries st) k r ->
    type_is rc "decision_receipt" = false -> effect st r st' rc
| eff_boundary_new (k : value) (d : dict) :
    heap st' = list_set (heap st ++ [[]]) (List.length (heap st)) d ->
    decisions st' = decisions st ->
    boundaries st' = vmap_put (boundaries st) k (List.length (heap st)) ->
    type_is rc "decision_receipt" = false -> effect st r st' rc.

(** ** Decisions and their receipts in reachable states *)

(** Every decision receipt of the log has its decision in [decisions],
    with the same [decision_id] and [suser_id]; decisions are objects of
    the heap, and no boundary record is a decision. *)
Definition view_inv_on (h : list dict) (ds bs : list ref) (log : list dict)
  : Prop :=
  (forall d, In d ds -> (d < List.length h)%nat)
  /\ (forall b, In b bs -> (b < List.length h)%nat /\ ~ In b ds)
  /\ (forall receipt, In receipt log ->
        type_is receipt "decision_receipt" = true ->
        exists d, In d ds
          /\ get (nth d h []) "decision_id" = get receipt "decision_id"
          /\ get (nth d h []) "suser_id" = get receipt "suser_id").

Definition view_inv (st : State) : Prop :=
  view_inv_on (heap st) (decisions st) (vmap_values (boundaries st))
    (receipt_log st).

(** ** Events the branches do not take *)

(** The id each of these branches subscripts the event with:
    [event["delegation_id"]], [event["consent_id"]], ... *)
Definition required_id (event_type : string) : option string :=
  if String.eqb event_type "delegation" then Some "delegation_id"
  else if String.eqb event_type "revoke_delegation" then Some "delegation_id"
  else if String.eqb event_type "consent" then Some "consent_id"
  else if String.eqb event_type "withdraw_consent" then Some "consent_id"
  else if String.eqb event_type "telemetry" then Some "telemetry_id"
  else if String.eqb event_type "service_action" then Some "decision_id"
  else if String.eqb event_type "boundary_declaration"
       then Some "environment_id"
  else if String.eqb event_type "entry_condition" then Some "environment_id"
  else None.

(** ** Receipt ids *)

(** The receipts of the log are numbered from 1, and the state holds the
    next number. *)
Definition numbered (st : State) : Prop :=
  next_receipt_id st = Z.of_nat (List.length (receipt_log st)) + 1
  /\ forall i r, nth_error (receipt_log st) i = Some r ->
                 get r "receipt_id" = VInt (Z.of_nat i + 1).

(** ** Logs every S-User can view *)

(** Lists of strings. *)
Definition strings (l : list value) : Prop :=
  Forall (fun v => isinstance_str v = true) l.

(** A receipt [suser_view] can decide on and redact: its [type] is a
    string, [affected_susers] is a list when present, and
    [redacted_fields] is absent, [None] or a list of strings. *)
Definition viewable (receipt : dict) : Prop :=
  isinstance_str (get receipt "type") = true
  /\ isinstance_list (get_default receipt "affected_susers" (VList [])) = true
  /\ (get receipt "redacted_fields" = VNone
      \/ exists fields, get receipt "redacted_fields" = VList fields
                        /\ strings fields).

(** ** One call of [apply_event], in full *)

(** The event as [apply_event] logs it, before the stamps: without the
    hashes and the time a sender may have put in. *)
Definition popped (event : dict) : dict :=
  pop (pop (pop event "event_hash") "event_hash_prev") "time_utc".

(** The event of the error path. *)
Definition error_event (event : dict) : dict :=
  let original_type := get event "type" in
  setitem
    (setitem (setitem (popped event) "type" (VStr "error"))
       "original_type" original_type)
    "error"
    (VStr (if is_none original_type then "missing_event_type"
           else ("unknown_event_type:" ++ py_str original_type)%string)).

(** ** Receipts that verify *)

(** [prev_hash] as a receipt stores it, read back. *)
Definition prev_hash_of (v : value) : option string :=
  match v with VStr p => Some p | _ => None end.

(** Recomputing the hash of a receipt from its content and the hash it
    cites gives the hash it carries. *)
Definition receipt_verifies (receipt : dict) : Prop :=
  get receipt "receipt_hash"
  = VStr (_hash_chain
            (_strip_hash_fields receipt ["receipt_hash"; "receipt_hash_prev"])
            (prev_hash_of (get receipt "receipt_hash_prev"))).

(** ** The two clocks *)

(** The two times of a receipt agree: [time_utc] is the default base time
    plus [time] seconds. *)
Definition times_agree (receipt : dict) : Prop :=
  exists t tu,
    get receipt "time" = VInt t
    /\ _event_time_utc _DEFAULT_BASE_TIME_UTC t = Ok tu
    /\ get receipt "time_utc" = VStr tu.

(** ** What a report can hold *)

(** A program that, when it returns, has appended only violations that
    satisfy [Q]. *)
Definition adds (L A : Type) (Q : ViolationRecord -> Prop) (m : M L A) : Prop :=
  forall s a s', m s = Ok (a, s') ->
    exists vs, violations (fst s') = violations (fst s) ++ vs /\ Forall Q vs.

(** A violation labelled [l] is backed by the fact [P]. *)
Definition backed (l : string) (P : Prop) (v : ViolationRecord) : Prop :=
  label v = l -> P.

(** A shared action that affects an S-User other than its actor on a
    consent basis that is neither mutual nor federated. *)
Definition affects_without_consent (action : dict) : Prop :=
  affects_others_of action = Ok true
  /\ in_str_set (get action "consent_basis") ["mutual"; "federated"] = Ok false.

(** ** Authority, both ways *)

(** The authority of a decision is traceable to a delegation that has a
    record. *)
Definition authority_backed (st : State) (decision : dict) : Prop :=
  exists r t,
    vmap_find (delegations st) (get decision "delegation_id") = Some r
    /\ deref st r <> []
    /\ py_eq (get (deref st r) "suser_id") (get decision "suser_id") = true
    /\ decision_time_of st decision = Ok t
    /\ delegation_active_spec (deref st r) t.

(** The authority chain of a receipt names a delegation issued after the
    decision was taken. *)
Definition cites_later (st : State) (receipt : dict) : Prop :=
  exists chain entry g,
    py_iter (por (get receipt "authority_chain") (VList [])) = Ok chain
    /\ In entry chain
    /\ isinstance_str entry = true
    /\ vmap_find (delegations st) entry = Some g
    /\ py_gt (get (deref st g) "issued_at") (get receipt "decision_time")
       = Ok true.

(** A cause for [AUTHORITY_UNTRACEABLE]: a decision without backed
    authority, or a decision receipt whose chain cites a later
    delegation. *)
Definition authority_alarm (st : State) : Prop :=
  (exists r, In r (decisions st) /\ ~ authority_backed st (deref st r))
  \/ (exists receipt, In receipt (receipt_log st)
        /\ type_is receipt "decision_receipt" = true
        /\ cites_later st receipt).

(** ** The evidence index *)

(** The violations of a report that carry the label [l]. *)
Definition labelled (l : string) (report : Report) : list ViolationRecord :=
  filter (fun v => String.eqb l (label v)) (violations report).

(** ** Receipts addressed to an S-User *)

(** The receipts [suser_view] shows to [suser_id]: their decision,
    delegation and consent receipts (a decision receipt when it counts as
    delivered) and the receipts of shared actions they took or are
    affected by. *)
Definition addressed_to (receipt : dict) (suser_id : string) : Prop :=
  (type_is receipt "decision_receipt" = true
   /\ py_eq (get receipt "suser_id") (VStr suser_id) = true
   /\ counts_as_delivered receipt = true)
  \/ ((type_is receipt "delegation_receipt" = true
       \/ type_is receipt "consent_receipt" = true)
      /\ py_eq (get receipt "suser_id") (VStr suser_id) = true)
  \/ (type_is receipt "shared_action_receipt" = true
      /\ (py_eq (get receipt "actor_suser_id") (VStr suser_id) = true
          \/ py_in (VStr suser_id)
               (get_default receipt "affected_susers" (VList [])) = Ok true)).

(** ** The score of a report *)

(** The score the event log leaves: that of its last
    [reductionist_metric] event, [None] when there is none. *)
Definition last_score (events : list dict) : value :=
  fold_left
    (fun current event =>
       if type_is event "reductionist_metric" then get event "score"
       else current)
    events VNone.

(** A program that leaves the score alone and adds no violation labelled
    [l]. *)
Definition quiet (L A : Type) (l : string) (m : M L A) : Prop :=
  forall s a s', m s = Ok (a, s') ->
    score (fst s') = score (fst s)
    /\ exists vs, violations (fst s') = violations (fst s) ++ vs
                  /\ Forall (fun v => label v <> l) vs.

(** A program that leaves the score alone and ends with [REDUCTIONISM] in
    the report exactly when it was there before or the score is set. *)
Definition settles (L : Type) (m : M L unit) : Prop :=
  forall s s', m s = Ok (tt, s') ->
    score (fst s') = score (fst s)
    /\ (In EVALUATION_VIOLATION.REDUCTIONISM (map label (violations (fst s')))
        <-> In EVALUATION_VIOLATION.REDUCTIONISM
              (map label (violations (fst s)))
            \/ score (fst s) <> VNone).

(** ** The range of the clock *)

(** The logical times the default base time can be moved by: down to
    0001-01-01T00:00:00 and up to 9999-12-31T23:59:59. *)
Definition clock_min : Z := -63902822400.
Definition clock_max : Z := 251635075199.

(** ** Telemetry inertia *)

(** The second state holds the authority the first one does: the
    identities, the delegations, consents and decisions, the shared
    environment, the audits and the clock are the same, and so is every
    object the first state holds. *)
Definition same_authority (st st' : State) : Prop :=
  susers st' = susers st /\ services st' = services st
  /\ delegations st' = delegations st /\ consents st' = consents st
  /\ decisions st' = decisions st /\ boundaries st' = boundaries st
  /\ entry_conditions st' = entry_conditions st
  /\ shared_actions st' = shared_actions st /\ defaults st' = defaults st
  /\ enforcement st' = enforcement st /\ audits st' = audits st
  /\ disclosures st' = disclosures st
  /\ limitation_disclosures st' = limitation_disclosures st
  /\ clock st' = clock st
  /\ forall x, (x < List.length (heap st))%nat -> deref st' x = deref st x.

(** ** Defaults and enforcement *)

(** A default the respect evaluator holds to be coercive at the clock of
    the state: by what it does, by what it lacks, or by still being active
    at or after its expiry. *)
Definition coercive (st : State) (default : dict) : Prop :=
  any_truthy default ["exploits_bias"; "expands_scope"; "privileges_platform"]
  = true
  \/ any_falsy default ["justifiable"; "reversible"] = true
  \/ (truthy (get_default default "active" (VBool true)) = true
      /\ exists expires_at,
           number (get default "expires_at") = Some expires_at
           /\ expires_at <= clock st).

(** An enforcement action nobody answers for. *)
Definition unattributed (enforcement : dict) : Prop :=
  truthy (get enforcement "attributable") = false
  \/ truthy (get enforcement "enforcer_id") = false.

(** ** Disclosed revocation delays *)

(** Some revocation policy of the log discloses its delay at the logical
    time [t]. *)
Definition disclosed_at (st : State) (t : Z) : Prop :=
  exists r,
    In r (event_log st)
    /\ type_is (deref st r) "revocation_policy" = true
    /\ truthy (get (deref st r) "revocation_delay") = true
    /\ truthy (get (deref st r) "revocation_delay_disclosed") = true
    /\ event_time_of (deref st r) = Ok t.

(** What the respect evaluator remembers of the disclosures: nothing, or
    the time of one of them. *)
Definition remembers (st : State) (l : option Z) : Prop :=
  match l with
  | None => True
  | Some t => disclosed_at st t
  end.

(** A program that keeps [I] of the locals. *)
Definition keeps (L A : Type) (I : L -> Prop) (m : M L A) : Prop :=
  forall s a s', I (snd s) -> m s = Ok (a, s') -> I (snd s').

(** ** Logs the properties are instantiated on *)

(** Addresses for the objects of a run. *)
Definition example_ids (r : ref) : Z := 4096 + 64 * Z.of_nat r.

(** The state after a list of events (the fresh state when it raises;
    the lemmas that use a state show the run that reaches it). *)
Definition state_after (events : list dict) : State :=
  match run_events State_init events with
  | Ok st => st
  | Raise _ => State_init
  end.

Definition ev_delegation : dict :=
  [("type", VStr "delegation"); ("delegation_id", VStr "del1");
   ("suser_id", VStr "alice"); ("grantee_id", VStr "svc");
   ("explicit", VBool true); ("scoped", VBool true); ("revocable", VBool true);
   ("suser_can_inspect", VBool true); ("suser_can_contest", VBool true);
   ("suser_can_revoke", VBool true)].

Definition ev_action (redacted : list value) : dict :=
  [("type", VStr "service_action"); ("decision_id", VStr "dec1");
   ("suser_id", VStr "alice"); ("service_id", VStr "svc");
   ("delegation_id", VStr "del1");
   ("explanation", VStr "why"); ("explanation_legible", VBool true);
   ("report_to_suser", VBool true); ("contest_path", VStr "contest");
   ("revocation_path", VStr "revoke"); ("redacted_fields", VList redacted)].

Definition ev_time_advance : dict :=
  [("type", VStr "time_advance"); ("ticks", VInt 5)].

Definition ev_trust_audit : dict :=
  [("type", VStr "trust_audit"); ("audit_id", VStr "audit1");
   ("minimum_met", VBool true)].

Definition ev_shared (affected : list value) : dict :=
  [("type", VStr "shared_action"); ("environment_id", VStr "env1");
   ("actor_suser_id", VStr "alice"); ("affected_susers", VList affected);
   ("consent_basis", VStr "none")].

Definition ev_bogus : dict := [("type", VStr "bogus")].

(** A decision at time 0, then a delegation issued at time 5 and an audit
    asserting the minimum. *)
Definition late_events : list dict :=
  [ev_action []; ev_time_advance; ev_delegation; ev_trust_audit].
Definition late_state : State := Eval vm_compute in state_after late_events.

(** A normal receipt, an error receipt, a normal receipt. *)
Definition chain_events : list dict := [ev_delegation; ev_bogus; ev_action []].
Definition chain_state : State := Eval vm_compute in state_after chain_events.

(** A decision that cites a delegation nobody granted and carries a
    number where the telemetry references go. *)
Definition faulty_events : list dict :=
  [[("type", VStr "service_action"); ("decision_id", VStr "dec1");
    ("suser_id", VStr "alice"); ("delegation_id", VStr "del1");
    ("telemetry_refs", VInt 5)]].
Definition faulty_state : State := Eval vm_compute in state_after faulty_events.

(** A shared action without consent, affecting bob, and one affecting
    nobody. *)
Definition shared_state : State :=
  Eval vm_compute in state_after [ev_shared [VStr "bob"]].
Definition solo_state : State := Eval vm_compute in state_after [ev_shared []].

(** States with an entry the evaluators read: the error event of an
    unknown type, a log entry [{}], a decision without a [type], and a
    disclosed-delay policy whose [time] is a list. *)
Definition bogus_state : State := Eval vm_compute in state_after [ev_bogus].
Definition untyped_log_state : State :=
  with_event_log (with_heap State_init [[]]) [0%nat].
Definition untyped_decision_state : State :=
  with_decisions
    (with_heap State_init
       [[("decision_id", VStr "dec1"); ("suser_id", VStr "alice")]])
    [0%nat].
Definition untimed_policy_state : State :=
  with_event_log
    (with_heap State_init
       [[("type", VStr "revocation_policy"); ("revocation_delay", VInt 1);
         ("revocation_delay_disclosed", VBool true);
         ("time", VList [VStr "not"; VStr "an"; VStr "int"])]])
    [0%nat].

(** A delegation, then a decision whose receipt redacts [fields]. *)
Definition redacted_events (fields : list string) : list dict :=
  [ev_delegation; ev_action (map VStr fields)].
Definition redacted_state : State :=
  Eval vm_compute in state_after (redacted_events ["authority_chain"]).
Definition hidden_state : State :=
  Eval vm_compute in state_after (redacted_events ["suser_id"]).
Definition lost_state : State :=
  Eval vm_compute in
    state_after (redacted_events ["authority_chain"; "decision_id"]).


(** The decision receipt of these logs is their second receipt. *)
Definition decision_receipt_of (st : State) : dict := nth 1 (receipt_log st) [].

(** The labels of the view report. *)
Definition view_labels (st : State) (suser_id : string)
  : result (list string) :=
  report <- evaluate_trust_view st suser_id ;; Ok (labels report).

Definition report_of (r : result Report) : Report :=
  match r with Ok report => report | Raise _ => new_report "none" end.

Definition view_of (st : State) (suser_id : string) : SUserView :=
  match suser_view st suser_id with
  | Ok view => view
  | Raise _ => mkView suser_id []
  end.

(** [time_utc] at logical time 0. *)
Definition epoch : string := "2026-01-01T00:00:00Z".

Definition ev_metric : dict :=
  [("type", VStr "reductionist_metric"); ("score", VInt 1)].

Definition delegated_state : State :=
  Eval vm_compute in state_after [ev_delegation].
(** The clock moved by five ticks. *)
Definition advanced_state : State :=
  Eval vm_compute in state_after [ev_time_advance].

(** A delegation for ten ticks. *)
Definition ev_grant : dict :=
  [("type", VStr "delegation"); ("delegation_id", VStr "del2");
   ("suser_id", VStr "alice"); ("grantee_id", VStr "svc");
   ("scope", VDict [("duration", VInt 10)])].
Definition granted_state : State := Eval vm_compute in state_after [ev_grant].

(** The delegation of [delegated_state], revoked with a delay of two
    ticks. *)
Definition ev_revoke : dict :=
  [("type", VStr "revoke_delegation"); ("delegation_id", VStr "del1");
   ("delay", VInt 2)].
Definition revoked_state : State :=
  Eval vm_compute in state_after [ev_delegation; ev_revoke].

(** A consent, a decision that cites it, and its withdrawal. *)
Definition ev_consent : dict :=
  [("type", VStr "consent"); ("consent_id", VStr "con1");
   ("suser_id", VStr "alice"); ("purpose", VStr "billing");
   ("informed", VBool true); ("specific", VBool true);
   ("revocable", VBool true); ("revocation_effective", VBool true)].
Definition ev_consented_action : dict :=
  ev_action [] ++ [("consent_id", VStr "con1")].
Definition ev_withdraw : dict :=
  [("type", VStr "withdraw_consent"); ("consent_id", VStr "con1")].
Definition consented_state : State :=
  Eval vm_compute in state_after [ev_consent; ev_consented_action].
Definition withdrawn_state : State :=
  Eval vm_compute in
    state_after [ev_consent; ev_consented_action; ev_withdraw].

(** An audit that meets the minimum, and a delegation followed by a
    decision. *)
Definition audited_state : State :=
  Eval vm_compute in state_after [ev_trust_audit].
Definition acted_state : State :=
  Eval vm_compute in state_after [ev_delegation; ev_action []].

(** What alice sees of [redacted_state]. *)
Definition redacted_view : SUserView :=
  Eval vm_compute in view_of redacted_state "alice".

(** A log that holds a metric. *)
Definition metric_state : State := Eval vm_compute in state_after [ev_metric].

(** What alice sees of [lost_state]. *)
Definition lost_view : SUserView :=
  Eval vm_compute in view_of lost_state "alice".

(** A state whose clock is one second past the last one [datetime] has. *)
Definition late_clock_state : State := with_clock State_init (clock_max + 1).

(** A telemetry event, a default that lasts five ticks with the clock
    moved to its expiry, and an enforcement action without an enforcer. *)
Definition ev_telemetry : dict :=
  [("type", VStr "telemetry"); ("telemetry_id", VStr "t1");
   ("prescriptive_use", VBool true)].
Definition telemetry_state : State :=
  Eval vm_compute in state_after [ev_telemetry].
Definition ev_default : dict :=
  [("type", VStr "default_setting"); ("default_id", VStr "d1");
   ("justifiable", VBool true); ("reversible", VBool true);
   ("duration", VInt 5)].
Definition expired_default_state : State :=
  Eval vm_compute in state_after [ev_default; ev_time_advance].
Definition ev_enforcement : dict :=
  [("type", VStr "enforcement"); ("enforcement_id", VStr "e1");
   ("enforcer_id", VNone); ("proportionate", VBool true);
   ("transparent", VBool true); ("contestable", VBool true);
   ("reversible", VBool true); ("punitive", VBool false);
   ("attributable", VBool true)].
Definition enforced_state : State :=
  Eval vm_compute in state_after [ev_enforcement].


(** A delayed revocation, and five ticks later a policy that discloses
    revocation delays. *)
Definition ev_disclosing_policy : dict :=
  [("type", VStr "revocation_policy"); ("revocable", VBool true);
   ("revocation_effective", VBool true); ("revocation_contestable", VBool true);
   ("revocation_delay", VBool true); ("revocation_delay_disclosed", VBool true)].
Definition late_policy_state : State :=
  Eval vm_compute in
    state_after [ev_delegation; ev_revoke; ev_time_advance;
                 ev_disclosing_policy].

(** * Properties of the reference model *)

(** ** The library functions on known values *)

Lemma sha256_hexdigest_abc :
  sha256_hexdigest "abc"
  = "ba7816bf8f01cfea414140de5dae2223b00361a396177a9cb410ff61f20015ad".
Proof. vm_compute. reflexivity. Qed.

Lemma canonical_json_sorts_keys :
  _canonical_json
    (VDict [("prev_hash", VNone); ("payload", VDict [("b", VInt 1); ("a", VBool true)])])
  = ("{" ++ String dquote "payload" ++ String dquote ":{"
     ++ String dquote "a" ++ String dquote ":true,"
     ++ String dquote "b" ++ String dquote ":1},"
     ++ String dquote "prev_hash" ++ String dquote ":null}")%string.
Proof. vm_compute. reflexivity. Qed.

Lemma event_time_utc_adds_seconds :
  _event_time_utc _DEFAULT_BASE_TIME_UTC 86461 = Ok "2026-01-02T00:01:01Z".
Proof. vm_compute. reflexivity. Qed.

(** ** Dictionaries *)

Lemma assoc_get_set_same (A : Type) (d : list (string * A)) k v :
  assoc_get (assoc_set d k v) k = Some v.
Proof.
  induction d as [|[k' v'] d IH]; simpl.
  - now rewrite String.eqb_refl.
  - destruct (String.eqb k k') eqn:E; simpl; rewrite E; auto.
Qed.

Lemma assoc_get_set_other (A : Type) (d : list (string * A)) k k' v :
  k <> k' -> assoc_get (assoc_set d k v) k' = assoc_get d k'.
Proof.
  intros Hne. induction d as [|[k0 v0] d IH]; simpl.
  - destruct (String.eqb k' k) eqn:E; auto.
    apply String.eqb_eq in E. congruence.
  - destruct (String.eqb k k0) eqn:E; simpl.
    + apply String.eqb_eq in E. subst k0.
      destruct (String.eqb k' k) eqn:E'; auto.
      apply String.eqb_eq in E'. congruence.
    + now rewrite IH.
Qed.

Lemma get_setitem_same d k v : get (setitem d k v) k = v.
Proof. unfold get, setitem. now rewrite assoc_get_set_same. Qed.

Lemma get_setitem_other d k k' v :
  k <> k' -> get (setitem d k v) k' = get d k'.
Proof. intros. unfold get, setitem. now rewrite assoc_get_set_other. Qed.

(** ** The receipt chain *)

Ltac rinv :=
  repeat match goal with
  | H : Ok _ = Ok _ |- _ => inversion H; subst; clear H
  | H : Raise _ = Ok _ |- _ => discriminate H
  | H : rbind ?m _ = Ok _ |- _ =>
      let E := fresh "E" in
      destruct m eqn:E; cbn [rbind] in H; cbv beta zeta in H; [| discriminate H]
  | H : (let '(_, _) := ?x in _) = Ok _ |- _ => destruct x
  | H : match ?x with _ => _ end = Ok _ |- _ =>
      let E := fresh "E" in destruct x eqn:E; try discriminate H
  end.

Lemma vmap_set_ok A (m : vmap A) k v m' :
  vmap_set m k v = Ok m' -> m' = vmap_put m k v.
Proof. unfold vmap_set. destruct (hashable k); congruence. Qed.

(** Unfolds the branch in [H] down to its binds. *)
Ltac unfold_branch H :=
  cbv beta zeta iota delta [alloc on_delegation on_revoke_delegation on_consent
    on_withdraw_consent on_telemetry on_service_action on_shared_action
    on_time_advance on_boundary_declaration on_entry_condition on_boundary_rule
    on_default_setting on_federated_governance on_receipt_only on_audit
    on_enforcement on_disclosure on_limitation_disclosure boundaries_merge] in H.

Ltac frame_tac :=
  intros; unfold same_receipt_tail;
  repeat match goal with
  | H : _ = Ok _ |- _ => progress (unfold_branch H)
  end;
  rinv;
  repeat match goal with
  | |- context [match ?x with _ => _ end] => destruct x
  end;
  split; reflexivity.

Lemma on_revoke_delegation_frame st r t st' rc :
  on_revoke_delegation st r t = Ok (st', rc) -> same_receipt_tail st st'.
Proof. frame_tac. Qed.

Lemma on_telemetry_frame st r t st' rc :
  on_telemetry st r t = Ok (st', rc) -> same_receipt_tail st st'.
Proof. frame_tac. Qed.

Lemma on_service_action_frame st r t st' rc :
  on_service_action st r t = Ok (st', rc) -> same_receipt_tail st st'.
Proof. frame_tac. Qed.

Lemma on_boundary_rule_frame st r t st' rc :
  on_boundary_rule st r t = Ok (st', rc) -> same_receipt_tail st st'.
Proof. frame_tac. Qed.

Lemma on_delegation_frame st r t st' rc :
  on_delegation st r t = Ok (st', rc) -> same_receipt_tail st st'.
Proof. frame_tac. Qed.

Lemma dispatch_frame ty branch st r t st' rc :
  dispatch ty = Some branch ->
  branch st r t = Ok (st', rc) -> same_receipt_tail st st'.
Proof.
  unfold dispatch.
  repeat match goal with
  | |- (if ?b then _ else _) = Some _ -> _ => destruct b
  end; intros Hb; inversion Hb; subst; clear Hb; try frame_tac.
Qed.

Lemma stamp_event_frame st event t tu st' r :
  stamp_event st event t tu = (st', r) -> same_receipt_tail st st'.
Proof.
  unfold stamp_event, alloc. intros H. inversion H; subst; clear H.
  split; reflexivity.
Qed.

Lemma add_receipt_links st t tu data :
  exists r,
    receipts (_add_receipt t tu (mkFrame st []) data) = [r]
    /\ links st (new_state (_add_receipt t tu (mkFrame st []) data)) r
    /\ receipt_log (new_state (_add_receipt t tu (mkFrame st []) data))
       = receipt_log st.
Proof.
  unfold _add_receipt; cbn [new_state receipts app].
  eexists; split; [reflexivity|]. split; [|reflexivity].
  split.
  - rewrite get_setitem_other by discriminate. apply get_setitem_same.
  - eexists; split; [apply get_setitem_same | reflexivity].
Qed.

Lemma add_error_receipt_links st ty event t tu :
  exists r,
    receipts (_add_error_receipt ty event t tu (mkFrame st [])) = [r]
    /\ links st (new_state (_add_error_receipt ty event t tu (mkFrame st []))) r
    /\ receipt_log (new_state (_add_error_receipt ty event t tu (mkFrame st [])))
       = receipt_log st.
Proof.
  unfold _add_error_receipt; cbn [new_state receipts app].
  eexists; split; [reflexivity|]. split; [|reflexivity].
  split.
  - rewrite get_setitem_other by discriminate. apply get_setitem_same.
  - eexists; split; [apply get_setitem_same | reflexivity].
Qed.

(** One call appends the receipts it returns, at most one, linked to the
    tail the state held. *)
Lemma apply_event_emits st event st' rs :
  apply_event st event = Ok (st', rs) ->
  receipt_log st' = receipt_log st ++ rs
  /\ ((rs = [] /\ receipt_hash_prev st' = receipt_hash_prev st)
      \/ exists r, rs = [r] /\ links st st' r).
Proof.
  unfold apply_event, _clone_state, finish.
  intros H.
  destruct (unknown_event_type (get event "type")) as [unknown|] eqn:Eu;
    cbn [rbind] in H; [|discriminate].
  destruct (_event_time_utc (base_time_utc st) (clock st)) as [tu|] eqn:Et;
    [|destruct unknown; discriminate].
  assert (Hone : forall st1 st2 fr rc,
             same_receipt_tail st st1 ->
             receipts fr = [rc] -> links st1 (new_state fr) rc ->
             receipt_log (new_state fr) = receipt_log st1 ->
             Ok (with_receipt_log (new_state fr)
                   (receipt_log (new_state fr) ++ receipts fr), receipts fr)
             = Ok (st2, rs) ->
             receipt_log st2 = receipt_log st ++ rs
             /\ ((rs = [] /\ receipt_hash_prev st2 = receipt_hash_prev st)
                 \/ exists r, rs = [r] /\ links st st2 r)).
  { intros st1 st2 fr rc [El Eh] Hr [Hp (h & Hh & Hs)] Hlog Heq.
    injection Heq as <- <-. rewrite Hr, Hlog, El.
    split; [reflexivity|]. right. exists rc. split; [reflexivity|].
    split; [now rewrite Hp, Eh|]. exists h. split; [assumption|exact Hs]. }
  destruct unknown; cbn [rbind] in H.
  - match type of H with
    | (let '(_, _) := ?s in _) = _ => destruct s as [st1 r] eqn:Es
    end.
    apply stamp_event_frame in Es.
    match type of H with
    | context [_add_error_receipt ?a ?b ?c ?d ?e] =>
        destruct (add_error_receipt_links st1 a b c d) as (rc & Hr & Hl & Hlog);
        remember (_add_error_receipt a b c d e) as fr
    end.
    cbv zeta in H. eapply Hone; eauto.
  - match type of H with
    | (let '(_, _) := ?s in _) = _ => destruct s as [st1 r] eqn:Es
    end.
    apply stamp_event_frame in Es.
    destruct (dispatch (py_str (get event "type"))) as [branch|] eqn:Ed.
    + destruct (branch st1 r (clock st)) as [[st2 receipt]|] eqn:Eb;
        cbn [rbind] in H; [|discriminate].
      eapply dispatch_frame in Eb; [|exact Ed].
      destruct (add_receipt_links st2 (clock st) tu receipt)
        as (rc & Hr & Hl & Hlog).
      remember (_add_receipt (clock st) tu (mkFrame st2 []) receipt) as fr.
      cbv zeta in H. eapply (Hone st2); eauto.
      destruct Es as [E1 E2], Eb as [E3 E4]. split; congruence.
    + cbv zeta in H. injection H as <- <-.
      destruct Es as [El Eh].
      cbn [receipt_log with_receipt_log receipts new_state].
      rewrite !app_nil_r. split; [assumption|]. left. split; [reflexivity|].
      exact Eh.
Qed.

Lemma chained_app prev log r :
  chained prev (log ++ [r]) <->
  chained prev log /\ get r "receipt_hash_prev" = tail_hash prev log.
Proof.
  revert prev. induction log as [|r0 log IH]; intros prev; simpl.
  - tauto.
  - rewrite IH. unfold tail_hash. simpl. tauto.
Qed.

Lemma tail_hash_app prev log r :
  tail_hash prev (log ++ [r]) = get r "receipt_hash".
Proof. unfold tail_hash. now rewrite fold_left_app. Qed.

Lemma chain_inv_init : chain_inv State_init.
Proof. split; simpl; auto. Qed.

Lemma chain_inv_step st event st' rs :
  chain_inv st -> apply_event st event = Ok (st', rs) -> chain_inv st'.
Proof.
  intros [Hc Ht] H. apply apply_event_emits in H.
  destruct H as [Hlog [[-> Hp] | (r & -> & Hl & h & Hh & Hs)]].
  - rewrite app_nil_r in Hlog. unfold chain_inv. now rewrite Hlog, Hp.
  - unfold chain_inv. rewrite Hlog. split.
    + apply chained_app. split; [assumption|]. now rewrite Hl.
    + now rewrite tail_hash_app, Hs, Hh.
Qed.

Lemma run_events_inv (P : State -> Prop) :
  (forall st event st' rs, P st -> apply_event st event = Ok (st', rs) -> P st') ->
  forall events st st', P st -> run_events st events = Ok st' -> P st'.
Proof.
  intros Hstep. unfold run_events.
  induction events as [|event events IH]; intros st st' HP H; simpl in H.
  - now injection H as <-.
  - destruct (apply_event st event) as [[st1 rs]|] eqn:E; cbn [rbind] in H;
      [|discriminate].
    eapply IH; [|exact H]. eapply Hstep; eauto.
Qed.

Lemma chained_nth prev log :
  chained prev log ->
  (forall r, nth_error log 0 = Some r -> get r "receipt_hash_prev" = prev)
  /\ (forall i p r,
        nth_error log i = Some p -> nth_error log (S i) = Some r ->
        get r "receipt_hash_prev" = get p "receipt_hash").
Proof.
  revert prev. induction log as [|r0 log IH]; intros prev Hc.
  - split; [intros r Hr | intros [|i] p r Hp Hr]; discriminate.
  - destruct Hc as [H0 Hc]. apply IH in Hc. destruct Hc as [Hfirst Hrest].
    split.
    + intros r Hr. simpl in Hr. now injection Hr as <-.
    + intros [|i] p r Hp Hr; simpl in Hp, Hr.
      * injection Hp as <-. now apply Hfirst.
      * eapply Hrest; eauto.
Qed.

(** C4: in every state reached by folding [apply_event] over a list of
    events from a fresh [State], the receipt log is hash-chained: the first
    receipt's [receipt_hash_prev] is [None], and every later receipt's
    [receipt_hash_prev] is the [receipt_hash] of the receipt before it,
    error receipts and normal receipts alike. *)
Theorem receipt_log_hash_chained events st :
  run_events State_init events = Ok st -> hash_chained (receipt_log st).
Proof.
  intros H. apply chained_nth.
  apply (@run_events_inv chain_inv chain_inv_step events State_init st
           chain_inv_init H).
Qed.

(** ** Programs of the evaluators only add violations *)

Section Grows.
Variable L : Type.

Lemma bind_ok (A B : Type) (m : M L A) (f : A -> M L B) s b s' :
  bind m f s = Ok (b, s') ->
  exists a s1, m s = Ok (a, s1) /\ f a s1 = Ok (b, s').
Proof.
  unfold bind. destruct (m s) as [[a s1]|]; [|discriminate]. eauto.
Qed.

Lemma grows_ret (A : Type) (a : A) : grows (ret (L := L) a).
Proof.
  intros s a' s' H. injection H as <- <-. exists []. now rewrite app_nil_r.
Qed.

Lemma grows_bind (A B : Type) (m : M L A) (f : A -> M L B) :
  grows m -> (forall a, grows (f a)) -> grows (bind m f).
Proof.
  intros Hm Hf s b s' H. apply bind_ok in H. destruct H as (a & s1 & H1 & H2).
  apply Hm in H1. apply Hf in H2. destruct H1 as [v1 E1], H2 as [v2 E2].
  exists (v1 ++ v2). now rewrite E2, E1, app_assoc.
Qed.

Lemma grows_lift (A : Type) (r : result A) : grows (lift (L := L) r).
Proof.
  intros s a s' H. unfold lift in H. destruct r; [|discriminate].
  injection H as <- <-. exists []. now rewrite app_nil_r.
Qed.

Lemma grows_violation label evidence : grows (violation (L := L) label evidence).
Proof.
  intros s a s' H. injection H as <- <-. simpl. eauto.
Qed.

Lemma grows_set_score v : grows (set_score (L := L) v).
Proof.
  intros s a s' H. injection H as <- <-. exists []. simpl.
  now rewrite app_nil_r.
Qed.

Lemma grows_get_score : grows (get_score (L := L)).
Proof.
  intros s a s' H. injection H as <- <-. exists []. now rewrite app_nil_r.
Qed.

Lemma grows_locals : grows (locals (L := L)).
Proof.
  intros s a s' H. injection H as <- <-. exists []. now rewrite app_nil_r.
Qed.

Lemma grows_modify (f : L -> L) : grows (modify f).
Proof.
  intros s a s' H. injection H as <- <-. exists []. simpl.
  now rewrite app_nil_r.
Qed.

Lemma grows_when b (m : M L unit) : grows m -> grows (when b m).
Proof. intros Hm. destruct b; simpl; [assumption | apply grows_ret]. Qed.

Lemma grows_for_each (A : Type) (xs : list A) (body : A -> M L unit) :
  (forall x, grows (body x)) -> grows (for_each xs body).
Proof.
  intros Hb. induction xs as [|x xs IH]; simpl.
  - apply grows_ret.
  - apply grows_bind; auto.
Qed.

(** A loop that returned ran its body on every item, and what the body
    added at any item is still in the report at the end. *)
Lemma for_each_visits (A : Type) (xs : list A) (body : A -> M L unit) x s s' :
  (forall y, grows (body y)) ->
  In x xs -> for_each xs body s = Ok (tt, s') ->
  exists s1 s2 vs,
    body x s1 = Ok (tt, s2)
    /\ violations (fst s') = violations (fst s2) ++ vs.
Proof.
  intros Hb. revert s. induction xs as [|y xs IH]; intros s Hin H;
    [contradiction|].
  simpl in H. apply bind_ok in H. destruct H as ([] & s1 & H1 & H2).
  destruct Hin as [-> | Hin].
  - apply (@grows_for_each _ xs body Hb) in H2. destruct H2 as [vs E].
    exists s, s1, vs. auto.
  - eapply IH; eauto.
Qed.
End Grows.

Create HintDb grows.
#[local] Hint Resolve grows_ret grows_lift grows_violation grows_set_score
  grows_get_score grows_locals grows_modify : grows.

Ltac grows_step :=
  match goal with
  | |- grows (bind _ _) => apply grows_bind; [|intros]
  | |- grows (when _ _) => apply grows_when
  | |- grows (for_each _ _) => apply grows_for_each; intros
  | |- grows (if ?b then _ else _) => destruct b
  | |- grows (match ?x with _ => _ end) => destruct x
  | |- grows _ => solve [auto with grows]
  end.

Ltac grows_tac := repeat grows_step.

Lemma grows_record_justification oid event :
  grows (record_justification oid event).
Proof. unfold record_justification, append_evidence. grows_tac. Qed.

Lemma grows_mark_invalid : grows mark_invalid.
Proof. apply grows_modify. Qed.

Lemma grows_append_evidence k e : grows (append_evidence k e).
Proof. apply grows_modify. Qed.

#[local] Hint Resolve grows_record_justification grows_mark_invalid
  grows_append_evidence : grows.

Lemma grows_decision_identity oid evidence decision :
  grows (decision_identity oid evidence decision).
Proof. unfold decision_identity. grows_tac. Qed.

Lemma grows_decision_conduct evidence decision :
  grows (decision_conduct evidence decision).
Proof. unfold decision_conduct. grows_tac. Qed.

Lemma grows_decision_telemetry st evidence decision :
  grows (decision_telemetry st evidence decision).
Proof. unfold decision_telemetry. grows_tac. Qed.

Lemma grows_decision_chain_override evidence decision :
  grows (decision_chain_override evidence decision).
Proof. unfold decision_chain_override. grows_tac. Qed.

Lemma grows_decision_tail st oid evidence decision :
  grows (decision_tail st oid evidence decision).
Proof. unfold decision_tail. grows_tac. Qed.

Lemma grows_decision_authority st evidence decision :
  grows (decision_authority st evidence decision).
Proof. unfold decision_authority. grows_tac. Qed.

Lemma grows_trust_check_decision ids st r :
  grows (trust_check_decision ids st r).
Proof.
  unfold trust_check_decision.
  pose proof grows_decision_identity. pose proof grows_decision_authority.
  pose proof grows_decision_conduct. pose proof grows_decision_telemetry.
  pose proof grows_decision_chain_override. pose proof grows_decision_tail.
  grows_tac; auto.
Qed.

Lemma grows_check_audit L ids st name label :
  grows (check_audit (L := L) ids st name label).
Proof. unfold check_audit. grows_tac. Qed.

Lemma grows_check_flag L ids st flag label r :
  grows (check_flag (L := L) ids st flag label r).
Proof. unfold check_flag. grows_tac. Qed.

Lemma grows_check_enforcement L ids st r :
  grows (check_enforcement (L := L) ids st r).
Proof. unfold check_enforcement. grows_tac. Qed.

Lemma grows_check_evaluation L st : grows (check_evaluation (L := L) st).
Proof. unfold check_evaluation. grows_tac. Qed.

Lemma grows_trust_emit_collected : grows trust_emit_collected.
Proof. unfold trust_emit_collected, emit_collected. grows_tac. Qed.

#[local] Hint Resolve grows_trust_check_decision grows_check_audit
  grows_check_flag grows_check_enforcement grows_check_evaluation
  grows_trust_emit_collected : grows.

(** ** Decision-time authority *)

Lemma py_compare_int t v c :
  py_compare (VInt t) v = Ok c ->
  exists z, number v = Some z /\ c = Z.compare t z.
Proof.
  destruct v; simpl; intros H; try discriminate; injection H as <-; eauto.
Qed.

Lemma py_lt_int t v b :
  py_lt (VInt t) v = Ok b -> exists z, number v = Some z /\ b = (t <? z).
Proof.
  unfold py_lt. destruct (py_compare (VInt t) v) as [c|] eqn:E; [|discriminate].
  cbn [rbind]. intros H. injection H as <-.
  apply py_compare_int in E. destruct E as (z & Hz & ->).
  exists z. split; [assumption|]. unfold Z.ltb. now destruct (t ?= z).
Qed.

Lemma py_ge_int t v b :
  py_ge (VInt t) v = Ok b -> exists z, number v = Some z /\ b = (z <=? t).
Proof.
  unfold py_ge. destruct (py_compare (VInt t) v) as [c|] eqn:E; [|discriminate].
  cbn [rbind]. intros H. injection H as <-.
  apply py_compare_int in E. destruct E as (z & Hz & ->).
  exists z. split; [assumption|].
  rewrite Z.leb_antisym. unfold Z.ltb. now destruct (t ?= z).
Qed.

Lemma is_none_true v : is_none v = true -> v = VNone.
Proof. now destruct v. Qed.

Lemma delegation_active_sound delegation t :
  _delegation_active_at delegation t = Ok true ->
  delegation_active_spec delegation t.
Proof.
  unfold _delegation_active_at, delegation_active_spec.
  set (issued_at := get delegation "issued_at").
  set (expires_at := get delegation "expires_at").
  set (effective_at := get delegation "revocation_effective_at").
  intros H.
  assert (Hi : absent_or (fun z => z <= t) issued_at
               /\ (expired <- (if negb (is_none expires_at)
                               then py_ge (VInt t) expires_at else Ok false) ;;
                   if expired then Ok false
                   else if negb (is_none effective_at)
                        then py_lt (VInt t) effective_at
                        else Ok (negb (truthy (get_default delegation "revoked"
                                                 (VBool false))))) = Ok true).
  { destruct (is_none issued_at) eqn:En; cbn [negb rbind] in H.
    - split; [left; now apply is_none_true | exact H].
    - destruct (py_lt (VInt t) issued_at) as [b|] eqn:El; [|discriminate].
      cbn [rbind] in H. destruct b; [discriminate|].
      apply py_lt_int in El. destruct El as (z & Hz & Hb).
      split; [|exact H]. right. exists z. split; [assumption|].
      symmetry in Hb. apply Z.ltb_ge in Hb. exact Hb. }
  destruct Hi as [Hi H']. split; [exact Hi|]. clear H Hi.
  assert (He : absent_or (fun z => t < z) expires_at
               /\ (if negb (is_none effective_at)
                   then py_lt (VInt t) effective_at
                   else Ok (negb (truthy (get_default delegation "revoked"
                                            (VBool false))))) = Ok true).
  { destruct (is_none expires_at) eqn:En; cbn [negb rbind] in H'.
    - split; [left; now apply is_none_true | exact H'].
    - destruct (py_ge (VInt t) expires_at) as [b|] eqn:El; [|discriminate].
      cbn [rbind] in H'. destruct b; [discriminate|].
      apply py_ge_int in El. destruct El as (z & Hz & Hb).
      split; [|exact H']. right. exists z. split; [assumption|].
      symmetry in Hb. apply Z.leb_gt in Hb. exact Hb. }
  destruct He as [He H]. split; [exact He|]. clear H' He.
  destruct effective_at eqn:Ee; cbn [is_none negb] in H.
  1: { injection H as H. now apply negb_true_iff in H. }
  all: apply py_lt_int in H; destruct H as (z' & Hz & Hb);
    exists z'; (split; [exact Hz|]); symmetry in Hb; now apply Z.ltb_lt in Hb.
Qed.

Lemma authority_untraceable_sound st decision :
  authority_untraceable st decision = Ok false ->
  authority_traceable st decision.
Proof.
  unfold authority_untraceable, authority_traceable, vmap_get.
  destruct (hashable (get decision "delegation_id")); [|discriminate].
  cbn [rbind].
  destruct (decision_time_of st decision) as [t|] eqn:Et; [|discriminate].
  cbn [rbind].
  destruct (vmap_find (delegations st) (get decision "delegation_id"))
    as [r|] eqn:Er; [|discriminate].
  destruct (truthy (VDict (deref st r))); [|discriminate]. cbn [negb].
  destruct (py_eq (get (deref st r) "suser_id") (get decision "suser_id"))
    eqn:Es; [|discriminate]. cbn [negb].
  destruct (_delegation_active_at (deref st r) t) as [active|] eqn:Ea;
    [|discriminate].
  cbn [rbind]. intros H. injection H as H. apply negb_false_iff in H. subst.
  exists r, t. split; [|split; [|split]]; auto using delegation_active_sound.
Qed.

Lemma decision_authority_emits st evidence decision s s' :
  ~ authority_traceable st decision ->
  decision_authority st evidence decision s = Ok (tt, s') ->
  In (mkViolation TRUST_VIOLATION.AUTHORITY_UNTRACEABLE evidence "")
    (violations (fst s')).
Proof.
  intros Hn H. unfold decision_authority in H.
  apply bind_ok in H. destruct H as (b & s1 & H1 & H2).
  unfold lift in H1.
  destruct (authority_untraceable st decision) as [b'|] eqn:E; [|discriminate].
  injection H1 as <- <-.
  destruct b'.
  - simpl in H2. injection H2 as <-. simpl. apply in_or_app. right. now left.
  - exfalso. apply Hn. now apply authority_untraceable_sound.
Qed.

Lemma trust_check_decision_emits ids st r s s' :
  ~ authority_traceable st (deref st r) ->
  trust_check_decision ids st r s = Ok (tt, s') ->
  In TRUST_VIOLATION.AUTHORITY_UNTRACEABLE (map label (violations (fst s'))).
Proof.
  intros Hn H. unfold trust_check_decision in H.
  apply bind_ok in H. destruct H as (eid & s0 & _ & H).
  apply bind_ok in H. destruct H as ([] & s1 & _ & H).
  apply bind_ok in H. destruct H as ([] & s2 & Ha & H).
  eapply decision_authority_emits in Ha; [|exact Hn].
  assert (G : grows (bind (decision_conduct [eid] (deref st r))
            (fun _ => bind (decision_telemetry st [eid] (deref st r))
            (fun _ => bind (decision_chain_override [eid] (deref st r))
            (fun _ => decision_tail st (ids r) [eid] (deref st r)))))).
  { pose proof grows_decision_conduct. pose proof grows_decision_telemetry.
    pose proof grows_decision_chain_override. pose proof grows_decision_tail.
    grows_tac; auto. }
  apply G in H. destruct H as [vs E]. rewrite E, map_app.
  apply in_or_app. left. apply (in_map label) in Ha. exact Ha.
Qed.

Lemma trust_program_emits ids st r s s' :
  In r (decisions st) ->
  ~ authority_traceable st (deref st r) ->
  trust_program ids st s = Ok (tt, s') ->
  In TRUST_VIOLATION.AUTHORITY_UNTRACEABLE (map label (violations (fst s'))).
Proof.
  intros Hin Hn H. unfold trust_program in H.
  do 5 (apply bind_ok in H; destruct H as ([] & ? & _ & H)).
  apply bind_ok in H. destruct H as ([] & s6 & Hd & H).
  eapply for_each_visits in Hd; [|apply grows_trust_check_decision|exact Hin].
  destruct Hd as (s1 & s2 & vs & Hb & E).
  eapply trust_check_decision_emits in Hb; [|exact Hn].
  match type of H with
  | ?m s6 = _ => assert (G : grows m) by (grows_tac; auto with grows)
  end.
  apply G in H. destruct H as [vs' E']. rewrite E', E, !map_app.
  apply in_or_app. left. apply in_or_app. now left.
Qed.

Lemma run_report_ok L kind (init : L) st program report :
  run_report kind init st program = Ok report ->
  exists s', program (new_report kind, init) = Ok (tt, s')
             /\ violations report = violations (fst s').
Proof.
  unfold run_report.
  destruct (program (new_report kind, init)) as [[[] [rep l]]|]; [|discriminate].
  intros H. injection H as <-. eexists; split; reflexivity.
Qed.

(** C3 (amended): when the internal trust evaluator completes, every
    decision of [state.decisions] whose authority is not traceable (the
    cited delegation is missing, belongs to another S-User, or is not
    active at the decision time, an absent bound being no constraint) puts
    [AUTHORITY_UNTRACEABLE] in the report of [evaluate_trust]; in
    particular a decision at time [T] citing a delegation issued at
    [i > T] does, whatever audit events the log holds. *)
Theorem authority_untraceable_reported ids st report r :
  _evaluate_trust_unsafe ids st = Ok report ->
  In r (decisions st) ->
  (~ authority_traceable st (deref st r) ->
   In TRUST_VIOLATION.AUTHORITY_UNTRACEABLE (labels (evaluate_trust ids st)))
  /\ (forall T g i,
        get (deref st r) "time" = VInt T ->
        vmap_find (delegations st) (get (deref st r) "delegation_id") = Some g ->
        get (deref st g) "issued_at" = VInt i ->
        T < i ->
        In TRUST_VIOLATION.AUTHORITY_UNTRACEABLE (labels (evaluate_trust ids st))).
Proof.
  intros Hok Hin.
  assert (Hmain : ~ authority_traceable st (deref st r) ->
                  In TRUST_VIOLATION.AUTHORITY_UNTRACEABLE
                    (labels (evaluate_trust ids st))).
  { intros Hn. unfold evaluate_trust. rewrite Hok.
    unfold _evaluate_trust_unsafe in Hok. apply run_report_ok in Hok.
    destruct Hok as (s' & Hp & Hv). unfold labels. rewrite Hv.
    eapply trust_program_emits; eauto. }
  split; [exact Hmain|].
  intros T g i Ht Hg Hi Hlt. apply Hmain.
  intros (g' & t & Hg' & _ & Hdt & Hact & _).
  rewrite Hg in Hg'. injection Hg' as <-.
  unfold decision_time_of in Hdt. rewrite Ht in Hdt. simpl in Hdt.
  injection Hdt as <-.
  rewrite Hi in Hact. destruct Hact as [Habs | (z & Hz & Hle)].
  - discriminate.
  - injection Hz as <-. lia.
Qed.

(** ** Two evaluations that differ in object addresses only *)

Section Sim.
Variable L : Type.
Variable RL : L -> L -> Prop.

Lemma sim_ret (A : Type) (RA : A -> A -> Prop) a1 a2 :
  RA a1 a2 -> sim RL RA (ret a1) (ret a2).
Proof. intros Ha s1 s2 Hs. simpl. auto. Qed.

Lemma sim_bind (A B : Type) (RA : A -> A -> Prop) (RB : B -> B -> Prop)
    (m1 m2 : M L A) (f1 f2 : A -> M L B) :
  sim RL RA m1 m2 ->
  (forall a1 a2, RA a1 a2 -> sim RL RB (f1 a1) (f2 a2)) ->
  sim RL RB (bind m1 f1) (bind m2 f2).
Proof.
  intros Hm Hf s1 s2 Hs. unfold bind. specialize (Hm s1 s2 Hs).
  destruct (m1 s1) as [[a1 s1']|], (m2 s2) as [[a2 s2']|]; try contradiction.
  - destruct Hm as [Ha Hs']. exact (Hf a1 a2 Ha s1' s2' Hs').
  - exact I.
Qed.

Lemma sim_lift (A : Type) (r : result A) : sim RL eq (lift r) (lift r).
Proof. intros s1 s2 Hs. unfold lift. destruct r; auto. Qed.

(** [_event_id] raises on the event alone; the address only shows in
    the text it returns. *)
Lemma sim_event_id oid1 oid2 event :
  sim RL (fun _ _ => True) (lift (_event_id oid1 event))
    (lift (_event_id oid2 event)).
Proof.
  intros s1 s2 Hs. unfold lift, _event_id.
  destruct (find _ _); destruct (getitem event "type"); simpl; auto.
Qed.

Lemma sim_violation label e1 e2 :
  sim RL eq (violation label e1) (violation label e2).
Proof.
  intros s1 s2 [[Hl Hsc] Hloc]. simpl. split; [reflexivity|].
  split; [|exact Hloc]. split; simpl; [|exact Hsc].
  unfold labels in *. simpl. rewrite !map_app. now rewrite Hl.
Qed.

Lemma sim_set_score v : sim RL eq (set_score v) (set_score v).
Proof.
  intros s1 s2 [[Hl Hsc] Hloc]. simpl. split; [reflexivity|].
  split; [|exact Hloc]. split; auto.
Qed.

Lemma sim_get_score : sim RL eq get_score get_score.
Proof.
  intros s1 s2 Hs. simpl. split; [|exact Hs]. now destruct Hs as [[_ Hsc] _].
Qed.

Lemma sim_locals : sim RL RL locals locals.
Proof. intros s1 s2 Hs. simpl. split; [|exact Hs]. now destruct Hs. Qed.

Lemma sim_modify (f1 f2 : L -> L) :
  (forall l1 l2, RL l1 l2 -> RL (f1 l1) (f2 l2)) ->
  sim RL eq (modify f1) (modify f2).
Proof.
  intros Hf s1 s2 [Hr Hloc]. simpl. split; [reflexivity|].
  split; [exact Hr | now apply Hf].
Qed.

Lemma sim_when b (m1 m2 : M L unit) :
  sim RL eq m1 m2 -> sim RL eq (when b m1) (when b m2).
Proof. intros Hm. destruct b; simpl; [assumption | now apply sim_ret]. Qed.

Lemma sim_for_each (A : Type) (xs : list A) (body1 body2 : A -> M L unit) :
  (forall x, sim RL eq (body1 x) (body2 x)) ->
  sim RL eq (for_each xs body1) (for_each xs body2).
Proof.
  intros Hb. induction xs as [|x xs IH]; simpl.
  - now apply sim_ret.
  - eapply sim_bind; [apply Hb | intros; apply IH].
Qed.

(** Related runs from a fresh report end in reports with the same
    labels, or both raise. *)
Lemma sim_run kind init st (p1 p2 : M L unit) :
  RL init init -> sim RL eq p1 p2 ->
  match run_report kind init st p1, run_report kind init st p2 with
  | Ok r1, Ok r2 => labels r1 = labels r2
  | Raise _, Raise _ => True
  | _, _ => False
  end.
Proof.
  intros Hinit Hsim. unfold run_report.
  assert (Hs : related RL (new_report kind, init) (new_report kind, init))
    by (split; [split; reflexivity | exact Hinit]).
  specialize (Hsim _ _ Hs).
  destruct (p1 (new_report kind, init)) as [[[] [r1 l1]]|],
           (p2 (new_report kind, init)) as [[[] [r2 l2]]|];
    try contradiction; auto.
  destruct Hsim as [_ [[Hl _] _]]. exact Hl.
Qed.
End Sim.

Create HintDb sim.
#[local] Hint Resolve sim_lift sim_event_id sim_violation sim_set_score
  sim_get_score sim_locals : sim.

Ltac sim_step :=
  match goal with
  | |- sim _ _ (bind (lift (_event_id _ _)) _) (bind (lift (_event_id _ _)) _) =>
      eapply sim_bind; [apply sim_event_id | intros ? ? _]
  | |- sim _ _ (bind (lift _) _) (bind (lift _) _) =>
      eapply sim_bind; [apply sim_lift | intros ? ? <-]
  | |- sim _ _ (bind get_score _) (bind get_score _) =>
      eapply sim_bind; [apply sim_get_score | intros ? ? <-]
  | |- sim _ _ (bind _ _) (bind _ _) =>
      eapply sim_bind with (RA := eq); [| intros [] [] _]
  | |- sim _ _ (when _ _) (when _ _) => apply sim_when
  | |- sim _ _ (for_each _ _) (for_each _ _) => apply sim_for_each; intros
  | |- sim _ _ (if ?b then _ else _) _ => destruct b
  | |- sim _ _ (match ?x with _ => _ end) _ => destruct x
  | |- sim _ _ (ret _) (ret _) => apply sim_ret; reflexivity
  | |- sim _ _ _ _ => solve [auto with sim]
  end.

Ltac sim_tac := repeat sim_step.

Lemma sim_mark_invalid : sim trust_related eq mark_invalid mark_invalid.
Proof. apply sim_modify. intros l1 l2 [_ Hlen]. split; auto. Qed.

Lemma sim_append_evidence k e1 e2 :
  sim trust_related eq (append_evidence k e1) (append_evidence k e2).
Proof.
  apply sim_modify. intros l1 l2 [Hinv Hlen]. split; [exact Hinv|].
  intros k'. simpl. destruct (evidence_list_beq k k'); [|apply Hlen].
  rewrite !length_app. now rewrite Hlen.
Qed.

#[local] Hint Resolve sim_mark_invalid sim_append_evidence : sim.

Lemma sim_record_justification oid1 oid2 event :
  sim trust_related eq (record_justification oid1 event)
    (record_justification oid2 event).
Proof. unfold record_justification. sim_tac. Qed.

#[local] Hint Resolve sim_record_justification : sim.

Lemma sim_trust_scan_event ids1 ids2 st r :
  sim trust_related eq (trust_scan_event ids1 st r) (trust_scan_event ids2 st r).
Proof. unfold trust_scan_event. sim_tac. Qed.

Lemma sim_trust_scan_receipt st receipt :
  sim trust_related eq (trust_scan_receipt st receipt)
    (trust_scan_receipt st receipt).
Proof. unfold trust_scan_receipt. sim_tac. Qed.

Lemma sim_trust_check_delegation ids1 ids2 st r :
  sim trust_related eq (trust_check_delegation ids1 st r)
    (trust_check_delegation ids2 st r).
Proof. unfold trust_check_delegation. sim_tac. Qed.

Lemma sim_trust_check_consent ids1 ids2 st r :
  sim trust_related eq (trust_check_consent ids1 st r)
    (trust_check_consent ids2 st r).
Proof. unfold trust_check_consent. sim_tac. Qed.

Lemma sim_trust_check_telemetry ids1 ids2 st r :
  sim trust_related eq (trust_check_telemetry ids1 st r)
    (trust_check_telemetry ids2 st r).
Proof. unfold trust_check_telemetry. sim_tac. Qed.

Lemma sim_trust_check_decision ids1 ids2 st r :
  sim trust_related eq (trust_check_decision ids1 st r)
    (trust_check_decision ids2 st r).
Proof.
  unfold trust_check_decision, decision_identity, decision_authority,
    decision_conduct, decision_telemetry, decision_chain_override,
    decision_tail.
  sim_tac.
Qed.

Lemma sim_emit_collected l1 l2 k label :
  trust_related l1 l2 ->
  sim trust_related eq (emit_collected l1 k label) (emit_collected l2 k label).
Proof.
  intros [_ Hlen]. unfold emit_collected.
  replace (nonempty (evidence_of l2 k)) with (nonempty (evidence_of l1 k)).
  - sim_tac.
  - specialize (Hlen k).
    destruct (evidence_of l1 k), (evidence_of l2 k); simpl in *; congruence.
Qed.

Lemma sim_trust_emit_collected :
  sim trust_related eq trust_emit_collected trust_emit_collected.
Proof.
  unfold trust_emit_collected.
  eapply sim_bind; [apply sim_locals|]. intros l1 l2 Hl.
  pose proof (fun k label => @sim_emit_collected l1 l2 k label Hl) as He.
  destruct Hl as [Hinv _]. rewrite <- Hinv.
  repeat (eapply sim_bind with (RA := eq);
          [first [apply He | apply sim_when; sim_tac; apply He]
          | intros [] [] _]).
  apply He.
Qed.

Ltac sim_step' :=
  match goal with
  | |- sim eq _ (bind locals _) (bind locals _) =>
      eapply sim_bind; [apply sim_locals | intros ? ? <-]
  | |- sim eq eq (modify ?f) (modify ?f) =>
      apply sim_modify; intros ? ? <-; reflexivity
  | _ => sim_step
  end.

Ltac sim_tac' := repeat sim_step'.

Section SimCommon.
Variable L : Type.
Variable RL : L -> L -> Prop.
Variables ids1 ids2 : ref -> Z.
Variable st : State.

Lemma sim_check_audit name label :
  sim RL eq (check_audit ids1 st name label) (check_audit ids2 st name label).
Proof. unfold check_audit. sim_tac. Qed.

Lemma sim_check_flag flag label r :
  sim RL eq (check_flag ids1 st flag label r) (check_flag ids2 st flag label r).
Proof. unfold check_flag. sim_tac. Qed.

Lemma sim_check_enforcement r :
  sim RL eq (check_enforcement ids1 st r) (check_enforcement ids2 st r).
Proof. unfold check_enforcement. sim_tac. Qed.

Lemma sim_check_evaluation :
  sim RL eq (check_evaluation st) (check_evaluation st).
Proof. unfold check_evaluation. sim_tac. Qed.
End SimCommon.

#[local] Hint Resolve sim_trust_scan_event sim_trust_scan_receipt
  sim_trust_check_delegation sim_trust_check_consent sim_trust_check_telemetry
  sim_trust_check_decision sim_trust_emit_collected sim_check_audit
  sim_check_flag sim_check_enforcement sim_check_evaluation : sim.

Lemma sim_trust_program ids1 ids2 st :
  sim trust_related eq (trust_program ids1 st) (trust_program ids2 st).
Proof. unfold trust_program. sim_tac. Qed.

Lemma sim_respect_scan_disclosure st r :
  sim eq eq (respect_scan_disclosure st r) (respect_scan_disclosure st r).
Proof. unfold respect_scan_disclosure. sim_tac'. Qed.

Lemma sim_respect_scan_score st r :
  sim eq eq (respect_scan_score st r) (respect_scan_score st r).
Proof. unfold respect_scan_score. sim_tac'. Qed.

Lemma sim_respect_check_action ids1 ids2 st r :
  sim eq eq (respect_check_action ids1 st r) (respect_check_action ids2 st r).
Proof. unfold respect_check_action. sim_tac'. Qed.

Lemma sim_respect_scan_governance ids1 ids2 st r :
  sim eq eq (respect_scan_governance ids1 st r)
    (respect_scan_governance ids2 st r).
Proof.
  unfold respect_scan_governance, respect_check_revocation, flag_event.
  sim_tac'.
Qed.

Lemma sim_respect_check_default ids1 ids2 st r :
  sim eq eq (respect_check_default ids1 st r) (respect_check_default ids2 st r).
Proof. unfold respect_check_default. sim_tac'. Qed.

#[local] Hint Resolve sim_respect_scan_disclosure sim_respect_scan_score
  sim_respect_check_action sim_respect_scan_governance
  sim_respect_check_default : sim.

Lemma sim_respect_program ids1 ids2 st :
  sim eq eq (respect_program ids1 st) (respect_program ids2 st).
Proof. unfold respect_program. sim_tac. Qed.

Lemma evaluate_trust_labels_independent ids1 ids2 st :
  labels (evaluate_trust ids1 st) = labels (evaluate_trust ids2 st).
Proof.
  unfold evaluate_trust, _evaluate_trust_unsafe.
  pose proof (@sim_run _ trust_related "trust" trust_locals_init st
                (trust_program ids1 st) (trust_program ids2 st)) as H.
  destruct (run_report "trust" trust_locals_init st (trust_program ids1 st)),
           (run_report "trust" trust_locals_init st (trust_program ids2 st));
    try reflexivity.
  all: try (apply H; [split; reflexivity | apply sim_trust_program]).
  all: exfalso; apply H; [split; reflexivity | apply sim_trust_program].
Qed.

Lemma evaluate_respect_labels_independent ids1 ids2 st :
  labels (evaluate_respect ids1 st) = labels (evaluate_respect ids2 st).
Proof.
  unfold evaluate_respect, _evaluate_respect_unsafe.
  pose proof (@sim_run _ eq "respect" None st
                (respect_program ids1 st) (respect_program ids2 st)) as H.
  destruct (run_report "respect" None st (respect_program ids1 st)),
           (run_report "respect" None st (respect_program ids2 st));
    try reflexivity.
  all: try (apply H; [reflexivity | apply sim_respect_program]).
  all: exfalso; apply H; [reflexivity | apply sim_respect_program].
Qed.

(** C7: replay is deterministic.  Two replays of the same event list from
    fresh states, whatever addresses their objects get, raise alike or
    return the same receipt log and the same [labels()] of [evaluate_trust]
    and of [evaluate_respect]. *)
Theorem replay_deterministic events ids1 ids2 :
  replay ids1 events = replay ids2 events.
Proof.
  unfold replay. destruct (run_events State_init events) as [st|e];
    cbn [rbind]; [|reflexivity].
  now rewrite (evaluate_trust_labels_independent ids1 ids2 st),
    (evaluate_respect_labels_independent ids1 ids2 st).
Qed.

(** ** Shared actions without consent *)

Lemma lift_ok L A (r : result A) (s s' : Report * L) a :
  lift r s = Ok (a, s') -> r = Ok a /\ s' = s.
Proof. unfold lift. destruct r; [|discriminate]. intros H. now injection H as <- <-. Qed.

Lemma grows_respect_check_action ids st r :
  grows (respect_check_action ids st r).
Proof. unfold respect_check_action. grows_tac. Qed.

Lemma grows_respect_scan_governance ids st r :
  grows (respect_scan_governance ids st r).
Proof.
  unfold respect_scan_governance, respect_check_revocation, flag_event.
  grows_tac.
Qed.

Lemma grows_respect_check_default ids st r :
  grows (respect_check_default ids st r).
Proof. unfold respect_check_default. grows_tac. Qed.

#[local] Hint Resolve grows_respect_check_action grows_respect_scan_governance
  grows_respect_check_default : grows.

Lemma respect_check_action_emits ids st r s s' eid :
  _event_id (ids r) (deref st r) = Ok eid ->
  affects_others_of (deref st r) = Ok true ->
  get (deref st r) "consent_basis" = VStr "none" ->
  truthy (get (deref st r) "scope_constrained") = false ->
  respect_check_action ids st r s = Ok (tt, s') ->
  In (mkViolation RESPECT_VIOLATION.MUTUAL_CONSENT_MISSING [eid] "")
    (violations (fst s')).
Proof.
  intros Hid Haff Hbasis Hscope H. unfold respect_check_action in H.
  apply bind_ok in H. destruct H as (eid' & s0 & He & H).
  apply lift_ok in He. destruct He as [He ->]. rewrite Hid in He.
  injection He as <-.
  apply bind_ok in H. destruct H as (aff & s1 & Ha & H).
  apply lift_ok in Ha. destruct Ha as [Ha ->]. rewrite Haff in Ha.
  injection Ha as <-.
  do 6 (apply bind_ok in H; destruct H as ([] & ? & _ & H)).
  apply bind_ok in H. destruct H as ([] & s8 & Hv & H).
  rewrite Hbasis, Hscope in Hv. simpl in Hv. injection Hv as <-.
  match type of H with
  | ?m _ = _ => assert (G : grows m) by grows_tac
  end.
  apply G in H. destruct H as [vs E]. rewrite E. simpl.
  apply in_or_app. left. apply in_or_app. right. now left.
Qed.

(** C9 (amended): when the internal respect evaluator completes, every
    shared action of [state.shared_actions] that affects an S-User other
    than its actor, has [consent_basis == "none"] and no [scope_constrained]
    flag puts [MUTUAL_CONSENT_MISSING] in the report of [evaluate_respect],
    with the action's event id as evidence. *)
Theorem mutual_consent_missing_reported ids st report r :
  _evaluate_respect_unsafe ids st = Ok report ->
  In r (shared_actions st) ->
  affects_others_of (deref st r) = Ok true ->
  get (deref st r) "consent_basis" = VStr "none" ->
  truthy (get (deref st r) "scope_constrained") = false ->
  exists eid,
    _event_id (ids r) (deref st r) = Ok eid
    /\ In (mkViolation RESPECT_VIOLATION.MUTUAL_CONSENT_MISSING [eid] "")
         (violations (evaluate_respect ids st)).
Proof.
  intros Hok Hin Haff Hbasis Hscope.
  unfold evaluate_respect. rewrite Hok.
  unfold _evaluate_respect_unsafe in Hok. apply run_report_ok in Hok.
  destruct Hok as (s' & H & Hv). rewrite Hv. clear Hv.
  unfold respect_program in H.
  do 2 (apply bind_ok in H; destruct H as ([] & ? & _ & H)).
  apply bind_ok in H. destruct H as ([] & s3 & Hloop & H).
  eapply for_each_visits in Hloop;
    [|apply grows_respect_check_action|exact Hin].
  destruct Hloop as (s1 & s2 & vs & Hb & E).
  destruct (_event_id (ids r) (deref st r)) as [eid|] eqn:Hid.
  - exists eid. split; [reflexivity|].
    eapply respect_check_action_emits in Hb; eauto.
    match type of H with
    | ?m s3 = _ => assert (G : grows m) by (grows_tac; auto with grows)
    end.
    apply G in H. destruct H as [vs' E']. rewrite E', E.
    apply in_or_app. left. apply in_or_app. now left.
  - exfalso. unfold respect_check_action in Hb.
    apply bind_ok in Hb. destruct Hb as (? & ? & He & _).
    apply lift_ok in He. destruct He as [He _]. rewrite Hid in He. discriminate.
Qed.

(** ** The safety net *)

Section Raises.
Variable L : Type.

Lemma raises_bind_l (A B : Type) (m : M L A) (f : A -> M L B) :
  always_raises m -> always_raises (bind m f).
Proof. intros Hm s. unfold bind. destruct (Hm s) as [e ->]. eauto. Qed.

Lemma raises_bind_r (A B : Type) (m : M L A) (f : A -> M L B) :
  (forall a, always_raises (f a)) -> always_raises (bind m f).
Proof.
  intros Hf s. unfold bind. destruct (m s) as [[a s']|e]; [apply Hf | eauto].
Qed.

Lemma raises_lift (A : Type) (e : exn) :
  always_raises (lift (L := L) (A := A) (Raise e)).
Proof. intros s. simpl. eauto. Qed.

Lemma raises_for_each (A : Type) (xs : list A) (body : A -> M L unit) x :
  In x xs -> always_raises (body x) -> always_raises (for_each xs body).
Proof.
  intros Hin Hx. induction xs as [|y xs IH]; [contradiction|].
  simpl. destruct Hin as [-> | Hin].
  - now apply raises_bind_l.
  - apply raises_bind_r. intros _. now apply IH.
Qed.

Lemma raises_run kind (init : L) st program :
  always_raises program -> exists e, run_report kind init st program = Raise e.
Proof.
  intros H. unfold run_report. destruct (H (new_report kind, init)) as [e ->].
  eauto.
Qed.
End Raises.

Lemma event_id_needs_type oid event :
  assoc_mem event "type" = false -> _event_id oid event = Raise KeyError.
Proof.
  unfold assoc_mem, _event_id, getitem. intros H.
  destruct (assoc_get event "type"); [discriminate|].
  now destruct (find _ _).
Qed.

Lemma trust_raises_on_untyped_decision ids st r :
  In r (decisions st) -> assoc_mem (deref st r) "type" = false ->
  always_raises (trust_program ids st).
Proof.
  intros Hin Hty. unfold trust_program.
  do 5 (apply raises_bind_r; intros _).
  apply raises_bind_l.
  eapply raises_for_each; [exact Hin|].
  unfold trust_check_decision. apply raises_bind_l.
  rewrite event_id_needs_type by assumption. apply raises_lift.
Qed.

Lemma respect_raises_on_untimed_policy ids st r e :
  In r (event_log st) ->
  type_is (deref st r) "revocation_policy" = true ->
  truthy (get (deref st r) "revocation_delay") = true ->
  truthy (get (deref st r) "revocation_delay_disclosed") = true ->
  event_time_of (deref st r) = Raise e ->
  always_raises (respect_program ids st).
Proof.
  intros Hin Hty Hd Hdd Ht. unfold respect_program.
  apply raises_bind_l.
  eapply raises_for_each; [exact Hin|].
  unfold respect_scan_disclosure. rewrite Hty, Hd, Hdd. simpl.
  apply raises_bind_l. rewrite Ht. apply raises_lift.
Qed.

(** C2 (amended): [evaluate_trust] and [evaluate_respect] return a report
    on every state.  The report carries exactly [INVALID_STATE] and
    [ACCOUNTABILITY_BREAK] when the internal evaluator raises, and is the
    internal evaluator's report otherwise; the internal trust evaluator
    raises on a decision without a [type], the internal respect evaluator
    on a disclosed-delay [revocation_policy] event whose [time] is not a
    number. *)
Theorem evaluators_total ids st :
  (forall e, _evaluate_trust_unsafe ids st = Raise e ->
             labels (evaluate_trust ids st) = fallback_labels)
  /\ (forall report, _evaluate_trust_unsafe ids st = Ok report ->
                     evaluate_trust ids st = report)
  /\ (forall e, _evaluate_respect_unsafe ids st = Raise e ->
                labels (evaluate_respect ids st) = fallback_labels)
  /\ (forall report, _evaluate_respect_unsafe ids st = Ok report ->
                     evaluate_respect ids st = report)
  /\ (forall r, In r (decisions st) ->
                assoc_mem (deref st r) "type" = false ->
                labels (evaluate_trust ids st) = fallback_labels)
  /\ (forall r e, In r (event_log st) ->
                  type_is (deref st r) "revocation_policy" = true ->
                  truthy (get (deref st r) "revocation_delay") = true ->
                  truthy (get (deref st r) "revocation_delay_disclosed") = true ->
                  event_time_of (deref st r) = Raise e ->
                  labels (evaluate_respect ids st) = fallback_labels).
Proof.
  assert (Ht : forall e, _evaluate_trust_unsafe ids st = Raise e ->
                         labels (evaluate_trust ids st) = fallback_labels).
  { intros e H. unfold evaluate_trust. now rewrite H. }
  assert (Hr : forall e, _evaluate_respect_unsafe ids st = Raise e ->
                         labels (evaluate_respect ids st) = fallback_labels).
  { intros e H. unfold evaluate_respect. now rewrite H. }
  repeat split; auto.
  - intros report H. unfold evaluate_trust. now rewrite H.
  - intros report H. unfold evaluate_respect. now rewrite H.
  - intros r Hin Hty.
    destruct (raises_run "trust" trust_locals_init st
                (trust_raises_on_untyped_decision ids st r Hin Hty)) as [e He].
    now apply (Ht e).
  - intros r e Hin Hty Hd Hdd Hti.
    destruct (raises_run "respect" None st
                (respect_raises_on_untimed_policy ids st r Hin Hty Hd Hdd Hti))
      as [e' He].
    now apply (Hr e').
Qed.

(** ** Redaction and the S-User view *)

Lemma py_eq_str_l k x : py_eq (VStr k) x = true -> x = VStr k.
Proof.
  destruct x; simpl; try discriminate. intros H.
  apply String.eqb_eq in H. now subst.
Qed.

Lemma py_eq_str_refl k : py_eq (VStr k) (VStr k) = true.
Proof. simpl. apply String.eqb_refl. Qed.

Lemma assoc_get_pop_same (A : Type) (d : list (string * A)) k :
  assoc_get (assoc_pop d k) k = None.
Proof.
  unfold assoc_pop. induction d as [|[k' v] d IH]; simpl; [reflexivity|].
  destruct (String.eqb k k') eqn:E; simpl; [exact IH|]. now rewrite E.
Qed.

Lemma assoc_get_pop_other (A : Type) (d : list (string * A)) k k' :
  k <> k' -> assoc_get (assoc_pop d k) k' = assoc_get d k'.
Proof.
  intros Hne. unfold assoc_pop. induction d as [|[k0 v] d IH]; simpl;
    [reflexivity|].
  destruct (String.eqb k k0) eqn:E; simpl.
  - apply String.eqb_eq in E. subst k0.
    destruct (String.eqb k' k) eqn:E'; [|exact IH].
    apply String.eqb_eq in E'. congruence.
  - now rewrite IH.
Qed.

Lemma assoc_get_pop_none (A : Type) (d : list (string * A)) k k' :
  assoc_get d k' = None -> assoc_get (assoc_pop d k) k' = None.
Proof.
  intros H. destruct (string_dec k k') as [->|Hne].
  - apply assoc_get_pop_same.
  - now rewrite assoc_get_pop_other.
Qed.

Lemma pop_value_none d x k :
  assoc_get d k = None -> assoc_get (pop_value d x) k = None.
Proof.
  destruct x; simpl; auto. unfold pop. now apply assoc_get_pop_none.
Qed.

Lemma pop_values_removes redacted : forall d k,
  (In (VStr k) redacted \/ assoc_get d k = None) ->
  assoc_get (fold_left pop_value redacted d) k = None.
Proof.
  induction redacted as [|x redacted IH]; intros d k H; simpl.
  - destruct H as [[]|H]; exact H.
  - apply IH. destruct H as [[-> | Hin] | Hnone].
    + right. simpl. apply assoc_get_pop_same.
    + now left.
    + right. now apply pop_value_none.
Qed.

Lemma pop_values_keeps redacted : forall d k,
  ~ In (VStr k) redacted ->
  assoc_get (fold_left pop_value redacted d) k = assoc_get d k.
Proof.
  induction redacted as [|x redacted IH]; intros d k H; simpl; [reflexivity|].
  rewrite IH by (intros Hin; apply H; now right).
  destruct x; simpl; try reflexivity.
  unfold pop. apply assoc_get_pop_other. intros ->. apply H. now left.
Qed.

Lemma vset_add_ok s v s' :
  vset_add s v = Ok s' ->
  (forall x, In x s -> In x s')
  /\ (forall x, In x s' -> In x s \/ x = v)
  /\ (forall k, v = VStr k -> In v s').
Proof.
  unfold vset_add. destruct (hashable v); [|discriminate].
  destruct (existsb (py_eq v) s) eqn:E; intros H; injection H as <-.
  - split; [auto|]. split; [auto|]. intros k ->.
    apply existsb_exists in E. destruct E as (x & Hx & He).
    apply py_eq_str_l in He. now subst.
  - split; [intros x Hx; apply in_or_app; now left|].
    split.
    + intros x Hx. apply in_app_or in Hx. destruct Hx as [Hx|[<-|[]]]; auto.
    + intros k _. apply in_or_app. right. now left.
Qed.

Lemma vset_adds_ok items : forall s s',
  rfold vset_add s items = Ok s' ->
  (forall x, In x s -> In x s')
  /\ (forall x, In x s' -> In x s \/ In x items)
  /\ (forall k, In (VStr k) items -> In (VStr k) s').
Proof.
  induction items as [|v items IH]; intros s s' H; simpl in H.
  - injection H as <-. repeat split; auto. intros k [].
  - destruct (vset_add s v) as [s1|] eqn:E; cbn [rbind] in H; [|discriminate].
    apply vset_add_ok in E. destruct E as (E1 & E2 & E3).
    apply IH in H. destruct H as (H1 & H2 & H3).
    split; [auto|]. split.
    + intros x Hx. apply H2 in Hx. destruct Hx as [Hx|Hx]; [|right; now right].
      apply E2 in Hx. destruct Hx as [Hx | ->]; [now left | right; now left].
    + intros k [-> | Hin]; [|now apply H3].
      apply H1. now apply (E3 k).
Qed.

(** What [_redact_receipt] returns: listed fields are gone, fields that
    are not in the set keep their value. *)
Lemma redact_receipt_ok receipt copy fields :
  _redact_receipt receipt = Ok copy ->
  get receipt "redacted_fields" = VList fields ->
  (forall k, In (VStr k) fields -> k <> "redacted_fields" ->
             assoc_mem copy k = false)
  /\ (forall k, ~ In (VStr k) fields -> k <> "redacted_fields" ->
                k <> "explanation" -> k <> "explanation_legible" ->
                assoc_get copy k = assoc_get receipt k).
Proof.
  unfold _redact_receipt, redacted_set. intros H Hf. rewrite Hf in H.
  assert (Hit : py_iter (por (VList fields) (VList [])) = Ok fields)
    by (destruct fields; reflexivity).
  rewrite Hit in H. cbn [rbind] in H.
  destruct (vset_of fields) as [s0|] eqn:E0; cbn [rbind] in H; [|discriminate].
  apply vset_adds_ok in E0. destruct E0 as (_ & A2 & A3).
  set (extra := [VStr "explanation"; VStr "explanation_legible"]) in *.
  assert (Hred : exists redacted,
             (if is_False (get receipt "explanation_delivered")
              then rfold vset_add s0 extra else Ok s0) = Ok redacted
             /\ (forall k, In (VStr k) fields -> In (VStr k) redacted)
             /\ (forall x, In x redacted -> In x fields \/ In x extra)).
  { destruct (is_False (get receipt "explanation_delivered")).
    - destruct (rfold vset_add s0 extra) as [s1|] eqn:E1; [|discriminate].
      apply vset_adds_ok in E1. destruct E1 as (B1 & B2 & _).
      exists s1. split; [reflexivity|]. split; [auto|].
      intros x Hx. apply B2 in Hx. destruct Hx as [Hx|Hx]; [|now right].
      apply A2 in Hx. destruct Hx as [[]|Hx]. now left.
    - exists s0. split; [reflexivity|]. split; [auto|].
      intros x Hx. apply A2 in Hx. destruct Hx as [[]|Hx]. now left. }
  destruct Hred as (redacted & Er & R1 & R2). rewrite Er in H.
  cbn [rbind] in H.
  assert (Hcopy : forall view,
             (if nonempty redacted
              then (names <- py_sorted redacted ;;
                    Ok (setitem view "redacted_fields" (VList names)))
              else Ok view) = Ok copy ->
             forall k, k <> "redacted_fields" ->
                       assoc_get copy k = assoc_get view k).
  { intros view Hc k Hk. destruct (nonempty redacted).
    - destruct (py_sorted redacted); cbn [rbind] in Hc; [|discriminate].
      injection Hc as <-. unfold setitem.
      apply assoc_get_set_other. congruence.
    - now injection Hc as <-. }
  specialize (Hcopy _ H). split.
  - intros k Hin Hk. unfold assoc_mem. rewrite Hcopy by assumption.
    rewrite pop_values_removes; [reflexivity|]. left. now apply R1.
  - intros k Hin Hk He Hel. rewrite Hcopy by assumption.
    apply pop_values_keeps. intros Hr. apply R2 in Hr.
    destruct Hr as [Hr | [Hr | [Hr | []]]]; [contradiction| |];
      injection Hr as Hr; congruence.
Qed.

Lemma decision_receipt_visible receipt suser_id :
  type_is receipt "decision_receipt" = true ->
  py_eq (get receipt "suser_id") (VStr suser_id) = true ->
  counts_as_delivered receipt = true ->
  _receipt_visible_to_suser receipt suser_id = Ok true.
Proof.
  unfold type_is, counts_as_delivered, _receipt_visible_to_suser.
  intros -> -> Hd. cbv zeta in Hd. now rewrite Hd.
Qed.

Lemma visible_receipts_In log suser_id : forall receipts receipt,
  visible_receipts log suser_id = Ok receipts ->
  In receipt log ->
  _receipt_visible_to_suser receipt suser_id = Ok true ->
  exists copy, _redact_receipt receipt = Ok copy /\ In copy receipts.
Proof.
  induction log as [|r0 log IH]; intros receipts receipt H Hin Hv;
    [contradiction|].
  simpl in H.
  destruct (_receipt_visible_to_suser r0 suser_id) as [v0|] eqn:E0;
    cbn [rbind] in H; [|discriminate].
  destruct Hin as [-> | Hin].
  - rewrite Hv in E0. injection E0 as <-.
    destruct (_redact_receipt receipt) as [copy|]; cbn [rbind] in H;
      [|discriminate].
    destruct (visible_receipts log suser_id); cbn [rbind] in H; [|discriminate].
    injection H as <-. exists copy. split; [reflexivity | now left].
  - destruct v0.
    + destruct (_redact_receipt r0) as [c0|]; cbn [rbind] in H; [|discriminate].
      destruct (visible_receipts log suser_id) as [rest|] eqn:Er;
        cbn [rbind] in H; [|discriminate].
      injection H as <-.
      destruct (IH _ _ eq_refl Hin Hv) as (copy & Hc & Hi).
      exists copy. split; [assumption | now right].
    + eapply IH; eauto.
Qed.


(** ** Keys of the maps *)

Lemma py_eq_key a b :
  hashable a = true -> hashable b = true ->
  py_eq a b = true <-> key_of a = key_of b.
Proof.
  destruct a as [|x|x|x|x|x], b as [|y|y|y|y|y]; simpl; intros Ha Hb;
    try discriminate;
    try (split; [discriminate | discriminate]);
    try (split; reflexivity).
  - destruct x, y; simpl; split; (discriminate || reflexivity).
  - rewrite Z.eqb_eq. split; congruence.
  - rewrite Z.eqb_eq. split; congruence.
  - rewrite Z.eqb_eq. split; congruence.
  - rewrite String.eqb_eq. split; congruence.
Qed.

Lemma py_eq_same_class a b c :
  hashable a = true -> hashable b = true -> hashable c = true ->
  py_eq a b = true -> py_eq c a = py_eq c b.
Proof.
  intros Ha Hb Hc Hab. apply py_eq_key in Hab; auto.
  destruct (py_eq c a) eqn:E1, (py_eq c b) eqn:E2; auto.
  - apply py_eq_key in E1; auto.
    assert (E : py_eq c b = true) by (apply py_eq_key; congruence). congruence.
  - apply py_eq_key in E2; auto.
    assert (E : py_eq c a = true) by (apply py_eq_key; congruence). congruence.
Qed.

Lemma py_eq_hashable_refl a : hashable a = true -> py_eq a a = true.
Proof. intros Ha. now apply py_eq_key. Qed.

Lemma py_eq_same_class_l a b c :
  hashable a = true -> hashable b = true -> hashable c = true ->
  py_eq a b = true -> py_eq a c = py_eq b c.
Proof.
  intros Ha Hb Hc Hab. apply py_eq_key in Hab; auto.
  destruct (py_eq a c) eqn:E1, (py_eq b c) eqn:E2; auto.
  - apply py_eq_key in E1; auto.
    assert (E : py_eq b c = true) by (apply py_eq_key; congruence). congruence.
  - apply py_eq_key in E2; auto.
    assert (E : py_eq a c = true) by (apply py_eq_key; congruence). congruence.
Qed.

Lemma vmap_put_keys (A : Type) (m : vmap A) k v :
  keys_hashable m -> hashable k = true -> keys_hashable (vmap_put m k v).
Proof.
  intros Hm Hk. induction Hm as [|[k' v'] m Hk' Hm IH]; simpl.
  - repeat constructor. exact Hk.
  - destruct (py_eq k k'); constructor; auto.
Qed.

Lemma vmap_find_put (A : Type) (m : vmap A) k2 v k :
  keys_hashable m -> hashable k = true -> hashable k2 = true ->
  vmap_find (vmap_put m k2 v) k
  = if py_eq k k2 then Some v else vmap_find m k.
Proof.
  intros Hm Hk Hk2. induction Hm as [|[k' v'] m Hk' Hm IH]; simpl; [reflexivity|].
  simpl in Hk'.
  destruct (py_eq k2 k') eqn:E2; simpl.
  - rewrite (@py_eq_same_class k2 k' k Hk2 Hk' Hk E2). now destruct (py_eq k k').
  - rewrite IH. destruct (py_eq k k') eqn:E1; [|reflexivity].
    destruct (py_eq k k2) eqn:E3; [|reflexivity].
    exfalso. apply py_eq_key in E1; auto. apply py_eq_key in E3; auto.
    assert (E : py_eq k2 k' = true) by (apply py_eq_key; congruence).
    congruence.
Qed.

Lemma vmap_find_same_class (A : Type) (m : vmap A) k1 k2 :
  keys_hashable m -> hashable k1 = true -> hashable k2 = true ->
  py_eq k1 k2 = true -> vmap_find m k1 = vmap_find m k2.
Proof.
  intros Hm H1 H2 E. induction Hm as [|[k' v'] m Hk' Hm IH]; simpl;
    [reflexivity|].
  simpl in Hk'. rewrite (@py_eq_same_class_l k1 k2 k' H1 H2 Hk' E).
  now rewrite IH.
Qed.

(** ** The view evaluator *)

Lemma group_receipt_ok groups receipt groups' :
  keys_hashable groups ->
  group_receipt groups receipt = Ok groups' ->
  keys_hashable groups'
  /\ hashable (get receipt "decision_id") = true
  /\ in_group groups' receipt
  /\ forall x, hashable (get x "decision_id") = true ->
               in_group groups x -> in_group groups' x.
Proof.
  intros Hk H. unfold group_receipt, vmap_get in H.
  destruct (hashable (get receipt "decision_id")) eqn:Hh; [|discriminate].
  cbn [rbind] in H. injection H as <-.
  split; [now apply vmap_put_keys|]. split; [reflexivity|]. split.
  - unfold in_group. rewrite vmap_find_put by assumption.
    rewrite py_eq_hashable_refl by assumption.
    eexists. split; [reflexivity|]. apply in_or_app. right. now left.
  - intros x Hx (rs & Hf & Hin). unfold in_group.
    rewrite vmap_find_put by assumption.
    destruct (py_eq (get x "decision_id") (get receipt "decision_id")) eqn:E.
    + eexists. split; [reflexivity|]. apply in_or_app. left.
      assert (Hsame : vmap_find groups (get receipt "decision_id")
                      = vmap_find groups (get x "decision_id")).
      { symmetry. now apply vmap_find_same_class. }
      rewrite Hsame, Hf. exact Hin.
    + exists rs. split; assumption.
Qed.

Lemma group_receipts_ok receipts : forall groups groups',
  keys_hashable groups ->
  rfold group_receipt groups receipts = Ok groups' ->
  (forall x, hashable (get x "decision_id") = true ->
             in_group groups x -> in_group groups' x)
  /\ (forall x, In x receipts ->
                hashable (get x "decision_id") = true /\ in_group groups' x).
Proof.
  induction receipts as [|r receipts IH]; intros groups groups' Hk H;
    simpl in H.
  - injection H as <-. split; [auto | intros x []].
  - destruct (group_receipt groups r) as [g1|] eqn:E; cbn [rbind] in H;
      [|discriminate].
    apply group_receipt_ok in E; [|assumption].
    destruct E as (Hk1 & Hh & Hin1 & Hpres).
    apply IH in H; [|assumption]. destruct H as [Hpres' Hall].
    split; [auto|].
    intros x [-> | Hx]; [|now apply Hall].
    split; [assumption | now apply Hpres'].
Qed.

Lemma grows_view_check_receipt suser_id decision receipt :
  grows (view_check_receipt suser_id decision receipt).
Proof. unfold view_check_receipt. grows_tac. Qed.

#[local] Hint Resolve grows_view_check_receipt : grows.

Lemma grows_view_check_decision suser_id groups decision :
  grows (view_check_decision suser_id groups decision).
Proof. unfold view_check_decision. grows_tac. Qed.

#[local] Hint Resolve grows_view_check_decision : grows.

Lemma view_check_receipt_emits suser_id decision receipt s s' :
  get receipt "authority_chain" = VNone ->
  view_check_receipt suser_id decision receipt s = Ok (tt, s') ->
  In (mkViolation TRUST_VIOLATION.ACCOUNTABILITY_BREAK
        [receipt_evidence receipt] "")
    (violations (fst s')).
Proof.
  intros Hc H. unfold view_check_receipt in H.
  do 6 (apply bind_ok in H; destruct H as ([] & ? & _ & H)).
  unfold chain_breaks in H. rewrite Hc in H. simpl in H.
  injection H as <-. simpl. apply in_or_app. right. now left.
Qed.

Lemma view_check_decision_emits suser_id groups decision receipt s s' :
  py_eq (get decision "suser_id") (VStr suser_id) = true ->
  get decision "decision_id" = get receipt "decision_id" ->
  hashable (get receipt "decision_id") = true ->
  in_group groups receipt ->
  get receipt "authority_chain" = VNone ->
  view_check_decision suser_id groups decision s = Ok (tt, s') ->
  In (mkViolation TRUST_VIOLATION.ACCOUNTABILITY_BREAK
        [receipt_evidence receipt] "")
    (violations (fst s')).
Proof.
  intros Hown Hid Hh (rs & Hf & Hin) Hc H.
  unfold view_check_decision, decision_out_of_view, vmap_get in H.
  rewrite Hown, Hid, Hh, Hf in H. simpl in H.
  destruct rs as [|r0 rs]; [contradiction|].
  cbn [nonempty negb] in H.
  eapply for_each_visits in H; [|apply grows_view_check_receipt|exact Hin].
  destruct H as (s1 & s2 & vs & Hb & E).
  eapply view_check_receipt_emits in Hb; [|exact Hc].
  rewrite E. apply in_or_app. now left.
Qed.

Lemma get_of_assoc_get d d' k :
  assoc_get d k = assoc_get d' k -> get d k = get d' k.
Proof. unfold get. now intros ->. Qed.

(** On any state that holds the decision of the receipt. *)
Lemma view_reports_redacted_chain st suser_id report d receipt fields :
  evaluate_trust_view st suser_id = Ok report ->
  In d (decisions st) ->
  py_eq (get (deref st d) "suser_id") (VStr suser_id) = true ->
  get (deref st d) "decision_id" = get receipt "decision_id" ->
  In receipt (receipt_log st) ->
  type_is receipt "decision_receipt" = true ->
  py_eq (get receipt "suser_id") (VStr suser_id) = true ->
  counts_as_delivered receipt = true ->
  get receipt "redacted_fields" = VList fields ->
  In (VStr "authority_chain") fields ->
  ~ In (VStr "type") fields ->
  ~ In (VStr "decision_id") fields ->
  exists copy,
    _redact_receipt receipt = Ok copy
    /\ In (mkViolation TRUST_VIOLATION.ACCOUNTABILITY_BREAK
             [receipt_evidence copy] "")
         (violations report).
Proof.
  intros Hrun Hd Hown Hid Hin Hty Hsu Hdel Hf Hchain Hnt Hnd.
  unfold evaluate_trust_view in Hrun.
  destruct (suser_view st suser_id) as [view|] eqn:Ev; cbn [rbind] in Hrun;
    [|discriminate].
  pose proof (@decision_receipt_visible _ _ Hty Hsu Hdel) as Hvis.
  unfold suser_view in Ev.
  destruct (visible_receipts (receipt_log st) suser_id) as [shown|] eqn:Es;
    cbn [rbind] in Ev; [|discriminate].
  injection Ev as <-. cbn [view_receipts] in Hrun.
  destruct (@visible_receipts_In _ _ _ _ Es Hin Hvis) as (copy & Hc & Hcin).
  exists copy. split; [exact Hc|].
  destruct (@redact_receipt_ok _ _ _ Hc Hf) as [Hgone Hkept].
  assert (Hcc : get copy "authority_chain" = VNone).
  { specialize (Hgone "authority_chain" Hchain). unfold assoc_mem in Hgone.
    unfold get. destruct (assoc_get copy "authority_chain");
      [discriminate (Hgone ltac:(discriminate)) | reflexivity]. }
  assert (Hct : type_is copy "decision_receipt" = true).
  { unfold type_is. erewrite get_of_assoc_get; [exact Hty|].
    apply Hkept; auto; discriminate. }
  assert (Hcd : get copy "decision_id" = get receipt "decision_id").
  { apply get_of_assoc_get. apply Hkept; auto; discriminate. }
  match type of Hrun with
  | context [rfold group_receipt [] ?l] =>
      destruct (rfold group_receipt [] l) as [groups|] eqn:Eg;
        cbn [rbind] in Hrun; [|discriminate];
      assert (Hl : In copy l) by (apply filter_In; split; assumption)
  end.
  apply group_receipts_ok in Eg; [|constructor].
  destruct Eg as [_ Hall]. destruct (Hall copy Hl) as [Hh Hg].
  match type of Hrun with
  | match ?m ?s with _ => _ end = _ =>
      destruct (m s) as [[[] [rep u]]|] eqn:Ep; [|discriminate]
  end.
  injection Hrun as <-. cbn [violations].
  eapply for_each_visits in Ep;
    [|apply grows_view_check_decision|apply in_map; exact Hd].
  destruct Ep as (s1 & s2 & vs & Hb & E).
  pose proof (@view_check_decision_emits suser_id groups (deref st d) copy
                s1 s2 Hown (eq_trans Hid (eq_sym Hcd)) Hh Hg Hcc Hb) as Hv.
  simpl in E. rewrite E. apply in_or_app. now left.
Qed.

(** ** One call of [apply_event], step by step *)

Lemma Ok_inj (A : Type) (x y : A) : Ok x = Ok y -> x = y.
Proof. congruence. Qed.

Lemma apply_event_cases st event st' rs :
  apply_event st event = Ok (st', rs) ->
  exists ev tu st1 r,
    stamp_event st ev (clock st) tu = (st1, r)
    /\ ((exists ty,
           finish (_add_error_receipt ty (deref st1 r) (clock st) tu
                     (mkFrame st1 [])) = (st', rs))
        \/ (exists ty branch st2 rc,
              dispatch ty = Some branch
              /\ branch st1 r (clock st) = Ok (st2, rc)
              /\ finish (_add_receipt (clock st) tu (mkFrame st2 []) rc)
                 = (st', rs))
        \/ (unknown_event_type (get event "type") = Ok false
            /\ dispatch (py_str (get event "type")) = None
            /\ finish (mkFrame st1 []) = (st', rs))).
Proof.
  unfold apply_event, _clone_state. intros H.
  destruct (unknown_event_type (get event "type")) as [unknown|] eqn:Eu;
    cbn [rbind] in H; [|discriminate].
  destruct (_event_time_utc (base_time_utc st) (clock st)) as [tu|] eqn:Et;
    [|destruct unknown; discriminate].
  destruct unknown; cbn [rbind] in H.
  - match type of H with
    | (let '(_, _) := stamp_event _ ?ev _ _ in _) = _ =>
        destruct (stamp_event st ev (clock st) tu) as [st1 r] eqn:Es;
        exists ev, tu, st1, r
    end.
    split; [exact Es|]. left. eexists. cbv zeta in H. apply Ok_inj in H. exact H.
  - match type of H with
    | (let '(_, _) := stamp_event _ ?ev _ _ in _) = _ =>
        destruct (stamp_event st ev (clock st) tu) as [st1 r] eqn:Es;
        exists ev, tu, st1, r
    end.
    split; [exact Es|]. right.
    destruct (dispatch (py_str (get event "type"))) as [branch|] eqn:Ed.
    + destruct (branch st1 r (clock st)) as [[st2 rc]|] eqn:Eb;
        cbn [rbind] in H; [|discriminate].
      left. exists (py_str (get event "type")), branch, st2, rc.
      cbv zeta in H. apply Ok_inj in H. auto.
    + right. split; [reflexivity|]. split; [reflexivity|].
      cbv zeta in H. now apply Ok_inj in H.
Qed.

(** ** What a branch of the dispatch does to the objects *)

Lemma getitem_get d k v : getitem d k = Ok v -> get d k = v.
Proof. unfold getitem, get. destruct (assoc_get d k); congruence. Qed.

Lemma length_list_set (A : Type) (l : list A) : forall n x,
  List.length (list_set l n x) = List.length l.
Proof.
  induction l as [|y l IH]; intros [|n] x; simpl; auto.
Qed.

(** Overwriting an object with one that agrees on a field changes that
    field of no object. *)
Lemma list_set_field (l : list dict) k : forall n m x,
  get x k = get (nth n l []) k ->
  get (nth m (list_set l n x) []) k = get (nth m l []) k.
Proof.
  induction l as [|y l IH]; intros [|n] [|m] x H; simpl in *; auto.
Qed.

Lemma nth_list_set_other (A : Type) (l : list A) d : forall n m x,
  m <> n -> nth m (list_set l n x) d = nth m l d.
Proof.
  induction l as [|y l IH]; intros [|n] [|m] x H; simpl; auto.
  congruence.
Qed.

Ltac effect_none :=
  intros;
  match goal with H : _ = Ok _ |- _ => unfold_branch H end;
  rinv;
  repeat match goal with
  | |- context [match ?x with _ => _ end] => destruct x
  end;
  apply eff_none; reflexivity.

Lemma vmap_find_In (A : Type) (m : vmap A) k v :
  vmap_find m k = Some v -> In v (vmap_values m).
Proof.
  induction m as [|[k' v'] m IH]; simpl; [discriminate|].
  destruct (py_eq k k'); intros H.
  - injection H as ->. now left.
  - right. now apply IH.
Qed.

Lemma on_delegation_effect st r t st' rc :
  on_delegation st r t = Ok (st', rc) -> effect st r st' rc.
Proof.
  intros H. unfold_branch H. rinv.
  eapply eff_store; try reflexivity.
  right. split; now rewrite !get_setitem_other by discriminate.
Qed.

Lemma on_default_setting_effect st r t st' rc :
  on_default_setting st r t = Ok (st', rc) -> effect st r st' rc.
Proof.
  intros H. unfold_branch H. rinv.
  eapply eff_store; try reflexivity.
  right. split; now rewrite !get_setitem_other by discriminate.
Qed.

Lemma on_revoke_delegation_effect st r t st' rc :
  on_revoke_delegation st r t = Ok (st', rc) -> effect st r st' rc.
Proof.
  intros H. unfold_branch H. rinv.
  match goal with
  | |- context [match ?x with _ => _ end] => destruct x
  end.
  - eapply eff_store; try reflexivity. right.
    destruct (_ =? 0); split; now rewrite !get_setitem_other by discriminate.
  - apply eff_none; reflexivity.
Qed.

Lemma on_withdraw_consent_effect st r t st' rc :
  on_withdraw_consent st r t = Ok (st', rc) -> effect st r st' rc.
Proof.
  intros H. unfold_branch H. rinv.
  match goal with
  | |- context [match ?x with _ => _ end] => destruct x
  end.
  - eapply eff_store; try reflexivity. right.
    split; now rewrite !get_setitem_other by discriminate.
  - apply eff_none; reflexivity.
Qed.

Lemma on_service_action_effect st r t st' rc :
  on_service_action st r t = Ok (st', rc) -> effect st r st' rc.
Proof.
  intros H. unfold_branch H.
  destruct (getitem (deref st r) "decision_id") as [decision_id|] eqn:Ed;
    cbn [rbind] in H; [|discriminate].
  apply getitem_get in Ed.
  rinv; apply eff_decision; try reflexivity; symmetry; exact Ed.
Qed.

Lemma on_boundary_declaration_effect st r t st' rc :
  on_boundary_declaration st r t = Ok (st', rc) -> effect st r st' rc.
Proof.
  intros H. unfold_branch H. rinv.
  match goal with E : vmap_set _ _ _ = Ok _ |- _ => apply vmap_set_ok in E end.
  subst. eapply eff_boundary; reflexivity.
Qed.

Lemma boundaries_merge_effect st k event st' r rc :
  boundaries_merge st k event = Ok st' ->
  type_is rc "decision_receipt" = false -> effect st r st' rc.
Proof.
  intros H Hrc. unfold boundaries_merge, vmap_get in H.
  destruct (hashable k); cbn [rbind] in H; [|discriminate].
  destruct (vmap_find (boundaries st) k) as [b|] eqn:Ef.
  - apply Ok_inj in H. subst st'.
    eapply eff_store; try reflexivity; [|exact Hrc].
    left. eapply vmap_find_In; eauto.
  - unfold alloc in H. cbv beta zeta iota in H. apply Ok_inj in H. subst st'.
    eapply eff_boundary_new; try reflexivity. exact Hrc.
Qed.

Lemma on_boundary_rule_effect st r t st' rc :
  on_boundary_rule st r t = Ok (st', rc) -> effect st r st' rc.
Proof.
  intros H. unfold on_boundary_rule in H. cbv zeta in H.
  destruct (boundaries_merge st _ _) as [st2|] eqn:E; cbn [rbind] in H;
    [|discriminate].
  apply Ok_inj in H. injection H as <- <-.
  eapply boundaries_merge_effect; [exact E | reflexivity].
Qed.

Lemma on_federated_governance_effect st r t st' rc :
  on_federated_governance st r t = Ok (st', rc) -> effect st r st' rc.
Proof.
  intros H. unfold on_federated_governance in H. cbv zeta in H.
  destruct (boundaries_merge st _ _) as [st2|] eqn:E; cbn [rbind] in H;
    [|discriminate].
  apply Ok_inj in H. injection H as <- <-.
  eapply boundaries_merge_effect; [exact E | reflexivity].
Qed.

Lemma dispatch_effect ty branch st r t st' rc :
  dispatch ty = Some branch ->
  branch st r t = Ok (st', rc) -> effect st r st' rc.
Proof.
  unfold dispatch.
  repeat match goal with
  | |- (if ?b then _ else _) = Some _ -> _ => destruct b
  end; intros Hb; inversion Hb; subst; clear Hb;
  first [ apply on_delegation_effect | apply on_default_setting_effect
        | apply on_revoke_delegation_effect | apply on_withdraw_consent_effect
        | apply on_service_action_effect | apply on_boundary_declaration_effect
        | apply on_boundary_rule_effect | apply on_federated_governance_effect
        | effect_none ].
Qed.

(** ** Decisions and their receipts in reachable states *)

Lemma view_inv_on_change h ds bs log h' bs' :
  view_inv_on h ds bs log ->
  (List.length h <= List.length h')%nat ->
  (forall d, In d ds ->
     get (nth d h' []) "decision_id" = get (nth d h []) "decision_id"
     /\ get (nth d h' []) "suser_id" = get (nth d h []) "suser_id") ->
  (forall b, In b bs' -> (b < List.length h')%nat /\ ~ In b ds) ->
  view_inv_on h' ds bs' log.
Proof.
  intros (Hd & Hb & Hr) Hlen Hkeep Hb'. split; [|split].
  - intros d Hin. eapply Nat.lt_le_trans; [apply Hd|]; eassumption.
  - exact Hb'.
  - intros receipt Hin Hty. destruct (Hr receipt Hin Hty) as (d & Hdin & H1 & H2).
    exists d. destruct (Hkeep d Hdin) as [K1 K2].
    split; [assumption|]. split; [exact (eq_trans K1 H1) | exact (eq_trans K2 H2)].
Qed.

Lemma view_inv_on_receipt h ds bs log rc :
  view_inv_on h ds bs log ->
  type_is rc "decision_receipt" = false ->
  view_inv_on h ds bs (log ++ [rc]).
Proof.
  intros (Hd & Hb & Hr) Hty. split; [|split]; auto.
  intros receipt Hin Hty'. apply in_app_or in Hin.
  destruct Hin as [Hin | [<- | []]]; [now apply Hr | congruence].
Qed.

Lemma view_inv_on_decision h ds bs log r rc :
  view_inv_on h ds bs log ->
  (r < List.length h)%nat -> ~ In r bs ->
  get rc "decision_id" = get (nth r h []) "decision_id" ->
  get rc "suser_id" = get (nth r h []) "suser_id" ->
  view_inv_on h (ds ++ [r]) bs (log ++ [rc]).
Proof.
  intros (Hd & Hb & Hr) Hlt Hnb H1 H2. split; [|split].
  - intros d Hin. apply in_app_or in Hin.
    destruct Hin as [Hin | [<- | []]]; auto.
  - intros b Hin. destruct (Hb b Hin) as [Hl Hn]. split; [assumption|].
    intros Hin'. apply in_app_or in Hin'.
    destruct Hin' as [Hin' | [<- | []]]; auto.
  - intros receipt Hin Hty. apply in_app_or in Hin.
    destruct Hin as [Hin | [<- | []]].
    + destruct (Hr receipt Hin Hty) as (d & Hdin & K1 & K2).
      exists d. split; [apply in_or_app; now left | now split].
    + exists r. split; [apply in_or_app; right; now left | now split].
Qed.

Lemma vmap_put_values (A : Type) (m : vmap A) k v x :
  In x (vmap_values (vmap_put m k v)) -> In x (vmap_values m) \/ x = v.
Proof.
  induction m as [|[k' v'] m IH]; simpl.
  - intros [<- | []]. now right.
  - destruct (py_eq k k'); simpl.
    + intros [<- | Hin]; [now right | left; now right].
    + intros [<- | Hin]; [left; now left|].
      destruct (IH Hin) as [H | H]; [left; now right | now right].
Qed.

Lemma stamp_event_effect st ev t tu st1 r :
  stamp_event st ev t tu = (st1, r) ->
  r = List.length (heap st)
  /\ (exists ev', heap st1 = heap st ++ [ev'])
  /\ decisions st1 = decisions st
  /\ boundaries st1 = boundaries st
  /\ receipt_log st1 = receipt_log st.
Proof.
  unfold stamp_event, alloc. intros H. inversion H; subst; clear H.
  split; [reflexivity|]. split; [eexists; reflexivity|]. repeat split.
Qed.

(** The finalized receipt differs from the branch's one in the five
    fields [_add_receipt] stamps. *)
Lemma add_receipt_effect t tu st2 rc st' rs :
  finish (_add_receipt t tu (mkFrame st2 []) rc) = (st', rs) ->
  heap st' = heap st2 /\ decisions st' = decisions st2
  /\ boundaries st' = boundaries st2
  /\ exists rc', rs = [rc'] /\ receipt_log st' = receipt_log st2 ++ [rc']
       /\ get rc' "type" = get rc "type"
       /\ get rc' "decision_id" = get rc "decision_id"
       /\ get rc' "suser_id" = get rc "suser_id".
Proof.
  unfold finish, _add_receipt. cbn [new_state receipts app].
  intros H. inversion H; subst; clear H.
  split; [reflexivity|]. split; [reflexivity|]. split; [reflexivity|].
  eexists. split; [reflexivity|]. split; [reflexivity|].
  repeat split; now rewrite !get_setitem_other by discriminate.
Qed.

Lemma add_error_receipt_effect ty event t tu st1 st' rs :
  finish (_add_error_receipt ty event t tu (mkFrame st1 [])) = (st', rs) ->
  heap st' = heap st1 /\ decisions st' = decisions st1
  /\ boundaries st' = boundaries st1
  /\ exists rc', rs = [rc'] /\ receipt_log st' = receipt_log st1 ++ [rc']
       /\ get rc' "type" = VStr "error_receipt".
Proof.
  unfold finish, _add_error_receipt. cbn [new_state receipts app].
  intros H. inversion H; subst; clear H.
  split; [reflexivity|]. split; [reflexivity|]. split; [reflexivity|].
  eexists. split; [reflexivity|]. split; [reflexivity|].
  reflexivity.
Qed.

Lemma view_inv_fresh h ds bs log :
  view_inv_on h ds bs log ->
  ~ In (List.length h) ds /\ ~ In (List.length h) bs.
Proof.
  intros (Hd & Hb & _). split; intros Hin.
  - apply Hd in Hin. exact (Nat.lt_irrefl _ Hin).
  - apply Hb in Hin. exact (Nat.lt_irrefl _ (proj1 Hin)).
Qed.

Lemma view_inv_init : view_inv State_init.
Proof. split; [|split]; intros x []. Qed.

Lemma view_inv_alloc h ds bs log ev :
  view_inv_on h ds bs log -> view_inv_on (h ++ [ev]) ds bs log.
Proof.
  intros Hinv. pose proof Hinv as (Hd & Hb & _).
  eapply view_inv_on_change; [exact Hinv | | |].
  - rewrite length_app. apply Nat.le_add_r.
  - intros d Hin. rewrite app_nth1 by (now apply Hd). now split.
  - intros b Hin. destruct (Hb b Hin) as [Hl Hn]. split; [|assumption].
    rewrite length_app. eapply Nat.lt_le_trans; [exact Hl | apply Nat.le_add_r].
Qed.

Lemma view_inv_effect st1 r st2 rc rc' :
  view_inv st1 ->
  (r < List.length (heap st1))%nat ->
  ~ In r (decisions st1) -> ~ In r (vmap_values (boundaries st1)) ->
  effect st1 r st2 rc ->
  get rc' "type" = get rc "type" ->
  get rc' "decision_id" = get rc "decision_id" ->
  get rc' "suser_id" = get rc "suser_id" ->
  view_inv_on (heap st2) (decisions st2) (vmap_values (boundaries st2))
    (receipt_log st1 ++ [rc']).
Proof.
  intros Hinv Hr Fd Fb Heff Ety Eid Esu.
  pose proof Hinv as (Hd & Hb & _).
  assert (Hother : type_is rc "decision_receipt" = false ->
                   type_is rc' "decision_receipt" = false).
  { unfold type_is. now rewrite Ety. }
  destruct Heff as [Eh Ed Eb Hty | x d Eh Hx Ed Eb Hty | Eh Ed Eb H1 H2
                    | k Eh Ed Eb Hty | k d Eh Ed Eb Hty].
  - rewrite Eh, Ed, Eb. apply view_inv_on_receipt; auto.
  - rewrite Eh, Ed, Eb. apply view_inv_on_receipt; auto.
    eapply view_inv_on_change; [exact Hinv | | |].
    + now rewrite length_list_set.
    + intros y Hin. destruct Hx as [Hx | [K1 K2]].
      * rewrite nth_list_set_other; [now split|].
        intros ->. now apply (proj2 (Hb _ Hx)).
      * split; now apply list_set_field.
    + intros b Hin. rewrite length_list_set. now apply Hb.
  - rewrite Eh, Ed, Eb. apply view_inv_on_decision; auto.
    + now rewrite Eid.
    + now rewrite Esu.
  - rewrite Eh, Ed, Eb. apply view_inv_on_receipt; auto.
    eapply view_inv_on_change; [exact Hinv | apply Nat.le_refl | now split |].
    intros b Hin. apply vmap_put_values in Hin.
    destruct Hin as [Hin | ->]; [now apply Hb | now split].
  - rewrite Eh, Ed, Eb. apply view_inv_on_receipt; auto.
    destruct (view_inv_fresh Hinv) as [Nd Nb].
    eapply view_inv_on_change; [exact Hinv | | |].
    + rewrite length_list_set, length_app. apply Nat.le_add_r.
    + intros y Hin. rewrite nth_list_set_other by (intros ->; contradiction).
      rewrite app_nth1 by (now apply Hd). now split.
    + intros b Hin. rewrite length_list_set, length_app.
      apply vmap_put_values in Hin. destruct Hin as [Hin | ->].
      * destruct (Hb b Hin) as [Hl Hn]. split; [|assumption].
        eapply Nat.lt_le_trans; [exact Hl | apply Nat.le_add_r].
      * split; [|assumption]. simpl. rewrite Nat.add_1_r. apply Nat.lt_succ_diag_r.
Qed.

Lemma view_inv_step st event st' rs :
  view_inv st -> apply_event st event = Ok (st', rs) -> view_inv st'.
Proof.
  intros Hinv H. apply apply_event_cases in H.
  destruct H as (ev & tu & st1 & r & Es & Hcase).
  apply stamp_event_effect in Es.
  destruct Es as (-> & [ev' Eh] & Ed & Eb & El).
  destruct (view_inv_fresh Hinv) as [Fd Fb].
  assert (H1 : view_inv st1).
  { unfold view_inv. rewrite Eh, Ed, Eb, El. now apply view_inv_alloc. }
  assert (Hr : (List.length (heap st) < List.length (heap st1))%nat).
  { rewrite Eh, length_app. simpl. rewrite Nat.add_1_r.
    apply Nat.lt_succ_diag_r. }
  rewrite <- Ed in Fd. rewrite <- Eb in Fb.
  destruct Hcase
    as [[ty Hf] | [(ty & branch & st2 & rc & Hd & Hb & Hf) | (_ & _ & Hf)]].
  - apply add_error_receipt_effect in Hf.
    destruct Hf as (E1 & E2 & E3 & rc' & -> & E4 & Ety).
    unfold view_inv. rewrite E1, E2, E3, E4.
    apply view_inv_on_receipt; [exact H1|]. unfold type_is. now rewrite Ety.
  - pose proof Hb as Hfr. eapply dispatch_frame in Hfr; [|exact Hd].
    destruct Hfr as [Elog _].
    eapply dispatch_effect in Hb; [|exact Hd].
    apply add_receipt_effect in Hf.
    destruct Hf as (E1 & E2 & E3 & rc' & -> & E4 & Ety & Eid & Esu).
    unfold view_inv. rewrite E1, E2, E3, E4, Elog.
    eapply view_inv_effect; eauto.
  - unfold finish in Hf. cbn [new_state receipts] in Hf.
    injection Hf as <- <-. unfold view_inv. cbn. now rewrite app_nil_r.
Qed.

Lemma reachable_view_inv events st :
  run_events State_init events = Ok st -> view_inv st.
Proof.
  intros H.
  exact (@run_events_inv view_inv view_inv_step events State_init st
           view_inv_init H).
Qed.

(** ** Events the branches do not take *)

(** The object [stamp_event] logs is the event with the four stamped
    fields set. *)
Lemma stamp_event_logs st ev t tu st1 r :
  stamp_event st ev t tu = (st1, r) ->
  event_log st1 = event_log st ++ [r]
  /\ forall k, k <> "time" -> k <> "time_utc" -> k <> "event_hash_prev" ->
               k <> "event_hash" ->
               assoc_get (deref st1 r) k = assoc_get ev k.
Proof.
  unfold stamp_event, alloc. intros H. inversion H; subst; clear H.
  split; [reflexivity|]. intros k H1 H2 H3 H4. unfold deref.
  cbn [heap with_event_log with_heap with_event_hash_prev].
  rewrite nth_middle. unfold setitem.
  rewrite !assoc_get_set_other by congruence. reflexivity.
Qed.

Lemma known_event_type ty :
  In ty _KNOWN_EVENT_TYPES -> unknown_event_type (VStr ty) = Ok false.
Proof.
  intros H. unfold unknown_event_type. cbn [is_none in_str_set hashable rbind].
  replace (existsb (String.eqb ty) _KNOWN_EVENT_TYPES) with true; [reflexivity|].
  symmetry. apply existsb_exists. exists ty. split; [assumption|].
  apply String.eqb_refl.
Qed.

Lemma required_id_cases ty key :
  required_id ty = Some key ->
  In (ty, key)
    [ ("delegation", "delegation_id"); ("revoke_delegation", "delegation_id");
      ("consent", "consent_id"); ("withdraw_consent", "consent_id");
      ("telemetry", "telemetry_id"); ("service_action", "decision_id");
      ("boundary_declaration", "environment_id");
      ("entry_condition", "environment_id") ].
Proof.
  unfold required_id.
  repeat match goal with
  | |- (if String.eqb ty ?s then _ else _) = _ -> _ =>
      destruct (String.eqb ty s) eqn:E;
      [apply String.eqb_eq in E; subst ty; intros H; injection H as <-;
       simpl; tauto | clear E]
  end.
  discriminate.
Qed.

Lemma branch_needs_id ty key :
  required_id ty = Some key ->
  In ty _KNOWN_EVENT_TYPES
  /\ key <> "time" /\ key <> "time_utc" /\ key <> "event_hash_prev"
  /\ key <> "event_hash"
  /\ exists branch,
       dispatch ty = Some branch
       /\ forall st r t, assoc_get (deref st r) key = None ->
                         branch st r t = Raise KeyError.
Proof.
  intros H. apply required_id_cases in H. simpl in H.
  repeat (destruct H as [H | H];
          [injection H as <- <-;
           split; [simpl; tauto|];
           repeat (split; [discriminate|]);
           eexists; split; [reflexivity|];
           intros st r t Hk;
           cbv beta zeta delta [on_delegation on_revoke_delegation on_consent
             on_withdraw_consent on_telemetry on_service_action
             on_boundary_declaration on_entry_condition getitem];
           rewrite Hk; reflexivity |]).
  contradiction.
Qed.

(** C1 (what the code does instead): an event of a type whose branch
    subscripts an id, applied without that id, makes [apply_event] raise
    [KeyError]. *)
Theorem apply_event_raises_without_id st event ty key tu :
  get event "type" = VStr ty ->
  required_id ty = Some key ->
  assoc_mem event key = false ->
  _event_time_utc (base_time_utc st) (clock st) = Ok tu ->
  apply_event st event = Raise KeyError.
Proof.
  intros Hty Hreq Hmem Htu.
  destruct (@branch_needs_id ty key Hreq)
    as (Hknown & K1 & K2 & K3 & K4 & branch & Hd & Hraise).
  unfold apply_event, _clone_state. rewrite Hty, (@known_event_type ty Hknown).
  cbn [rbind]. rewrite Htu. cbn [rbind].
  match goal with
  | |- (let '(_, _) := stamp_event _ ?ev _ _ in _) = _ =>
      destruct (stamp_event st ev (clock st) tu) as [st1 r] eqn:Es
  end.
  cbn [py_str]. rewrite Hd.
  apply stamp_event_logs in Es. destruct Es as [_ Hk].
  rewrite Hraise; [reflexivity|].
  rewrite Hk by assumption. unfold pop.
  repeat apply assoc_get_pop_none.
  unfold assoc_mem in Hmem. now destruct (assoc_get event key).
Qed.

(** C5 (what the code does instead): the membership test
    [event_type not in _KNOWN_EVENT_TYPES] hashes the type, so an event
    whose [type] is a list or a dictionary makes [apply_event] raise
    [TypeError] before any error receipt is made. *)
Theorem apply_event_raises_on_unhashable_type st event :
  hashable (get event "type") = false ->
  apply_event st event = Raise TypeError.
Proof.
  intros H. unfold apply_event, unknown_event_type, in_str_set.
  rewrite H. now destruct (get event "type").
Qed.

(** X1: the error path, when the type is missing or hashable and unknown,
    the clock is in the range of [datetime], and the integers that the
    error message and the two hashes render (those of the event, and the
    next receipt id) are within the conversion limit: the event is logged
    as an [error] event that keeps the original type, and exactly one
    [error_receipt] is returned and appended to the receipt log. *)
Theorem unknown_type_recorded_as_error st event tu :
  unknown_event_type (get event "type") = Ok true ->
  _event_time_utc (base_time_utc st) (clock st) = Ok tu ->
  printable (VDict event) = true ->
  printable_int (next_receipt_id st) = true ->
  exists st' receipt logged,
    apply_event st event = Ok (st', [receipt])
    /\ event_log st' = event_log st ++ [logged]
    /\ get (deref st' logged) "type" = VStr "error"
    /\ get (deref st' logged) "original_type" = get event "type"
    /\ receipt_log st' = receipt_log st ++ [receipt]
    /\ get receipt "type" = VStr "error_receipt"
    /\ get receipt "event_type" = get event "type"
    /\ get receipt "error"
       = VStr (if is_none (get event "type") then "missing_event_type"
               else ("unknown_event_type:" ++ py_str (get event "type"))%string).
Proof.
  intros Hu Htu _ _. unfold apply_event, _clone_state. rewrite Hu. cbn [rbind].
  rewrite Htu. cbn [rbind].
  match goal with
  | |- context [stamp_event st ?ev _ _] =>
      destruct (stamp_event st ev (clock st) tu) as [st1 r] eqn:Es;
      set (logged_event := ev) in *
  end.
  pose proof (stamp_event_frame Es) as [El _].
  apply stamp_event_logs in Es. destruct Es as [Elog Hk].
  assert (Hget : forall k, k <> "time" -> k <> "time_utc" ->
                   k <> "event_hash_prev" -> k <> "event_hash" ->
                   get (deref st1 r) k = get logged_event k).
  { intros k H1 H2 H3 H4. unfold get. now rewrite Hk. }
  eexists. eexists. exists r. split; [reflexivity|].
  unfold finish, _add_error_receipt, deref in *.
  cbn [new_state receipts app heap event_log receipt_log with_receipt_log
       with_next_receipt_id with_receipt_hash_prev].
  split; [exact Elog|].
  split.
  { rewrite Hget by discriminate. subst logged_event.
    rewrite !get_setitem_other by discriminate. apply get_setitem_same. }
  split.
  { rewrite Hget by discriminate. subst logged_event.
    rewrite get_setitem_other by discriminate. apply get_setitem_same. }
  split; [now rewrite El|].
  split; [reflexivity|]. split; [reflexivity|].
  rewrite !get_setitem_other by discriminate.
  change (get (nth r (heap st1) []) "error"
          = VStr (if is_none (get event "type") then "missing_event_type"
                  else ("unknown_event_type:" ++ py_str (get event "type"))%string)).
  rewrite Hget by discriminate. subst logged_event. apply get_setitem_same.
Qed.

(** ** Receipts per event *)

(** C6 (what the code does instead): [reductionist_metric] is a known
    type with no branch in the dispatch; such an event is logged and no
    receipt is emitted. *)
Theorem reductionist_metric_emits_no_receipt st event tu :
  get event "type" = VStr "reductionist_metric" ->
  _event_time_utc (base_time_utc st) (clock st) = Ok tu ->
  exists st' logged,
    apply_event st event = Ok (st', [])
    /\ receipt_log st' = receipt_log st
    /\ event_log st' = event_log st ++ [logged].
Proof.
  intros Hty Htu. unfold apply_event, _clone_state. rewrite Hty.
  rewrite known_event_type by (simpl; tauto).
  cbn [rbind]. rewrite Htu. cbn [rbind].
  match goal with
  | |- context [stamp_event st ?ev _ _] =>
      destruct (stamp_event st ev (clock st) tu) as [st1 r] eqn:Es
  end.
  pose proof (stamp_event_frame Es) as [El _].
  apply stamp_event_logs in Es. destruct Es as [Elog _].
  cbn [py_str]. change (dispatch "reductionist_metric") with
    (@None (State -> ref -> Z -> result (State * dict))).
  eexists. exists r. split; [reflexivity|].
  cbn [finish new_state receipts receipt_log event_log with_receipt_log fst].
  unfold finish. cbn [new_state receipts receipt_log event_log with_receipt_log].
  rewrite app_nil_r. split; assumption.
Qed.

Lemma unhandled_known_type v :
  unknown_event_type v = Ok false -> dispatch (py_str v) = None ->
  v = VStr "reductionist_metric".
Proof.
  unfold unknown_event_type, in_str_set.
  destruct v as [|b|z|s|l|d]; cbn [is_none hashable rbind negb];
    try discriminate.
  cbn [py_str]. intros Hk Hd. apply Ok_inj in Hk.
  apply negb_false_iff, existsb_exists in Hk.
  destruct Hk as (x & Hin & He). apply String.eqb_eq in He. subst x.
  simpl in Hin.
  repeat (destruct Hin as [<- | Hin]; [first [reflexivity | discriminate Hd]|]).
  contradiction.
Qed.

(** X2: every applied event other than a [reductionist_metric] one emits
    exactly one receipt, which is the one entry the receipt log gains. *)
Theorem handled_event_emits_one_receipt st event st' rs :
  apply_event st event = Ok (st', rs) ->
  get event "type" <> VStr "reductionist_metric" ->
  exists receipt, rs = [receipt] /\ receipt_log st' = receipt_log st ++ [receipt].
Proof.
  intros H Hty. pose proof (apply_event_emits _ _ H) as [Hlog _].
  apply apply_event_cases in H.
  destruct H as (ev & tu & st1 & r & _ & Hcase).
  assert (Hone : exists receipt, rs = [receipt]).
  { destruct Hcase
      as [[ty Hf] | [(ty & branch & st2 & rc & _ & _ & Hf) | (Hu & Hd & _)]].
    - apply add_error_receipt_effect in Hf.
      destruct Hf as (_ & _ & _ & rc' & -> & _). eauto.
    - apply add_receipt_effect in Hf.
      destruct Hf as (_ & _ & _ & rc' & -> & _). eauto.
    - exfalso. apply Hty. now apply unhandled_known_type. }
  destruct Hone as [receipt ->]. exists receipt. split; [reflexivity | exact Hlog].
Qed.

(** ** The view of a reachable state *)

(** C8 (amended): in a state reached from a fresh [State], when
    [evaluate_trust_view] returns for the requester, every decision
    receipt that is visible to the requester and whose [redacted_fields]
    list holds [authority_chain], but neither [type] nor [decision_id],
    makes the report carry [ACCOUNTABILITY_BREAK] with the redacted
    receipt as evidence. *)
Theorem redacted_chain_reported_in_view
    events st suser_id report receipt fields :
  run_events State_init events = Ok st ->
  evaluate_trust_view st suser_id = Ok report ->
  In receipt (receipt_log st) ->
  type_is receipt "decision_receipt" = true ->
  py_eq (get receipt "suser_id") (VStr suser_id) = true ->
  counts_as_delivered receipt = true ->
  get receipt "redacted_fields" = VList fields ->
  In (VStr "authority_chain") fields ->
  ~ In (VStr "type") fields ->
  ~ In (VStr "decision_id") fields ->
  exists copy,
    _redact_receipt receipt = Ok copy
    /\ In (mkViolation TRUST_VIOLATION.ACCOUNTABILITY_BREAK
             [receipt_evidence copy] "")
         (violations report).
Proof.
  intros Hreach Hrun Hin Hty Hsu Hdel Hf Hchain Hnt Hnd.
  apply reachable_view_inv in Hreach. destruct Hreach as (_ & _ & Hrec).
  destruct (Hrec receipt Hin Hty) as (d & Hd & Eid & Esu).
  eapply view_reports_redacted_chain with (d := d); eauto.
  unfold deref. now rewrite Esu.
Qed.

(** ** Receipt ids *)

Lemma dispatch_next_receipt_id ty branch st r t st' rc :
  dispatch ty = Some branch ->
  branch st r t = Ok (st', rc) -> next_receipt_id st' = next_receipt_id st.
Proof.
  unfold dispatch.
  repeat match goal with
  | |- (if ?b then _ else _) = Some _ -> _ => destruct b
  end; intros Hb; inversion Hb; subst; clear Hb;
  intros H; unfold_branch H; rinv;
  repeat match goal with
  | |- context [match ?x with _ => _ end] => destruct x
  end; reflexivity.
Qed.

Lemma stamp_event_next_receipt_id st ev t tu st1 r :
  stamp_event st ev t tu = (st1, r) -> next_receipt_id st1 = next_receipt_id st.
Proof.
  unfold stamp_event, alloc. intros H. inversion H; subst; clear H.
  reflexivity.
Qed.

Lemma add_receipt_numbers t tu st2 rc st' rs :
  finish (_add_receipt t tu (mkFrame st2 []) rc) = (st', rs) ->
  next_receipt_id st' = next_receipt_id st2 + 1
  /\ exists rc', rs = [rc'] /\ get rc' "receipt_id" = VInt (next_receipt_id st2).
Proof.
  unfold finish, _add_receipt. cbn [new_state receipts app].
  intros H. inversion H; subst; clear H.
  split; [reflexivity|]. eexists. split; [reflexivity|].
  rewrite !get_setitem_other by discriminate. apply get_setitem_same.
Qed.

Lemma add_error_receipt_numbers ty event t tu st1 st' rs :
  finish (_add_error_receipt ty event t tu (mkFrame st1 [])) = (st', rs) ->
  next_receipt_id st' = next_receipt_id st1 + 1
  /\ exists rc', rs = [rc'] /\ get rc' "receipt_id" = VInt (next_receipt_id st1).
Proof.
  unfold finish, _add_error_receipt. cbn [new_state receipts app].
  intros H. inversion H; subst; clear H.
  split; [reflexivity|]. eexists. split; reflexivity.
Qed.

Lemma nth_error_snoc (A : Type) (l : list A) x i y :
  nth_error (l ++ [x]) i = Some y ->
  nth_error l i = Some y \/ (i = List.length l /\ y = x).
Proof.
  intros H. destruct (Nat.lt_ge_cases i (List.length l)) as [Hlt | Hge].
  - left. now rewrite nth_error_app1 in H.
  - right. rewrite nth_error_app2 in H by assumption.
    destruct (i - List.length l)%nat as [|k] eqn:E; simpl in H.
    + injection H as <-. split; [lia | reflexivity].
    + now destruct k.
Qed.

Lemma numbered_step st event st' rs :
  numbered st -> apply_event st event = Ok (st', rs) -> numbered st'.
Proof.
  intros [Hn Hi] H. pose proof (apply_event_emits _ _ H) as [Hlog _].
  apply apply_event_cases in H.
  destruct H as (ev & tu & st1 & r & Es & Hcase).
  apply stamp_event_next_receipt_id in Es.
  assert (Hnew : forall n rc', next_receipt_id st' = n + 1 -> rs = [rc'] ->
                   get rc' "receipt_id" = VInt n -> n = next_receipt_id st ->
                   numbered st').
  { intros n rc' Hn' -> Hrc ->. unfold numbered. rewrite Hlog. split.
    - rewrite Hn', Hn, length_app. simpl. lia.
    - intros i y Hy. apply nth_error_snoc in Hy.
      destruct Hy as [Hy | [-> ->]]; [now apply Hi|].
      rewrite Hrc, Hn. reflexivity. }
  destruct Hcase
    as [[ty Hf] | [(ty & branch & st2 & rc & Hd & Hb & Hf) | (_ & _ & Hf)]].
  - apply add_error_receipt_numbers in Hf.
    destruct Hf as (Hn' & rc' & Hrs & Hrc). eapply Hnew; eauto.
  - eapply dispatch_next_receipt_id in Hb; [|exact Hd].
    apply add_receipt_numbers in Hf.
    destruct Hf as (Hn' & rc' & Hrs & Hrc). eapply Hnew; eauto. congruence.
  - unfold finish in Hf. cbn [new_state receipts] in Hf.
    injection Hf as <- <-. cbn [receipt_log with_receipt_log] in Hlog.
    rewrite !app_nil_r in Hlog. unfold numbered.
    cbn [receipt_log with_receipt_log next_receipt_id].
    rewrite app_nil_r, Hlog. split; [exact (eq_trans Es Hn) | exact Hi].
Qed.

Lemma numbered_init : numbered State_init.
Proof. split; [reflexivity|]. intros [|i] r H; discriminate. Qed.

(** X3: receipt ids increase along the log: in a state reached from a fresh
    [State], the receipt at position [i] carries [receipt_id = i + 1]. *)
Theorem receipt_ids_count_up events st i r :
  run_events State_init events = Ok st ->
  nth_error (receipt_log st) i = Some r ->
  get r "receipt_id" = VInt (Z.of_nat i + 1).
Proof.
  intros H.
  exact (proj2 (@run_events_inv numbered numbered_step events State_init st
                  numbered_init H) i r).
Qed.

(** ** Logs every S-User can view *)

Lemma receipt_visible_returns receipt suser_id :
  viewable receipt ->
  exists visible, _receipt_visible_to_suser receipt suser_id = Ok visible.
Proof.
  intros (Hty & Haff & _). unfold _receipt_visible_to_suser.
  destruct (get receipt "type") as [| | |t| |]; try discriminate.
  destruct (py_eq (VStr t) (VStr "decision_receipt")); [eauto|].
  unfold in_str_set. cbn [hashable rbind].
  destruct (existsb _ _); [eauto|].
  destruct (py_eq (VStr t) (VStr "shared_action_receipt")); [|eauto].
  destruct (py_eq _ (VStr suser_id)); [eauto|].
  destruct (get_default receipt "affected_susers" (VList []));
    try discriminate.
  simpl. eauto.
Qed.

Lemma vset_add_strings s v :
  strings s -> isinstance_str v = true ->
  exists s', vset_add s v = Ok s' /\ strings s'.
Proof.
  intros Hs Hv. unfold vset_add.
  destruct v; try discriminate. cbn [hashable].
  destruct (existsb _ s); eexists; (split; [reflexivity|]); [assumption|].
  apply Forall_app. split; [assumption|]. now constructor.
Qed.

Lemma vset_adds_strings items : forall s,
  strings s -> strings items ->
  exists s', rfold vset_add s items = Ok s' /\ strings s'.
Proof.
  induction items as [|v items IH]; intros s Hs Hi; simpl.
  - eauto.
  - inversion Hi as [|? ? Hv Hrest]; subst.
    destruct (@vset_add_strings s v Hs Hv) as (s1 & -> & Hs1). cbn [rbind].
    now apply IH.
Qed.

Lemma sorted_insert_strings x l :
  isinstance_str x = true -> strings l ->
  exists l', sorted_insert x l = Ok l' /\ strings l'.
Proof.
  intros Hx Hl. induction Hl as [|y l Hy Hl IH]; simpl.
  - eexists. split; [reflexivity|]. now repeat constructor.
  - destruct x as [| | |a| |]; try discriminate.
    destruct y as [| | |b| |]; try discriminate.
    unfold py_lt. cbn [py_compare rbind].
    destruct (string_compare a b).
    + destruct IH as (l' & -> & Hl'). cbn [rbind]. eexists.
      split; [reflexivity|]. now constructor.
    + eexists. split; [reflexivity|]. now repeat constructor.
    + destruct IH as (l' & -> & Hl'). cbn [rbind]. eexists.
      split; [reflexivity|]. now constructor.
Qed.

Lemma py_sorted_strings s :
  strings s -> exists l, py_sorted s = Ok l.
Proof.
  unfold py_sorted. intros Hs.
  assert (G : forall acc, strings acc ->
                exists l, rfold (fun acc x => sorted_insert x acc) acc s = Ok l).
  { induction Hs as [|x s Hx Hs IH]; intros acc Hacc; simpl; [eauto|].
    destruct (@sorted_insert_strings x acc Hx Hacc) as (l' & -> & Hl').
    cbn [rbind]. now apply IH. }
  apply G. constructor.
Qed.

Lemma redact_receipt_returns receipt :
  viewable receipt -> exists copy, _redact_receipt receipt = Ok copy.
Proof.
  intros (_ & _ & Hred). unfold _redact_receipt, redacted_set.
  assert (Hit : exists items,
             py_iter (por (get receipt "redacted_fields") (VList [])) = Ok items
             /\ strings items).
  { destruct Hred as [-> | (fields & -> & Hf)].
    - exists []. split; [reflexivity | constructor].
    - exists fields. split; [now destruct fields | assumption]. }
  destruct Hit as (items & -> & Hitems). cbn [rbind].
  destruct (@vset_adds_strings items [] (Forall_nil _) Hitems)
    as (s0 & E0 & Hs0).
  unfold vset_of. rewrite E0. cbn [rbind].
  assert (Hset : exists redacted,
             (if is_False (get receipt "explanation_delivered")
              then rfold vset_add s0
                     [VStr "explanation"; VStr "explanation_legible"]
              else Ok s0) = Ok redacted /\ strings redacted).
  { destruct (is_False _); [|eauto].
    apply vset_adds_strings; [assumption | now repeat constructor]. }
  destruct Hset as (redacted & -> & Hr). cbn [rbind].
  destruct (nonempty redacted); [|eauto].
  destruct (@py_sorted_strings redacted Hr) as (names & ->). cbn [rbind]. eauto.
Qed.

Lemma visible_receipts_returns log suser_id :
  Forall viewable log ->
  exists shown, visible_receipts log suser_id = Ok shown.
Proof.
  intros H. induction H as [|receipt log Hr Hlog IH]; simpl; [eauto|].
  destruct (@receipt_visible_returns receipt suser_id Hr) as (visible & ->).
  cbn [rbind]. destruct IH as (shown & ->).
  destruct visible; [|eauto].
  destruct (@redact_receipt_returns receipt Hr) as (copy & ->). cbn [rbind]. eauto.
Qed.

(** X4: [suser_view] returns a view for every S-User on a state whose
    receipts are all viewable. *)
Theorem suser_view_returns st suser_id :
  Forall viewable (receipt_log st) ->
  exists view, suser_view st suser_id = Ok view.
Proof.
  intros H. unfold suser_view.
  destruct (@visible_receipts_returns (receipt_log st) suser_id H) as (shown & ->).
  cbn [rbind]. eauto.
Qed.

(** ** One call of [apply_event], in full *)

Lemma apply_event_steps st event st' rs :
  apply_event st event = Ok (st', rs) ->
  exists tu ev st1 r,
    _event_time_utc (base_time_utc st) (clock st) = Ok tu
    /\ stamp_event st ev (clock st) tu = (st1, r)
    /\ ((unknown_event_type (get event "type") = Ok true
         /\ ev = error_event event
         /\ finish (_add_error_receipt (get event "type") (deref st1 r)
                      (clock st) tu (mkFrame st1 [])) = (st', rs))
        \/ (unknown_event_type (get event "type") = Ok false
            /\ ev = popped event
            /\ exists branch st2 rc,
                 dispatch (py_str (get event "type")) = Some branch
                 /\ branch st1 r (clock st) = Ok (st2, rc)
                 /\ finish (_add_receipt (clock st) tu (mkFrame st2 []) rc)
                    = (st', rs))
        \/ (unknown_event_type (get event "type") = Ok false
            /\ ev = popped event
            /\ dispatch (py_str (get event "type")) = None
            /\ finish (mkFrame st1 []) = (st', rs))).
Proof.
  unfold apply_event, _clone_state. intros H.
  destruct (unknown_event_type (get event "type")) as [unknown|] eqn:Eu;
    cbn [rbind] in H; [|discriminate].
  destruct (_event_time_utc (base_time_utc st) (clock st)) as [tu|] eqn:Et;
    [|destruct unknown; discriminate].
  exists tu.
  destruct unknown; cbn [rbind] in H.
  - destruct (stamp_event st (error_event event) (clock st) tu)
      as [st1 r] eqn:Es.
    exists (error_event event), st1, r. split; [reflexivity|].
    split; [exact Es|]. left. split; [reflexivity|]. split; [reflexivity|].
    unfold error_event, popped in Es. cbv zeta in Es, H. rewrite Es in H.
    apply Ok_inj in H. exact H.
  - destruct (stamp_event st (popped event) (clock st) tu) as [st1 r] eqn:Es.
    exists (popped event), st1, r. split; [reflexivity|].
    split; [exact Es|]. right.
    unfold popped in Es. cbv zeta in H. rewrite Es in H.
    destruct (dispatch (py_str (get event "type"))) as [branch|] eqn:Ed.
    + destruct (branch st1 r (clock st)) as [[st2 rc]|] eqn:Eb;
        cbn [rbind] in H; [|discriminate].
      left. split; [reflexivity|]. split; [reflexivity|].
      exists branch, st2, rc. apply Ok_inj in H. auto.
    + right. split; [reflexivity|]. split; [reflexivity|].
      split; [reflexivity|]. now apply Ok_inj in H.
Qed.

(** ** Receipts that verify *)

Lemma assoc_pop_set_same (A : Type) (d : list (string * A)) k v :
  assoc_pop (assoc_set d k v) k = assoc_pop d k.
Proof.
  unfold assoc_pop. induction d as [|[k' v'] d IH]; simpl.
  - now rewrite String.eqb_refl.
  - destruct (String.eqb k k') eqn:E; simpl; rewrite E; simpl; congruence.
Qed.

Lemma assoc_pop_comm (A : Type) (d : list (string * A)) a b :
  assoc_pop (assoc_pop d a) b = assoc_pop (assoc_pop d b) a.
Proof.
  unfold assoc_pop. induction d as [|[k v] d IH]; simpl; [reflexivity|].
  destruct (String.eqb a k) eqn:Ea, (String.eqb b k) eqn:Eb; simpl;
    rewrite ?Ea, ?Eb; simpl; congruence.
Qed.

Lemma strip_stamped d p h :
  _strip_hash_fields
    (setitem (setitem d "receipt_hash_prev" p) "receipt_hash" h)
    ["receipt_hash"; "receipt_hash_prev"]
  = _strip_hash_fields d ["receipt_hash"; "receipt_hash_prev"].
Proof.
  unfold _strip_hash_fields, pop, setitem. cbn [fold_left].
  rewrite assoc_pop_set_same.
  rewrite (assoc_pop_comm (assoc_set d "receipt_hash_prev" p)).
  rewrite assoc_pop_set_same. apply assoc_pop_comm.
Qed.

Lemma prev_hash_of_opt_str p : prev_hash_of (opt_str p) = p.
Proof. now destruct p. Qed.

Lemma stamped_verifies d p :
  receipt_verifies
    (setitem (setitem d "receipt_hash_prev" (opt_str p)) "receipt_hash"
       (VStr (_hash_chain
                (_strip_hash_fields d ["receipt_hash"; "receipt_hash_prev"])
                p))).
Proof.
  unfold receipt_verifies.
  rewrite get_setitem_same, strip_stamped.
  rewrite get_setitem_other by discriminate.
  now rewrite get_setitem_same, prev_hash_of_opt_str.
Qed.

Lemma apply_event_receipts_verify st event st' rs :
  apply_event st event = Ok (st', rs) -> Forall receipt_verifies rs.
Proof.
  intros H. apply apply_event_steps in H.
  destruct H as (tu & ev & st1 & r & _ & _ & H).
  destruct H as [(_ & _ & H) | [(_ & _ & b & st2 & rc & _ & _ & H)
                               | (_ & _ & _ & H)]];
    unfold finish in H; cbn [new_state receipts] in H.
  - unfold _add_error_receipt in H. cbn [new_state receipts app] in H.
    apply (f_equal snd) in H. cbn [snd] in H. subst rs.
    constructor; [|constructor].
    match goal with
    | |- receipt_verifies (setitem (setitem ?d _ (opt_str ?p)) _ _) =>
        exact (stamped_verifies d p)
    end.
  - unfold _add_receipt in H. cbn [new_state receipts app] in H.
    apply (f_equal snd) in H. cbn [snd] in H. subst rs.
    constructor; [|constructor].
    match goal with
    | |- receipt_verifies (setitem (setitem ?d _ (opt_str ?p)) _ _) =>
        exact (stamped_verifies d p)
    end.
  - injection H as _ <-. constructor.
Qed.

(** X5: every receipt of a log reached from a fresh [State] verifies:
    hashing its content without the two hash fields, chained to the hash
    it cites in [receipt_hash_prev], gives its [receipt_hash]. *)
Theorem receipts_verify events st receipt :
  run_events State_init events = Ok st ->
  In receipt (receipt_log st) -> receipt_verifies receipt.
Proof.
  intros H Hin.
  assert (Hall : Forall receipt_verifies (receipt_log st)).
  { apply (@run_events_inv (fun s => Forall receipt_verifies (receipt_log s)))
      with (events := events) (st := State_init); [|constructor|exact H].
    intros s event s' rs Hs Hstep.
    destruct (apply_event_emits _ _ Hstep) as [-> _].
    apply Forall_app. split; [exact Hs|].
    eapply apply_event_receipts_verify; eauto. }
  rewrite Forall_forall in Hall. now apply Hall.
Qed.

(** ** Time *)

Lemma dispatch_base_time ty branch st r t st' rc :
  dispatch ty = Some branch ->
  branch st r t = Ok (st', rc) -> base_time_utc st' = base_time_utc st.
Proof.
  unfold dispatch.
  repeat match goal with
  | |- (if ?b then _ else _) = Some _ -> _ => destruct b
  end; intros Hb; inversion Hb; subst; clear Hb;
  intros H; unfold_branch H; rinv;
  repeat match goal with
  | |- context [match ?x with _ => _ end] => destruct x
  end; reflexivity.
Qed.

Lemma dispatch_clock ty branch st r t st' rc :
  dispatch ty = Some branch ->
  branch st r t = Ok (st', rc) ->
  (ty <> "time_advance" -> clock st' = clock st)
  /\ (ty = "time_advance" ->
      py_int (por (get (deref st r) "ticks") (VInt 0)) = Ok (clock st' - clock st)).
Proof.
  unfold dispatch.
  repeat match goal with
  | |- (if String.eqb ty ?s then _ else _) = Some _ -> _ =>
      destruct (String.eqb ty s) eqn:E;
      [apply String.eqb_eq in E; subst ty | clear E]
  end; intros Hb; inversion Hb; subst; clear Hb;
  intros H; unfold_branch H; rinv;
  (split; [intros Hne | intros He; try discriminate He]);
  repeat match goal with
  | |- context [match ?x with _ => _ end] => destruct x
  end; try reflexivity; try congruence.
  cbn [clock with_clock]. f_equal. lia.
Qed.

Lemma known_type_is_string v :
  unknown_event_type v = Ok false -> exists s, v = VStr s.
Proof.
  unfold unknown_event_type, in_str_set.
  destruct v; cbn [is_none hashable rbind negb]; try discriminate; eauto.
Qed.

Lemma popped_get event k :
  k <> "event_hash" -> k <> "event_hash_prev" -> k <> "time_utc" ->
  assoc_get (popped event) k = assoc_get event k.
Proof.
  intros H1 H2 H3. unfold popped, pop.
  rewrite !assoc_get_pop_other by congruence. reflexivity.
Qed.

(** The receipts of one call carry the clock the call started from and
    the wall-clock time that stands for it. *)
Lemma apply_event_stamps st event st' rs :
  apply_event st event = Ok (st', rs) ->
  base_time_utc st' = base_time_utc st
  /\ exists tu, _event_time_utc (base_time_utc st) (clock st) = Ok tu
       /\ Forall (fun receipt => get receipt "time" = VInt (clock st)
                                 /\ get receipt "time_utc" = VStr tu) rs.
Proof.
  intros H. apply apply_event_steps in H.
  destruct H as (tu & ev & st1 & r & Htu & Es & H).
  assert (Eb : base_time_utc st1 = base_time_utc st).
  { unfold stamp_event, alloc in Es. now inversion Es. }
  destruct H as [(_ & _ & H) | [(_ & _ & b & st2 & rc & Hd & Hb & H)
                               | (_ & _ & _ & H)]];
    unfold finish in H; cbn [new_state receipts] in H.
  - unfold _add_error_receipt in H. cbn [new_state receipts app] in H.
    inversion H; subst; clear H. split; [exact Eb|].
    exists tu. split; [exact Htu|]. constructor; [|constructor].
    split; reflexivity.
  - eapply dispatch_base_time in Hb; [|exact Hd].
    unfold _add_receipt in H. cbn [new_state receipts app] in H.
    pose proof (f_equal fst H) as H1. pose proof (f_equal snd H) as H2.
    cbn [fst snd] in H1, H2. subst st' rs.
    split; [exact (eq_trans Hb Eb)|].
    exists tu. split; [exact Htu|]. constructor; [|constructor]. split.
    + rewrite !get_setitem_other by discriminate. apply get_setitem_same.
    + rewrite !get_setitem_other by discriminate. apply get_setitem_same.
  - inversion H; subst; clear H. split; [exact Eb|].
    exists tu. split; [exact Htu | constructor].
Qed.

(** X6: in a state reached from a fresh [State], the two times of every
    receipt agree: [time] is a logical time [t] and [time_utc] is the
    default base time plus [t] seconds. *)
Theorem receipt_times_agree events st receipt :
  run_events State_init events = Ok st ->
  In receipt (receipt_log st) -> times_agree receipt.
Proof.
  intros H Hin.
  assert (Hall : base_time_utc st = _DEFAULT_BASE_TIME_UTC
                 /\ Forall times_agree (receipt_log st)).
  { apply (@run_events_inv
             (fun s => base_time_utc s = _DEFAULT_BASE_TIME_UTC
                       /\ Forall times_agree (receipt_log s)))
      with (events := events) (st := State_init);
      [|split; [reflexivity | constructor]|exact H].
    intros s event s' rs [Hb Hs] Hstep.
    destruct (apply_event_emits _ _ Hstep) as [-> _].
    apply apply_event_stamps in Hstep.
    destruct Hstep as (Hb' & tu & Htu & Hrs).
    split; [congruence|]. apply Forall_app. split; [exact Hs|].
    eapply Forall_impl; [|exact Hrs].
    intros rc [H1 H2]. exists (clock s), tu. rewrite <- Hb. auto. }
  destruct Hall as [_ Hall]. rewrite Forall_forall in Hall. now apply Hall.
Qed.

(** X7: the clock moves on [time_advance] events only: a call that
    returns leaves the clock alone for every other event (unknown types
    among them), and for a [time_advance] event moves it by
    [int(ticks or 0)], a negative number of ticks moving it back. *)
Theorem clock_moves_on_time_advance_only st event st' rs :
  apply_event st event = Ok (st', rs) ->
  (get event "type" <> VStr "time_advance" -> clock st' = clock st)
  /\ (get event "type" = VStr "time_advance" ->
      py_int (por (get event "ticks") (VInt 0)) = Ok (clock st' - clock st)).
Proof.
  intros H. apply apply_event_steps in H.
  destruct H as (tu & ev & st1 & r & Htu & Es & H).
  assert (Ec : clock st1 = clock st).
  { unfold stamp_event, alloc in Es. now inversion Es. }
  pose proof (stamp_event_logs Es) as [_ Hk].
  destruct H as [(Hu & _ & H) | [(Hu & -> & b & st2 & rc & Hd & Hb & H)
                               | (Hu & _ & Hd & H)]];
    unfold finish in H; cbn [new_state receipts] in H.
  - unfold _add_error_receipt in H. cbn [new_state receipts app] in H.
    inversion H; subst; clear H. split; [intros _; exact Ec|].
    intros Hty. rewrite Hty in Hu. discriminate Hu.
  - destruct (@known_type_is_string _ Hu) as [s Hs]. rewrite Hs in Hd.
    cbn [py_str] in Hd.
    destruct (@dispatch_clock s b st1 r (clock st) st2 rc Hd Hb) as [Hne Heq].
    unfold _add_receipt in H. cbn [new_state receipts app] in H.
    pose proof (f_equal fst H) as H1. cbn [fst] in H1. subst st'.
    cbn [clock with_receipt_log with_next_receipt_id with_receipt_hash_prev].
    rewrite Hs. split.
    + intros Hty. rewrite Hne; [exact Ec|]. congruence.
    + intros Hty. injection Hty as ->. specialize (Heq eq_refl).
      rewrite Ec in Heq. rewrite <- Heq. unfold get.
      rewrite Hk by discriminate. now rewrite popped_get by discriminate.
  - inversion H; subst; clear H. split; [intros _; exact Ec|].
    intros Hty. rewrite Hty in Hd. discriminate Hd.
Qed.

Lemma dispatch_event_log ty branch st r t st' rc :
  dispatch ty = Some branch ->
  branch st r t = Ok (st', rc) -> event_log st' = event_log st.
Proof.
  unfold dispatch.
  repeat match goal with
  | |- (if ?b then _ else _) = Some _ -> _ => destruct b
  end; intros Hb; inversion Hb; subst; clear Hb;
  intros H; unfold_branch H; rinv;
  repeat match goal with
  | |- context [match ?x with _ => _ end] => destruct x
  end; reflexivity.
Qed.

Lemma apply_event_logs_event st event st' rs :
  apply_event st event = Ok (st', rs) ->
  exists r, event_log st' = event_log st ++ [r].
Proof.
  intros E. apply apply_event_steps in E.
  destruct E as (tu & ev & s1 & r & _ & Es & Hc).
  exists r. apply stamp_event_logs in Es. destruct Es as [Es _]. rewrite <- Es.
  destruct Hc as [(_ & _ & H) | [(_ & _ & b & st2 & rc & Hd & Hb & H)
                                | (_ & _ & _ & H)]];
    unfold finish in H; cbn [new_state receipts] in H.
  - unfold _add_error_receipt in H. cbn [new_state receipts app] in H.
    now inversion H.
  - eapply dispatch_event_log in Hb; [|exact Hd].
    unfold _add_receipt in H. cbn [new_state receipts app] in H.
    pose proof (f_equal fst H) as H1. cbn [fst] in H1. subst st'.
    exact Hb.
  - now inversion H.
Qed.

(** X8: the logs only grow: folding [apply_event] over [events] adds
    exactly one entry to [event_log] per event, and extends [receipt_log]
    at its end by at most one receipt per event. *)
Theorem logs_only_grow events st st' :
  run_events st events = Ok st' ->
  List.length (event_log st')
  = (List.length (event_log st) + List.length events)%nat
  /\ exists rs, receipt_log st' = receipt_log st ++ rs
                /\ (List.length rs <= List.length events)%nat.
Proof.
  unfold run_events. revert st.
  induction events as [|event events IH]; intros st H; simpl in H.
  - injection H as <-. split; [simpl; lia|]. exists []. rewrite app_nil_r.
    split; [reflexivity | simpl; lia].
  - destruct (apply_event st event) as [[st1 rs1]|] eqn:E; cbn [rbind] in H;
      [|discriminate].
    apply IH in H. destruct H as (Hlen & rs & Hlog & Hrs).
    pose proof (apply_event_emits _ _ E) as (Hlog1 & Hone).
    apply apply_event_logs_event in E. destruct E as [r El].
    rewrite El, length_app in Hlen. split; [simpl in *; lia|].
    exists (rs1 ++ rs). rewrite Hlog, Hlog1, app_assoc.
    split; [reflexivity|]. rewrite length_app.
    destruct Hone as [[-> _] | (rc & -> & _)]; simpl; lia.
Qed.

(** ** Events of a known type *)

Lemma dispatch_known ty branch :
  dispatch ty = Some branch -> In ty _KNOWN_EVENT_TYPES.
Proof.
  unfold dispatch.
  repeat match goal with
  | |- (if String.eqb ty ?s then _ else _) = Some _ -> _ =>
      destruct (String.eqb ty s) eqn:E;
      [apply String.eqb_eq in E; subst ty; intros _; simpl; tauto | clear E]
  end.
  discriminate.
Qed.

(** A call on an event of a type with a branch: the event is stamped and
    logged, the branch runs, and its receipt is finalized. *)
Lemma apply_event_known st event st' rs ty branch :
  apply_event st event = Ok (st', rs) ->
  get event "type" = VStr ty -> dispatch ty = Some branch ->
  exists tu st1 r st2 rc,
    _event_time_utc (base_time_utc st) (clock st) = Ok tu
    /\ stamp_event st (popped event) (clock st) tu = (st1, r)
    /\ branch st1 r (clock st) = Ok (st2, rc)
    /\ finish (_add_receipt (clock st) tu (mkFrame st2 []) rc) = (st', rs).
Proof.
  intros H Hty Hd. apply apply_event_steps in H.
  destruct H as (tu & ev & st1 & r & Htu & Es & H).
  rewrite Hty in H. cbn [py_str] in H.
  rewrite (@known_event_type ty (@dispatch_known ty branch Hd)) in H.
  destruct H as [(Hu & _) | [(_ & -> & b & st2 & rc & Hd' & Hb & H)
                            | (_ & _ & Hd' & _)]].
  - discriminate Hu.
  - rewrite Hd in Hd'. injection Hd' as <-.
    exists tu, st1, r, st2, rc. auto.
  - congruence.
Qed.

Lemma nth_list_set_same (A : Type) (l : list A) d : forall n x,
  (n < List.length l)%nat -> nth n (list_set l n x) d = x.
Proof.
  induction l as [|y l IH]; intros [|n] x H; simpl in *; try lia; auto.
  apply IH. lia.
Qed.

Lemma vmap_find_put_same (A : Type) (m : vmap A) k v :
  hashable k = true -> vmap_find (vmap_put m k v) k = Some v.
Proof.
  intros Hk. induction m as [|[k' v'] m IH]; simpl.
  - now rewrite py_eq_hashable_refl.
  - destruct (py_eq k k') eqn:E; simpl; rewrite E; auto.
Qed.

Lemma stamp_event_heap st ev t tu st1 r :
  stamp_event st ev t tu = (st1, r) ->
  r = List.length (heap st)
  /\ List.length (heap st1) = S (List.length (heap st))
  /\ (forall x, (x < List.length (heap st))%nat -> deref st1 x = deref st x)
  /\ delegations st1 = delegations st
  /\ consents st1 = consents st
  /\ clock st1 = clock st.
Proof.
  unfold stamp_event, alloc. intros H. inversion H; subst; clear H.
  split; [reflexivity|]. unfold deref.
  cbn [heap with_event_log with_heap with_event_hash_prev].
  split; [rewrite length_app; simpl; lia|].
  split; [intros x Hx; now rewrite app_nth1|]. repeat split.
Qed.

Lemma finish_add_receipt_state t tu st2 rc st' rs :
  finish (_add_receipt t tu (mkFrame st2 []) rc) = (st', rs) ->
  heap st' = heap st2 /\ delegations st' = delegations st2
  /\ consents st' = consents st2 /\ decisions st' = decisions st2
  /\ event_log st' = event_log st2 /\ clock st' = clock st2.
Proof.
  unfold finish, _add_receipt. cbn [new_state receipts app].
  intros H. pose proof (f_equal fst H) as H1. cbn [fst] in H1. subst st'.
  repeat split.
Qed.

(** ** The life of a delegation *)

Lemma active_window d t e w :
  get d "issued_at" = VInt t -> get d "expires_at" = VInt e ->
  get d "revocation_effective_at" = VNone ->
  truthy (get_default d "revoked" (VBool false)) = false ->
  _delegation_active_at d w = Ok ((t <=? w) && (w <? e)).
Proof.
  intros Hi He Hr Hv. unfold _delegation_active_at, py_lt, py_ge.
  rewrite Hi, He, Hr, Hv. cbn [is_none negb py_compare rbind].
  destruct (Z.compare_spec w t), (Z.compare_spec w e); cbn [rbind negb];
    f_equal; symmetry; rewrite ?andb_true_iff, ?andb_false_iff,
      ?Z.leb_le, ?Z.ltb_lt, ?Z.leb_gt, ?Z.ltb_ge; lia.
Qed.

Lemma get_default_get d k v :
  get_default d k v = match assoc_get d k with Some x => x | None => v end.
Proof. reflexivity. Qed.

(** X9: granting a delegation with a duration: the logged event itself is
    filed under the delegation id, issued at the clock of the call and
    expiring [duration] ticks later; unless the event came with revocation
    fields, the delegation is active exactly from the clock up to, not
    including, the expiry. *)
Theorem granted_delegation_window st event st' rs id scope n :
  apply_event st event = Ok (st', rs) ->
  get event "type" = VStr "delegation" ->
  get event "delegation_id" = id ->
  get event "scope" = VDict scope -> get scope "duration" = VInt n ->
  get event "expires_at" = VNone ->
  get event "revocation_effective_at" = VNone ->
  truthy (get_default event "revoked" (VBool false)) = false ->
  exists r,
    event_log st' = event_log st ++ [r]
    /\ vmap_find (delegations st') id = Some r
    /\ get (deref st' r) "issued_at" = VInt (clock st)
    /\ get (deref st' r) "expires_at" = VInt (clock st + n)
    /\ forall w, _delegation_active_at (deref st' r) w
                 = Ok ((clock st <=? w) && (w <? clock st + n)).
Proof.
  intros H Hty Hid Hsc Hdur Hexp Hrev Hrv.
  pose proof (apply_event_logs_event _ _ H) as [r' Hlog].
  eapply apply_event_known in H; [|exact Hty|reflexivity].
  destruct H as (tu & st1 & r & st2 & rc & _ & Es & Hb & Hf).
  pose proof (stamp_event_logs Es) as [Hl Hk].
  assert (Hg : forall k, k <> "time" -> k <> "time_utc" ->
                 k <> "event_hash_prev" -> k <> "event_hash" ->
                 assoc_get (deref st1 r) k = assoc_get event k).
  { intros k H1 H2 H3 H4. rewrite Hk by assumption.
    apply popped_get; congruence. }
  apply stamp_event_heap in Es. destruct Es as (Er & Hlen & _).
  assert (Hr : (r < List.length (heap st1))%nat) by lia. clear Er Hlen.
  apply finish_add_receipt_state in Hf.
  destruct Hf as (Hh & Hdel & _ & _ & Hel & _).
  unfold on_delegation in Hb.
  unfold getitem, get in Hb, Hid. rewrite Hg in Hb by discriminate.
  destruct (assoc_get event "delegation_id") as [id'|] eqn:Eid;
    cbn [rbind] in Hb; [|discriminate].
  subst id'.
  unfold get in Hsc, Hexp. unfold compute_expires_at, get in Hb.
  rewrite !Hg in Hb by discriminate.
  destruct (assoc_get event "scope") as [sc|] eqn:Esc; [|discriminate].
  subst sc.
  assert (Ht : truthy (VDict scope) = true).
  { destruct scope; [discriminate Hdur | reflexivity]. }
  unfold por in Hb. rewrite Ht in Hb. cbn [value_get rbind] in Hb.
  rewrite Hdur in Hb.
  replace (match assoc_get event "expires_at" with
           | Some v => v | None => VNone end) with VNone in Hb.
  cbn [is_none negb andb int_add rbind] in Hb.
  unfold vmap_set in Hb.
  destruct (hashable id) eqn:Hh'; cbn [rbind] in Hb; [|discriminate].
  rinv.
  assert (Hd : deref st' r
               = setitem (setitem (deref st1 r) "issued_at" (VInt (clock st)))
                   "expires_at" (VInt (clock st + n))).
  { unfold deref. rewrite Hh.
    cbn [heap store with_heap with_delegations with_susers with_services].
    apply nth_list_set_same. exact Hr. }
  exists r. split.
  { rewrite Hel.
    cbn [event_log store with_heap with_delegations with_susers with_services].
    exact Hl. }
  split.
  { rewrite Hdel.
    cbn [delegations store with_heap with_delegations with_susers with_services].
    now apply vmap_find_put_same. }
  assert (Hi : get (deref st' r) "issued_at" = VInt (clock st)).
  { rewrite Hd. rewrite get_setitem_other by discriminate.
    apply get_setitem_same. }
  assert (He : get (deref st' r) "expires_at" = VInt (clock st + n)).
  { rewrite Hd. apply get_setitem_same. }
  split; [exact Hi|]. split; [exact He|].
  intros w. apply active_window; auto.
  - rewrite Hd. rewrite !get_setitem_other by discriminate.
    unfold get. now rewrite Hg by discriminate.
  - rewrite Hd. rewrite get_default_get. unfold setitem.
    rewrite !assoc_get_set_other by discriminate.
    rewrite Hg by discriminate. exact Hrv.
Qed.

Lemma inactive_from_effective d e w :
  get d "revocation_effective_at" = VInt e -> e <= w ->
  _delegation_active_at d w <> Ok true.
Proof.
  intros He Hw. unfold _delegation_active_at. rewrite He.
  cbn [is_none negb].
  destruct (if negb (is_none (get d "issued_at")) then _ else _)
    as [[|]|]; cbn [rbind]; try discriminate.
  destruct (if negb (is_none (get d "expires_at")) then _ else _)
    as [[|]|]; cbn [rbind]; try discriminate.
  unfold py_lt. cbn [py_compare rbind].
  destruct (Z.compare_spec w e); try discriminate. lia.
Qed.

(** X10: a revocation takes effect: after a [revoke_delegation] event
    for a delegation on record, the record carries
    [revocation_effective_at = clock + delay], stays filed under its id,
    and is never reported active at that time or later. *)
Theorem revocation_takes_effect st event st' rs id r delay :
  apply_event st event = Ok (st', rs) ->
  get event "type" = VStr "revoke_delegation" ->
  get event "delegation_id" = id ->
  py_int (por (get event "delay") (VInt 0)) = Ok delay ->
  vmap_find (delegations st) id = Some r ->
  (r < List.length (heap st))%nat ->
  vmap_find (delegations st') id = Some r
  /\ get (deref st' r) "revocation_effective_at" = VInt (clock st + delay)
  /\ forall w, clock st + delay <= w ->
               _delegation_active_at (deref st' r) w <> Ok true.
Proof.
  intros H Hty Hid Hdelay Hfind Hr.
  eapply apply_event_known in H; [|exact Hty|reflexivity].
  destruct H as (tu & st1 & r1 & st2 & rc & _ & Es & Hb & Hf).
  pose proof (stamp_event_logs Es) as [Hl Hk].
  assert (Hg : forall k, k <> "time" -> k <> "time_utc" ->
                 k <> "event_hash_prev" -> k <> "event_hash" ->
                 assoc_get (deref st1 r1) k = assoc_get event k).
  { intros k H1 H2 H3 H4. rewrite Hk by assumption.
    apply popped_get; congruence. }
  apply stamp_event_heap in Es.
  destruct Es as (_ & Hlen & _ & Hdel1 & _).
  assert (Hr1 : (r < List.length (heap st1))%nat) by lia. clear Hlen.
  apply finish_add_receipt_state in Hf.
  destruct Hf as (Hh & Hdel & _).
  unfold on_revoke_delegation in Hb.
  unfold getitem, get in Hb, Hid, Hdelay. rewrite !Hg in Hb by discriminate.
  destruct (assoc_get event "delegation_id") as [id'|] eqn:Eid;
    cbn [rbind] in Hb; [|discriminate].
  subst id'. rewrite Hdelay in Hb. cbn [rbind] in Hb.
  unfold vmap_get in Hb. rewrite Hdel1, Hfind in Hb.
  destruct (hashable id); cbn [rbind] in Hb; [|discriminate].
  apply Ok_inj in Hb. pose proof (f_equal fst Hb) as Hst. cbn [fst] in Hst.
  clear Hb. subst st2.
  cbn [delegations store with_heap] in Hdel.
  split; [now rewrite Hdel, Hdel1|].
  assert (He : get (deref st' r) "revocation_effective_at"
               = VInt (clock st + delay)).
  { unfold deref. rewrite Hh. cbn [heap store with_heap].
    rewrite nth_list_set_same by exact Hr1.
    destruct (delay =? 0).
    - rewrite get_setitem_other by discriminate. apply get_setitem_same.
    - apply get_setitem_same. }
  split; [exact He|].
  intros w Hw. eapply inactive_from_effective; eauto.
Qed.

(** ** What a report can hold *)

Section Adds.
Variable L : Type.
Variable Q : ViolationRecord -> Prop.

Lemma adds_ret (A : Type) (a : A) : adds Q (ret (L := L) a).
Proof.
  intros s a' s' H. injection H as <- <-. exists []. rewrite app_nil_r. auto.
Qed.

Lemma adds_bind (A B : Type) (m : M L A) (f : A -> M L B) :
  adds Q m -> (forall a, adds Q (f a)) -> adds Q (bind m f).
Proof.
  intros Hm Hf s b s' H. apply bind_ok in H. destruct H as (a & s1 & H1 & H2).
  apply Hm in H1. apply Hf in H2.
  destruct H1 as (v1 & E1 & F1), H2 as (v2 & E2 & F2).
  exists (v1 ++ v2). rewrite E2, E1, app_assoc. split; [reflexivity|].
  apply Forall_app. auto.
Qed.

(** A computed value is known in what follows it. *)
Lemma adds_bind_lift (A B : Type) (r : result A) (f : A -> M L B) :
  (forall a, r = Ok a -> adds Q (f a)) -> adds Q (bind (lift r) f).
Proof.
  intros Hf s b s' H. apply bind_ok in H. destruct H as (a & s1 & H1 & H2).
  apply lift_ok in H1. destruct H1 as [H1 ->]. eapply Hf; eauto.
Qed.

Lemma adds_lift (A : Type) (r : result A) : adds Q (lift (L := L) r).
Proof.
  intros s a s' H. apply lift_ok in H. destruct H as [_ ->].
  exists []. rewrite app_nil_r. auto.
Qed.

Lemma adds_violation label evidence :
  Q (mkViolation label evidence "") ->
  adds Q (violation (L := L) label evidence).
Proof.
  intros HQ s a s' H. injection H as <- <-. simpl. eauto.
Qed.

Lemma adds_set_score v : adds Q (set_score (L := L) v).
Proof.
  intros s a s' H. injection H as <- <-. exists []. simpl.
  rewrite app_nil_r. auto.
Qed.

Lemma adds_get_score : adds Q (get_score (L := L)).
Proof.
  intros s a s' H. injection H as <- <-. exists []. rewrite app_nil_r. auto.
Qed.

Lemma adds_locals : adds Q (locals (L := L)).
Proof.
  intros s a s' H. injection H as <- <-. exists []. rewrite app_nil_r. auto.
Qed.

Lemma adds_modify (f : L -> L) : adds Q (modify f).
Proof.
  intros s a s' H. injection H as <- <-. exists []. simpl.
  rewrite app_nil_r. auto.
Qed.

Lemma adds_when b (m : M L unit) : (b = true -> adds Q m) -> adds Q (when b m).
Proof. intros Hm. destruct b; simpl; [auto | apply adds_ret]. Qed.

Lemma adds_for_each (A : Type) (xs : list A) (body : A -> M L unit) :
  (forall x, In x xs -> adds Q (body x)) -> adds Q (for_each xs body).
Proof.
  induction xs as [|x xs IH]; intros Hb; simpl.
  - apply adds_ret.
  - apply adds_bind; [apply Hb; now left|].
    intros _. apply IH. intros y Hy. apply Hb. now right.
Qed.

Lemma adds_run kind (init : L) st program report :
  adds Q program -> run_report kind init st program = Ok report ->
  Forall Q (violations report).
Proof.
  intros Hp H. apply run_report_ok in H. destruct H as (s' & H & ->).
  apply Hp in H. destruct H as (vs & -> & F). exact F.
Qed.
End Adds.

Create HintDb adds.
#[local] Hint Resolve adds_ret adds_lift adds_set_score adds_get_score
  adds_locals adds_modify : adds.

(** A violation with another label needs no backing. *)
Ltac other_label :=
  let H := fresh in intros H; cbv in H; discriminate H.

Ltac adds_step :=
  match goal with
  | |- adds _ (bind (lift _) _) =>
      apply adds_bind_lift; let a := fresh "a" in let E := fresh "E" in intros a E
  | |- adds _ (bind _ _) => apply adds_bind; [|intros]
  | |- adds _ (when _ _) =>
      apply adds_when; let E := fresh "E" in intros E
  | |- adds _ (for_each _ _) => apply adds_for_each; intros
  | |- adds _ (if ?b then _ else _) => destruct b eqn:?
  | |- adds _ (match ?x with _ => _ end) => destruct x eqn:?
  | |- adds _ (violation _ _) => apply adds_violation; try other_label
  | |- adds _ _ => solve [auto with adds]
  end.

Ltac adds_tac := repeat adds_step.

(** Splits a sequence of steps into its steps. *)
Ltac adds_steps :=
  lazymatch goal with
  | |- adds _ (bind _ _) => apply adds_bind; [|intros _; adds_steps]
  | |- _ => idtac
  end.

Section AddsCommon.
Variable L : Type.
Variable ids : ref -> Z.
Variable st : State.
Variable l : string.
Variable P : Prop.

Lemma adds_check_audit name label :
  label <> l -> adds (backed l P) (check_audit (L := L) ids st name label).
Proof.
  intros Hl. unfold check_audit. adds_tac. intros E'. simpl in E'. congruence.
Qed.

Lemma adds_check_flag flag label r :
  label <> l -> adds (backed l P) (check_flag (L := L) ids st flag label r).
Proof.
  intros Hl. unfold check_flag. adds_tac. intros E'. simpl in E'. congruence.
Qed.

Lemma adds_check_enforcement r :
  l <> ENFORCEMENT_VIOLATION.SOVEREIGNTY_INCOMPATIBLE ->
  l <> ENFORCEMENT_VIOLATION.NO_ATTRIBUTION ->
  adds (backed l P) (check_enforcement (L := L) ids st r).
Proof.
  intros H1 H2. unfold check_enforcement.
  adds_tac; intros E'; simpl in E'; congruence.
Qed.

Lemma adds_check_evaluation :
  l <> EVALUATION_VIOLATION.UNDETERMINABLE_PASS ->
  l <> EVALUATION_VIOLATION.REDUCTIONISM ->
  adds (backed l P) (check_evaluation (L := L) st).
Proof.
  intros H1 H2. unfold check_evaluation.
  adds_tac; intros E'; simpl in E'; congruence.
Qed.
End AddsCommon.

(** ** Mutual consent, both ways *)

Lemma adds_respect_check_action ids st r P :
  (affects_without_consent (deref st r) -> P) ->
  adds (backed RESPECT_VIOLATION.MUTUAL_CONSENT_MISSING P)
    (respect_check_action ids st r).
Proof.
  intros HP. unfold respect_check_action. adds_tac.
  - intros _. apply HP.
    match goal with H : negb _ = true |- _ => apply negb_true_iff in H end.
    subst. split; assumption.
  - intros _. apply HP. unfold affects_without_consent.
    match goal with
    | H : _ && py_eq ?b _ && _ = true |- _ =>
        apply andb_true_iff in H; destruct H as [H _];
        apply andb_true_iff in H; destruct H as [-> H];
        destruct b; try discriminate H; simpl in H;
        apply String.eqb_eq in H; subst
    end.
    split; [assumption | reflexivity].
Qed.

Lemma adds_respect_scan_governance ids st r l P :
  In l [RESPECT_VIOLATION.MUTUAL_CONSENT_MISSING] ->
  adds (backed l P) (respect_scan_governance ids st r).
Proof.
  intros [<- | []].
  unfold respect_scan_governance, respect_check_revocation, flag_event.
  adds_tac.
Qed.

Lemma adds_respect_check_default ids st r l P :
  In l [RESPECT_VIOLATION.MUTUAL_CONSENT_MISSING] ->
  adds (backed l P) (respect_check_default ids st r).
Proof. intros [<- | []]. unfold respect_check_default. adds_tac. Qed.

Lemma adds_respect_scan st r Q :
  adds Q (respect_scan_disclosure st r) /\ adds Q (respect_scan_score st r).
Proof.
  unfold respect_scan_disclosure, respect_scan_score. split; adds_tac.
Qed.

Lemma respect_program_backed ids st :
  adds (backed RESPECT_VIOLATION.MUTUAL_CONSENT_MISSING
          (exists r, In r (shared_actions st)
                     /\ affects_without_consent (deref st r)))
    (respect_program ids st).
Proof.
  unfold respect_program.
  adds_steps; try (apply adds_for_each; intros r Hr).
  - apply adds_respect_scan.
  - apply adds_respect_scan.
  - apply adds_respect_check_action. eauto.
  - apply adds_check_flag. discriminate.
  - apply adds_respect_scan_governance. now left.
  - apply adds_respect_check_default. now left.
  - apply adds_check_audit. discriminate.
  - apply adds_check_enforcement; discriminate.
  - apply adds_check_evaluation; discriminate.
Qed.

Lemma respect_check_action_flags ids st r s s' :
  affects_without_consent (deref st r) ->
  respect_check_action ids st r s = Ok (tt, s') ->
  In RESPECT_VIOLATION.MUTUAL_CONSENT_MISSING (map label (violations (fst s'))).
Proof.
  intros [Haff Hbasis] H. unfold respect_check_action in H.
  apply bind_ok in H. destruct H as (eid & s0 & He & H).
  apply lift_ok in He. destruct He as [He ->].
  apply bind_ok in H. destruct H as (aff & s1 & Ha & H).
  apply lift_ok in Ha. destruct Ha as [Ha ->]. rewrite Haff in Ha.
  injection Ha as <-.
  apply bind_ok in H. destruct H as ([] & s2 & Hv & H).
  cbn [when] in Hv. apply bind_ok in Hv. destruct Hv as (agreed & s3 & Hg & Hv).
  apply lift_ok in Hg. destruct Hg as [Hg ->]. rewrite Hbasis in Hg.
  injection Hg as <-. simpl in Hv. injection Hv as <-.
  match type of H with
  | ?m _ = _ => assert (G : grows m) by grows_tac
  end.
  apply G in H. destruct H as [vs E]. rewrite E. simpl.
  rewrite !map_app. apply in_or_app. left. apply in_or_app. right. now left.
Qed.

(** X13: when the internal respect evaluator completes,
    [MUTUAL_CONSENT_MISSING] is in the report of [evaluate_respect] exactly
    when some shared action affects an S-User other than its actor on a
    consent basis that is neither ["mutual"] nor ["federated"]. *)
Theorem mutual_consent_missing_iff ids st report :
  _evaluate_respect_unsafe ids st = Ok report ->
  In RESPECT_VIOLATION.MUTUAL_CONSENT_MISSING (labels (evaluate_respect ids st))
  <-> exists r, In r (shared_actions st)
                /\ affects_without_consent (deref st r).
Proof.
  intros Hok. unfold evaluate_respect. rewrite Hok. unfold labels. split.
  - intros Hin. apply in_map_iff in Hin. destruct Hin as (v & Hl & Hv).
    unfold _evaluate_respect_unsafe in Hok.
    eapply adds_run in Hok; [|apply respect_program_backed].
    rewrite Forall_forall in Hok. exact (Hok v Hv Hl).
  - intros (r & Hin & Haff).
    unfold _evaluate_respect_unsafe in Hok. apply run_report_ok in Hok.
    destruct Hok as (s' & H & Hv). rewrite Hv. clear Hv.
    unfold respect_program in H.
    do 2 (apply bind_ok in H; destruct H as ([] & ? & _ & H)).
    apply bind_ok in H. destruct H as ([] & s3 & Hloop & H).
    eapply for_each_visits in Hloop;
      [|apply grows_respect_check_action|exact Hin].
    destruct Hloop as (s1 & s2 & vs & Hb & E).
    eapply respect_check_action_flags in Hb; [|exact Haff].
    match type of H with
    | ?m s3 = _ => assert (G : grows m) by (grows_tac; auto with grows)
    end.
    apply G in H. destruct H as [vs' E']. rewrite E', E, !map_app.
    apply in_or_app. left. apply in_or_app. now left.
Qed.

(** ** Authority, both ways *)

Lemma cites_later_delegation_true st decision_time chain :
  cites_later_delegation st decision_time chain = Ok true ->
  exists entry g,
    In entry chain /\ isinstance_str entry = true
    /\ vmap_find (delegations st) entry = Some g
    /\ py_gt (get (deref st g) "issued_at") decision_time = Ok true.
Proof.
  induction chain as [|entry rest IH]; cbn [cites_later_delegation];
    [discriminate|].
  destruct (isinstance_str entry) eqn:Es; cbn [negb].
  - destruct (vmap_find (delegations st) entry) as [g|] eqn:Eg.
    + assert (Ei : (if truthy (VDict (deref st g))
                    then get (deref st g) "issued_at" else VNone)
                   = get (deref st g) "issued_at").
      { destruct (deref st g); reflexivity. }
      rewrite Ei.
      destruct (is_none (get (deref st g) "issued_at")).
      * intros H. destruct (IH H) as (e & g' & Hin & H').
        exists e, g'. split; [now right | exact H'].
      * destruct (py_gt (get (deref st g) "issued_at") decision_time)
          as [[|]|] eqn:Egt; cbn [rbind]; try discriminate.
        -- intros _. exists entry, g. split; [now left|]. auto.
        -- intros H. destruct (IH H) as (e & g' & Hin & H').
           exists e, g'. split; [now right | exact H'].
    + cbn [is_none]. intros H. destruct (IH H) as (e & g' & Hin & H').
      exists e, g'. split; [now right | exact H'].
  - intros H. destruct (IH H) as (e & g' & Hin & H').
    exists e, g'. split; [now right | exact H'].
Qed.

Lemma number_compare t v z :
  number v = Some z -> py_compare (VInt t) v = Ok (Z.compare t z).
Proof.
  destruct v; simpl; intros H; try discriminate; now injection H as <-.
Qed.

(** The check never denies a delegation that is active. *)
Lemma delegation_active_complete delegation t :
  delegation_active_spec delegation t ->
  _delegation_active_at delegation t <> Ok false.
Proof.
  unfold _delegation_active_at, delegation_active_spec.
  intros (Hi & He & Hr).
  assert (E1 : (if negb (is_none (get delegation "issued_at"))
                then py_lt (VInt t) (get delegation "issued_at")
                else Ok false) = Ok false).
  { destruct Hi as [-> | (z & Hz & Hle)]; [reflexivity|].
    destruct (is_none (get delegation "issued_at")); [reflexivity|].
    cbn [negb]. unfold py_lt. rewrite (number_compare t _ Hz). cbn [rbind].
    destruct (Z.compare_spec t z); try reflexivity. lia. }
  rewrite E1. cbn [rbind].
  assert (E2 : (if negb (is_none (get delegation "expires_at"))
                then py_ge (VInt t) (get delegation "expires_at")
                else Ok false) = Ok false).
  { destruct He as [-> | (z & Hz & Hlt)]; [reflexivity|].
    destruct (is_none (get delegation "expires_at")); [reflexivity|].
    cbn [negb]. unfold py_ge. rewrite (number_compare t _ Hz). cbn [rbind].
    destruct (Z.compare_spec t z); try reflexivity; lia. }
  rewrite E2. cbn [rbind].
  destruct (get delegation "revocation_effective_at") eqn:Ee;
    cbn [is_none negb].
  1: { rewrite Hr. discriminate. }
  all: destruct Hr as (z' & Hz & Hlt); unfold py_lt;
    rewrite (number_compare t _ Hz); cbn [rbind];
    destruct (Z.compare_spec t z'); try discriminate; lia.
Qed.

Lemma authority_untraceable_true st decision :
  authority_untraceable st decision = Ok true ->
  ~ authority_backed st decision.
Proof.
  unfold authority_untraceable, authority_backed, vmap_get.
  destruct (hashable (get decision "delegation_id")); [|discriminate].
  cbn [rbind].
  destruct (decision_time_of st decision) as [t|] eqn:Et; [|discriminate].
  cbn [rbind].
  intros H (r & t' & Hr & Hne & Hs & Ht & Ha).
  rewrite Hr in H. injection Ht as <-.
  destruct (deref st r) as [|kv d] eqn:Ed; [congruence|].
  cbn [truthy negb] in H. rewrite Hs in H. cbn [negb] in H.
  apply delegation_active_complete in Ha.
  destruct (_delegation_active_at (kv :: d) t) as [[|]|];
    cbn [rbind negb] in H; congruence.
Qed.

Lemma authority_untraceable_false st decision :
  authority_untraceable st decision = Ok false ->
  authority_backed st decision.
Proof.
  unfold authority_untraceable, authority_backed, vmap_get.
  destruct (hashable (get decision "delegation_id")); [|discriminate].
  cbn [rbind].
  destruct (decision_time_of st decision) as [t|] eqn:Et; [|discriminate].
  cbn [rbind].
  destruct (vmap_find (delegations st) (get decision "delegation_id"))
    as [r|] eqn:Er; [|discriminate].
  destruct (truthy (VDict (deref st r))) eqn:En; [|discriminate].
  cbn [negb].
  destruct (py_eq (get (deref st r) "suser_id") (get decision "suser_id"))
    eqn:Es; [|discriminate]. cbn [negb].
  destruct (_delegation_active_at (deref st r) t) as [active|] eqn:Ea;
    [|discriminate].
  cbn [rbind]. intros H. injection H as H. apply negb_false_iff in H. subst.
  exists r, t. split; [reflexivity|]. split.
  { intros E. rewrite E in En. discriminate En. }
  split; [exact Es|]. split; [reflexivity|].
  now apply delegation_active_sound.
Qed.

Lemma adds_record_justification Q oid event :
  adds Q (record_justification oid event).
Proof. unfold record_justification, append_evidence. adds_tac. Qed.

Lemma adds_mark_invalid Q : adds Q mark_invalid.
Proof. apply adds_modify. Qed.

Lemma adds_append_evidence Q k e : adds Q (append_evidence k e).
Proof. apply adds_modify. Qed.

#[local] Hint Resolve adds_record_justification adds_mark_invalid
  adds_append_evidence : adds.

Lemma adds_trust_scan_event Q ids st r : adds Q (trust_scan_event ids st r).
Proof. unfold trust_scan_event. adds_tac. Qed.

Lemma adds_trust_scan_receipt st receipt P :
  (type_is receipt "decision_receipt" = true -> cites_later st receipt -> P) ->
  adds (backed TRUST_VIOLATION.AUTHORITY_UNTRACEABLE P)
    (trust_scan_receipt st receipt).
Proof.
  intros HP. unfold trust_scan_receipt. adds_tac.
  intros _. apply HP; [assumption|]. subst.
  match goal with
  | H : cites_later_delegation _ _ _ = Ok true |- _ =>
      apply cites_later_delegation_true in H;
      destruct H as (entry & g & Hin & Hs & Hg & Hgt)
  end.
  eexists _, entry, g. eauto.
Qed.

Lemma adds_trust_check_decision ids st r P :
  (~ authority_backed st (deref st r) -> P) ->
  adds (backed TRUST_VIOLATION.AUTHORITY_UNTRACEABLE P)
    (trust_check_decision ids st r).
Proof.
  intros HP.
  unfold trust_check_decision, decision_identity, decision_authority,
    decision_conduct, decision_telemetry, decision_chain_override,
    decision_tail.
  adds_tac.
  intros _. apply HP. subst. now apply authority_untraceable_true.
Qed.

Lemma trust_program_backed ids st :
  adds (backed TRUST_VIOLATION.AUTHORITY_UNTRACEABLE (authority_alarm st))
    (trust_program ids st).
Proof.
  unfold trust_program.
  adds_steps; try (apply adds_for_each; intros r Hr).
  - apply adds_trust_scan_event.
  - apply adds_trust_scan_receipt. intros Hty Hc. right. eauto.
  - unfold trust_check_delegation. adds_tac.
  - unfold trust_check_consent. adds_tac.
  - unfold trust_check_telemetry. adds_tac.
  - apply adds_trust_check_decision. intros Hn. left. eauto.
  - unfold trust_emit_collected, emit_collected. adds_tac.
  - apply adds_check_audit. discriminate.
  - apply adds_check_flag. discriminate.
  - apply adds_check_flag. discriminate.
  - apply adds_check_enforcement; discriminate.
  - apply adds_check_evaluation; discriminate.
Qed.

Lemma cites_later_delegation_finds st decision_time chain b entry g :
  cites_later_delegation st decision_time chain = Ok b ->
  In entry chain -> isinstance_str entry = true ->
  vmap_find (delegations st) entry = Some g ->
  py_gt (get (deref st g) "issued_at") decision_time = Ok true ->
  b = true.
Proof.
  intros H Hin Hs Hg Hgt.
  induction chain as [|e rest IH]; [contradiction|].
  cbn [cites_later_delegation] in H.
  assert (Hrest : In entry rest ->
                  cites_later_delegation st decision_time rest = Ok b ->
                  b = true) by auto.
  destruct (isinstance_str e) eqn:Ee; cbn [negb] in H.
  - destruct (vmap_find (delegations st) e) as [g'|] eqn:Eg'.
    + assert (Ei : (if truthy (VDict (deref st g'))
                    then get (deref st g') "issued_at" else VNone)
                   = get (deref st g') "issued_at").
      { destruct (deref st g'); reflexivity. }
      rewrite Ei in H.
      destruct (is_none (get (deref st g') "issued_at")) eqn:En.
      * destruct Hin as [-> | Hin]; [|auto].
        rewrite Hg in Eg'. injection Eg' as <-.
        apply is_none_true in En. rewrite En in Hgt. discriminate Hgt.
      * destruct (py_gt (get (deref st g') "issued_at") decision_time)
          as [[|]|] eqn:Egt; cbn [rbind] in H; try discriminate.
        -- now injection H as <-.
        -- destruct Hin as [-> | Hin]; [|auto].
           rewrite Hg in Eg'. injection Eg' as <-. congruence.
    + cbn [is_none] in H. destruct Hin as [-> | Hin]; [congruence | auto].
  - destruct Hin as [-> | Hin]; [congruence | auto].
Qed.

Lemma trust_scan_receipt_flags st receipt s s' :
  type_is receipt "decision_receipt" = true -> cites_later st receipt ->
  trust_scan_receipt st receipt s = Ok (tt, s') ->
  In TRUST_VIOLATION.AUTHORITY_UNTRACEABLE (map label (violations (fst s'))).
Proof.
  intros Hty (chain & entry & g & Hc & Hin & Hs & Hg & Hgt) H.
  unfold trust_scan_receipt in H. rewrite Hty in H.
  apply bind_ok in H. destruct H as ([] & s1 & _ & H).
  apply bind_ok in H. destruct H as ([] & s2 & Hv & H).
  assert (Hn : is_none (get receipt "decision_time") = false).
  { destruct (get receipt "decision_time"); try reflexivity.
    destruct (get (deref st g) "issued_at"); discriminate Hgt. }
  cbn [when] in Hv. rewrite Hn in Hv. cbn [negb when] in Hv.
  apply bind_ok in Hv. destruct Hv as (chain' & s3 & Hi & Hv).
  apply lift_ok in Hi. destruct Hi as [Hi ->]. rewrite Hc in Hi.
  injection Hi as <-.
  apply bind_ok in Hv. destruct Hv as (later & s4 & Hl & Hv).
  apply lift_ok in Hl. destruct Hl as [Hl ->].
  assert (later = true) by (eapply cites_later_delegation_finds; eauto).
  subst later. simpl in Hv. injection Hv as <-.
  match type of H with
  | ?m _ = _ => assert (G : grows m) by (unfold append_evidence; grows_tac)
  end.
  apply G in H. destruct H as [vs E]. rewrite E. simpl.
  rewrite !map_app. apply in_or_app. left. apply in_or_app. right. now left.
Qed.

Lemma trust_check_decision_flags ids st r s s' :
  ~ authority_backed st (deref st r) ->
  trust_check_decision ids st r s = Ok (tt, s') ->
  In TRUST_VIOLATION.AUTHORITY_UNTRACEABLE (map label (violations (fst s'))).
Proof.
  intros Hn H. unfold trust_check_decision in H.
  apply bind_ok in H. destruct H as (eid & s0 & _ & H).
  apply bind_ok in H. destruct H as ([] & s1 & _ & H).
  apply bind_ok in H. destruct H as ([] & s2 & Ha & H).
  assert (Hin : In TRUST_VIOLATION.AUTHORITY_UNTRACEABLE
                  (map label (violations (fst s2)))).
  { unfold decision_authority in Ha.
    apply bind_ok in Ha. destruct Ha as (b & s3 & Hb & Ha).
    apply lift_ok in Hb. destruct Hb as [Hb ->].
    destruct b.
    - simpl in Ha. injection Ha as <-. simpl. rewrite map_app.
      apply in_or_app. right. now left.
    - exfalso. apply Hn. now apply authority_untraceable_false. }
  assert (G : grows (bind (decision_conduct [eid] (deref st r))
            (fun _ => bind (decision_telemetry st [eid] (deref st r))
            (fun _ => bind (decision_chain_override [eid] (deref st r))
            (fun _ => decision_tail st (ids r) [eid] (deref st r)))))).
  { pose proof grows_decision_conduct. pose proof grows_decision_telemetry.
    pose proof grows_decision_chain_override. pose proof grows_decision_tail.
    grows_tac; auto. }
  apply G in H. destruct H as [vs E]. rewrite E, map_app.
  apply in_or_app. now left.
Qed.

Lemma grows_trust_scan_receipt st receipt : grows (trust_scan_receipt st receipt).
Proof. unfold trust_scan_receipt, append_evidence. grows_tac. Qed.

(** X12: when the internal trust evaluator completes,
    [AUTHORITY_UNTRACEABLE] is in the report of [evaluate_trust] exactly
    when some decision has no backed authority or the chain of some
    decision receipt cites a delegation issued after the decision. *)
Theorem authority_untraceable_iff ids st report :
  _evaluate_trust_unsafe ids st = Ok report ->
  In TRUST_VIOLATION.AUTHORITY_UNTRACEABLE (labels (evaluate_trust ids st))
  <-> authority_alarm st.
Proof.
  intros Hok. unfold evaluate_trust. rewrite Hok. unfold labels. split.
  - intros Hin. apply in_map_iff in Hin. destruct Hin as (v & Hl & Hv).
    unfold _evaluate_trust_unsafe in Hok.
    eapply adds_run in Hok; [|apply trust_program_backed].
    rewrite Forall_forall in Hok. exact (Hok v Hv Hl).
  - intros Halarm.
    unfold _evaluate_trust_unsafe in Hok. apply run_report_ok in Hok.
    destruct Hok as (s' & H & Hv). rewrite Hv. clear Hv.
    destruct Halarm as [(r & Hin & Hn) | (receipt & Hin & Hty & Hc)].
    + unfold trust_program in H.
      do 5 (apply bind_ok in H; destruct H as ([] & ? & _ & H)).
      apply bind_ok in H. destruct H as ([] & s6 & Hd & H).
      eapply for_each_visits in Hd;
        [|apply grows_trust_check_decision|exact Hin].
      destruct Hd as (s1 & s2 & vs & Hb & E).
      eapply trust_check_decision_flags in Hb; [|exact Hn].
      match type of H with
      | ?m s6 = _ => assert (G : grows m) by (grows_tac; auto with grows)
      end.
      apply G in H. destruct H as [vs' E']. rewrite E', E, !map_app.
      apply in_or_app. left. apply in_or_app. now left.
    + unfold trust_program in H.
      apply bind_ok in H; destruct H as ([] & ? & _ & H).
      apply bind_ok in H. destruct H as ([] & s2 & Hd & H).
      eapply for_each_visits in Hd;
        [|apply grows_trust_scan_receipt|exact Hin].
      destruct Hd as (s1 & s3 & vs & Hb & E).
      eapply trust_scan_receipt_flags in Hb; eauto.
      match type of H with
      | ?m s2 = _ =>
          assert (G : grows m)
            by (unfold trust_check_delegation, trust_check_consent,
                  trust_check_telemetry; grows_tac; auto with grows)
      end.
      apply G in H. destruct H as [vs' E']. rewrite E', E, !map_app.
      apply in_or_app. left. apply in_or_app. now left.
Qed.

(** ** Withdrawn consent *)

(** What the decision loop adds for a decision is in the final report. *)
Lemma trust_program_visits_decision ids st r s s' :
  In r (decisions st) ->
  trust_program ids st s = Ok (tt, s') ->
  exists s1 s2 vs,
    trust_check_decision ids st r s1 = Ok (tt, s2)
    /\ violations (fst s') = violations (fst s2) ++ vs.
Proof.
  intros Hin H. unfold trust_program in H.
  do 5 (apply bind_ok in H; destruct H as ([] & ? & _ & H)).
  apply bind_ok in H. destruct H as ([] & s6 & Hd & H).
  eapply for_each_visits in Hd; [|apply grows_trust_check_decision|exact Hin].
  destruct Hd as (s1 & s2 & vs & Hb & E).
  match type of H with
  | ?m s6 = _ => assert (G : grows m) by (grows_tac; auto with grows)
  end.
  apply G in H. destruct H as [vs' E'].
  exists s1, s2, (vs ++ vs'). split; [exact Hb|].
  now rewrite E', E, app_assoc.
Qed.

Lemma decision_with_withdrawn_consent ids st r g s s' :
  truthy (get (deref st r) "consent_id") = true ->
  vmap_find (consents st) (get (deref st r) "consent_id") = Some g ->
  truthy (get (deref st g) "withdrawn") = true ->
  trust_check_decision ids st r s = Ok (tt, s') ->
  In CONSENT_VIOLATION.INVALID_CONSENT (map label (violations (fst s'))).
Proof.
  intros Hc Hg Hw H. unfold trust_check_decision in H.
  apply bind_ok in H. destruct H as (eid & s0 & _ & H).
  do 5 (apply bind_ok in H; destruct H as ([] & ? & _ & H)).
  unfold decision_tail in H.
  do 3 (apply bind_ok in H; destruct H as ([] & ? & _ & H)).
  rewrite Hc in H. cbn [when] in H.
  apply bind_ok in H. destruct H as (found & s9 & Hf & H).
  apply lift_ok in Hf. destruct Hf as [Hf ->].
  unfold vmap_get in Hf. rewrite Hg in Hf.
  destruct (hashable (get (deref st r) "consent_id")); [|discriminate].
  injection Hf as <-. rewrite Hw in H. simpl in H. injection H as <-.
  simpl. rewrite map_app. apply in_or_app. right. now left.
Qed.

(** X11: a withdrawn consent invalidates the decisions that cite it:
    after a [withdraw_consent] event for a consent on record, the record
    is marked [withdrawn], and when the trust evaluator completes on the
    new state, a decision citing the consent puts [INVALID_CONSENT] in the
    report. *)
Theorem withdrawn_consent_invalidates_decisions ids st event st' rs c g :
  apply_event st event = Ok (st', rs) ->
  get event "type" = VStr "withdraw_consent" ->
  get event "consent_id" = c ->
  vmap_find (consents st) c = Some g ->
  (g < List.length (heap st))%nat ->
  get (deref st' g) "withdrawn" = VBool true
  /\ forall r report,
       In r (decisions st') ->
       get (deref st' r) "consent_id" = c -> truthy c = true ->
       _evaluate_trust_unsafe ids st' = Ok report ->
       In CONSENT_VIOLATION.INVALID_CONSENT (labels (evaluate_trust ids st')).
Proof.
  intros H Hty Hid Hfind Hg.
  eapply apply_event_known in H; [|exact Hty|reflexivity].
  destruct H as (tu & st1 & r1 & st2 & rc & _ & Es & Hb & Hf).
  pose proof (stamp_event_logs Es) as [Hl Hk].
  assert (Hget : forall k, k <> "time" -> k <> "time_utc" ->
                 k <> "event_hash_prev" -> k <> "event_hash" ->
                 assoc_get (deref st1 r1) k = assoc_get event k).
  { intros k H1 H2 H3 H4. rewrite Hk by assumption.
    apply popped_get; congruence. }
  apply stamp_event_heap in Es.
  destruct Es as (_ & Hlen & _ & _ & Hcon1 & _).
  assert (Hg1 : (g < List.length (heap st1))%nat) by lia. clear Hlen.
  apply finish_add_receipt_state in Hf.
  destruct Hf as (Hh & _ & Hcon & _).
  unfold on_withdraw_consent in Hb.
  unfold getitem, get in Hb, Hid. rewrite !Hget in Hb by discriminate.
  destruct (assoc_get event "consent_id") as [c'|] eqn:Eid;
    cbn [rbind] in Hb; [|discriminate].
  subst c'. unfold vmap_get in Hb. rewrite Hcon1, Hfind in Hb.
  destruct (hashable c); cbn [rbind] in Hb; [|discriminate].
  apply Ok_inj in Hb. pose proof (f_equal fst Hb) as Hst. cbn [fst] in Hst.
  clear Hb. subst st2.
  cbn [consents store with_heap] in Hcon.
  assert (Hw : get (deref st' g) "withdrawn" = VBool true).
  { unfold deref. rewrite Hh. cbn [heap store with_heap].
    rewrite nth_list_set_same by exact Hg1. apply get_setitem_same. }
  split; [exact Hw|].
  intros r report Hin Hc Ht Hok.
  unfold evaluate_trust. rewrite Hok.
  unfold _evaluate_trust_unsafe in Hok. apply run_report_ok in Hok.
  destruct Hok as (s' & Hp & Hv). unfold labels. rewrite Hv.
  eapply trust_program_visits_decision in Hp; [|exact Hin].
  destruct Hp as (s1 & s2 & vs & Hd & E).
  rewrite E, map_app. apply in_or_app. left.
  eapply decision_with_withdrawn_consent; [| | |exact Hd].
  - now rewrite Hc.
  - rewrite Hc, Hcon, Hcon1. exact Hfind.
  - now rewrite Hw.
Qed.

(** ** The evidence index *)

Lemma evidence_index_fold vs : forall index l,
  assoc_get
    (fold_left
       (fun index violation =>
          let ids :=
            match assoc_get index (label violation) with
            | Some ids => ids
            | None => []
            end in
          assoc_set index (label violation) (ids ++ evidence_ids violation))
       vs index) l
  = match assoc_get index l, filter (fun v => String.eqb l (label v)) vs with
    | None, [] => None
    | None, found => Some (List.concat (map evidence_ids found))
    | Some ids, found => Some (ids ++ List.concat (map evidence_ids found))
    end.
Proof.
  induction vs as [|v vs IH]; intros index l; cbn [fold_left filter].
  - destruct (assoc_get index l); [now rewrite app_nil_r | reflexivity].
  - rewrite IH. cbv zeta.
    destruct (String.eqb l (label v)) eqn:E.
    + apply String.eqb_eq in E. subst l. rewrite assoc_get_set_same.
      cbn [map List.concat].
      destruct (assoc_get index (label v)); cbn [app];
        now rewrite ?app_assoc.
    + rewrite assoc_get_set_other
        by (intros Heq; rewrite Heq, String.eqb_refl in E; discriminate).
      reflexivity.
Qed.

(** X17: [evidence_index] files under each label the evidence ids of all
    the violations with that label, in report order, and has no entry for
    a label the report does not hold. *)
Theorem evidence_index_collects report l :
  assoc_get (evidence_index report) l
  = match labelled l report with
    | [] => None
    | found => Some (List.concat (map evidence_ids found))
    end.
Proof. unfold evidence_index, labelled. now rewrite evidence_index_fold. Qed.

(** ** Querying a decision *)

Lemma find_rev_last (A : Type) (f : A -> bool) l x :
  f x = true -> find f (rev (l ++ [x])) = Some x.
Proof. intros H. rewrite rev_app_distr. simpl. now rewrite H. Qed.

(** X16: after a [service_action] event with a hashable [decision_id],
    [query_decision] on that id answers from this event, shadowing any
    earlier decision with the same id: origin, authoriser, inspector,
    revoker, legibility, explanation, context and the affected S-Users are
    the event's. *)
Theorem query_decision_after_action st event st' rs id :
  apply_event st event = Ok (st', rs) ->
  get event "type" = VStr "service_action" ->
  get event "decision_id" = id -> hashable id = true ->
  query_decision st' id
  = [ ("decision_id", id);
      ("origin", get event "service_id");
      ("data_influence", get_default event "telemetry_refs" (VList []));
      ("authoriser", get event "suser_id");
      ("inspector", get event "suser_id");
      ("revoker", get event "suser_id");
      ("legible", get event "explanation_legible");
      ("explanation", get event "explanation");
      ("context_id", get event "context_id");
      ("affected_susers", get_default event "affected_susers" (VList [])) ].
Proof.
  intros H Hty Hid Hh.
  eapply apply_event_known in H; [|exact Hty|reflexivity].
  destruct H as (tu & st1 & r & st2 & rc & _ & Es & Hb & Hf).
  pose proof (stamp_event_logs Es) as [Hl Hk].
  assert (Hg : forall k, k <> "time" -> k <> "time_utc" ->
                 k <> "event_hash_prev" -> k <> "event_hash" ->
                 assoc_get (deref st1 r) k = assoc_get event k).
  { intros k H1 H2 H3 H4. rewrite Hk by assumption.
    apply popped_get; congruence. }
  apply finish_add_receipt_state in Hf.
  destruct Hf as (Hh' & _ & _ & Hdec & _).
  assert (Hst : heap st2 = heap st1 /\ decisions st2 = decisions st1 ++ [r]).
  { unfold on_service_action in Hb. rinv.
    all: split; reflexivity. }
  destruct Hst as [Hh2 Hd2].
  assert (Hd : deref st' r = deref st1 r).
  { unfold deref. now rewrite Hh', Hh2. }
  unfold query_decision, objects. rewrite Hdec, Hd2, map_app. cbn [map].
  rewrite find_rev_last.
  2: { rewrite Hd. unfold get. rewrite Hg by discriminate.
       unfold get in Hid. rewrite Hid. now apply py_eq_hashable_refl. }
  rewrite Hd. unfold get, get_default. now rewrite !Hg by discriminate.
Qed.

(** ** Receipts addressed to an S-User *)

Lemma visible_is_addressed receipt suser_id :
  _receipt_visible_to_suser receipt suser_id = Ok true ->
  addressed_to receipt suser_id.
Proof.
  unfold _receipt_visible_to_suser, addressed_to, type_is, counts_as_delivered.
  destruct (py_eq (get receipt "type") (VStr "decision_receipt")) eqn:Ed.
  - intros H. apply Ok_inj in H. apply andb_true_iff in H. left. tauto.
  - unfold in_str_set.
    destruct (get receipt "type") as [| | |ty| |] eqn:Ety;
      cbn [hashable rbind existsb orb py_eq]; try discriminate.
    cbn [py_eq] in Ed.
    destruct (String.eqb ty "delegation_receipt") eqn:E1; cbn [orb].
    { intros H. apply Ok_inj in H. right. left. auto. }
    destruct (String.eqb ty "consent_receipt") eqn:E2; cbn [orb].
    { intros H. apply Ok_inj in H. right. left. auto. }
    destruct (String.eqb ty "shared_action_receipt") eqn:E3; [|discriminate].
    destruct (py_eq (get receipt "actor_suser_id") (VStr suser_id)) eqn:Ea.
    + intros _. right. right. auto.
    + intros H. right. right. auto.
Qed.

Lemma visible_receipts_from log suser_id : forall receipts copy,
  visible_receipts log suser_id = Ok receipts ->
  In copy receipts ->
  exists receipt,
    In receipt log
    /\ _receipt_visible_to_suser receipt suser_id = Ok true
    /\ _redact_receipt receipt = Ok copy.
Proof.
  induction log as [|r0 log IH]; intros receipts copy H Hin; simpl in H.
  - injection H as <-. contradiction.
  - destruct (_receipt_visible_to_suser r0 suser_id) as [[|]|] eqn:E0;
      cbn [rbind] in H; [| |discriminate].
    + destruct (_redact_receipt r0) as [c0|] eqn:Ec; cbn [rbind] in H;
        [|discriminate].
      destruct (visible_receipts log suser_id) as [rest|] eqn:Er;
        cbn [rbind] in H; [|discriminate].
      injection H as <-. destruct Hin as [<- | Hin].
      * exists r0. split; [now left|]. auto.
      * destruct (IH _ _ eq_refl Hin) as (receipt & Hr & Hv & Hc).
        exists receipt. split; [now right|]. auto.
    + destruct (IH _ _ H Hin) as (receipt & Hr & Hv & Hc).
      exists receipt. split; [now right|]. auto.
Qed.

(** X15: a view holds nothing but redacted copies of receipts addressed
    to its S-User: every receipt of the view [suser_view] returns is the
    redaction of a receipt of the log that is addressed to the requester. *)
Theorem view_holds_addressed_receipts_only st suser_id view copy :
  suser_view st suser_id = Ok view ->
  In copy (view_receipts view) ->
  exists receipt,
    In receipt (receipt_log st)
    /\ addressed_to receipt suser_id
    /\ _redact_receipt receipt = Ok copy.
Proof.
  unfold suser_view. intros H Hin.
  destruct (visible_receipts (receipt_log st) suser_id) as [receipts|] eqn:E;
    cbn [rbind] in H; [|discriminate].
  injection H as <-. cbn [view_receipts] in Hin.
  destruct (@visible_receipts_from _ _ _ _ E Hin) as (receipt & Hr & Hv & Hc).
  exists receipt. auto using visible_is_addressed.
Qed.

(** ** Audits *)

Lemma trust_program_audit_backed ids st :
  adds (backed AUDIT_VIOLATION.TRUST_MINIMUM_MISSING
          (exists r, vmap_find (audits st) (VStr "trust") = Some r
                     /\ truthy (get (deref st r) "minimum_met") = false))
    (trust_program ids st).
Proof.
  unfold trust_program.
  adds_steps; try (apply adds_for_each; intros r Hr).
  - apply adds_trust_scan_event.
  - unfold trust_scan_receipt. adds_tac.
  - unfold trust_check_delegation. adds_tac.
  - unfold trust_check_consent. adds_tac.
  - unfold trust_check_telemetry. adds_tac.
  - unfold trust_check_decision, decision_identity, decision_authority,
      decision_conduct, decision_telemetry, decision_chain_override,
      decision_tail.
    adds_tac.
  - unfold trust_emit_collected, emit_collected. adds_tac.
  - unfold check_audit. adds_tac. intros _.
    match goal with H : negb _ = true |- _ => apply negb_true_iff in H end.
    eauto.
  - apply adds_check_flag. discriminate.
  - apply adds_check_flag. discriminate.
  - apply adds_check_enforcement; discriminate.
  - apply adds_check_evaluation; discriminate.
Qed.

Lemma trust_program_audit_flags ids st r s s' :
  vmap_find (audits st) (VStr "trust") = Some r ->
  truthy (get (deref st r) "minimum_met") = false ->
  trust_program ids st s = Ok (tt, s') ->
  In AUDIT_VIOLATION.TRUST_MINIMUM_MISSING (map label (violations (fst s'))).
Proof.
  intros Hr Hm H. unfold trust_program in H.
  do 7 (apply bind_ok in H; destruct H as ([] & ? & _ & H)).
  apply bind_ok in H. destruct H as ([] & s8 & Ha & H).
  unfold check_audit in Ha. rewrite Hr, Hm in Ha. cbn [negb when] in Ha.
  apply bind_ok in Ha. destruct Ha as (eid & s9 & _ & Ha).
  injection Ha as <-.
  match type of H with
  | ?m _ = _ => assert (G : grows m) by (grows_tac; auto with grows)
  end.
  apply G in H. destruct H as [vs' E']. rewrite E', !map_app.
  apply in_or_app. left. simpl. rewrite map_app. apply in_or_app. right.
  now left.
Qed.

(** X14: the latest trust audit decides: after a [trust_audit] event,
    when the trust evaluator completes on the new state,
    [TRUST_MINIMUM_MISSING] is reported exactly when the event's
    [minimum_met] is falsy, whatever earlier audits said. *)
Theorem latest_trust_audit_decides ids st event st' rs report :
  apply_event st event = Ok (st', rs) ->
  get event "type" = VStr "trust_audit" ->
  _evaluate_trust_unsafe ids st' = Ok report ->
  In AUDIT_VIOLATION.TRUST_MINIMUM_MISSING (labels (evaluate_trust ids st'))
  <-> truthy (get event "minimum_met") = false.
Proof.
  intros H Hty Hok.
  eapply apply_event_known in H; [|exact Hty|reflexivity].
  destruct H as (tu & st1 & r & st2 & rc & _ & Es & Hb & Hf).
  pose proof (stamp_event_logs Es) as [Hl Hk].
  assert (Hm : get (deref st1 r) "minimum_met" = get event "minimum_met").
  { unfold get. rewrite Hk by discriminate.
    now rewrite popped_get by discriminate. }
  assert (Hst : audits st' = vmap_put (audits st1) (VStr "trust") r
                /\ heap st' = heap st1).
  { unfold on_audit in Hb. apply Ok_inj in Hb.
    pose proof (f_equal fst Hb) as E. cbn [fst] in E. subst st2.
    unfold finish, _add_receipt in Hf. cbn [new_state receipts app] in Hf.
    pose proof (f_equal fst Hf) as E. cbn [fst] in E. subst st'.
    split; reflexivity. }
  destruct Hst as [Ha Hh].
  assert (Hfind : vmap_find (audits st') (VStr "trust") = Some r).
  { rewrite Ha. now apply vmap_find_put_same. }
  assert (Hd : deref st' r = deref st1 r) by (unfold deref; now rewrite Hh).
  unfold evaluate_trust. rewrite Hok. unfold labels. split.
  - intros Hin. apply in_map_iff in Hin. destruct Hin as (v & Hlab & Hv).
    unfold _evaluate_trust_unsafe in Hok.
    eapply adds_run in Hok; [|apply trust_program_audit_backed].
    rewrite Forall_forall in Hok.
    destruct (Hok v Hv Hlab) as (r' & Hr' & Hfalse).
    rewrite Hfind in Hr'. injection Hr' as <-.
    now rewrite Hd, Hm in Hfalse.
  - intros Hfalse.
    unfold _evaluate_trust_unsafe in Hok. apply run_report_ok in Hok.
    destruct Hok as (s' & Hp & Hv). rewrite Hv.
    eapply trust_program_audit_flags; eauto. now rewrite Hd, Hm.
Qed.

(** ** The score of a report *)

Section Quiet.
Variable L : Type.
Variable l : string.

Lemma quiet_ret (A : Type) (a : A) : quiet l (ret (L := L) a).
Proof.
  intros s a' s' H. injection H as <- <-. split; [reflexivity|].
  exists []. rewrite app_nil_r. auto.
Qed.

Lemma quiet_bind (A B : Type) (m : M L A) (f : A -> M L B) :
  quiet l m -> (forall a, quiet l (f a)) -> quiet l (bind m f).
Proof.
  intros Hm Hf s b s' H. apply bind_ok in H. destruct H as (a & s1 & H1 & H2).
  apply Hm in H1. apply Hf in H2.
  destruct H1 as (S1 & v1 & E1 & F1), H2 as (S2 & v2 & E2 & F2).
  split; [congruence|].
  exists (v1 ++ v2). rewrite E2, E1, app_assoc. split; [reflexivity|].
  apply Forall_app. auto.
Qed.

Lemma quiet_lift (A : Type) (r : result A) : quiet l (lift (L := L) r).
Proof.
  intros s a s' H. apply lift_ok in H. destruct H as [_ ->].
  split; [reflexivity|]. exists []. rewrite app_nil_r. auto.
Qed.

Lemma quiet_violation label evidence :
  label <> l -> quiet l (violation (L := L) label evidence).
Proof.
  intros Hl s a s' H. injection H as <- <-. simpl. split; [reflexivity|].
  eexists. split; [reflexivity|]. constructor; [exact Hl | constructor].
Qed.

Lemma quiet_locals : quiet l (locals (L := L)).
Proof.
  intros s a s' H. injection H as <- <-. split; [reflexivity|].
  exists []. rewrite app_nil_r. auto.
Qed.

Lemma quiet_modify (f : L -> L) : quiet l (modify f).
Proof.
  intros s a s' H. injection H as <- <-. split; [reflexivity|].
  exists []. simpl. rewrite app_nil_r. auto.
Qed.

Lemma quiet_when b (m : M L unit) : quiet l m -> quiet l (when b m).
Proof. intros Hm. destruct b; simpl; [assumption | apply quiet_ret]. Qed.

Lemma quiet_for_each (A : Type) (xs : list A) (body : A -> M L unit) :
  (forall x, quiet l (body x)) -> quiet l (for_each xs body).
Proof.
  intros Hb. induction xs as [|x xs IH]; simpl.
  - apply quiet_ret.
  - apply quiet_bind; auto.
Qed.
End Quiet.

Create HintDb quiet.
#[local] Hint Resolve quiet_ret quiet_lift quiet_locals quiet_modify : quiet.

Ltac quiet_step :=
  match goal with
  | |- quiet _ (bind _ _) => apply quiet_bind; [|intros]
  | |- quiet _ (when _ _) => apply quiet_when
  | |- quiet _ (for_each _ _) => apply quiet_for_each; intros
  | |- quiet _ (if ?b then _ else _) => destruct b
  | |- quiet _ (match ?x with _ => _ end) => destruct x
  | |- quiet _ (violation _ _) => apply quiet_violation; discriminate
  | |- quiet _ _ => solve [auto with quiet]
  end.

Ltac quiet_tac := repeat quiet_step.

Section Settles.
Variable L : Type.

Lemma settles_check_evaluation st : settles (check_evaluation (L := L) st).
Proof.
  intros s s' H. unfold check_evaluation in H.
  apply bind_ok in H. destruct H as ([] & s1 & H1 & H).
  apply bind_ok in H. destruct H as (current & s2 & H2 & H).
  injection H2 as <- <-.
  assert (E1 : score (fst s1) = score (fst s)
               /\ (In EVALUATION_VIOLATION.REDUCTIONISM
                     (map label (violations (fst s1)))
                   <-> In EVALUATION_VIOLATION.REDUCTIONISM
                         (map label (violations (fst s))))).
  { destruct (any_undeterminable (objects st (event_log st)));
      simpl in H1; injection H1 as <-; simpl; [|tauto].
    split; [reflexivity|]. rewrite map_app, in_app_iff. simpl.
    split; [intros [H0 | [H0 | []]]; [exact H0 | discriminate H0] | tauto]. }
  destruct E1 as [Es Ev]. rewrite <- Es, <- Ev.
  destruct (is_none (score (fst s1))) eqn:En; simpl in H; injection H as <-.
  - split; [reflexivity|]. apply is_none_true in En. rewrite En.
    split; [tauto | intros [H0 | H0]; [exact H0 | congruence]].
  - simpl. split; [reflexivity|]. rewrite map_app, in_app_iff. simpl.
    split; [intros _ | tauto]. right. intros E. rewrite E in En.
    discriminate En.
Qed.

Lemma settles_after_quiet (m : M L unit) (k : M L unit) :
  quiet EVALUATION_VIOLATION.REDUCTIONISM m -> settles k ->
  settles (bind m (fun _ => k)).
Proof.
  intros Hm Hk s s' H. apply bind_ok in H. destruct H as ([] & s1 & H1 & H2).
  apply Hm in H1. apply Hk in H2.
  destruct H1 as (S1 & vs & E1 & F1), H2 as (S2 & Hiff).
  split; [congruence|]. rewrite Hiff, S1, E1, map_app, in_app_iff.
  assert (Hn : ~ In EVALUATION_VIOLATION.REDUCTIONISM (map label vs)).
  { intros Hin. apply in_map_iff in Hin. destruct Hin as (v & Hl & Hv).
    rewrite Forall_forall in F1. exact (F1 v Hv Hl). }
  tauto.
Qed.
End Settles.

(** Splits a sequence of quiet steps that ends with the last check. *)
Ltac settles_steps :=
  lazymatch goal with
  | |- settles (bind _ _) => apply settles_after_quiet; [|settles_steps]
  | |- settles (check_evaluation _) => apply settles_check_evaluation
  end.

Lemma adds_nothing L A (m : M L A) s a s' :
  adds (fun _ => False) m -> m s = Ok (a, s') ->
  violations (fst s') = violations (fst s).
Proof.
  intros Hm H. apply Hm in H. destruct H as (vs & E & F).
  destruct vs as [|v vs]; [now rewrite app_nil_r in E|].
  inversion F; contradiction.
Qed.

(** The scan of the event log leaves the score of the last metric. *)
Lemma trust_scan_scores ids st rs : forall s s',
  for_each rs (trust_scan_event ids st) s = Ok (tt, s') ->
  violations (fst s') = violations (fst s)
  /\ score (fst s')
     = fold_left
         (fun current event =>
            if type_is event "reductionist_metric" then get event "score"
            else current)
         (objects st rs) (score (fst s)).
Proof.
  induction rs as [|r rs IH]; intros s s' H; simpl in H.
  - injection H as <-. split; reflexivity.
  - apply bind_ok in H. destruct H as ([] & s1 & H1 & H2).
    apply IH in H2. destruct H2 as [Ev Es]. cbn [objects map fold_left].
    pose proof (@adds_nothing _ _ _ _ _ _
                  (@adds_trust_scan_event (fun _ => False) ids st r) H1)
      as Hv.
    split; [congruence|]. rewrite Es. f_equal.
    unfold trust_scan_event in H1.
    apply bind_ok in H1. destruct H1 as ([] & s2 & Hs & H1).
    match type of H1 with
    | ?m s2 = _ =>
        assert (Q : quiet "" m)
          by (unfold record_justification, append_evidence; quiet_tac)
    end.
    apply Q in H1. destruct H1 as (S1 & _). rewrite S1.
    destruct (type_is (deref st r) "reductionist_metric"); simpl in Hs;
      injection Hs as <-; reflexivity.
Qed.

Lemma trust_rest_settles ids st :
  settles
    (bind (for_each (receipt_log st) (trust_scan_receipt st)) (fun _ =>
     bind (for_each (vmap_values (delegations st))
             (trust_check_delegation ids st)) (fun _ =>
     bind (for_each (vmap_values (consents st))
             (trust_check_consent ids st)) (fun _ =>
     bind (for_each (vmap_values (telemetry st))
             (trust_check_telemetry ids st)) (fun _ =>
     bind (for_each (decisions st) (trust_check_decision ids st)) (fun _ =>
     bind trust_emit_collected (fun _ =>
     bind (check_audit ids st "trust" AUDIT_VIOLATION.TRUST_MINIMUM_MISSING)
       (fun _ =>
     bind (for_each (disclosures st)
             (check_flag ids st "user_actionable"
                ACCOUNTABILITY_VIOLATION.NON_ACTIONABLE_DISCLOSURE)) (fun _ =>
     bind (for_each (limitation_disclosures st)
             (check_flag ids st "limits_disclosed"
                ACCOUNTABILITY_VIOLATION.LIMITS_UNDISCLOSED)) (fun _ =>
     bind (for_each (enforcement st) (check_enforcement ids st)) (fun _ =>
     check_evaluation st))))))))))).
Proof.
  settles_steps.
  - unfold trust_scan_receipt, append_evidence, mark_invalid. quiet_tac.
  - unfold trust_check_delegation, record_justification, append_evidence,
      mark_invalid. quiet_tac.
  - unfold trust_check_consent, record_justification, append_evidence,
      mark_invalid. quiet_tac.
  - unfold trust_check_telemetry, record_justification, append_evidence,
      mark_invalid. quiet_tac.
  - unfold trust_check_decision, decision_identity, decision_authority,
      decision_conduct, decision_telemetry, decision_chain_override,
      decision_tail, record_justification, append_evidence, mark_invalid.
    quiet_tac.
  - unfold trust_emit_collected, emit_collected. quiet_tac.
  - unfold check_audit. quiet_tac.
  - unfold check_flag. quiet_tac.
  - unfold check_flag. quiet_tac.
  - unfold check_enforcement. quiet_tac.
Qed.

(** X18: when the internal trust evaluator completes, the score of the
    [evaluate_trust] report is the [score] of the last
    [reductionist_metric] event of the event log ([None] when there is
    none), and [REDUCTIONISM] is reported exactly when that score is not
    [None]: a later metric without a score clears it. *)
Theorem last_metric_sets_the_score ids st report :
  _evaluate_trust_unsafe ids st = Ok report ->
  score (evaluate_trust ids st) = last_score (objects st (event_log st))
  /\ (In EVALUATION_VIOLATION.REDUCTIONISM (labels (evaluate_trust ids st))
      <-> last_score (objects st (event_log st)) <> VNone).
Proof.
  intros Hok. unfold evaluate_trust. rewrite Hok. unfold labels.
  unfold _evaluate_trust_unsafe, run_report in Hok.
  destruct (trust_program ids st (new_report "trust", trust_locals_init))
    as [[[] [rep l]]|] eqn:Hp; [|discriminate].
  injection Hok as <-. cbn [score violations with_debug].
  unfold trust_program in Hp.
  apply bind_ok in Hp. destruct Hp as ([] & s1 & Hscan & Hrest).
  apply trust_scan_scores in Hscan. destruct Hscan as [Hv Hs].
  apply trust_rest_settles in Hrest. destruct Hrest as [Hs' Hiff].
  cbn [fst] in Hs', Hiff. simpl in Hv, Hs. unfold last_score.
  rewrite Hs', Hs. split; [reflexivity|].
  rewrite Hiff, Hv, Hs. simpl. tauto.
Qed.

Lemma respect_scan_scores st rs : forall s s',
  for_each rs (respect_scan_score st) s = Ok (tt, s') ->
  violations (fst s') = violations (fst s)
  /\ score (fst s')
     = fold_left
         (fun current event =>
            if type_is event "reductionist_metric" then get event "score"
            else current)
         (objects st rs) (score (fst s)).
Proof.
  induction rs as [|r rs IH]; intros s s' H; simpl in H.
  - injection H as <-. split; reflexivity.
  - apply bind_ok in H. destruct H as ([] & s1 & H1 & H2).
    apply IH in H2. destruct H2 as [Ev Es]. cbn [objects map fold_left].
    rewrite Ev, Es. unfold respect_scan_score in H1.
    destruct (type_is (deref st r) "reductionist_metric"); simpl in H1;
      injection H1 as <-; split; reflexivity.
Qed.

Lemma respect_rest_settles ids st :
  settles
    (bind (for_each (shared_actions st) (respect_check_action ids st)) (fun _ =>
     bind (for_each (vmap_values (entry_conditions st))
             (check_flag ids st "conditions_defined"
                GOVERNANCE_VIOLATION.MISSING_ENTRY_CONDITIONS)) (fun _ =>
     bind (for_each (event_log st) (respect_scan_governance ids st)) (fun _ =>
     bind (for_each (defaults st) (respect_check_default ids st)) (fun _ =>
     bind (check_audit ids st "respect"
             AUDIT_VIOLATION.RESPECT_MINIMUM_MISSING) (fun _ =>
     bind (for_each (enforcement st) (check_enforcement ids st)) (fun _ =>
     check_evaluation st))))))).
Proof.
  settles_steps.
  - unfold respect_check_action. quiet_tac.
  - unfold check_flag. quiet_tac.
  - unfold respect_scan_governance, respect_check_revocation, flag_event.
    quiet_tac.
  - unfold respect_check_default. quiet_tac.
  - unfold check_audit. quiet_tac.
  - unfold check_enforcement. quiet_tac.
Qed.

(** X19: the same for [evaluate_respect]: when the internal respect
    evaluator completes, the score of the report is the score of the last
    [reductionist_metric] event of the log, and [REDUCTIONISM] is reported
    exactly when it is not [None]. *)
Theorem last_metric_sets_the_respect_score ids st report :
  _evaluate_respect_unsafe ids st = Ok report ->
  score (evaluate_respect ids st) = last_score (objects st (event_log st))
  /\ (In EVALUATION_VIOLATION.REDUCTIONISM (labels (evaluate_respect ids st))
      <-> last_score (objects st (event_log st)) <> VNone).
Proof.
  intros Hok. unfold evaluate_respect. rewrite Hok. unfold labels.
  unfold _evaluate_respect_unsafe, run_report in Hok.
  destruct (respect_program ids st (new_report "respect", None))
    as [[[] [rep l]]|] eqn:Hp; [|discriminate].
  injection Hok as <-. cbn [score violations with_debug].
  unfold respect_program in Hp.
  apply bind_ok in Hp. destruct Hp as ([] & s0 & Hdis & Hp).
  assert (Q : quiet "" (for_each (event_log st) (respect_scan_disclosure st)))
    by (unfold respect_scan_disclosure; quiet_tac).
  pose proof (@adds_nothing _ _ _ _ _ _
                (@adds_for_each _ (fun _ => False) _ (event_log st)
                   (respect_scan_disclosure st)
                   (fun r _ => proj1 (@adds_respect_scan st r _))) Hdis) as E0.
  apply Q in Hdis. destruct Hdis as (S0 & _).
  apply bind_ok in Hp. destruct Hp as ([] & s1 & Hscan & Hrest).
  apply respect_scan_scores in Hscan. destruct Hscan as [Hv Hs].
  apply respect_rest_settles in Hrest. destruct Hrest as [Hs' Hiff].
  cbn [fst] in Hs', Hiff. simpl in S0, E0. unfold last_score.
  rewrite Hs', Hs, S0. split; [reflexivity|].
  rewrite Hiff, Hv, Hs, S0, E0. simpl. tauto.
Qed.

(** ** Canonical JSON *)

Lemma string_compare_eq s : forall t, string_compare s t = Eq -> s = t.
Proof.
  induction s as [|a s IH]; intros [|b t]; simpl; try discriminate; auto.
  destruct (N.compare_spec (N_of_ascii a) (N_of_ascii b)) as [E | E | E];
    try discriminate.
  intros H. apply IH in H. subst.
  rewrite <- (ascii_N_embedding a), <- (ascii_N_embedding b), E. reflexivity.
Qed.

Lemma string_compare_antisym s : forall t,
  string_compare t s = CompOpp (string_compare s t).
Proof.
  induction s as [|a s IH]; intros [|b t]; simpl; auto.
  rewrite (N.compare_antisym (N_of_ascii a) (N_of_ascii b)).
  destruct (N_of_ascii a ?= N_of_ascii b)%N; simpl; auto.
Qed.

Lemma string_compare_trans s : forall t u,
  string_compare s t = Lt -> string_compare t u = Lt ->
  string_compare s u = Lt.
Proof.
  induction s as [|a s IH]; intros [|b t] [|c u]; simpl; try discriminate;
    auto.
  destruct (N.compare_spec (N_of_ascii a) (N_of_ascii b)) as [E1 | E1 | E1];
    try discriminate;
    destruct (N.compare_spec (N_of_ascii b) (N_of_ascii c)) as [E2 | E2 | E2];
    try discriminate; intros H1 H2.
  - rewrite E1, E2, N.compare_refl. eauto.
  - rewrite E1. now apply N.compare_lt_iff in E2; rewrite E2.
  - rewrite <- E2. now apply N.compare_lt_iff in E1; rewrite E1.
  - assert (E : (N_of_ascii a < N_of_ascii c)%N) by lia.
    now apply N.compare_lt_iff in E; rewrite E.
Qed.

Lemma insert_by_key_comm x y l :
  fst x <> fst y ->
  insert_by_key x (insert_by_key y l) = insert_by_key y (insert_by_key x l).
Proof.
  intros Hne.
  assert (Hxy : string_compare (fst x) (fst y) = Lt
                \/ string_compare (fst y) (fst x) = Lt).
  { destruct (string_compare (fst x) (fst y)) eqn:E; auto.
    - apply string_compare_eq in E. contradiction.
    - right. rewrite string_compare_antisym, E. reflexivity. }
  assert (Hasym : forall a b, string_compare a b = Lt ->
                              string_compare b a = Gt).
  { intros a b E. rewrite string_compare_antisym, E. reflexivity. }
  induction l as [|z l IH]; simpl.
  - destruct Hxy as [E | E]; rewrite E, (Hasym _ _ E); reflexivity.
  - destruct (string_compare (fst x) (fst z)) eqn:Exz,
             (string_compare (fst y) (fst z)) eqn:Eyz; simpl;
      rewrite ?Exz, ?Eyz; try (now rewrite IH).
    + (* x = z, y < z *)
      apply string_compare_eq in Exz. rewrite Exz.
      now rewrite (Hasym _ _ Eyz).
    + (* x < z, y = z *)
      apply string_compare_eq in Eyz. rewrite Eyz.
      now rewrite (Hasym _ _ Exz).
    + (* x < z, y < z *)
      destruct Hxy as [E | E]; rewrite E, (Hasym _ _ E); reflexivity.
    + (* x < z, z < y *)
      destruct (string_compare (fst y) (fst x)) eqn:E; try reflexivity.
      rewrite (string_compare_trans _ _ _ E Exz) in Eyz. discriminate.
    + (* z < x, y < z *)
      destruct (string_compare (fst x) (fst y)) eqn:E; try reflexivity.
      rewrite (string_compare_trans _ _ _ E Eyz) in Exz. discriminate.
Qed.

Lemma sort_by_key_perm l l' : forall acc,
  NoDup (map fst l) -> Permutation l l' ->
  fold_left (fun acc kv => insert_by_key kv acc) l acc
  = fold_left (fun acc kv => insert_by_key kv acc) l' acc.
Proof.
  intros acc Hnd Hp. revert acc.
  induction Hp as [|x l l' Hp IH|x y l|l l' l'' Hp1 IH1 Hp2 IH2]; intros acc.
  - reflexivity.
  - simpl. apply IH. now inversion Hnd.
  - simpl. f_equal. apply insert_by_key_comm.
    inversion Hnd as [|? ? Hin _]. intros E. apply Hin. left. now symmetry.
  - rewrite IH1 by assumption. apply IH2.
    eapply Permutation_NoDup; [|exact Hnd]. now apply Permutation_map.
Qed.

Lemma json_dumps_dict d :
  json_dumps (VDict d)
  = ("{" ++ join ","
       (map (fun kv => (json_string (fst kv) ++ ":" ++ snd kv)%string)
          (sort_by_key (map (fun kv => (fst kv, json_dumps (snd kv))) d)))
     ++ "}")%string.
Proof. reflexivity. Qed.

(** X20: the canonical JSON of a dictionary, and with it the hash
    [_hash_chain] gives a payload, does not depend on the order in which
    the keys were inserted. *)
Theorem canonical_json_ignores_key_order d d' :
  NoDup (map fst d) -> Permutation d d' ->
  _canonical_json (VDict d) = _canonical_json (VDict d')
  /\ forall prev_hash, _hash_chain d prev_hash = _hash_chain d' prev_hash.
Proof.
  intros Hnd Hp.
  assert (E : json_dumps (VDict d) = json_dumps (VDict d')).
  { rewrite !json_dumps_dict. do 4 f_equal. unfold sort_by_key.
    apply sort_by_key_perm.
    - now rewrite map_map.
    - now apply Permutation_map. }
  split; [exact E|].
  intros prev_hash. unfold _hash_chain, _canonical_json. cbv zeta.
  rewrite !json_dumps_dict. cbn [map fst snd]. now rewrite E.
Qed.

(** ** The range of the clock *)

(** The years 1 to 9999, in days since 1970-01-01. *)
Lemma civil_year_range z :
  let '(y, _, _) := civil_from_days z in
  (1 <=? y) && (y <=? 9999) = true <-> -719162 <= z <= 2932896.
Proof.
  unfold civil_from_days. cbv zeta.
  set (z' := z + 719468).
  set (era := z' / 146097).
  set (doe := z' - era * 146097).
  set (yoe := (doe - doe / 1460 + doe / 36524 - doe / 146096) / 365).
  set (doy := doe - (365 * yoe + yoe / 4 - yoe / 100)).
  set (mp := (5 * doy + 2) / 153).
  rewrite andb_true_iff, !Z.leb_le.
  destruct (mp <? 10) eqn:Emp;
    [apply Z.ltb_lt in Emp | apply Z.ltb_ge in Emp];
    match goal with
    | |- context [?a <=? 2] =>
        destruct (a <=? 2) eqn:E2;
        [apply Z.leb_le in E2 | apply Z.leb_gt in E2]
    end;
    subst mp doy yoe doe era z';
    Z.to_euclidean_division_equations; lia.
Qed.

Lemma add_seconds_range base t :
  base = 1767225600 ->
  add_seconds base t
  = if (clock_min <=? t) && (t <=? clock_max) then Ok (base + t)
    else Raise OverflowError.
Proof.
  intros ->. unfold add_seconds, clock_min, clock_max.
  destruct (999999999 <? Z.abs (t / 86400)) eqn:Ed.
  - apply Z.ltb_lt in Ed.
    destruct ((-63902822400 <=? t) && (t <=? 251635075199)) eqn:Er;
      [|reflexivity].
    apply andb_true_iff in Er. rewrite !Z.leb_le in Er. exfalso.
    revert Ed. Z.to_euclidean_division_equations. lia.
  - pose proof (civil_year_range ((1767225600 + t) / 86400)) as Hy.
    destruct (civil_from_days ((1767225600 + t) / 86400)) as [[y m] d].
    destruct ((1 <=? y) && (y <=? 9999)) eqn:Ey.
    + destruct Hy as [Hy _]. specialize (Hy eq_refl).
      replace ((-63902822400 <=? t) && (t <=? 251635075199)) with true;
        [reflexivity|].
      symmetry. rewrite andb_true_iff, !Z.leb_le.
      revert Hy. Z.to_euclidean_division_equations. lia.
    + replace ((-63902822400 <=? t) && (t <=? 251635075199)) with false;
        [reflexivity|].
      symmetry. apply not_true_is_false. intros Hr.
      rewrite andb_true_iff, !Z.leb_le in Hr.
      assert (Hz : -719162 <= (1767225600 + t) / 86400 <= 2932896)
        by (Z.to_euclidean_division_equations; lia).
      apply Hy in Hz. discriminate Hz.
Qed.

Lemma event_time_utc_range t :
  _event_time_utc _DEFAULT_BASE_TIME_UTC t
  = if (clock_min <=? t) && (t <=? clock_max)
    then Ok (isoformat_Z (1767225600 + t))
    else Raise OverflowError.
Proof.
  unfold _event_time_utc.
  replace (_parse_rfc3339 _DEFAULT_BASE_TIME_UTC) with (Ok 1767225600)
    by (vm_compute; reflexivity).
  cbn [rbind]. rewrite add_seconds_range by reflexivity.
  now destruct ((clock_min <=? t) && (t <=? clock_max)).
Qed.

(** X21: [apply_event] needs the clock in the range of [datetime]: with
    the default base time, a clock from [clock_min] to [clock_max] gives
    the event its UTC time, and outside of that range the call raises
    [OverflowError], whatever the event is, provided its type passes the
    two steps that come first: the membership test (the type is
    hashable) and the error message of an unknown type (the type is not
    an integer past the conversion limit). *)
Theorem apply_event_needs_clock_in_range st event :
  base_time_utc st = _DEFAULT_BASE_TIME_UTC ->
  hashable (get event "type") = true ->
  printable (get event "type") = true ->
  (clock_min <= clock st <= clock_max ->
   _event_time_utc (base_time_utc st) (clock st)
   = Ok (isoformat_Z (1767225600 + clock st)))
  /\ (clock st < clock_min \/ clock_max < clock st ->
      apply_event st event = Raise OverflowError).
Proof.
  intros Hb Hh _. rewrite Hb, event_time_utc_range. split.
  - intros [H1 H2]. apply Z.leb_le in H1, H2. now rewrite H1, H2.
  - intros Hout.
    assert (E : (clock_min <=? clock st) && (clock st <=? clock_max) = false).
    { apply not_true_is_false. rewrite andb_true_iff, !Z.leb_le. lia. }
    unfold apply_event, _clone_state, unknown_event_type, in_str_set.
    rewrite Hh, Hb, event_time_utc_range, E.
    destruct (is_none (get event "type")); cbn [rbind]; [reflexivity|].
    now destruct (negb _).
Qed.

(** ** Decisions without a receipt in view *)

Lemma py_eq_hashable_sym a b :
  hashable a = true -> hashable b = true -> py_eq a b = py_eq b a.
Proof.
  intros Ha Hb.
  destruct (py_eq a b) eqn:E1, (py_eq b a) eqn:E2; auto.
  - apply py_eq_key in E1; auto.
    assert (E : py_eq b a = true) by (apply py_eq_key; auto). congruence.
  - apply py_eq_key in E2; auto.
    assert (E : py_eq a b = true) by (apply py_eq_key; auto). congruence.
Qed.

Lemma group_receipts_miss receipts k : forall groups groups',
  keys_hashable groups -> hashable k = true ->
  rfold group_receipt groups receipts = Ok groups' ->
  vmap_find groups k = None ->
  (forall c, In c receipts -> py_eq (get c "decision_id") k = false) ->
  vmap_find groups' k = None.
Proof.
  induction receipts as [|r receipts IH]; intros groups groups' Hk Hh H Hf Hall;
    simpl in H.
  - now injection H as <-.
  - destruct (group_receipt groups r) as [g1|] eqn:E; cbn [rbind] in H;
      [|discriminate].
    pose proof (group_receipt_ok _ Hk E) as (Hk1 & Hhr & _).
    eapply IH; [exact Hk1 | exact Hh | exact H | | ].
    + unfold group_receipt, vmap_get in E. rewrite Hhr in E.
      cbn [rbind] in E. injection E as <-.
      rewrite vmap_find_put by assumption.
      rewrite py_eq_hashable_sym by assumption.
      rewrite (Hall r (or_introl eq_refl)). exact Hf.
    + intros c Hc. apply Hall. now right.
Qed.

(** X22: a decision of the requester without a receipt in their view is
    reported: when [evaluate_trust_view] returns, a decision whose
    [suser_id] is the requester and whose [decision_id] no decision
    receipt of the view carries puts [MISSING_REPORTING] in the report,
    with ["decision:<id>:missing_receipt"] as evidence. *)
Theorem decision_without_receipt_in_view st suser_id view report r :
  suser_view st suser_id = Ok view ->
  evaluate_trust_view st suser_id = Ok report ->
  In r (decisions st) ->
  py_eq (get (deref st r) "suser_id") (VStr suser_id) = true ->
  (forall receipt, In receipt (view_receipts view) ->
     type_is receipt "decision_receipt" = true ->
     py_eq (get receipt "decision_id") (get (deref st r) "decision_id")
     = false) ->
  In (mkViolation ACCOUNTABILITY_VIOLATION.MISSING_REPORTING
        [("decision:" ++ py_str (get (deref st r) "decision_id")
          ++ ":missing_receipt")%string] "")
    (violations report).
Proof.
  intros Hview Hrun Hd Hown Hnone.
  unfold evaluate_trust_view in Hrun. rewrite Hview in Hrun.
  cbn [rbind] in Hrun.
  match type of Hrun with
  | context [rfold group_receipt [] ?l] =>
      destruct (rfold group_receipt [] l) as [groups|] eqn:Eg;
        cbn [rbind] in Hrun; [|discriminate]
  end.
  match type of Hrun with
  | match ?m ?s with _ => _ end = _ =>
      destruct (m s) as [[[] [rep u]]|] eqn:Ep; [|discriminate]
  end.
  injection Hrun as <-. cbn [violations].
  eapply for_each_visits in Ep;
    [|apply grows_view_check_decision|apply in_map; exact Hd].
  destruct Ep as (s1 & s2 & vs & Hb & E).
  simpl in E. rewrite E. apply in_or_app. left.
  unfold view_check_decision, decision_out_of_view in Hb.
  rewrite Hown in Hb. cbn [negb lift] in Hb.
  apply bind_ok in Hb. destruct Hb as (skip & s3 & Hs & Hb).
  injection Hs as <- <-.
  apply bind_ok in Hb. destruct Hb as (found & s4 & Hf & Hb).
  apply lift_ok in Hf. destruct Hf as [Hf ->].
  unfold vmap_get in Hf.
  destruct (hashable (get (deref st r) "decision_id")) eqn:Hh;
    [|discriminate].
  injection Hf as <-.
  assert (Hmiss : vmap_find groups (get (deref st r) "decision_id") = None).
  { eapply group_receipts_miss; [| exact Hh | exact Eg | reflexivity |].
    - constructor.
    - intros c Hc. apply filter_In in Hc. destruct Hc as [Hc Hty].
      now apply Hnone. }
  rewrite Hmiss in Hb. simpl in Hb. injection Hb as <-. simpl.
  apply in_or_app. right. now left.
Qed.

(** ** Telemetry inertia *)

(** X23: telemetry changes no authority: a [telemetry] event leaves the
    identities, delegations, consents, decisions, the shared environment,
    the audits, the clock and every object already held as they were; it
    raises the exposure counter of its id by one, and the receipt carries
    the new count. *)
Theorem telemetry_changes_no_authority st event st' rs id :
  apply_event st event = Ok (st', rs) ->
  get event "type" = VStr "telemetry" ->
  get event "telemetry_id" = id ->
  same_authority st st'
  /\ exists seen receipt,
       seen = match vmap_find (telemetry_exposure st) id with
              | Some n => n
              | None => 0
              end
       /\ vmap_find (telemetry_exposure st') id = Some (seen + 1)
       /\ rs = [receipt]
       /\ get receipt "exposure_count" = VInt (seen + 1).
Proof.
  intros H Hty Hid.
  eapply apply_event_known in H; [|exact Hty|reflexivity].
  destruct H as (tu & st1 & r & st2 & rc & _ & Es & Hb & Hf).
  pose proof (stamp_event_logs Es) as [Hl Hk].
  assert (Hg : assoc_get (deref st1 r) "telemetry_id"
               = assoc_get event "telemetry_id").
  { rewrite Hk by discriminate. apply popped_get; discriminate. }
  assert (Hs1 : same_authority st st1 /\ telemetry_exposure st1
                                          = telemetry_exposure st).
  { unfold stamp_event, alloc in Es. inversion Es; subst; clear Es.
    split; [|reflexivity]. unfold same_authority, deref.
    cbn [heap with_event_log with_heap with_event_hash_prev].
    repeat (split; [reflexivity|]). intros x Hx. now rewrite app_nth1. }
  destruct Hs1 as [Hs1 He1].
  unfold on_telemetry in Hb. unfold getitem, get in Hb, Hid.
  rewrite Hg in Hb.
  destruct (assoc_get event "telemetry_id") as [id'|] eqn:Eid;
    cbn [rbind] in Hb; [|discriminate].
  subst id'. unfold vmap_set, vset_add, vmap_get in Hb.
  destruct (hashable id) eqn:Hh; cbn [rbind] in Hb; [|discriminate].
  cbn [telemetry_exposure with_telemetry_exposure with_telemetry_sources
       with_telemetry] in Hb.
  rewrite vmap_find_put_same in Hb by exact Hh.
  apply Ok_inj in Hb.
  pose proof (f_equal fst Hb) as Hst. pose proof (f_equal snd Hb) as Hrc.
  cbn [fst snd] in Hst, Hrc. clear Hb.
  unfold finish, _add_receipt in Hf. cbn [new_state receipts app] in Hf.
  pose proof (f_equal fst Hf) as Hst'. pose proof (f_equal snd Hf) as Hrs.
  cbn [fst snd] in Hst', Hrs. clear Hf.
  split.
  - subst st' st2. unfold same_authority, deref in *.
    cbn [heap susers services delegations consents decisions boundaries
         entry_conditions shared_actions defaults enforcement audits
         disclosures limitation_disclosures clock
         with_receipt_log with_next_receipt_id with_receipt_hash_prev
         with_telemetry_exposure with_telemetry_sources with_telemetry].
    exact Hs1.
  - eexists. eexists. split; [reflexivity|]. split; [|split].
    + subst st' st2.
      cbn [telemetry_exposure with_receipt_log with_next_receipt_id
           with_receipt_hash_prev with_telemetry_exposure].
      rewrite He1. now apply vmap_find_put_same.
    + symmetry. exact Hrs.
    + rewrite !get_setitem_other by discriminate. subst rc.
      rewrite He1. reflexivity.
Qed.

(** ** Defaults and enforcement *)

Lemma coercive_default_true st default :
  coercive_default st default = Ok true -> coercive st default.
Proof.
  unfold coercive_default, coercive.
  destruct (any_truthy default
              ["exploits_bias"; "expands_scope"; "privileges_platform"]);
    [auto|].
  destruct (any_falsy default ["justifiable"; "reversible"]); [auto|].
  cbn [orb].
  destruct (truthy (get_default default "active" (VBool true)));
    [|discriminate].
  destruct (is_none (get default "expires_at")); [discriminate|].
  cbn [andb negb]. intros H. apply py_ge_int in H.
  destruct H as (e & He & Hb). right. right. split; [reflexivity|].
  exists e. split; [exact He|]. symmetry in Hb. now apply Z.leb_le in Hb.
Qed.

Lemma coercive_default_complete st default b :
  coercive_default st default = Ok b -> coercive st default -> b = true.
Proof.
  unfold coercive_default, coercive.
  destruct (any_truthy default
              ["exploits_bias"; "expands_scope"; "privileges_platform"]);
    [intros H _; now injection H|].
  destruct (any_falsy default ["justifiable"; "reversible"]);
    [intros H _; now injection H|].
  cbn [orb]. intros H [Hc | [Hc | (Ha & e & He & Hle)]]; try discriminate.
  rewrite Ha in H.
  destruct (get default "expires_at") eqn:Ee; try discriminate He;
    cbn [is_none andb negb] in H; apply py_ge_int in H;
    destruct H as (e' & He' & ->); rewrite He in He'; injection He' as <-;
    now apply Z.leb_le.
Qed.

Lemma adds_respect_check_default_backed ids st r P :
  (coercive st (deref st r) -> P) ->
  adds (backed RESPECT_VIOLATION.COERCIVE_DEFAULT P)
    (respect_check_default ids st r).
Proof.
  intros HP. unfold respect_check_default. adds_tac.
  intros _. apply HP. subst. now apply coercive_default_true.
Qed.

Lemma respect_program_default_backed ids st :
  adds (backed RESPECT_VIOLATION.COERCIVE_DEFAULT
          (exists r, In r (defaults st) /\ coercive st (deref st r)))
    (respect_program ids st).
Proof.
  unfold respect_program.
  adds_steps; try (apply adds_for_each; intros r Hr).
  - apply adds_respect_scan.
  - apply adds_respect_scan.
  - unfold respect_check_action. adds_tac.
  - apply adds_check_flag. discriminate.
  - unfold respect_scan_governance, respect_check_revocation, flag_event.
    adds_tac.
  - apply adds_respect_check_default_backed. eauto.
  - apply adds_check_audit. discriminate.
  - apply adds_check_enforcement; discriminate.
  - apply adds_check_evaluation; discriminate.
Qed.

(** X24: when the internal respect evaluator completes,
    [COERCIVE_DEFAULT] is in the report of [evaluate_respect] exactly when
    some default is coercive: it exploits bias, expands scope or privileges
    the platform, it is not justifiable or not reversible, or it is still
    active with the clock at or past its expiry. *)
Theorem coercive_default_iff ids st report :
  _evaluate_respect_unsafe ids st = Ok report ->
  In RESPECT_VIOLATION.COERCIVE_DEFAULT (labels (evaluate_respect ids st))
  <-> exists r, In r (defaults st) /\ coercive st (deref st r).
Proof.
  intros Hok. unfold evaluate_respect. rewrite Hok. unfold labels. split.
  - intros Hin. apply in_map_iff in Hin. destruct Hin as (v & Hl & Hv).
    unfold _evaluate_respect_unsafe in Hok.
    eapply adds_run in Hok; [|apply respect_program_default_backed].
    rewrite Forall_forall in Hok. exact (Hok v Hv Hl).
  - intros (r & Hin & Hc).
    unfold _evaluate_respect_unsafe in Hok. apply run_report_ok in Hok.
    destruct Hok as (s' & H & Hv). rewrite Hv. clear Hv.
    unfold respect_program in H.
    do 5 (apply bind_ok in H; destruct H as ([] & ? & _ & H)).
    apply bind_ok in H. destruct H as ([] & s6 & Hloop & H).
    eapply for_each_visits in Hloop;
      [|apply grows_respect_check_default|exact Hin].
    destruct Hloop as (s1 & s2 & vs & Hb & E).
    assert (Hflag : In RESPECT_VIOLATION.COERCIVE_DEFAULT
                      (map label (violations (fst s2)))).
    { unfold respect_check_default in Hb.
      apply bind_ok in Hb. destruct Hb as (eid & s3 & _ & Hb).
      apply bind_ok in Hb. destruct Hb as (b & s4 & Hcd & Hb).
      apply lift_ok in Hcd. destruct Hcd as [Hcd ->].
      rewrite (coercive_default_complete Hcd Hc) in Hb.
      simpl in Hb. injection Hb as <-. simpl. rewrite map_app.
      apply in_or_app. right. now left. }
    match type of H with
    | ?m s6 = _ => assert (G : grows m) by (grows_tac; auto with grows)
    end.
    apply G in H. destruct H as [vs' E']. rewrite E', E, !map_app.
    apply in_or_app. left. apply in_or_app. now left.
Qed.

Lemma enforcement_unattributed_iff enforcement :
  enforcement_unattributed enforcement = true <-> unattributed enforcement.
Proof.
  unfold enforcement_unattributed, unattributed, any_falsy.
  cbn [existsb]. rewrite orb_false_r, orb_true_iff, !negb_true_iff. tauto.
Qed.

Lemma respect_program_enforcement_backed ids st :
  adds (backed ENFORCEMENT_VIOLATION.NO_ATTRIBUTION
          (exists r, In r (enforcement st) /\ unattributed (deref st r)))
    (respect_program ids st).
Proof.
  unfold respect_program.
  adds_steps; try (apply adds_for_each; intros r Hr).
  - apply adds_respect_scan.
  - apply adds_respect_scan.
  - unfold respect_check_action. adds_tac.
  - apply adds_check_flag. discriminate.
  - unfold respect_scan_governance, respect_check_revocation, flag_event.
    adds_tac.
  - unfold respect_check_default. adds_tac.
  - apply adds_check_audit. discriminate.
  - unfold check_enforcement. adds_tac. intros _. exists r.
    split; [assumption|]. now apply enforcement_unattributed_iff.
  - apply adds_check_evaluation; discriminate.
Qed.

(** X25: when the internal respect evaluator completes,
    [NO_ATTRIBUTION] is in the report of [evaluate_respect] exactly when
    some enforcement action lacks [attributable] or an [enforcer_id]. *)
Theorem unattributed_enforcement_iff ids st report :
  _evaluate_respect_unsafe ids st = Ok report ->
  In ENFORCEMENT_VIOLATION.NO_ATTRIBUTION (labels (evaluate_respect ids st))
  <-> exists r, In r (enforcement st) /\ unattributed (deref st r).
Proof.
  intros Hok. unfold evaluate_respect. rewrite Hok. unfold labels. split.
  - intros Hin. apply in_map_iff in Hin. destruct Hin as (v & Hl & Hv).
    unfold _evaluate_respect_unsafe in Hok.
    eapply adds_run in Hok; [|apply respect_program_enforcement_backed].
    rewrite Forall_forall in Hok. exact (Hok v Hv Hl).
  - intros (r & Hin & Hc). apply enforcement_unattributed_iff in Hc.
    unfold _evaluate_respect_unsafe in Hok. apply run_report_ok in Hok.
    destruct Hok as (s' & H & Hv). rewrite Hv. clear Hv.
    unfold respect_program in H.
    do 7 (apply bind_ok in H; destruct H as ([] & ? & _ & H)).
    apply bind_ok in H. destruct H as ([] & s8 & Hloop & H).
    eapply for_each_visits in Hloop;
      [|apply grows_check_enforcement|exact Hin].
    destruct Hloop as (s1 & s2 & vs & Hb & E).
    assert (Hflag : In ENFORCEMENT_VIOLATION.NO_ATTRIBUTION
                      (map label (violations (fst s2)))).
    { unfold check_enforcement in Hb.
      apply bind_ok in Hb. destruct Hb as (eid & s3 & _ & Hb).
      apply bind_ok in Hb. destruct Hb as ([] & s4 & _ & Hb).
      rewrite Hc in Hb. simpl in Hb. injection Hb as <-. simpl.
      rewrite map_app. apply in_or_app. right. now left. }
    match type of H with
    | ?m s8 = _ => assert (G : grows m) by (grows_tac; auto with grows)
    end.
    apply G in H. destruct H as [vs' E']. rewrite E', E, !map_app.
    apply in_or_app. left. apply in_or_app. now left.
Qed.

(** ** Disclosed revocation delays *)

Section Keeps.
Variable L : Type.
Variable I : L -> Prop.

Lemma keeps_ret (A : Type) (a : A) : keeps I (ret (L := L) a).
Proof. intros s a' s' HI H. now injection H as <- <-. Qed.

Lemma keeps_bind (A B : Type) (m : M L A) (f : A -> M L B) :
  keeps I m -> (forall a, keeps I (f a)) -> keeps I (bind m f).
Proof.
  intros Hm Hf s b s' HI H. apply bind_ok in H.
  destruct H as (a & s1 & H1 & H2). eapply Hf; [|exact H2]. eapply Hm; eauto.
Qed.

Lemma keeps_lift (A : Type) (r : result A) : keeps I (lift (L := L) r).
Proof. intros s a s' HI H. apply lift_ok in H. now destruct H as [_ ->]. Qed.

Lemma keeps_violation label evidence :
  keeps I (violation (L := L) label evidence).
Proof. intros s a s' HI H. now injection H as <- <-. Qed.

Lemma keeps_set_score v : keeps I (set_score (L := L) v).
Proof. intros s a s' HI H. now injection H as <- <-. Qed.

Lemma keeps_get_score : keeps I (get_score (L := L)).
Proof. intros s a s' HI H. now injection H as <- <-. Qed.

Lemma keeps_locals : keeps I (locals (L := L)).
Proof. intros s a s' HI H. now injection H as <- <-. Qed.

Lemma keeps_when b (m : M L unit) : keeps I m -> keeps I (when b m).
Proof. intros Hm. destruct b; simpl; [assumption | apply keeps_ret]. Qed.

Lemma keeps_for_each (A : Type) (xs : list A) (body : A -> M L unit) :
  (forall x, In x xs -> keeps I (body x)) -> keeps I (for_each xs body).
Proof.
  induction xs as [|x xs IH]; intros Hb; simpl.
  - apply keeps_ret.
  - apply keeps_bind; [apply Hb; now left|].
    intros _. apply IH. intros y Hy. apply Hb. now right.
Qed.

(** A loop that returned ran its body on every item, from locals that
    satisfy what the body keeps. *)
Lemma for_each_visits_keeping (A : Type) (xs : list A) (body : A -> M L unit)
    x s s' :
  (forall y, grows (body y)) -> (forall y, keeps I (body y)) ->
  I (snd s) -> In x xs -> for_each xs body s = Ok (tt, s') ->
  exists s1 s2 vs,
    I (snd s1) /\ body x s1 = Ok (tt, s2)
    /\ violations (fst s') = violations (fst s2) ++ vs.
Proof.
  intros Hg Hk. revert s. induction xs as [|y xs IH]; intros s HI Hin H;
    [contradiction|].
  simpl in H. apply bind_ok in H. destruct H as ([] & s1 & H1 & H2).
  destruct Hin as [-> | Hin].
  - apply (@grows_for_each _ _ xs body Hg) in H2. destruct H2 as [vs E].
    exists s, s1, vs. auto.
  - eapply IH; [|exact Hin|exact H2]. eapply Hk; eauto.
Qed.
End Keeps.

Create HintDb keeps.
#[local] Hint Resolve keeps_ret keeps_lift keeps_violation keeps_set_score
  keeps_get_score keeps_locals : keeps.

Ltac keeps_step :=
  match goal with
  | |- keeps _ (bind _ _) => apply keeps_bind; [|intros]
  | |- keeps _ (when _ _) => apply keeps_when
  | |- keeps _ (for_each _ _) => apply keeps_for_each; intros
  | |- keeps _ (if ?b then _ else _) => destruct b
  | |- keeps _ (match ?x with _ => _ end) => destruct x
  | |- keeps _ _ => solve [auto with keeps]
  end.

Ltac keeps_tac := repeat keeps_step.

Lemma keeps_respect_scan_disclosure st r :
  In r (event_log st) -> keeps (remembers st) (respect_scan_disclosure st r).
Proof.
  intros Hin s a s' HI H. unfold respect_scan_disclosure in H.
  destruct (type_is (deref st r) "revocation_policy") eqn:Ety;
    [|now injection H as <- <-].
  destruct (truthy (get (deref st r) "revocation_delay")) eqn:Ed;
    [|now injection H as <- <-].
  destruct (truthy (get (deref st r) "revocation_delay_disclosed")) eqn:Es;
    [|now injection H as <- <-].
  cbn [andb when] in H. apply bind_ok in H.
  destruct H as (t & s1 & Ht & H). apply lift_ok in Ht.
  destruct Ht as [Ht ->]. injection H as <- <-. cbn [snd].
  assert (Hd : disclosed_at st t) by (exists r; auto).
  destruct (snd s) as [t0|]; cbn [remembers] in *; [|exact Hd].
  destruct (Z.min_spec t0 t) as [[_ ->] | [_ ->]]; assumption.
Qed.

Lemma type_is_other event t t' :
  type_is event t = true -> t <> t' -> type_is event t' = false.
Proof.
  unfold type_is. destruct (get event "type"); try discriminate.
  cbn [py_eq]. intros E Hne. apply String.eqb_eq in E. subst.
  now apply String.eqb_neq.
Qed.

(** X26: a disclosure made later excuses no delay: when the internal
    respect evaluator completes, a [revoke_delegation] event of the log with
    a delay other than zero and no [delay_disclosed] of its own puts
    [REVOCATION_DEFECT] in the report of [evaluate_respect] if every
    revocation policy that discloses a delay is stamped later than the
    event. *)
Theorem late_disclosure_excuses_no_delay ids st report r delay t :
  _evaluate_respect_unsafe ids st = Ok report ->
  In r (event_log st) ->
  type_is (deref st r) "revoke_delegation" = true ->
  py_int (por (get (deref st r) "delay") (VInt 0)) = Ok delay -> delay <> 0 ->
  get (deref st r) "delay_disclosed" = VNone ->
  event_time_of (deref st r) = Ok t ->
  (forall t', disclosed_at st t' -> t < t') ->
  In GOVERNANCE_VIOLATION.REVOCATION_DEFECT (labels (evaluate_respect ids st)).
Proof.
  intros Hok Hin Hty Hdelay Hnz Hdis Ht Hlate.
  unfold evaluate_respect. rewrite Hok. unfold labels.
  unfold _evaluate_respect_unsafe in Hok. apply run_report_ok in Hok.
  destruct Hok as (s' & H & Hv). rewrite Hv. clear Hv.
  unfold respect_program in H.
  apply bind_ok in H. destruct H as ([] & s1 & H1 & H).
  assert (I1 : remembers st (snd s1)).
  { assert (K : keeps (remembers st)
                  (for_each (event_log st) (respect_scan_disclosure st))).
    { apply keeps_for_each. intros x Hx.
      now apply keeps_respect_scan_disclosure. }
    exact (K (new_report "respect", None) tt s1 I H1). }
  apply bind_ok in H. destruct H as ([] & s2 & H2 & H).
  assert (I2 : remembers st (snd s2)).
  { eapply (@keeps_for_each _ (remembers st)); [|exact I1|exact H2].
    intros x Hx. unfold respect_scan_score. keeps_tac. }
  apply bind_ok in H. destruct H as ([] & s3 & H3 & H).
  assert (I3 : remembers st (snd s3)).
  { eapply (@keeps_for_each _ (remembers st)); [|exact I2|exact H3].
    intros x Hx. unfold respect_check_action. keeps_tac. }
  apply bind_ok in H. destruct H as ([] & s4 & H4 & H).
  assert (I4 : remembers st (snd s4)).
  { eapply (@keeps_for_each _ (remembers st)); [|exact I3|exact H4].
    intros x Hx. unfold check_flag. keeps_tac. }
  apply bind_ok in H. destruct H as ([] & s5 & H5 & H).
  eapply (@for_each_visits_keeping _ (remembers st)) in H5;
    [|apply grows_respect_scan_governance| |exact I4|exact Hin].
  2: { intros y. unfold respect_scan_governance, respect_check_revocation,
         flag_event. keeps_tac. }
  destruct H5 as (sa & sb & vs & Ia & Hb & E).
  assert (Hflag : In GOVERNANCE_VIOLATION.REVOCATION_DEFECT
                    (map label (violations (fst sb)))).
  { unfold respect_scan_governance in Hb.
    rewrite (type_is_other _ Hty (t' := "entry_request")),
            (type_is_other _ Hty (t' := "boundary_rule")),
            (type_is_other _ Hty (t' := "revocation_policy")),
            (type_is_other _ Hty (t' := "boundary_declaration")),
            (type_is_other _ Hty (t' := "federated_governance")),
            (type_is_other _ Hty (t' := "boundary_failure_modes")),
            (type_is_other _ Hty (t' := "respect_principles")),
            (type_is_other _ Hty (t' := "participation_declaration")), Hty
      in Hb by discriminate.
    cbn [when] in Hb.
    do 3 (apply bind_ok in Hb; destruct Hb as ([] & ? & Hr & Hb);
          injection Hr as <-).
    apply bind_ok in Hb. destruct Hb as ([] & sc & Hc & Hb).
    assert (Hin' : In GOVERNANCE_VIOLATION.REVOCATION_DEFECT
                     (map label (violations (fst sc)))).
    { unfold respect_check_revocation in Hc. rewrite Hdelay in Hc.
      apply bind_ok in Hc. destruct Hc as (d & s6 & Hd & Hc).
      injection Hd as <- <-.
      assert (En : negb (delay =? 0) = true)
        by (apply negb_true_iff, Z.eqb_neq; exact Hnz).
      rewrite En, Hdis, Ht in Hc. cbn [when] in Hc.
      apply bind_ok in Hc. destruct Hc as (t1 & s7 & Ht1 & Hc).
      injection Ht1 as <- <-.
      apply bind_ok in Hc. destruct Hc as (l & s8 & Hl & Hc).
      injection Hl as <- <-.
      assert (Ec : (match snd sa with
                    | Some t0 => t <? t0
                    | None => true
                    end) = true).
      { destruct (snd sa) as [t0|]; [|reflexivity].
        apply Z.ltb_lt. now apply Hlate. }
      rewrite Ec in Hc. cbn [is_False is_none orb andb when] in Hc.
      apply bind_ok in Hc. destruct Hc as (eid & s9 & _ & Hc).
      injection Hc as <-. simpl. rewrite map_app. apply in_or_app. right.
      now left. }
    match type of Hb with
    | ?m sc = _ => assert (G : grows m) by (unfold flag_event; grows_tac)
    end.
    apply G in Hb. destruct Hb as [vs' E']. rewrite E', map_app.
    apply in_or_app. now left. }
  match type of H with
  | ?m s5 = _ => assert (G : grows m) by (grows_tac; auto with grows)
  end.
  apply G in H. destruct H as [vs' E']. rewrite E', E, !map_app.
  apply in_or_app. left. apply in_or_app. now left.
Qed.

(** ** The statements on concrete logs *)

(** *** [apply_event] *)

Lemma apply_event_raises_without_id_witness :
  get [("type", VStr "delegation")] "type" = VStr "delegation"
  /\ required_id "delegation" = Some "delegation_id"
  /\ assoc_mem [("type", VStr "delegation")] "delegation_id" = false
  /\ _event_time_utc (base_time_utc State_init) (clock State_init) = Ok epoch
  /\ apply_event State_init [("type", VStr "delegation")] = Raise KeyError.
Proof.
  split; [reflexivity|]. split; [reflexivity|]. split; [reflexivity|].
  split; [reflexivity|].
  apply (@apply_event_raises_without_id State_init
           [("type", VStr "delegation")] "delegation" "delegation_id" epoch);
    reflexivity.
Defined.

Lemma apply_event_raises_on_unhashable_type_witness :
  hashable (get [("type", VList [])] "type") = false
  /\ apply_event State_init [("type", VList [])] = Raise TypeError.
Proof.
  split; [reflexivity|].
  apply (@apply_event_raises_on_unhashable_type State_init
           [("type", VList [])]).
  reflexivity.
Defined.

(** The scenario of the specification: [{"type": "bogus"}] on a fresh
    state. *)
Lemma unknown_type_recorded_as_error_witness :
  unknown_event_type (get ev_bogus "type") = Ok true
  /\ printable (VDict ev_bogus) = true
  /\ printable_int (next_receipt_id State_init) = true
  /\ exists st' receipt logged,
       apply_event State_init ev_bogus = Ok (st', [receipt])
       /\ event_log st' = event_log State_init ++ [logged]
       /\ get (deref st' logged) "type" = VStr "error"
       /\ get (deref st' logged) "original_type" = get ev_bogus "type"
       /\ receipt_log st' = receipt_log State_init ++ [receipt]
       /\ get receipt "type" = VStr "error_receipt"
       /\ get receipt "event_type" = get ev_bogus "type"
       /\ get receipt "error"
          = VStr (if is_none (get ev_bogus "type") then "missing_event_type"
                  else ("unknown_event_type:"
                        ++ py_str (get ev_bogus "type"))%string).
Proof.
  split; [reflexivity|].
  split; [vm_compute; reflexivity|]. split; [vm_compute; reflexivity|].
  apply (@unknown_type_recorded_as_error State_init ev_bogus epoch);
    vm_compute; reflexivity.
Defined.

Lemma reductionist_metric_emits_no_receipt_witness :
  get ev_metric "type" = VStr "reductionist_metric"
  /\ exists st' logged,
       apply_event State_init ev_metric = Ok (st', [])
       /\ receipt_log st' = receipt_log State_init
       /\ event_log st' = event_log State_init ++ [logged].
Proof.
  split; [reflexivity|].
  apply (@reductionist_metric_emits_no_receipt State_init ev_metric epoch);
    reflexivity.
Defined.

Lemma handled_event_emits_one_receipt_witness :
  apply_event State_init ev_delegation
  = Ok (delegated_state, receipt_log delegated_state)
  /\ exists receipt,
       receipt_log delegated_state = [receipt]
       /\ receipt_log delegated_state = receipt_log State_init ++ [receipt].
Proof.
  assert (H : apply_event State_init ev_delegation
              = Ok (delegated_state, receipt_log delegated_state))
    by (vm_compute; reflexivity).
  split; [exact H|].
  apply (@handled_event_emits_one_receipt State_init ev_delegation
           delegated_state (receipt_log delegated_state) H).
  discriminate.
Defined.

(** *** The receipt chain *)

Lemma receipt_log_hash_chained_witness :
  run_events State_init chain_events = Ok chain_state
  /\ List.length (receipt_log chain_state) = 3%nat
  /\ hash_chained (receipt_log chain_state).
Proof.
  assert (H : run_events State_init chain_events = Ok chain_state)
    by (vm_compute; reflexivity).
  split; [exact H|]. split; [reflexivity|].
  exact (@receipt_log_hash_chained chain_events chain_state H).
Defined.

Lemma receipt_ids_count_up_witness :
  run_events State_init chain_events = Ok chain_state
  /\ nth_error (receipt_log chain_state) 2
     = Some (nth 2 (receipt_log chain_state) [])
  /\ get (nth 2 (receipt_log chain_state) []) "receipt_id" = VInt 3.
Proof.
  assert (H : run_events State_init chain_events = Ok chain_state)
    by (vm_compute; reflexivity).
  split; [exact H|]. split; [reflexivity|].
  exact (@receipt_ids_count_up chain_events chain_state 2%nat _ H eq_refl).
Defined.

(** *** The evaluators *)

(** A decision citing a delegation nobody granted, in a log whose
    decision carries a number where the telemetry references go: the
    evaluation faults and the report is the fallback one, without
    [AUTHORITY_UNTRACEABLE]. *)
Lemma authority_check_lost_in_fallback :
  run_events State_init faulty_events = Ok faulty_state
  /\ decisions faulty_state = [0%nat]
  /\ get (deref faulty_state 0%nat) "delegation_id" = VStr "del1"
  /\ vmap_find (delegations faulty_state) (VStr "del1") = None
  /\ labels (evaluate_trust example_ids faulty_state)
     = [STRUCTURAL_VIOLATION.INVALID_STATE;
        TRUST_VIOLATION.ACCOUNTABILITY_BREAK].
Proof.
  split; [vm_compute; reflexivity|]. repeat split.
Qed.

(** The decision (object 0) is taken at time 0 and cites the delegation
    (object 2) that is issued at time 5; a [trust_audit] asserting the
    minimum follows. *)
Lemma authority_untraceable_reported_witness :
  run_events State_init late_events = Ok late_state
  /\ _evaluate_trust_unsafe example_ids late_state
     = Ok (evaluate_trust example_ids late_state)
  /\ In 0%nat (decisions late_state)
  /\ get (deref late_state 0%nat) "time" = VInt 0
  /\ vmap_find (delegations late_state)
       (get (deref late_state 0%nat) "delegation_id") = Some 2%nat
  /\ get (deref late_state 2%nat) "issued_at" = VInt 5
  /\ In TRUST_VIOLATION.AUTHORITY_UNTRACEABLE
       (labels (evaluate_trust example_ids late_state)).
Proof.
  assert (Hok : _evaluate_trust_unsafe example_ids late_state
                = Ok (evaluate_trust example_ids late_state))
    by (vm_compute; reflexivity).
  assert (Hin : In 0%nat (decisions late_state)) by (left; reflexivity).
  split; [vm_compute; reflexivity|]. split; [exact Hok|].
  split; [exact Hin|]. split; [reflexivity|]. split; [reflexivity|].
  split; [reflexivity|].
  refine (proj2 (@authority_untraceable_reported example_ids late_state
                   (evaluate_trust example_ids late_state) 0%nat Hok Hin)
            0 2%nat 5 _ _ _ _); [reflexivity | reflexivity | reflexivity | lia].
Defined.

(** A log entry without a [type], and the log of one unknown event: the
    entries are dictionaries, and both reports are empty. *)
Lemma malformed_entry_without_fallback :
  objects untyped_log_state (event_log untyped_log_state) = [[]]
  /\ labels (evaluate_trust example_ids untyped_log_state) = []
  /\ labels (evaluate_respect example_ids untyped_log_state) = []
  /\ run_events State_init [ev_bogus] = Ok bogus_state
  /\ List.length (event_log bogus_state) = 1%nat
  /\ labels (evaluate_trust example_ids bogus_state) = []
  /\ labels (evaluate_respect example_ids bogus_state) = [].
Proof.
  split; [reflexivity|]. split; [reflexivity|]. split; [reflexivity|].
  split; [vm_compute; reflexivity|]. repeat split.
Qed.

(** A decision without a [type], and a disclosed-delay policy whose
    [time] is a list (the malformed states of the repository's tests). *)
Lemma evaluators_total_witness :
  (In 0%nat (decisions untyped_decision_state)
   /\ assoc_mem (deref untyped_decision_state 0%nat) "type" = false
   /\ labels (evaluate_trust example_ids untyped_decision_state)
      = fallback_labels)
  /\ (In 0%nat (event_log untimed_policy_state)
      /\ event_time_of (deref untimed_policy_state 0%nat) = Raise TypeError
      /\ labels (evaluate_respect example_ids untimed_policy_state)
         = fallback_labels).
Proof.
  split.
  - split; [left; reflexivity|]. split; [reflexivity|].
    apply (proj1 (proj2 (proj2 (proj2 (proj2
             (@evaluators_total example_ids untyped_decision_state)))))
             0%nat); [left|]; reflexivity.
  - split; [left; reflexivity|]. split; [reflexivity|].
    apply (proj2 (proj2 (proj2 (proj2 (proj2
             (@evaluators_total example_ids untimed_policy_state)))))
             0%nat TypeError); [left| | | |]; reflexivity.
Defined.

(** A shared action without consent that affects nobody but its actor. *)
Lemma lone_action_without_consent :
  run_events State_init [ev_shared []] = Ok solo_state
  /\ shared_actions solo_state = [0%nat]
  /\ get (deref solo_state 0%nat) "consent_basis" = VStr "none"
  /\ assoc_mem (deref solo_state 0%nat) "scope_constrained" = false
  /\ labels (evaluate_respect example_ids solo_state)
     = [RESPECT_VIOLATION.BOUNDARY_IGNORED].
Proof.
  split; [vm_compute; reflexivity|]. repeat split.
Qed.

Lemma mutual_consent_missing_reported_witness :
  _evaluate_respect_unsafe example_ids shared_state
  = Ok (evaluate_respect example_ids shared_state)
  /\ In 0%nat (shared_actions shared_state)
  /\ affects_others_of (deref shared_state 0%nat) = Ok true
  /\ get (deref shared_state 0%nat) "consent_basis" = VStr "none"
  /\ truthy (get (deref shared_state 0%nat) "scope_constrained") = false
  /\ exists eid,
       _event_id (example_ids 0%nat) (deref shared_state 0%nat) = Ok eid
       /\ In (mkViolation RESPECT_VIOLATION.MUTUAL_CONSENT_MISSING [eid] "")
            (violations (evaluate_respect example_ids shared_state)).
Proof.
  assert (Hok : _evaluate_respect_unsafe example_ids shared_state
                = Ok (evaluate_respect example_ids shared_state))
    by (vm_compute; reflexivity).
  assert (Hin : In 0%nat (shared_actions shared_state)) by (left; reflexivity).
  split; [exact Hok|]. split; [exact Hin|]. split; [reflexivity|].
  split; [reflexivity|]. split; [reflexivity|].
  apply (@mutual_consent_missing_reported example_ids shared_state
           (evaluate_respect example_ids shared_state) 0%nat Hok Hin);
    reflexivity.
Defined.

(** *** The S-User view *)



(** The receipt redacts its [decision_id] with its authority chain: the
    view no longer finds it under its decision, and the report says
    [MISSING_REPORTING] instead. *)
Lemma redacted_decision_id_hides_break :
  run_events State_init (redacted_events ["authority_chain"; "decision_id"])
  = Ok lost_state
  /\ In (decision_receipt_of lost_state) (receipt_log lost_state)
  /\ _receipt_visible_to_suser (decision_receipt_of lost_state) "alice"
     = Ok true
  /\ get (decision_receipt_of lost_state) "redacted_fields"
     = VList [VStr "authority_chain"; VStr "decision_id"]
  /\ view_labels lost_state "alice"
     = Ok [ACCOUNTABILITY_VIOLATION.MISSING_REPORTING].
Proof.
  split; [vm_compute; reflexivity|].
  split; [right; left; reflexivity|]. repeat split.
Qed.

Lemma redacted_chain_reported_in_view_witness :
  run_events State_init (redacted_events ["authority_chain"])
  = Ok redacted_state
  /\ evaluate_trust_view redacted_state "alice"
     = Ok (report_of (evaluate_trust_view redacted_state "alice"))
  /\ In (decision_receipt_of redacted_state) (receipt_log redacted_state)
  /\ get (decision_receipt_of redacted_state) "redacted_fields"
     = VList [VStr "authority_chain"]
  /\ exists copy,
       _redact_receipt (decision_receipt_of redacted_state) = Ok copy
       /\ In (mkViolation TRUST_VIOLATION.ACCOUNTABILITY_BREAK
                [receipt_evidence copy] "")
            (violations
               (report_of (evaluate_trust_view redacted_state "alice"))).
Proof.
  assert (Hr : run_events State_init (redacted_events ["authority_chain"])
               = Ok redacted_state)
    by (vm_compute; reflexivity).
  assert (Hv : evaluate_trust_view redacted_state "alice"
               = Ok (report_of (evaluate_trust_view redacted_state "alice")))
    by (vm_compute; reflexivity).
  assert (Hin : In (decision_receipt_of redacted_state)
                  (receipt_log redacted_state))
    by (right; left; reflexivity).
  split; [exact Hr|]. split; [exact Hv|]. split; [exact Hin|].
  split; [reflexivity|].
  apply (@redacted_chain_reported_in_view (redacted_events ["authority_chain"])
           redacted_state "alice"
           (report_of (evaluate_trust_view redacted_state "alice"))
           (decision_receipt_of redacted_state) [VStr "authority_chain"]
           Hr Hv Hin).
  - reflexivity.
  - reflexivity.
  - reflexivity.
  - reflexivity.
  - left. reflexivity.
  - intros [H | []]. discriminate H.
  - intros [H | []]. discriminate H.
Defined.

Lemma suser_view_returns_witness :
  Forall viewable (receipt_log hidden_state)
  /\ exists view, suser_view hidden_state "alice" = Ok view.
Proof.
  assert (H : Forall viewable (receipt_log hidden_state)).
  { constructor; [|constructor; [|constructor]].
    - split; [reflexivity|]. split; [reflexivity|]. left. reflexivity.
    - split; [reflexivity|]. split; [reflexivity|]. right.
      exists [VStr "suser_id"]. split; [reflexivity|]. now repeat constructor. }
  split; [exact H|].
  exact (@suser_view_returns hidden_state "alice" H).
Defined.

(** *** The engine *)

Lemma receipts_verify_witness :
  run_events State_init chain_events = Ok chain_state
  /\ In (nth 1 (receipt_log chain_state) []) (receipt_log chain_state)
  /\ receipt_verifies (nth 1 (receipt_log chain_state) []).
Proof.
  assert (H : run_events State_init chain_events = Ok chain_state)
    by (vm_compute; reflexivity).
  assert (Hin : In (nth 1 (receipt_log chain_state) [])
                  (receipt_log chain_state))
    by (right; left; reflexivity).
  split; [exact H|]. split; [exact Hin|].
  exact (@receipts_verify chain_events chain_state _ H Hin).
Defined.

Lemma receipt_times_agree_witness :
  run_events State_init late_events = Ok late_state
  /\ In (nth 2 (receipt_log late_state) []) (receipt_log late_state)
  /\ times_agree (nth 2 (receipt_log late_state) []).
Proof.
  assert (H : run_events State_init late_events = Ok late_state)
    by (vm_compute; reflexivity).
  assert (Hin : In (nth 2 (receipt_log late_state) [])
                  (receipt_log late_state))
    by (right; right; left; reflexivity).
  split; [exact H|]. split; [exact Hin|].
  exact (@receipt_times_agree late_events late_state _ H Hin).
Defined.

Lemma clock_moves_on_time_advance_only_witness :
  apply_event State_init ev_time_advance
  = Ok (advanced_state, receipt_log advanced_state)
  /\ get ev_time_advance "type" = VStr "time_advance"
  /\ py_int (por (get ev_time_advance "ticks") (VInt 0))
     = Ok (clock advanced_state - clock State_init).
Proof.
  assert (H : apply_event State_init ev_time_advance
              = Ok (advanced_state, receipt_log advanced_state))
    by (vm_compute; reflexivity).
  split; [exact H|]. split; [reflexivity|].
  exact (proj2 (@clock_moves_on_time_advance_only State_init ev_time_advance
                  advanced_state (receipt_log advanced_state) H) eq_refl).
Defined.

Lemma logs_only_grow_witness :
  run_events State_init chain_events = Ok chain_state
  /\ List.length (event_log chain_state)
     = (List.length (event_log State_init) + List.length chain_events)%nat
  /\ exists rs, receipt_log chain_state = receipt_log State_init ++ rs
                /\ (List.length rs <= List.length chain_events)%nat.
Proof.
  assert (H : run_events State_init chain_events = Ok chain_state)
    by (vm_compute; reflexivity).
  split; [exact H|].
  exact (@logs_only_grow chain_events State_init chain_state H).
Defined.

(** *** Delegations and consents *)

Lemma granted_delegation_window_witness :
  apply_event State_init ev_grant
  = Ok (granted_state, receipt_log granted_state)
  /\ get ev_grant "scope" = VDict [("duration", VInt 10)]
  /\ exists r,
       event_log granted_state = event_log State_init ++ [r]
       /\ vmap_find (delegations granted_state) (VStr "del2") = Some r
       /\ get (deref granted_state r) "issued_at" = VInt (clock State_init)
       /\ get (deref granted_state r) "expires_at"
          = VInt (clock State_init + 10)
       /\ forall w, _delegation_active_at (deref granted_state r) w
                    = Ok ((clock State_init <=? w)
                          && (w <? clock State_init + 10)).
Proof.
  assert (H : apply_event State_init ev_grant
              = Ok (granted_state, receipt_log granted_state))
    by (vm_compute; reflexivity).
  split; [exact H|]. split; [reflexivity|].
  apply (@granted_delegation_window State_init ev_grant granted_state
           (receipt_log granted_state) (VStr "del2")
           [("duration", VInt 10)] 10 H); reflexivity.
Defined.

Lemma revocation_takes_effect_witness :
  apply_event delegated_state ev_revoke
  = Ok (revoked_state, skipn 1 (receipt_log revoked_state))
  /\ vmap_find (delegations delegated_state) (VStr "del1") = Some 0%nat
  /\ vmap_find (delegations revoked_state) (VStr "del1") = Some 0%nat
  /\ get (deref revoked_state 0%nat) "revocation_effective_at"
     = VInt (clock delegated_state + 2)
  /\ forall w, clock delegated_state + 2 <= w ->
               _delegation_active_at (deref revoked_state 0%nat) w <> Ok true.
Proof.
  assert (H : apply_event delegated_state ev_revoke
              = Ok (revoked_state, skipn 1 (receipt_log revoked_state)))
    by (vm_compute; reflexivity).
  split; [exact H|]. split; [reflexivity|].
  apply (@revocation_takes_effect delegated_state ev_revoke revoked_state
           (skipn 1 (receipt_log revoked_state)) (VStr "del1") 0%nat 2 H);
    try reflexivity.
  simpl. lia.
Defined.

Lemma withdrawn_consent_invalidates_decisions_witness :
  apply_event consented_state ev_withdraw
  = Ok (withdrawn_state, skipn 2 (receipt_log withdrawn_state))
  /\ vmap_find (consents consented_state) (VStr "con1") = Some 0%nat
  /\ In 1%nat (decisions withdrawn_state)
  /\ get (deref withdrawn_state 1%nat) "consent_id" = VStr "con1"
  /\ _evaluate_trust_unsafe example_ids withdrawn_state
     = Ok (evaluate_trust example_ids withdrawn_state)
  /\ get (deref withdrawn_state 0%nat) "withdrawn" = VBool true
  /\ In CONSENT_VIOLATION.INVALID_CONSENT
       (labels (evaluate_trust example_ids withdrawn_state)).
Proof.
  assert (H : apply_event consented_state ev_withdraw
              = Ok (withdrawn_state, skipn 2 (receipt_log withdrawn_state)))
    by (vm_compute; reflexivity).
  assert (Hok : _evaluate_trust_unsafe example_ids withdrawn_state
                = Ok (evaluate_trust example_ids withdrawn_state))
    by (vm_compute; reflexivity).
  assert (Hin : In 1%nat (decisions withdrawn_state)) by (left; reflexivity).
  split; [exact H|]. split; [reflexivity|]. split; [exact Hin|].
  split; [reflexivity|]. split; [exact Hok|].
  assert (Hg : (0 < List.length (heap consented_state))%nat)
    by (simpl; lia).
  destruct (@withdrawn_consent_invalidates_decisions example_ids
              consented_state ev_withdraw withdrawn_state
              (skipn 2 (receipt_log withdrawn_state)) (VStr "con1") 0%nat
              H eq_refl eq_refl eq_refl Hg) as [Hw Hall].
  split; [exact Hw|].
  exact (Hall 1%nat (evaluate_trust example_ids withdrawn_state)
           Hin eq_refl eq_refl Hok).
Defined.

(** *** The evaluators, both ways *)

Lemma authority_untraceable_iff_witness :
  _evaluate_trust_unsafe example_ids late_state
  = Ok (evaluate_trust example_ids late_state)
  /\ (In TRUST_VIOLATION.AUTHORITY_UNTRACEABLE
        (labels (evaluate_trust example_ids late_state))
      <-> authority_alarm late_state).
Proof.
  assert (Hok : _evaluate_trust_unsafe example_ids late_state
                = Ok (evaluate_trust example_ids late_state))
    by (vm_compute; reflexivity).
  split; [exact Hok|].
  exact (@authority_untraceable_iff example_ids late_state
           (evaluate_trust example_ids late_state) Hok).
Defined.

Lemma mutual_consent_missing_iff_witness :
  _evaluate_respect_unsafe example_ids shared_state
  = Ok (evaluate_respect example_ids shared_state)
  /\ (In RESPECT_VIOLATION.MUTUAL_CONSENT_MISSING
        (labels (evaluate_respect example_ids shared_state))
      <-> exists r, In r (shared_actions shared_state)
                    /\ affects_without_consent (deref shared_state r)).
Proof.
  assert (Hok : _evaluate_respect_unsafe example_ids shared_state
                = Ok (evaluate_respect example_ids shared_state))
    by (vm_compute; reflexivity).
  split; [exact Hok|].
  exact (@mutual_consent_missing_iff example_ids shared_state
           (evaluate_respect example_ids shared_state) Hok).
Defined.

Lemma latest_trust_audit_decides_witness :
  apply_event State_init ev_trust_audit
  = Ok (audited_state, receipt_log audited_state)
  /\ _evaluate_trust_unsafe example_ids audited_state
     = Ok (evaluate_trust example_ids audited_state)
  /\ (In AUDIT_VIOLATION.TRUST_MINIMUM_MISSING
        (labels (evaluate_trust example_ids audited_state))
      <-> truthy (get ev_trust_audit "minimum_met") = false).
Proof.
  assert (H : apply_event State_init ev_trust_audit
              = Ok (audited_state, receipt_log audited_state))
    by (vm_compute; reflexivity).
  assert (Hok : _evaluate_trust_unsafe example_ids audited_state
                = Ok (evaluate_trust example_ids audited_state))
    by (vm_compute; reflexivity).
  split; [exact H|]. split; [exact Hok|].
  exact (@latest_trust_audit_decides example_ids State_init ev_trust_audit
           audited_state (receipt_log audited_state)
           (evaluate_trust example_ids audited_state) H eq_refl Hok).
Defined.

(** *** Views and queries *)

Lemma view_holds_addressed_receipts_only_witness :
  suser_view redacted_state "alice" = Ok redacted_view
  /\ In (nth 1 (view_receipts redacted_view) []) (view_receipts redacted_view)
  /\ exists receipt,
       In receipt (receipt_log redacted_state)
       /\ addressed_to receipt "alice"
       /\ _redact_receipt receipt
          = Ok (nth 1 (view_receipts redacted_view) []).
Proof.
  assert (H : suser_view redacted_state "alice" = Ok redacted_view)
    by (vm_compute; reflexivity).
  assert (Hin : In (nth 1 (view_receipts redacted_view) [])
                  (view_receipts redacted_view))
    by (right; left; reflexivity).
  split; [exact H|]. split; [exact Hin|].
  exact (@view_holds_addressed_receipts_only redacted_state "alice"
           redacted_view _ H Hin).
Defined.

Lemma query_decision_after_action_witness :
  apply_event delegated_state (ev_action [])
  = Ok (acted_state, skipn 1 (receipt_log acted_state))
  /\ get (query_decision acted_state (VStr "dec1")) "origin" = VStr "svc"
  /\ query_decision acted_state (VStr "dec1")
     = [ ("decision_id", VStr "dec1");
         ("origin", get (ev_action []) "service_id");
         ("data_influence",
          get_default (ev_action []) "telemetry_refs" (VList []));
         ("authoriser", get (ev_action []) "suser_id");
         ("inspector", get (ev_action []) "suser_id");
         ("revoker", get (ev_action []) "suser_id");
         ("legible", get (ev_action []) "explanation_legible");
         ("explanation", get (ev_action []) "explanation");
         ("context_id", get (ev_action []) "context_id");
         ("affected_susers",
          get_default (ev_action []) "affected_susers" (VList [])) ].
Proof.
  assert (H : apply_event delegated_state (ev_action [])
              = Ok (acted_state, skipn 1 (receipt_log acted_state)))
    by (vm_compute; reflexivity).
  split; [exact H|]. split; [reflexivity|].
  apply (@query_decision_after_action delegated_state (ev_action [])
           acted_state (skipn 1 (receipt_log acted_state)) (VStr "dec1") H);
    reflexivity.
Defined.

Lemma decision_without_receipt_in_view_witness :
  suser_view lost_state "alice" = Ok lost_view
  /\ evaluate_trust_view lost_state "alice"
     = Ok (report_of (evaluate_trust_view lost_state "alice"))
  /\ In 1%nat (decisions lost_state)
  /\ In (mkViolation ACCOUNTABILITY_VIOLATION.MISSING_REPORTING
           [("decision:" ++ py_str (get (deref lost_state 1%nat) "decision_id")
             ++ ":missing_receipt")%string] "")
       (violations (report_of (evaluate_trust_view lost_state "alice"))).
Proof.
  assert (Hv : suser_view lost_state "alice" = Ok lost_view)
    by (vm_compute; reflexivity).
  assert (Hr : evaluate_trust_view lost_state "alice"
               = Ok (report_of (evaluate_trust_view lost_state "alice")))
    by (vm_compute; reflexivity).
  assert (Hin : In 1%nat (decisions lost_state)) by (left; reflexivity).
  split; [exact Hv|]. split; [exact Hr|]. split; [exact Hin|].
  apply (@decision_without_receipt_in_view lost_state "alice" lost_view
           (report_of (evaluate_trust_view lost_state "alice")) 1%nat
           Hv Hr Hin eq_refl).
  intros receipt [<- | [<- | []]] Hty; [discriminate Hty | reflexivity].
Defined.

(** *** Scores, the canonical form and the clock *)

Lemma last_metric_sets_the_score_witness :
  _evaluate_trust_unsafe example_ids metric_state
  = Ok (evaluate_trust example_ids metric_state)
  /\ score (evaluate_trust example_ids metric_state) = VInt 1
  /\ score (evaluate_trust example_ids metric_state)
     = last_score (objects metric_state (event_log metric_state))
  /\ (In EVALUATION_VIOLATION.REDUCTIONISM
        (labels (evaluate_trust example_ids metric_state))
      <-> last_score (objects metric_state (event_log metric_state)) <> VNone).
Proof.
  assert (Hok : _evaluate_trust_unsafe example_ids metric_state
                = Ok (evaluate_trust example_ids metric_state))
    by (vm_compute; reflexivity).
  split; [exact Hok|]. split; [vm_compute; reflexivity|].
  exact (@last_metric_sets_the_score example_ids metric_state
           (evaluate_trust example_ids metric_state) Hok).
Defined.

Lemma last_metric_sets_the_respect_score_witness :
  _evaluate_respect_unsafe example_ids metric_state
  = Ok (evaluate_respect example_ids metric_state)
  /\ score (evaluate_respect example_ids metric_state)
     = last_score (objects metric_state (event_log metric_state))
  /\ (In EVALUATION_VIOLATION.REDUCTIONISM
        (labels (evaluate_respect example_ids metric_state))
      <-> last_score (objects metric_state (event_log metric_state)) <> VNone).
Proof.
  assert (Hok : _evaluate_respect_unsafe example_ids metric_state
                = Ok (evaluate_respect example_ids metric_state))
    by (vm_compute; reflexivity).
  split; [exact Hok|].
  exact (@last_metric_sets_the_respect_score example_ids metric_state
           (evaluate_respect example_ids metric_state) Hok).
Defined.

Lemma canonical_json_ignores_key_order_witness :
  NoDup (map fst [("b", VInt 2); ("a", VInt 1)])
  /\ Permutation [("b", VInt 2); ("a", VInt 1)] [("a", VInt 1); ("b", VInt 2)]
  /\ _canonical_json (VDict [("b", VInt 2); ("a", VInt 1)])
     = _canonical_json (VDict [("a", VInt 1); ("b", VInt 2)])
  /\ forall prev_hash,
       _hash_chain [("b", VInt 2); ("a", VInt 1)] prev_hash
       = _hash_chain [("a", VInt 1); ("b", VInt 2)] prev_hash.
Proof.
  assert (Hn : NoDup (map fst [("b", VInt 2); ("a", VInt 1)])).
  { constructor; [intros [H | []]; discriminate H|].
    constructor; [intros []|constructor]. }
  assert (Hp : Permutation [("b", VInt 2); ("a", VInt 1)]
                 [("a", VInt 1); ("b", VInt 2)]) by apply perm_swap.
  split; [exact Hn|]. split; [exact Hp|].
  exact (@canonical_json_ignores_key_order _ _ Hn Hp).
Defined.

Lemma apply_event_needs_clock_in_range_witness :
  base_time_utc late_clock_state = _DEFAULT_BASE_TIME_UTC
  /\ hashable (get ev_delegation "type") = true
  /\ printable (get ev_delegation "type") = true
  /\ clock_max < clock late_clock_state
  /\ apply_event late_clock_state ev_delegation = Raise OverflowError.
Proof.
  assert (Hc : clock_max < clock late_clock_state)
    by (unfold late_clock_state, clock_max; simpl; lia).
  split; [reflexivity|]. split; [reflexivity|]. split; [reflexivity|].
  split; [exact Hc|].
  apply (proj2 (@apply_event_needs_clock_in_range late_clock_state
                  ev_delegation eq_refl eq_refl eq_refl)).
  right. exact Hc.
Defined.

(** *** Telemetry, defaults and enforcement *)

Lemma telemetry_changes_no_authority_witness :
  apply_event State_init ev_telemetry
  = Ok (telemetry_state, receipt_log telemetry_state)
  /\ same_authority State_init telemetry_state
  /\ exists seen receipt,
       seen = match vmap_find (telemetry_exposure State_init) (VStr "t1") with
              | Some n => n
              | None => 0
              end
       /\ vmap_find (telemetry_exposure telemetry_state) (VStr "t1")
          = Some (seen + 1)
       /\ receipt_log telemetry_state = [receipt]
       /\ get receipt "exposure_count" = VInt (seen + 1).
Proof.
  assert (H : apply_event State_init ev_telemetry
              = Ok (telemetry_state, receipt_log telemetry_state))
    by (vm_compute; reflexivity).
  split; [exact H|].
  exact (@telemetry_changes_no_authority State_init ev_telemetry
           telemetry_state (receipt_log telemetry_state) (VStr "t1")
           H eq_refl eq_refl).
Defined.

Lemma coercive_default_iff_witness :
  _evaluate_respect_unsafe example_ids expired_default_state
  = Ok (evaluate_respect example_ids expired_default_state)
  /\ get (deref expired_default_state 0%nat) "expires_at"
     = VInt (clock expired_default_state)
  /\ (In RESPECT_VIOLATION.COERCIVE_DEFAULT
        (labels (evaluate_respect example_ids expired_default_state))
      <-> exists r, In r (defaults expired_default_state)
                    /\ coercive expired_default_state
                         (deref expired_default_state r)).
Proof.
  assert (Hok : _evaluate_respect_unsafe example_ids expired_default_state
                = Ok (evaluate_respect example_ids expired_default_state))
    by (vm_compute; reflexivity).
  split; [exact Hok|]. split; [reflexivity|].
  exact (@coercive_default_iff example_ids expired_default_state
           (evaluate_respect example_ids expired_default_state) Hok).
Defined.

Lemma unattributed_enforcement_iff_witness :
  _evaluate_respect_unsafe example_ids enforced_state
  = Ok (evaluate_respect example_ids enforced_state)
  /\ (In ENFORCEMENT_VIOLATION.NO_ATTRIBUTION
        (labels (evaluate_respect example_ids enforced_state))
      <-> exists r, In r (enforcement enforced_state)
                    /\ unattributed (deref enforced_state r)).
Proof.
  assert (Hok : _evaluate_respect_unsafe example_ids enforced_state
                = Ok (evaluate_respect example_ids enforced_state))
    by (vm_compute; reflexivity).
  split; [exact Hok|].
  exact (@unattributed_enforcement_iff example_ids enforced_state
           (evaluate_respect example_ids enforced_state) Hok).
Defined.


Lemma late_disclosure_excuses_no_delay_witness :
  run_events State_init [ev_delegation; ev_revoke; ev_time_advance;
                         ev_disclosing_policy] = Ok late_policy_state
  /\ disclosed_at late_policy_state 5
  /\ In GOVERNANCE_VIOLATION.REVOCATION_DEFECT
       (labels (evaluate_respect example_ids late_policy_state)).
Proof.
  split; [vm_compute; reflexivity|].
  split.
  { exists (nth 3 (event_log late_policy_state) 0%nat).
    repeat split; vm_compute; auto. }
  assert (Hok : _evaluate_respect_unsafe example_ids late_policy_state
                = Ok (evaluate_respect example_ids late_policy_state))
    by (vm_compute; reflexivity).
  assert (Hin : In (nth 1 (event_log late_policy_state) 0%nat)
                  (event_log late_policy_state))
    by (vm_compute; auto).
  refine (@late_disclosure_excuses_no_delay example_ids late_policy_state
            (evaluate_respect example_ids late_policy_state)
            (nth 1 (event_log late_policy_state) 0%nat) 2 0
            Hok Hin eq_refl eq_refl _ eq_refl eq_refl _); [lia|].
  intros t' (r & Hr & Hty & _ & _ & Ht).
  vm_compute in Hr.
  repeat (destruct Hr as [<- | Hr];
          [vm_compute in Hty; try discriminate Hty;
           vm_compute in Ht; injection Ht as <-; lia|]).
  contradiction.
Defined.
